(** * The memHierarchy directory controller

    A shallow embedding of [DirectoryController]
    (src/sst/elements/memHierarchy/directoryController.cc): the directory
    table, the entry cache, the expected-responses tracker, the outgoing
    queues, the non-cacheable pass-through, the handlers for GetS,
    FetchInv, ForceInv, GetXResp, AckPut, AckInv and NACK, the
    directory-entry response path, and the clock loop with its
    one-access-per-line arbitration.  A second part adds the handlers for
    GetX, GetSX, Write, PutS, PutX, PutE, PutM and for the responses
    GetSResp, WriteResp, FlushLineResp, FetchResp and FetchXResp, the
    senders they use, and the arrival of an event ([handlePacket]).

    Maps and sets of the C++ code ([std::map], [std::unordered_map],
    [std::set<Addr>]) are stdpp [gmap]s and [gset]s.  Containers whose
    iteration order is observable ([std::set<std::string>] of sharers,
    [std::multimap] queues, [std::list] buffers) are lists that keep the
    C++ order.  A call to [dbg.fatal]/[out.fatal] is the outcome [Fatal];
    dereferencing a null pointer or an end iterator is [Undefined];
    [OutOfFuel] is the answer of the one loop that is run on fuel (the
    pass over the retry buffer, which handlers extend while it runs). *)

From Stdlib Require Import ZArith.
From stdpp Require Import gmap strings list fin_maps sorting.

Local Open Scope Z_scope.

(** ** Scalars *)

Abbreviation Addr := Z (only parsing).

(** [MemEvent::id_type] is a [std::pair] (the code prints [getID().first]
    and [getID().second]). *)
Abbreviation id_type := (Z * Z)%type (only parsing).

(** [uint64_t] arithmetic wraps. *)
Definition u64 (x : Z) : Z := x mod 2 ^ 64.

(** ** Outcomes *)

Inductive result (A : Type) : Type :=
  | Ret (a : A)
  | Fatal
  | Undefined
  | OutOfFuel.
Arguments Ret {A} a.
Arguments Fatal {A}.
Arguments Undefined {A}.
Arguments OutOfFuel {A}.

Definition bind {A B} (m : result A) (k : A -> result B) : result B :=
  match m with
  | Ret a => k a
  | Fatal => Fatal
  | Undefined => Undefined
  | OutOfFuel => OutOfFuel
  end.

Declare Scope dir_scope.
Delimit Scope dir_scope with dir.
Notation "'do' x <- m ; k" := (bind m (fun x => k))
  (at level 10, x name, m at level 100, k at level 200,
   format "'[v' 'do'  x  <-  m ; '/' k ']'") : dir_scope.
Notation "'do' ' p <- m ; k" := (bind m (fun x => let 'p := x in k))
  (at level 10, p strict pattern, m at level 100, k at level 200,
   format "'[v' 'do'  ' p  <-  m ; '/' k ']'") : dir_scope.
Local Open Scope dir_scope.

(** A nullable pointer: [None] is [nullptr]. *)
Definition deref {A} (p : option A) : result A :=
  match p with
  | Some a => Ret a
  | None => Undefined
  end.

(** ** Commands and coherence states *)

Inductive Command : Type :=
  | NULLCMD
  | GetS | GetX | GetSX | Write
  | PutS | PutM | PutE | PutX
  | FlushLine | FlushLineInv
  | FetchInv | FetchInvX | ForceInv | Inv
  | GetSResp | GetXResp | WriteResp | FlushLineResp
  | AckInv | AckPut | FetchResp | FetchXResp | NACK
  | CustomReq | CustomResp | CustomAck.

#[global] Instance Command_eq_dec : EqDecision Command.
Proof. solve_decision. Defined.

(** The stable states are named [I], [S] and [M] in the source; they live
    in a module of their own so that they do not hide [S] and [I] of the
    prelude. *)
Module St.
Inductive State : Type :=
  | NP | I | S | M
  | IS | IM | S_D | S_B | I_B
  | M_Inv | M_InvX | S_Inv | SM_Inv | SD_Inv | SB_Inv
  | I_d | S_d | M_d.

#[global] Instance State_eq_dec : EqDecision State.
Proof. solve_decision. Defined.
End St.
Abbreviation State := St.State (only parsing).

Inductive CoherenceProtocol : Type := MSI | MESI.

#[global] Instance CoherenceProtocol_eq_dec : EqDecision CoherenceProtocol.
Proof. solve_decision. Defined.

Inductive MemEventStatus : Type := OK | Stall | Reject.

#[global] Instance MemEventStatus_eq_dec : EqDecision MemEventStatus.
Proof. solve_decision. Defined.

Inductive MSHREntryType : Type := Event | Evict | Writeback.

#[global] Instance MSHREntryType_eq_dec : EqDecision MSHREntryType.
Proof. solve_decision. Defined.

Inductive Flag : Type := F_NONCACHEABLE | F_NORESPONSE.

#[global] Instance Flag_eq_dec : EqDecision Flag.
Proof. solve_decision. Defined.

(** ** Events

    Modelled from the spec: the [MemEvent]/[MemEventBase] classes
    (memEvent.h, memEventBase.h) are not part of the sources at hand.  The
    spec lists the fields: command, base address, routing address, source,
    destination, size, payload, flags, memFlags, evict and dirty bits,
    event id, response-to id; a NACK carries the nacked event.  The flag
    word is kept as the list of flags that are set. *)

Inductive MemEvent : Type := mkMemEvent {
  getID : id_type;
  getResponseToID : id_type;
  getCmd : Command;
  getSrc : string;
  getDst : string;
  getRqstr : string;
  getAddr : Addr;
  getBaseAddr : Addr;
  isAddrGlobal : bool;
  getSize : Z;
  getPayload : list Byte.byte;
  getDirty : bool;
  getEvict : bool;
  getFlags : list Flag;
  getMemFlags : Z;
  getNACKedEvent : option MemEvent
}.

Definition queryFlag (ev : MemEvent) (f : Flag) : bool :=
  bool_decide (f ∈ getFlags ev).

Definition setSrc (s : string) (ev : MemEvent) : MemEvent :=
  mkMemEvent (getID ev) (getResponseToID ev) (getCmd ev) s (getDst ev) (getRqstr ev)
    (getAddr ev) (getBaseAddr ev) (isAddrGlobal ev) (getSize ev) (getPayload ev)
    (getDirty ev) (getEvict ev) (getFlags ev) (getMemFlags ev) (getNACKedEvent ev).

Definition setDst (d : string) (ev : MemEvent) : MemEvent :=
  mkMemEvent (getID ev) (getResponseToID ev) (getCmd ev) (getSrc ev) d (getRqstr ev)
    (getAddr ev) (getBaseAddr ev) (isAddrGlobal ev) (getSize ev) (getPayload ev)
    (getDirty ev) (getEvict ev) (getFlags ev) (getMemFlags ev) (getNACKedEvent ev).

Definition setRqstr (r : string) (ev : MemEvent) : MemEvent :=
  mkMemEvent (getID ev) (getResponseToID ev) (getCmd ev) (getSrc ev) (getDst ev) r
    (getAddr ev) (getBaseAddr ev) (isAddrGlobal ev) (getSize ev) (getPayload ev)
    (getDirty ev) (getEvict ev) (getFlags ev) (getMemFlags ev) (getNACKedEvent ev).

Definition setSize (n : Z) (ev : MemEvent) : MemEvent :=
  mkMemEvent (getID ev) (getResponseToID ev) (getCmd ev) (getSrc ev) (getDst ev) (getRqstr ev)
    (getAddr ev) (getBaseAddr ev) (isAddrGlobal ev) n (getPayload ev)
    (getDirty ev) (getEvict ev) (getFlags ev) (getMemFlags ev) (getNACKedEvent ev).

Definition setPayload (p : list Byte.byte) (ev : MemEvent) : MemEvent :=
  mkMemEvent (getID ev) (getResponseToID ev) (getCmd ev) (getSrc ev) (getDst ev) (getRqstr ev)
    (getAddr ev) (getBaseAddr ev) (isAddrGlobal ev) (getSize ev) p
    (getDirty ev) (getEvict ev) (getFlags ev) (getMemFlags ev) (getNACKedEvent ev).

Definition setDirty (b : bool) (ev : MemEvent) : MemEvent :=
  mkMemEvent (getID ev) (getResponseToID ev) (getCmd ev) (getSrc ev) (getDst ev) (getRqstr ev)
    (getAddr ev) (getBaseAddr ev) (isAddrGlobal ev) (getSize ev) (getPayload ev)
    b (getEvict ev) (getFlags ev) (getMemFlags ev) (getNACKedEvent ev).

Definition setFlags (fl : list Flag) (ev : MemEvent) : MemEvent :=
  mkMemEvent (getID ev) (getResponseToID ev) (getCmd ev) (getSrc ev) (getDst ev) (getRqstr ev)
    (getAddr ev) (getBaseAddr ev) (isAddrGlobal ev) (getSize ev) (getPayload ev)
    (getDirty ev) (getEvict ev) fl (getMemFlags ev) (getNACKedEvent ev).

Definition setFlag (f : Flag) (ev : MemEvent) : MemEvent :=
  setFlags (f :: getFlags ev) ev.

Definition setMemFlags (mf : Z) (ev : MemEvent) : MemEvent :=
  mkMemEvent (getID ev) (getResponseToID ev) (getCmd ev) (getSrc ev) (getDst ev) (getRqstr ev)
    (getAddr ev) (getBaseAddr ev) (isAddrGlobal ev) (getSize ev) (getPayload ev)
    (getDirty ev) (getEvict ev) (getFlags ev) mf (getNACKedEvent ev).

Definition setAddrGlobal (b : bool) (ev : MemEvent) : MemEvent :=
  mkMemEvent (getID ev) (getResponseToID ev) (getCmd ev) (getSrc ev) (getDst ev) (getRqstr ev)
    (getAddr ev) (getBaseAddr ev) b (getSize ev) (getPayload ev)
    (getDirty ev) (getEvict ev) (getFlags ev) (getMemFlags ev) (getNACKedEvent ev).

(** [new MemEvent(src, addr, baseAddr, cmd, size)] with the fresh id [i]. *)
Definition newMemEvent (i : id_type) (s : string) (a ba : Addr)
    (c : Command) (sz : Z) : MemEvent :=
  mkMemEvent i (0, 0) c s "" s a ba true sz [] false false [] 0 None.

(** [new MemEvent( *event )]: the copy constructor keeps every field. *)
Definition cloneMemEvent (ev : MemEvent) : MemEvent := ev.

(** [copyMetadata]: requester, flags and memFlags of the triggering event. *)
Definition copyMetadata (from ev : MemEvent) : MemEvent :=
  setMemFlags (getMemFlags from) (setFlags (getFlags from) (setRqstr (getRqstr from) ev)).

(** The response command [makeResponse()] picks without an argument. *)
Definition CommandResponse (c : Command) : Command :=
  match c with
  | GetS => GetSResp
  | GetX | GetSX => GetXResp
  | Write => WriteResp
  | PutS | PutM | PutE | PutX => AckPut
  | FlushLine | FlushLineInv => FlushLineResp
  | FetchInv => FetchResp
  | FetchInvX => FetchXResp
  | ForceInv | Inv => AckInv
  | CustomReq => CustomResp
  | _ => NULLCMD
  end.

(** [makeResponse(cmd)]: a new event back to the sender, answering [ev]. *)
Definition makeResponseCmd (i : id_type) (c : Command) (ev : MemEvent) : MemEvent :=
  mkMemEvent i (getID ev) c (getDst ev) (getSrc ev) (getRqstr ev)
    (getAddr ev) (getBaseAddr ev) (isAddrGlobal ev) (getSize ev) [] false false
    (getFlags ev) (getMemFlags ev) None.

Definition makeResponse (i : id_type) (ev : MemEvent) : MemEvent :=
  makeResponseCmd i (CommandResponse (getCmd ev)) ev.

(** [makeNACKResponse(ev)]: a NACK back to the sender carrying [ev]. *)
Definition makeNACKResponse (i : id_type) (ev : MemEvent) : MemEvent :=
  mkMemEvent i (getID ev) NACK (getDst ev) (getSrc ev) (getRqstr ev)
    (getAddr ev) (getBaseAddr ev) (isAddrGlobal ev) (getSize ev) [] false false
    (getFlags ev) (getMemFlags ev) (Some ev).

(** [getRoutingAddress()]: events are routed by their address. *)
Definition getRoutingAddress (ev : MemEvent) : Addr := getAddr ev.

(** ** Directory entries

    Modelled from the spec: [DirEntry] is declared in directoryController.h,
    which is not part of the sources at hand.  The spec gives the fields:
    state (initially I), an optional owner, the set of sharers, the cached
    bit and the handle into the entry cache.  The sharers are a
    [std::set<std::string>], iterated in increasing order: a strictly
    increasing list.  [cacheIter] is [true] when the handle points into
    [entryCache] and [false] when it is [entryCache.end()]. *)

Record DirEntry : Type := mkDirEntry {
  getEntryBaseAddr : Addr;
  getState : State;
  owner : option string;
  getSharers : list string;
  isCached : bool;
  cacheIter : bool
}.

(** [new DirEntry(addr)] *)
Definition newDirEntry (a : Addr) : DirEntry :=
  mkDirEntry a St.I None [] false false.

Definition setState (s : State) (e : DirEntry) : DirEntry :=
  mkDirEntry (getEntryBaseAddr e) s (owner e) (getSharers e) (isCached e) (cacheIter e).

Definition setCached (b : bool) (e : DirEntry) : DirEntry :=
  mkDirEntry (getEntryBaseAddr e) (getState e) (owner e) (getSharers e) b (cacheIter e).

Definition setCacheIter (b : bool) (e : DirEntry) : DirEntry :=
  mkDirEntry (getEntryBaseAddr e) (getState e) (owner e) (getSharers e) (isCached e) b.

Definition setOwner (o : string) (e : DirEntry) : DirEntry :=
  mkDirEntry (getEntryBaseAddr e) (getState e) (Some o) (getSharers e) (isCached e) (cacheIter e).

Definition removeOwner (e : DirEntry) : DirEntry :=
  mkDirEntry (getEntryBaseAddr e) (getState e) None (getSharers e) (isCached e) (cacheIter e).

Definition hasOwner (e : DirEntry) : bool := bool_decide (is_Some (owner e)).

(** [getOwner()] hands the owner out as a [std::string]; an entry without
    owner yields the empty string. *)
Definition getOwner (e : DirEntry) : string := default "" (owner e).

(** Insertion into a [std::set<std::string>]. *)
Fixpoint set_insert (s : string) (l : list string) : list string :=
  match l with
  | [] => [s]
  | x :: r =>
      match String.compare s x with
      | Lt => s :: l
      | Eq => l
      | Gt => x :: set_insert s r
      end
  end.

Definition set_erase (s : string) (l : list string) : list string :=
  filter (λ x, x ≠ s) l.

Definition setSharers (l : list string) (e : DirEntry) : DirEntry :=
  mkDirEntry (getEntryBaseAddr e) (getState e) (owner e) l (isCached e) (cacheIter e).

Definition addSharer (s : string) (e : DirEntry) : DirEntry :=
  setSharers (set_insert s (getSharers e)) e.

Definition removeSharer (s : string) (e : DirEntry) : DirEntry :=
  setSharers (set_erase s (getSharers e)) e.

Definition isSharer (s : string) (e : DirEntry) : bool :=
  bool_decide (s ∈ getSharers e).

Definition hasSharers (e : DirEntry) : bool :=
  negb (bool_decide (getSharers e = [])).

Definition getSharerCount (e : DirEntry) : Z := Z.of_nat (length (getSharers e)).

(** ** The MSHR interface

    The MSHR class (mshr.h) is not part of the sources at hand; the
    controller reaches it only through the member functions below, so it is
    taken as an interface.  Every statement about the controller holds for
    any implementation; [SpecMSHR] further down is the one the spec
    describes.  [getFrontEvent] returns a pointer that may be null;
    [getFrontType] has no answer when the address has no entry. *)

Class MSHR (T : Type) : Type := {
  insertEvent : Addr → MemEvent → Z → bool → bool → T → Z * T;
  getFrontEvent : Addr → T → option MemEvent;
  getFrontType : Addr → T → option MSHREntryType;
  removeFront : Addr → T → T;
  removeEntry : Addr → Z → T → T;
  incrementAcksNeeded : Addr → T → T;
  decrementAcksNeeded : Addr → T → bool * T;
  getAcksNeeded : Addr → T → Z;
  setInProgress : Addr → T → T;
  getInProgress : Addr → T → bool;
  setData : Addr → list Byte.byte → bool → T → T;
  getData : Addr → T → list Byte.byte;
  getDataDirty : Addr → T → bool;
  setDataDirty : Addr → bool → T → T;
  clearData : Addr → T → T;
  hasData : Addr → T → bool;
  insertWriteback : Addr → bool → T → T;
  pendingWriteback : Addr → T → bool;
  exists_ : Addr → T → bool
}.

(** ** Links

    [MemLinkBase] (memLinkBase.h) is an interface of the simulator; the
    controller asks it four questions. *)

Record MemLinkBase : Type := mkMemLinkBase {
  isReachable : string → bool;
  findTargetDestination : Addr → string;
  getTargetDestination : Addr → string;
  linkIsRequestAddressValid : Addr → bool
}.

(** ** Outgoing queues

    A [std::multimap<uint64_t, _>]: ordered by delivery time, and an element
    inserted with a key already present goes after the elements with that
    key. *)

Fixpoint mm_insert {A} (t : Z) (x : A) (q : list (Z * A)) : list (Z * A) :=
  match q with
  | [] => [(t, x)]
  | (t', y) :: r =>
      if decide (t < t') then (t, x) :: q else (t', y) :: mm_insert t x r
  end.

Record MemMsg : Type := mkMemMsg {
  event : MemEvent;
  dirAccess : bool
}.

(** ** Parameters fixed at construction and initialisation *)

Record Params : Type := mkParams {
  getName : string;
  lineSize : Z;
  entrySize : Z;
  entryCacheMaxSize : Z;
  protocol : CoherenceProtocol;
  accessLatency : Z;
  mshrLatency : Z;
  maxRequestsPerCycle : Z;
  waitWBAck : bool;
  incoherentSrc : gset string;
  rank : Z
}.

(** ** Controller state

    The members of [DirectoryController] that the handlers read and write.
    [entryCache] holds the base addresses of the cached entries, most
    recently used first; an entry and its list node are found through the
    address, as the [DirEntry*] is in the source.  [nextEventID] is the
    source of fresh event ids that [new MemEvent] and [makeResponse] draw
    from (a counter of the simulator core).  Statistics are left out. *)

Record Dir (T : Type) : Type := mkDir {
  timestamp : Z;
  directory : gmap Z DirEntry;
  entryCache : list Addr;
  entryCacheSize : Z;
  mshr : T;
  responses : gmap Z (gmap string (Z * Z));
  retryBuffer : list (option MemEvent);
  cpuMsgQueue : list (Z * MemEvent);
  memMsgQueue : list (Z * MemMsg);
  noncacheMemReqs : gmap (Z * Z) string;
  dirMemAccesses : gmap (Z * Z) Z;
  nextEventID : Z
}.
Arguments mkDir {T}.
Arguments timestamp {T}.
Arguments directory {T}.
Arguments entryCache {T}.
Arguments entryCacheSize {T}.
Arguments mshr {T}.
Arguments responses {T}.
Arguments retryBuffer {T}.
Arguments cpuMsgQueue {T}.
Arguments memMsgQueue {T}.
Arguments noncacheMemReqs {T}.
Arguments dirMemAccesses {T}.
Arguments nextEventID {T}.

(** The members only [handlePacket], [clock] and [processPacket] touch. *)
Record Component (T : Type) : Type := mkComponent {
  dir : Dir T;
  addrsThisCycle : gset Z;
  eventBuffer : list MemEvent;
  clockOn : bool;
  lastActiveClockCycle : Z
}.
Arguments mkComponent {T}.
Arguments dir {T}.
Arguments addrsThisCycle {T}.
Arguments eventBuffer {T}.
Arguments clockOn {T}.
Arguments lastActiveClockCycle {T}.

(** The handlers of the command switch that are not embedded here.  None
    of them mentions [addrsThisCycle], [eventBuffer] or the clock flags. *)
Record OtherHandlers (T : Type) : Type := mkOtherHandlers {
  handleGetSX : MemEvent → bool → Dir T → result (bool * Dir T);
  handleGetX : MemEvent → bool → Dir T → result (bool * Dir T);
  handleWrite : MemEvent → bool → Dir T → result (bool * Dir T);
  handlePutS : MemEvent → bool → Dir T → result (bool * Dir T);
  handlePutE : MemEvent → bool → Dir T → result (bool * Dir T);
  handlePutX : MemEvent → bool → Dir T → result (bool * Dir T);
  handlePutM : MemEvent → bool → Dir T → result (bool * Dir T);
  handleFlushLineInv : MemEvent → bool → Dir T → result (bool * Dir T);
  handleFlushLine : MemEvent → bool → Dir T → result (bool * Dir T);
  handleGetSResp : MemEvent → bool → Dir T → result (bool * Dir T);
  handleWriteResp : MemEvent → bool → Dir T → result (bool * Dir T);
  handleFlushLineResp : MemEvent → bool → Dir T → result (bool * Dir T);
  handleFetchResp : MemEvent → bool → Dir T → result (bool * Dir T);
  handleFetchXResp : MemEvent → bool → Dir T → result (bool * Dir T)
}.
Arguments handleGetSX {T}.
Arguments handleGetX {T}.
Arguments handleWrite {T}.
Arguments handlePutS {T}.
Arguments handlePutE {T}.
Arguments handlePutX {T}.
Arguments handlePutM {T}.
Arguments handleFlushLineInv {T}.
Arguments handleFlushLine {T}.
Arguments handleGetSResp {T}.
Arguments handleWriteResp {T}.
Arguments handleFlushLineResp {T}.
Arguments handleFetchResp {T}.
Arguments handleFetchXResp {T}.
Arguments mkOtherHandlers T : clear implicits.

Section Setters.
Context {T : Type}.
Implicit Type st : Dir T.

Definition set_directory (d : gmap Z DirEntry) st : Dir T :=
  mkDir (timestamp st) d (entryCache st) (entryCacheSize st) (mshr st)
    (responses st) (retryBuffer st) (cpuMsgQueue st) (memMsgQueue st)
    (noncacheMemReqs st) (dirMemAccesses st) (nextEventID st).

Definition set_entryCache (l : list Addr) (n : Z) st : Dir T :=
  mkDir (timestamp st) (directory st) l n (mshr st)
    (responses st) (retryBuffer st) (cpuMsgQueue st) (memMsgQueue st)
    (noncacheMemReqs st) (dirMemAccesses st) (nextEventID st).

Definition set_mshr (m : T) st : Dir T :=
  mkDir (timestamp st) (directory st) (entryCache st) (entryCacheSize st) m
    (responses st) (retryBuffer st) (cpuMsgQueue st) (memMsgQueue st)
    (noncacheMemReqs st) (dirMemAccesses st) (nextEventID st).

Definition set_responses (r : gmap Z (gmap string (Z * Z))) st : Dir T :=
  mkDir (timestamp st) (directory st) (entryCache st) (entryCacheSize st) (mshr st)
    r (retryBuffer st) (cpuMsgQueue st) (memMsgQueue st)
    (noncacheMemReqs st) (dirMemAccesses st) (nextEventID st).

Definition set_retryBuffer (b : list (option MemEvent)) st : Dir T :=
  mkDir (timestamp st) (directory st) (entryCache st) (entryCacheSize st) (mshr st)
    (responses st) b (cpuMsgQueue st) (memMsgQueue st)
    (noncacheMemReqs st) (dirMemAccesses st) (nextEventID st).

Definition set_cpuMsgQueue (q : list (Z * MemEvent)) st : Dir T :=
  mkDir (timestamp st) (directory st) (entryCache st) (entryCacheSize st) (mshr st)
    (responses st) (retryBuffer st) q (memMsgQueue st)
    (noncacheMemReqs st) (dirMemAccesses st) (nextEventID st).

Definition set_memMsgQueue (q : list (Z * MemMsg)) st : Dir T :=
  mkDir (timestamp st) (directory st) (entryCache st) (entryCacheSize st) (mshr st)
    (responses st) (retryBuffer st) (cpuMsgQueue st) q
    (noncacheMemReqs st) (dirMemAccesses st) (nextEventID st).

Definition set_noncacheMemReqs (n : gmap (Z * Z) string) st : Dir T :=
  mkDir (timestamp st) (directory st) (entryCache st) (entryCacheSize st) (mshr st)
    (responses st) (retryBuffer st) (cpuMsgQueue st) (memMsgQueue st)
    n (dirMemAccesses st) (nextEventID st).

Definition set_dirMemAccesses (n : gmap (Z * Z) Z) st : Dir T :=
  mkDir (timestamp st) (directory st) (entryCache st) (entryCacheSize st) (mshr st)
    (responses st) (retryBuffer st) (cpuMsgQueue st) (memMsgQueue st)
    (noncacheMemReqs st) n (nextEventID st).

Definition set_nextEventID (n : Z) st : Dir T :=
  mkDir (timestamp st) (directory st) (entryCache st) (entryCacheSize st) (mshr st)
    (responses st) (retryBuffer st) (cpuMsgQueue st) (memMsgQueue st)
    (noncacheMemReqs st) (dirMemAccesses st) n.

Definition set_timestamp (t : Z) st : Dir T :=
  mkDir t (directory st) (entryCache st) (entryCacheSize st) (mshr st)
    (responses st) (retryBuffer st) (cpuMsgQueue st) (memMsgQueue st)
    (noncacheMemReqs st) (dirMemAccesses st) (nextEventID st).

Definition set_dir (d : Dir T) (c : Component T) : Component T :=
  mkComponent d (addrsThisCycle c) (eventBuffer c) (clockOn c) (lastActiveClockCycle c).

Definition set_addrsThisCycle (s : gset Z) (c : Component T) : Component T :=
  mkComponent (dir c) s (eventBuffer c) (clockOn c) (lastActiveClockCycle c).

Definition set_eventBuffer (b : list MemEvent) (c : Component T) : Component T :=
  mkComponent (dir c) (addrsThisCycle c) b (clockOn c) (lastActiveClockCycle c).

End Setters.

(** [std::map::insert]: an existing key keeps its value. *)
Definition map_insert_new `{Countable K} {V} (k : K) (v : V) (m : gmap K V) : gmap K V :=
  match m !! k with
  | Some _ => m
  | None => <[k := v]> m
  end.

(** The default of [allocateMSHR]'s position argument: append. *)
Definition pos_default : Z := -1.

(** * The controller *)

Section Controller.
Context {T : Type} `{MSHR T}.
Variable P : Params.
Variables cpuLink memLink : MemLinkBase.

Implicit Type st : Dir T.
Implicit Type ev : MemEvent.
Implicit Type entry : DirEntry.

(** The id the next [new MemEvent] gets. *)
Definition freshID st : (Z * Z) * Dir T :=
  ((nextEventID st, rank P), set_nextEventID (nextEventID st + 1) st).

(** A write through the [DirEntry*] found under the key [a]: the
    directory holds the entry. *)
Definition store (a : Addr) entry st : Dir T :=
  set_directory (<[a := entry]> (directory st)) st.

Definition push_retry (p : option MemEvent) st : Dir T :=
  set_retryBuffer (retryBuffer st ++ [p]) st.

(** ** Manage data structures *)

Definition getDirEntry (a : Addr) st : DirEntry * Dir T :=
  match directory st !! a with
  | Some e => (e, st)
  | None =>
      let e := setCached true (setCacheIter false (newDirEntry a)) in
      (e, set_directory (<[a := e]> (directory st)) st)
  end.

Definition allocateMSHR ev (fwdReq : bool) (pos : Z) st : MemEventStatus * Dir T :=
  let '(end_pos, m) := insertEvent (getBaseAddr ev) ev pos fwdReq false (mshr st) in
  let st := set_mshr m st in
  if decide (end_pos = -1) then (Reject, st)
  else if decide (end_pos ≠ 0) then (Stall, st)
  else (OK, st).

Definition retry_front_if_ready (a : Addr) st : Dir T :=
  if exists_ a (mshr st) && bool_decide (getFrontType a (mshr st) = Some Event) then
    if negb (getInProgress a (mshr st)) && bool_decide (getAcksNeeded a (mshr st) = 0) then
      push_retry (getFrontEvent a (mshr st)) st
    else st
  else st.

Definition cleanUpAfterRequest ev (inMSHR : bool) st : Dir T :=
  let a := getBaseAddr ev in
  let st :=
    if inMSHR then
      if bool_decide (getFrontType a (mshr st) = Some Event)
      then set_mshr (removeFront a (mshr st)) st
      else set_mshr (removeEntry a 1 (mshr st)) st
    else st in
  retry_front_if_ready a st.

Definition cleanUpAfterResponse ev (inMSHR : bool) st : Dir T :=
  let a := getBaseAddr ev in
  let st := set_mshr (removeFront a (mshr st)) st in
  retry_front_if_ready a st.

(** ** Send events *)

Definition forwardByAddress ev (ts : Z) (dirAcc : bool) st : result (Dir T) :=
  let d := findTargetDestination memLink (getRoutingAddress ev) in
  if decide (d ≠ "") then
    Ret (set_memMsgQueue (mm_insert ts (mkMemMsg (setDst d ev) dirAcc) (memMsgQueue st)) st)
  else
    let d := findTargetDestination cpuLink (getRoutingAddress ev) in
    if decide (d ≠ "") then
      Ret (set_cpuMsgQueue (mm_insert ts (setDst d ev) (cpuMsgQueue st)) st)
    else Fatal.

Definition forwardByDestination ev (ts : Z) (dirAcc : bool) st : result (Dir T) :=
  if isReachable cpuLink (getDst ev) then
    Ret (set_cpuMsgQueue (mm_insert ts ev (cpuMsgQueue st)) st)
  else if isReachable memLink (getDst ev) then
    Ret (set_memMsgQueue (mm_insert ts (mkMemMsg ev dirAcc) (memMsgQueue st)) st)
  else Fatal.

Definition sendEntryToMemory entry st : Dir T :=
  let entryAddr := 0 in
  let '(i, st) := freshID st in
  let me := newMemEvent i (getName P) entryAddr entryAddr PutE (lineSize P) in
  let me := setSize (entrySize P) me in
  let me := setFlag F_NORESPONSE me in
  let deliveryTime := u64 (timestamp st + accessLatency P) in
  let me := setDst (getTargetDestination memLink 0) me in
  set_memMsgQueue (mm_insert deliveryTime (mkMemMsg me true) (memMsgQueue st)) st.

Definition issueMemoryRequest ev entry (lineGranularity : bool) st : result (Dir T) :=
  let reqEvent := cloneMemEvent ev in
  let reqEvent := setSrc (getName P) reqEvent in
  let reqEvent := if lineGranularity then setSize (lineSize P) reqEvent else reqEvent in
  let deliveryTime := u64 (timestamp st + accessLatency P) in
  do st <- forwardByAddress reqEvent deliveryTime false st;
  Ret (set_mshr (setInProgress (getEntryBaseAddr entry) (mshr st)) st).

(** The bookkeeping shared by [issueFetch] and [issueInvalidation]:
    [responses[a]] gets the pair (key, id) unless the key is there. *)
Definition record_response (a : Addr) (key : string) (i : Z * Z) st : Dir T :=
  match responses st !! a with
  | None => set_responses (<[a := {[ key := i ]}]> (responses st)) st
  | Some resp => set_responses (<[a := map_insert_new key i resp]> (responses st)) st
  end.

Definition issueFetch ev entry (c : Command) st : result (Dir T) :=
  let a := getBaseAddr ev in
  let '(i, st) := freshID st in
  let fetch := newMemEvent i (getName P) (getAddr ev) a c (lineSize P) in
  let fetch := setDst (getOwner entry) fetch in
  let st := record_response a (getOwner entry) (getID fetch) st in
  let st := set_mshr (incrementAcksNeeded a (mshr st)) st in
  forwardByDestination fetch (u64 (timestamp st + accessLatency P)) false st.

Definition issueInvalidation (d : string) (evp : option MemEvent) entry (c : Command) st
    : result (Dir T) :=
  let a := getEntryBaseAddr entry in
  let '(i, st) := freshID st in
  let inv := newMemEvent i (getName P) a a c (lineSize P) in
  let inv :=
    match evp with
    | Some ev => copyMetadata ev inv
    | None => setRqstr (getName P) inv
    end in
  let inv := setDst d inv in
  let st := set_mshr (incrementAcksNeeded a (mshr st)) st in
  let st := record_response a (getOwner entry) (getID inv) st in
  let deliveryTime := u64 (timestamp st + accessLatency P) in
  forwardByDestination inv deliveryTime false st.

(** The loop of [issueInvalidations] over the sharers it has not visited. *)
Fixpoint issueInvalidations_from (l : list string) ev entry (c : Command) st
    : result (Dir T) :=
  match l with
  | [] => Ret st
  | s :: r =>
      if decide (s = getSrc ev) then issueInvalidations_from r ev entry c st
      else
        do st <- issueInvalidation s (Some ev) entry c st;
        issueInvalidations_from r ev entry c st
  end.

Definition issueInvalidations ev entry (c : Command) st : result (Dir T) :=
  issueInvalidations_from (getSharers entry) ev entry c st.

Definition sendDataResponse ev entry (data : list Byte.byte) (c : Command) (fl : Z) st
    : result (Dir T) :=
  let '(i, st) := freshID st in
  let respEv := makeResponseCmd i c ev in
  let respEv := setSize (lineSize P) respEv in
  let respEv := setPayload data respEv in
  let respEv := setMemFlags fl respEv in
  forwardByDestination respEv (u64 (timestamp st + mshrLatency P)) false st.

Definition writebackDataFromMSHR (a : Addr) st : result (Dir T) :=
  let '(i, st) := freshID st in
  let wb := newMemEvent i (getName P) a a PutM (lineSize P) in
  let wb := setPayload (getData a (mshr st)) wb in
  let wb := setDirty (getDataDirty a (mshr st)) wb in
  let st := set_mshr (setDataDirty a false (mshr st)) st in
  let st := if waitWBAck P then set_mshr (insertWriteback a false (mshr st)) st else st in
  let deliveryTime := u64 (timestamp st + mshrLatency P) in
  forwardByAddress wb deliveryTime false st.

Definition sendFetchResponse ev st : result (Dir T) :=
  let a := getBaseAddr ev in
  let '(i, st) := freshID st in
  let ack := makeResponse i ev in
  let ack := setPayload (getData a (mshr st)) ack in
  let ack := setDirty (getDataDirty a (mshr st)) ack in
  let st := set_mshr (clearData a (mshr st)) st in
  forwardByDestination ack (u64 (timestamp st + accessLatency P)) false st.

Definition sendAckInv ev st : result (Dir T) :=
  let a := getBaseAddr ev in
  let '(i, st) := freshID st in
  let ack := makeResponseCmd i AckInv ev in
  let st := if hasData a (mshr st) then set_mshr (clearData a (mshr st)) st else st in
  forwardByDestination ack (u64 (timestamp st + accessLatency P)) false st.

Definition sendNACK ev st : result (Dir T) :=
  let '(i, st) := freshID st in
  let nack := makeNACKResponse i ev in
  let deliveryTime := u64 (timestamp st + accessLatency P) in
  forwardByDestination nack deliveryTime false st.

Definition retrieveDirEntry entry ev (inMSHR : bool) st : result (bool * Dir T) :=
  let '(status, st) := if inMSHR then (OK, st) else allocateMSHR ev false pos_default st in
  match status with
  | Reject => Ret (false, st)
  | Stall => Ret (true, st)
  | OK =>
      let emit (s : State) :=
        let st := store (getBaseAddr ev) (setState s entry) st in
        let '(i, st) := freshID st in
        let me := newMemEvent i (getName P) 0 0 GetS (lineSize P) in
        let me := setAddrGlobal false me in
        let me := setSize (entrySize P) me in
        let st := set_dirMemAccesses
                    (map_insert_new (getID me) (getBaseAddr ev) (dirMemAccesses st)) st in
        let deliveryTime := u64 (timestamp st + accessLatency P) in
        Ret (true, set_memMsgQueue
                     (mm_insert deliveryTime (mkMemMsg me true) (memMsgQueue st)) st) in
      match getState entry with
      | St.I => emit St.I_d
      | St.S => emit St.S_d
      | St.M => emit St.M_d
      | St.I_d | St.S_d | St.M_d => Ret (true, st)
      | _ => Fatal
      end
  end.

(** [responses.find(a)->second.erase(s)], then [responses.erase(a)] when
    nothing is left; without a record for [a] the first step dereferences
    the end iterator. *)
Definition erase_response (a : Addr) (s : string) st : result (Dir T) :=
  match responses st !! a with
  | None => Undefined
  | Some resp =>
      let resp := delete s resp in
      if decide (resp = ∅) then Ret (set_responses (delete a (responses st)) st)
      else Ret (set_responses (<[a := resp]> (responses st)) st)
  end.

Definition alloc_unless_inMSHR ev (inMSHR fwdReq : bool) (pos : Z) st
    : MemEventStatus * Dir T :=
  if inMSHR then (OK, st) else allocateMSHR ev fwdReq pos st.

Definition isIncoherent (s : string) : bool := bool_decide (s ∈ incoherentSrc P).

(** ** Request handlers *)

Definition handleGetS ev (inMSHR : bool) st : result (bool * Dir T) :=
  let a := getBaseAddr ev in
  let '(entry, st) := getDirEntry a st in
  let state := getState entry in
  let cached := isCached entry in
  if negb cached then retrieveDirEntry entry ev inMSHR st
  else
    do st <- (if hasData a (mshr st) && getDataDirty a (mshr st)
              then writebackDataFromMSHR a st else Ret st);
    let miss (next : State) st : result (MemEventStatus * Dir T) :=
      let '(status, st) := alloc_unless_inMSHR ev inMSHR false pos_default st in
      if decide (status = OK) then
        do st <- issueMemoryRequest ev entry true st;
        Ret (status, store a (setState next entry) st)
      else Ret (status, st) in
    do '(status, st) <-
      match state with
      | St.I =>
          if hasData a (mshr st) && inMSHR then
            do st <-
              (if isIncoherent (getSrc ev) then
                 sendDataResponse ev entry (getData a (mshr st)) GetSResp 0 st
               else if decide (protocol P = MESI) then
                 let entry := setOwner (getSrc ev) (setState St.M entry) in
                 let st := store a entry st in
                 do st <- sendDataResponse ev entry (getData a (mshr st)) GetXResp 0 st;
                 Ret (set_mshr (clearData a (mshr st)) st)
               else
                 let entry := addSharer (getSrc ev) (setState St.S entry) in
                 let st := store a entry st in
                 sendDataResponse ev entry (getData a (mshr st)) GetSResp 0 st);
            Ret (OK, cleanUpAfterRequest ev inMSHR st)
          else miss St.IS st
      | St.S =>
          if hasData a (mshr st) then
            let entry := if negb (isIncoherent (getSrc ev))
                         then addSharer (getSrc ev) entry else entry in
            let st := store a entry st in
            do st <- sendDataResponse ev entry (getData a (mshr st)) GetSResp 0 st;
            Ret (OK, cleanUpAfterRequest ev inMSHR st)
          else miss St.S_D st
      | St.M =>
          let '(status, st) := alloc_unless_inMSHR ev inMSHR false pos_default st in
          if decide (status = OK) then
            do st <- issueFetch ev entry FetchInvX st;
            Ret (status, store a (setState St.M_InvX entry) st)
          else Ret (status, st)
      | _ => Ret (alloc_unless_inMSHR ev inMSHR false pos_default st)
      end;
    do st <- (if decide (status = Reject) then sendNACK ev st else Ret st);
    Ret (true, st).

(** [handleFetchInv] and [handleForceInv] share the shape "take the MSHR
    front unless already there, then act if that worked". *)
Definition with_front ev (inMSHR : bool) (pos : Z)
    (act : Dir T → result (Dir T)) st : result (MemEventStatus * Dir T) :=
  let '(status, st) := alloc_unless_inMSHR ev inMSHR true pos st in
  if decide (status = OK) then do st <- act st; Ret (status, st)
  else Ret (status, st).

Definition handleFetchInv ev (inMSHR : bool) st : result (bool * Dir T) :=
  let a := getBaseAddr ev in
  let '(entry, st) := getDirEntry a st in
  let state := getState entry in
  let cached := isCached entry in
  if negb cached then retrieveDirEntry entry ev inMSHR st
  else
    let ack_unless_wb st : result (MemEventStatus * Dir T) :=
      do st <- (if negb (pendingWriteback a (mshr st)) then sendAckInv ev st else Ret st);
      Ret (OK, cleanUpAfterRequest ev inMSHR st) in
    do '(status, st) <-
      match state with
      | St.I =>
          do blocked <-
            (if pendingWriteback a (mshr st) then Ret true
             else if exists_ a (mshr st) then
               do front <- deref (getFrontEvent a (mshr st));
               Ret (bool_decide (getCmd front = FlushLineInv))
             else Ret false);
          do st <-
            (if negb blocked then
               if hasData a (mshr st) && getDataDirty a (mshr st)
               then sendFetchResponse ev st
               else sendAckInv ev st
             else sendAckInv ev st);
          Ret (OK, cleanUpAfterRequest ev inMSHR st)
      | St.S =>
          with_front ev inMSHR pos_default (λ st,
            do st <- issueInvalidations ev entry Inv st;
            Ret (store a (setState St.S_Inv entry) st)) st
      | St.M =>
          with_front ev inMSHR pos_default (λ st,
            do st <- issueFetch ev entry FetchInv st;
            Ret (store a (setState St.M_Inv entry) st)) st
      | St.IS | St.IM => ack_unless_wb st
      | St.I_B =>
          do st <- sendAckInv ev st;
          let st := store a (setState St.I entry) st in
          Ret (OK, cleanUpAfterRequest ev inMSHR st)
      | St.S_B =>
          with_front ev inMSHR 0 (λ st,
            do st <- issueInvalidations ev entry Inv st;
            Ret (store a (setState St.SB_Inv entry) st)) st
      | St.S_D =>
          with_front ev inMSHR 0 (λ st,
            do st <- issueInvalidations ev entry Inv st;
            Ret (store a (setState St.SD_Inv entry) st)) st
      | St.S_Inv | St.M_Inv | St.M_InvX => Ret (alloc_unless_inMSHR ev inMSHR true 1 st)
      | St.SM_Inv => Ret (alloc_unless_inMSHR ev inMSHR true 0 st)
      | _ => Fatal
      end;
    do st <- (if decide (status = Reject) then sendNACK ev st else Ret st);
    Ret (true, st).

Definition handleForceInv ev (inMSHR : bool) st : result (bool * Dir T) :=
  let a := getBaseAddr ev in
  let '(entry, st) := getDirEntry a st in
  let state := getState entry in
  let cached := isCached entry in
  if negb cached then retrieveDirEntry entry ev inMSHR st
  else
    let ack_unless_wb st : result (MemEventStatus * Dir T) :=
      do st <- (if negb (pendingWriteback a (mshr st)) then sendAckInv ev st else Ret st);
      Ret (OK, cleanUpAfterRequest ev inMSHR st) in
    do '(status, st) <-
      match state with
      | St.I =>
          do st <- sendAckInv ev st;
          Ret (OK, cleanUpAfterRequest ev inMSHR st)
      | St.S =>
          with_front ev inMSHR 0 (λ st,
            do st <- issueInvalidations ev entry ForceInv st;
            Ret (store a (setState St.S_Inv entry) st)) st
      | St.M =>
          with_front ev inMSHR 0 (λ st,
            do st <- issueInvalidation (getOwner entry) (Some ev) entry ForceInv st;
            Ret (store a (setState St.M_Inv entry) st)) st
      | St.IS | St.IM | St.I_B => ack_unless_wb st
      | St.S_B =>
          with_front ev inMSHR 0 (λ st,
            do st <- issueInvalidations ev entry ForceInv st;
            Ret (store a (setState St.SB_Inv entry) st)) st
      | St.S_D =>
          with_front ev inMSHR 0 (λ st,
            do st <- issueInvalidations ev entry ForceInv st;
            Ret (store a (setState St.SD_Inv entry) st)) st
      | St.S_Inv | St.M_Inv | St.M_InvX => Ret (alloc_unless_inMSHR ev inMSHR true 1 st)
      | St.SM_Inv => Ret (alloc_unless_inMSHR ev inMSHR true 0 st)
      | _ => Fatal
      end;
    do st <- (if decide (status = Reject) then sendNACK ev st else Ret st);
    Ret (true, st).

(** ** Response handlers *)

Definition handleGetXResp ev (inMSHR : bool) st : result (bool * Dir T) :=
  let a := getBaseAddr ev in
  let '(entry, st) := getDirEntry a st in
  let state := getState entry in
  let reqEvp := getFrontEvent a (mshr st) in
  let finish st : result (bool * Dir T) := Ret (true, cleanUpAfterResponse ev inMSHR st) in
  let as_S_D st : result (bool * Dir T) :=
    do reqEv <- deref reqEvp;
    let entry := setState St.S entry in
    let entry := if negb (isIncoherent (getSrc reqEv))
                 then addSharer (getSrc reqEv) entry else entry in
    let st := store a entry st in
    do st <- sendDataResponse reqEv entry (getPayload ev) GetSResp 0 st;
    finish (set_mshr (setData a (getPayload ev) false (mshr st)) st) in
  match state with
  | St.IS =>
      do reqEv <- deref reqEvp;
      if isIncoherent (getSrc reqEv) then
        let entry := setState St.I entry in
        let st := store a entry st in
        do st <- sendDataResponse reqEv entry (getPayload ev) GetSResp 0 st;
        finish st
      else if decide (protocol P = MESI) then
        let entry := setOwner (getSrc reqEv) (setState St.M entry) in
        let st := store a entry st in
        do st <- sendDataResponse reqEv entry (getPayload ev) GetXResp 0 st;
        finish st
      else as_S_D st
  | St.S_D => as_S_D st
  | St.IM =>
      do reqEv <- deref reqEvp;
      let entry := if negb (isIncoherent (getSrc reqEv))
                   then setOwner (getSrc reqEv) (setState St.M entry)
                   else setState St.I entry in
      let st := store a entry st in
      do st <- sendDataResponse reqEv entry (getPayload ev) GetXResp 0 st;
      finish st
  | St.SM_Inv =>
      let st := store a (setState St.S_Inv entry) st in
      Ret (true, set_mshr (setData a (getPayload ev) false (mshr st)) st)
  | _ => Fatal
  end.

Definition handleAckPut ev (inMSHR : bool) st : result (bool * Dir T) :=
  let a := getBaseAddr ev in
  let '(entry, st) := getDirEntry a st in
  let state := getState entry in
  Ret (true, cleanUpAfterResponse ev inMSHR st).

Definition handleAckInv ev (inMSHR : bool) st : result (bool * Dir T) :=
  let a := getBaseAddr ev in
  let '(entry, st) := getDirEntry a st in
  let state := getState entry in
  let entry := if isSharer (getSrc ev) entry
               then removeSharer (getSrc ev) entry
               else removeOwner entry in
  let st := store a entry st in
  let '(done, m) := decrementAcksNeeded a (mshr st) in
  let st := set_mshr m st in
  do st <- erase_response a (getSrc ev) st;
  if negb done then Ret (true, st)
  else
    let retry st := push_retry (getFrontEvent a (mshr st)) st in
    match state with
    | St.M_Inv =>
        Ret (true, retry (store a (setState St.I entry) st))
    | St.S_Inv =>
        Ret (true, retry (store a (setState (if hasSharers entry then St.S else St.I) entry) st))
    | St.SB_Inv =>
        Ret (true, retry (store a (setState (if hasSharers entry then St.S_B else St.I) entry) st))
    | St.SD_Inv =>
        Ret (true, retry (store a (setState (if hasSharers entry then St.S_D else St.IS) entry) st))
    | St.SM_Inv =>
        Ret (true, store a (setState St.IM entry) st)
    | _ => Fatal
    end.

(** The test of [handleNACK]: is the nacked invalidation or fetch still
    the one [responses] waits for? *)
Definition response_expected (a : Addr) (nacked : MemEvent) st : bool :=
  match responses st !! a with
  | None => false
  | Some resp =>
      match resp !! getDst nacked with
      | None => false
      | Some i => bool_decide (i = getID nacked)
      end
  end.

Definition handleNACK ev (inMSHR : bool) st : result (bool * Dir T) :=
  let a := getBaseAddr ev in
  let '(entry, st) := getDirEntry a st in
  let state := getState entry in
  do nackedEvent <- deref (getNACKedEvent ev);
  let resend st : result (bool * Dir T) :=
    do st <- forwardByDestination nackedEvent (u64 (timestamp st + mshrLatency P)) false st;
    Ret (true, st) in
  match getCmd nackedEvent with
  | GetS | GetX | GetSX | PutM | FlushLine | FlushLineInv => resend st
  | FetchInv | FetchInvX | Inv | ForceInv =>
      if response_expected a nackedEvent st then resend st
      else Ret (true, st)
  | _ => Fatal
  end.

Definition handleDirEntryResponse ev st : result (bool * Dir T) :=
  do a <- deref (dirMemAccesses st !! getResponseToID ev);
  let st := set_dirMemAccesses (delete (getResponseToID ev) (dirMemAccesses st)) st in
  let '(entry, st) := getDirEntry a st in
  let state := getState entry in
  do entry <-
    match state with
    | St.I_d => Ret (setState St.I entry)
    | St.S_d => Ret (setState St.S entry)
    | St.M_d => Ret (setState St.M entry)
    | _ => Fatal
    end;
  let entry := setCached true entry in
  let st := store a entry st in
  Ret (true, push_retry (getFrontEvent a (mshr st)) st).

(** ** The entry cache *)

(** The [while] loop of [updateCache].  [back_first] is what is left of
    [entryCache], last element first; [entryCache.back()] of an empty list
    is undefined. *)
Fixpoint evict_loop (back_first : list Addr) st : result (Dir T) :=
  if decide (entryCacheSize st > entryCacheMaxSize P) then
    match back_first with
    | [] => Undefined
    | old :: rest =>
        do oldEntry <- deref (directory st !! old);
        if exists_ (getEntryBaseAddr oldEntry) (mshr st) then Ret st
        else
          let st := set_entryCache (rev rest) (u64 (entryCacheSize st - 1)) st in
          let oldEntry := setCached false (setCacheIter false oldEntry) in
          let st := store old oldEntry st in
          let st := sendEntryToMemory oldEntry st in
          evict_loop rest st
    end
  else Ret st.

(** [updateCache(entry)].  The list node [entry->cacheIter] points to is
    the one that holds the address of the entry, so erasing it removes that
    address from [entryCache]. *)
Definition updateCache entry st : result (Dir T) :=
  if decide (0 = entryCacheMaxSize P) then Ret (sendEntryToMemory entry st)
  else
    let a := getEntryBaseAddr entry in
    let '(entry, st) :=
      if cacheIter entry then
        let st := set_entryCache (filter (λ x, x ≠ a) (entryCache st))
                                 (u64 (entryCacheSize st - 1)) st in
        let entry := setCacheIter false entry in
        (entry, store a entry st)
      else (entry, st) in
    if decide (getState entry = St.I) then
      Ret (set_directory (delete a (directory st)) st)
    else
      let st := set_entryCache (a :: entryCache st) (u64 (entryCacheSize st + 1)) st in
      let entry := setCacheIter true entry in
      let st := store a entry st in
      evict_loop (rev (entryCache st)) st.

(** ** The non-cacheable pass-through *)

Definition handleNoncacheableRequest ev st : result (Dir T) :=
  let st :=
    if negb (queryFlag ev F_NORESPONSE)
    then set_noncacheMemReqs (<[getID ev := getSrc ev]> (noncacheMemReqs st)) st
    else st in
  let ev := setSrc (getName P) ev in
  forwardByAddress ev (u64 (timestamp st + 1)) false st.

Definition handleNoncacheableResponse ev st : result (Dir T) :=
  match noncacheMemReqs st !! getID ev with
  | None => Fatal
  | Some origSrc =>
      let ev := setDst origSrc ev in
      let ev := setSrc (getName P) ev in
      let st := set_noncacheMemReqs (delete (getID ev) (noncacheMemReqs st)) st in
      forwardByDestination ev (u64 (timestamp st + 1)) false st
  end.

(** ** Dispatch and the clock *)

Variable others : OtherHandlers T.

Definition isRequestAddressValid (a : Addr) : bool :=
  linkIsRequestAddressValid cpuLink a.

Definition arbitrateAccess (a : Addr) (c : Component T) : bool :=
  bool_decide (a ∉ addrsThisCycle c).

(** The [switch] of [processPacket]. *)
Definition dispatch ev (replay : bool) st : result (bool * Dir T) :=
  match getCmd ev with
  | GetS => handleGetS ev replay st
  | GetSX => handleGetSX others ev replay st
  | GetX => handleGetX others ev replay st
  | Write => handleWrite others ev replay st
  | PutS => handlePutS others ev replay st
  | PutE => handlePutE others ev replay st
  | PutX => handlePutX others ev replay st
  | PutM => handlePutM others ev replay st
  | FlushLineInv => handleFlushLineInv others ev replay st
  | FlushLine => handleFlushLine others ev replay st
  | FetchInv => handleFetchInv ev replay st
  | ForceInv => handleForceInv ev replay st
  | GetXResp => handleGetXResp ev replay st
  | GetSResp => handleGetSResp others ev replay st
  | WriteResp => handleWriteResp others ev replay st
  | FlushLineResp => handleFlushLineResp others ev replay st
  | AckInv => handleAckInv ev replay st
  | AckPut => handleAckPut ev replay st
  | FetchResp => handleFetchResp others ev replay st
  | FetchXResp => handleFetchXResp others ev replay st
  | NACK => handleNACK ev replay st
  | _ => Fatal
  end.

Definition processPacket ev (replay : bool) (c : Component T)
    : result (bool * Component T) :=
  if negb (isRequestAddressValid (getAddr ev)) then Fatal
  else
    let a := getBaseAddr ev in
    if negb (arbitrateAccess a c) then Ret (false, c)
    else if negb (isAddrGlobal ev) then
      do '(_, d) <- handleDirEntryResponse ev (dir c);
      Ret (true, set_dir d c)
    else
      do '(retval, d) <- dispatch ev replay (dir c);
      let c := set_dir d c in
      let c := if retval then set_addrsThisCycle ({[a]} ∪ addrsThisCycle c) c else c in
      Ret (retval, c).

(** [sendOutgoingEvents]: the messages that are due leave the queues, in
    queue order. *)
Fixpoint due {A} (now : Z) (q : list (Z * A)) : list A * list (Z * A) :=
  match q with
  | [] => ([], [])
  | (t, x) :: r =>
      if decide (t ≤ now) then let '(out, q') := due now r in (x :: out, q')
      else ([], q)
  end.

Definition sendOutgoingEvents st : (list MemEvent * list MemEvent) * Dir T :=
  let '(toCpu, cq) := due (timestamp st) (cpuMsgQueue st) in
  let st := set_cpuMsgQueue cq st in
  let '(toMem, mq) := due (timestamp st) (memMsgQueue st) in
  ((toCpu, event <$> toMem), set_memMsgQueue mq st).

Definition limit_reached (n : Z) : bool :=
  negb (bool_decide (maxRequestsPerCycle P = 0)) && bool_decide (n = maxRequestsPerCycle P).

(** The first [while] loop of [clock].  [i] is the position of the
    iterator in [retryBuffer]; handlers append to the buffer while the loop
    runs, so the loop is run on fuel.  The first component of the answer
    lists the events consumed so far, whatever the outcome. *)
Fixpoint retry_loop (fuel : nat) (i : nat) (n : Z) (c : Component T)
    (consumed : list MemEvent) : list MemEvent * result (Z * Component T) :=
  match fuel with
  | O => (consumed, OutOfFuel)
  | Datatypes.S fuel =>
      match retryBuffer (dir c) !! i with
      | None => (consumed, Ret (n, c))
      | Some p =>
          if limit_reached n then (consumed, Ret (n, c))
          else
            match p with
            | None => (consumed, Undefined)
            | Some ev =>
                match processPacket ev true c with
                | Ret (true, c) =>
                    let c := set_dir (set_retryBuffer (delete i (retryBuffer (dir c))) (dir c)) c in
                    retry_loop fuel i (n + 1) c (consumed ++ [ev])
                | Ret (false, c) => retry_loop fuel (Datatypes.S i) n c consumed
                | Fatal => (consumed, Fatal)
                | Undefined => (consumed, Undefined)
                | OutOfFuel => (consumed, OutOfFuel)
                end
            end
      end
  end.

(** The second loop: [todo] is the part of [eventBuffer] from the iterator
    on, [kept] the part before it. *)
Fixpoint event_loop (todo kept : list MemEvent) (n : Z) (c : Component T)
    (consumed : list MemEvent) : list MemEvent * result (Z * Component T) :=
  match todo with
  | [] => (consumed, Ret (n, c))
  | ev :: rest =>
      if limit_reached n then (consumed, Ret (n, c))
      else
        match processPacket ev false c with
        | Ret (true, c) =>
            event_loop rest kept (n + 1) (set_eventBuffer (kept ++ rest) c) (consumed ++ [ev])
        | Ret (false, c) => event_loop rest (kept ++ [ev]) n c consumed
        | Fatal => (consumed, Fatal)
        | Undefined => (consumed, Undefined)
        | OutOfFuel => (consumed, OutOfFuel)
        end
  end.

(** [clock(cycle)].  [linksIdle] is what clocking the links answered
    ([true] when no link is clocked).  The answer pairs the events consumed
    in this cycle with the return value and the new state. *)
Definition clock (fuel : nat) (linksIdle : bool) (cycle : Z) (c : Component T)
    : list MemEvent * result (bool * Component T) :=
  let st := set_timestamp cycle (dir c) in
  let '(_, st) := sendOutgoingEvents st in
  let c := set_dir st c in
  let idle := linksIdle in
  let requestsThisCycle := 0 in
  let c := set_addrsThisCycle ∅ c in
  match retry_loop fuel 0 requestsThisCycle c [] with
  | (consumed, Ret (requestsThisCycle, c)) =>
      match event_loop (eventBuffer c) [] requestsThisCycle c consumed with
      | (consumed, Ret (_, c)) =>
          let idle := idle && (bool_decide (eventBuffer c = [])
                               && bool_decide (retryBuffer (dir c) = [])) in
          let idle := idle && (bool_decide (cpuMsgQueue (dir c) = [])
                               && bool_decide (memMsgQueue (dir c) = [])) in
          if idle && clockOn c then
            (consumed,
             Ret (true, mkComponent (dir c) (addrsThisCycle c) (eventBuffer c)
                          false (timestamp (dir c))))
          else (consumed, Ret (false, c))
      | (consumed, Fatal) => (consumed, Fatal)
      | (consumed, Undefined) => (consumed, Undefined)
      | (consumed, OutOfFuel) => (consumed, OutOfFuel)
      end
  | (consumed, Fatal) => (consumed, Fatal)
  | (consumed, Undefined) => (consumed, Undefined)
  | (consumed, OutOfFuel) => (consumed, OutOfFuel)
  end.

End Controller.

(** * The remaining senders and handlers

    [setEvict] of [MemEvent], for the flush that [issueFlush] builds. *)

Definition setEvict (b : bool) (ev : MemEvent) : MemEvent :=
  mkMemEvent (getID ev) (getResponseToID ev) (getCmd ev) (getSrc ev) (getDst ev) (getRqstr ev)
    (getAddr ev) (getBaseAddr ev) (isAddrGlobal ev) (getSize ev) (getPayload ev)
    (getDirty ev) b (getFlags ev) (getMemFlags ev) (getNACKedEvent ev).

Section Senders.
Context {T : Type} `{MSHR T}.
Variable P : Params.
Variables cpuLink memLink : MemLinkBase.

Implicit Type st : Dir T.
Implicit Type ev : MemEvent.

(** [sendResponse(event, flags, memflags)].  The one call that leaves the
    two flag words out ([handleGetX]) is taken to pass no flag and 0. *)
Definition sendResponse ev (fl : list Flag) (memfl : Z) st : result (Dir T) :=
  let '(i, st) := freshID P st in
  let respEv := makeResponse i ev in
  let respEv := setSize (lineSize P) respEv in
  let respEv := setMemFlags memfl respEv in
  let respEv := setFlags fl respEv in
  forwardByDestination cpuLink memLink respEv (u64 (timestamp st + mshrLatency P)) false st.

Definition sendAckPut ev st : result (Dir T) :=
  let '(i, st) := freshID P st in
  let ack := makeResponseCmd i AckPut ev in
  forwardByDestination cpuLink memLink ack (u64 (timestamp st + accessLatency P)) false st.

Definition writebackData ev st : result (Dir T) :=
  let '(i, st) := freshID P st in
  let wb := newMemEvent i (getName P) (getBaseAddr ev) (getBaseAddr ev) PutM (lineSize P) in
  let wb := copyMetadata ev wb in
  let wb := setPayload (getPayload ev) wb in
  let wb := setDirty (getDirty ev) wb in
  let st := if waitWBAck P
            then set_mshr (insertWriteback (getBaseAddr ev) false (mshr st)) st else st in
  let deliveryTime := u64 (timestamp st + accessLatency P) in
  forwardByAddress cpuLink memLink wb deliveryTime false st.

Definition issueFlush ev st : result (Dir T) :=
  let a := getBaseAddr ev in
  let flush := cloneMemEvent ev in
  let flush := setSrc (getName P) flush in
  let '(flush, st) :=
    if hasData a (mshr st) && getDataDirty a (mshr st) then
      let flush := setEvict true flush in
      let flush := setPayload (getData a (mshr st)) flush in
      let flush := setDirty true flush in
      (flush, set_mshr (clearData a (mshr st)) st)
    else (setPayload [] flush, st) in
  let st := set_mshr (setInProgress a (mshr st)) st in
  let deliveryTime := u64 (timestamp st + accessLatency P) in
  forwardByAddress cpuLink memLink flush deliveryTime false st.

End Senders.

(** The handlers of GetX, GetSX, Write, the four Puts, GetSResp, WriteResp,
    FlushLineResp, FetchResp and FetchXResp, under the names they have in
    the source.  [handleFlushLine] and [handleFlushLineInv] write to the
    event they are handed ([setEvict]), and the MSHR holds the same event;
    the MSHR interface gives no access to the events it holds, so these two
    stay fields of [OtherHandlers]. *)
Module Handler.
Section Handlers.
Context {T : Type} `{MSHR T}.
Variable P : Params.
Variables cpuLink memLink : MemLinkBase.

Implicit Type st : Dir T.
Implicit Type ev : MemEvent.
Implicit Type entry : DirEntry.

Definition handleGetX ev (inMSHR : bool) st : result (bool * Dir T) :=
  let a := getBaseAddr ev in
  let '(entry, st) := getDirEntry a st in
  let state := getState entry in
  let cached := isCached entry in
  if negb cached then retrieveDirEntry P entry ev inMSHR st
  else
    do st <- (if hasData a (mshr st) && getDataDirty a (mshr st)
              then writebackDataFromMSHR P cpuLink memLink a st else Ret st);
    do '(status, st) <-
      match state with
      | St.I =>
          if hasData a (mshr st) && inMSHR then
            let entry := if negb (isIncoherent P (getSrc ev))
                         then setOwner (getSrc ev) (setState St.M entry) else entry in
            let st := store a entry st in
            do st <- sendDataResponse P cpuLink memLink ev entry
                       (getData a (mshr st)) GetXResp 0 st;
            let st := set_mshr (clearData a (mshr st)) st in
            Ret (OK, cleanUpAfterRequest ev inMSHR st)
          else
            let '(status, st) := alloc_unless_inMSHR ev inMSHR false pos_default st in
            if decide (status = OK) then
              let entry := setState St.IM entry in
              let st := store a entry st in
              do st <- issueMemoryRequest P cpuLink memLink ev entry true st;
              Ret (status, st)
            else Ret (status, st)
      | St.S =>
          if isSharer (getSrc ev) entry then
            if decide (getSharerCount entry = 1) then
              let st := if hasData a (mshr st)
                        then set_mshr (clearData a (mshr st)) st else st in
              let entry := setOwner (getSrc ev)
                             (removeSharer (getSrc ev) (setState St.M entry)) in
              let st := store a entry st in
              do st <- sendResponse P cpuLink memLink ev [] 0 st;
              Ret (OK, cleanUpAfterRequest ev inMSHR st)
            else
              let '(status, st) := alloc_unless_inMSHR ev inMSHR false pos_default st in
              if decide (status = OK) then
                let st := if hasData a (mshr st)
                          then set_mshr (clearData a (mshr st)) st else st in
                let entry := setState St.S_Inv entry in
                let st := store a entry st in
                do st <- issueInvalidations P cpuLink memLink ev entry Inv st;
                Ret (status, st)
              else Ret (status, st)
          else
            let '(status, st) := alloc_unless_inMSHR ev inMSHR false pos_default st in
            if decide (status = OK) then
              do '(entry, st) <-
                (if hasData a (mshr st) then
                   let entry := setState St.S_Inv entry in
                   Ret (entry, store a entry st)
                 else
                   let entry := setState St.SM_Inv entry in
                   let st := store a entry st in
                   do st <- issueMemoryRequest P cpuLink memLink ev entry true st;
                   Ret (entry, st));
              do st <- issueInvalidations P cpuLink memLink ev entry Inv st;
              Ret (status, st)
            else Ret (status, st)
      | St.M =>
          let '(status, st) := alloc_unless_inMSHR ev inMSHR false pos_default st in
          if decide (status = OK) then
            let entry := setState St.M_Inv entry in
            let st := store a entry st in
            do st <- issueFetch P cpuLink memLink ev entry FetchInv st;
            Ret (status, st)
          else Ret (status, st)
      | _ => Ret (alloc_unless_inMSHR ev inMSHR false pos_default st)
      end;
    do st <- (if decide (status = Reject) then sendNACK P cpuLink memLink ev st else Ret st);
    Ret (true, st).

Definition handleGetSX ev (inMSHR : bool) st : result (bool * Dir T) :=
  handleGetX ev inMSHR st.

(** The three stable states of [handleWrite] start alike: data a racing
    access left in the MSHR is written back if dirty, and dropped. *)
Definition drop_buffered_data (a : Addr) st : result (Dir T) :=
  if hasData a (mshr st) then
    do st <- (if getDataDirty a (mshr st)
              then writebackDataFromMSHR P cpuLink memLink a st else Ret st);
    Ret (set_mshr (clearData a (mshr st)) st)
  else Ret st.

Definition handleWrite ev (inMSHR : bool) st : result (bool * Dir T) :=
  let a := getBaseAddr ev in
  let '(entry, st) := getDirEntry a st in
  let state := getState entry in
  let cached := isCached entry in
  if negb cached then retrieveDirEntry P entry ev inMSHR st
  else
    do '(status, st) <-
      match state with
      | St.I =>
          do st <- drop_buffered_data a st;
          let '(status, st) := alloc_unless_inMSHR ev inMSHR false pos_default st in
          if decide (status = OK) then
            let entry := setState St.IM entry in
            let st := store a entry st in
            do st <- issueMemoryRequest P cpuLink memLink ev entry false st;
            Ret (status, st)
          else Ret (status, st)
      | St.S =>
          do st <- drop_buffered_data a st;
          let '(status, st) := alloc_unless_inMSHR ev inMSHR false pos_default st in
          if decide (status = OK) then
            let entry := setState St.S_Inv entry in
            let st := store a entry st in
            do st <- issueInvalidations P cpuLink memLink ev entry Inv st;
            Ret (status, st)
          else Ret (status, st)
      | St.M =>
          do st <- drop_buffered_data a st;
          let '(status, st) := alloc_unless_inMSHR ev inMSHR false pos_default st in
          if decide (status = OK) then
            let entry := setState St.M_Inv entry in
            let st := store a entry st in
            do st <- issueFetch P cpuLink memLink ev entry FetchInv st;
            Ret (status, st)
          else Ret (status, st)
      | _ => Ret (alloc_unless_inMSHR ev inMSHR false pos_default st)
      end;
    do st <- (if decide (status = Reject) then sendNACK P cpuLink memLink ev st else Ret st);
    Ret (true, st).

(** [handlePutS] erases the response it may have been waiting for from the
    sender only when there is one. *)
Definition erase_response_if_any (a : Addr) (s : string) st : result (Dir T) :=
  if bool_decide (is_Some (responses st !! a ≫= (.!! s)))
  then erase_response a s st else Ret st.

Definition handlePutS ev (inMSHR : bool) st : result (bool * Dir T) :=
  let a := getBaseAddr ev in
  let '(entry, st) := getDirEntry a st in
  let state := getState entry in
  let cached := isCached entry in
  if negb cached then retrieveDirEntry P entry ev inMSHR st
  else
    let entry := removeSharer (getSrc ev) entry in
    let st := store a entry st in
    do st <- sendAckPut P cpuLink memLink ev st;
    do st <- erase_response_if_any a (getSrc ev) st;
    do '(entry, update, st) <-
      match state with
      | St.S =>
          Ret (if negb (hasSharers entry) then setState St.I entry else entry, true, st)
      | St.S_B =>
          Ret (if negb (hasSharers entry) then setState St.I entry else entry, false, st)
      | St.S_D =>
          Ret (if negb (hasSharers entry) then setState St.IS entry else entry, false, st)
      | St.S_Inv =>
          let '(done, m) := decrementAcksNeeded a (mshr st) in
          let st := set_mshr m st in
          if done then
            let entry := setState (if hasSharers entry then St.S else St.I) entry in
            let st := push_retry (getFrontEvent a (mshr st)) st in
            let st := set_mshr (setInProgress a (mshr st)) st in
            Ret (entry, false, st)
          else Ret (entry, false, st)
      | St.SD_Inv =>
          let '(done, m) := decrementAcksNeeded a (mshr st) in
          let st := set_mshr m st in
          if done then
            Ret (setState (if hasSharers entry then St.S_D else St.IS) entry, false, st)
          else Ret (entry, false, st)
      | St.SM_Inv =>
          let '(done, m) := decrementAcksNeeded a (mshr st) in
          let st := set_mshr m st in
          if done then Ret (setState St.IM entry, false, st)
          else Ret (entry, false, st)
      | _ => Fatal
      end;
    let st := store a entry st in
    let st := cleanUpAfterRequest ev inMSHR st in
    do st <- (if update then updateCache P memLink entry st else Ret st);
    Ret (true, st).

(** The steps PutX, PutE and PutM (when the owner was being fetched from),
    FetchResp and FetchXResp share: the event counts as the awaited
    response, and its data is kept in the MSHR. *)
Definition take_fetched_data ev st : result (Dir T) :=
  let a := getBaseAddr ev in
  let '(_, m) := decrementAcksNeeded a (mshr st) in
  let st := set_mshr m st in
  do st <- erase_response a (getSrc ev) st;
  Ret (set_mshr (setData a (getPayload ev) (getDirty ev) (mshr st)) st).

Definition handlePutX ev (inMSHR : bool) st : result (bool * Dir T) :=
  let a := getBaseAddr ev in
  let '(entry, st) := getDirEntry a st in
  let state := getState entry in
  let cached := isCached entry in
  if negb cached then retrieveDirEntry P entry ev inMSHR st
  else
    let entry := addSharer (getSrc ev) (removeOwner entry) in
    let st := store a entry st in
    do st <- sendAckPut P cpuLink memLink ev st;
    do '(entry, update, st) <-
      match state with
      | St.M =>
          do st <- (if getDirty ev then writebackData P cpuLink memLink ev st else Ret st);
          Ret (setState St.S entry, true, st)
      | St.M_Inv =>
          let st := set_mshr (setData a (getPayload ev) (getDirty ev) (mshr st)) st in
          Ret (setState St.S_Inv entry, false, st)
      | St.M_InvX =>
          do st <- take_fetched_data ev st;
          Ret (setState St.S entry, false, st)
      | _ => Fatal
      end;
    let st := store a entry st in
    let st := cleanUpAfterRequest ev inMSHR st in
    do st <- (if update then updateCache P memLink entry st else Ret st);
    Ret (true, st).

Definition handlePutE ev (inMSHR : bool) st : result (bool * Dir T) :=
  let a := getBaseAddr ev in
  let '(entry, st) := getDirEntry a st in
  let state := getState entry in
  let cached := isCached entry in
  if negb cached then retrieveDirEntry P entry ev inMSHR st
  else
    let entry := removeOwner entry in
    let st := store a entry st in
    do st <- sendAckPut P cpuLink memLink ev st;
    do '(entry, update, st) <-
      match state with
      | St.M => Ret (setState St.I entry, true, st)
      | St.M_Inv | St.M_InvX =>
          do st <- take_fetched_data ev st;
          Ret (setState St.I entry, false, st)
      | _ => Fatal
      end;
    let st := store a entry st in
    let st := cleanUpAfterRequest ev inMSHR st in
    do st <- (if update then updateCache P memLink entry st else Ret st);
    Ret (true, st).

Definition handlePutM ev (inMSHR : bool) st : result (bool * Dir T) :=
  let a := getBaseAddr ev in
  let '(entry, st) := getDirEntry a st in
  let state := getState entry in
  let cached := isCached entry in
  if negb cached then retrieveDirEntry P entry ev inMSHR st
  else
    let entry := removeOwner entry in
    let st := store a entry st in
    do st <- sendAckPut P cpuLink memLink ev st;
    do '(entry, update, st) <-
      match state with
      | St.M =>
          do st <- writebackData P cpuLink memLink ev st;
          Ret (setState St.I entry, true, st)
      | St.M_Inv | St.M_InvX =>
          do st <- take_fetched_data ev st;
          Ret (setState St.I entry, false, st)
      | _ => Fatal
      end;
    let st := store a entry st in
    let st := cleanUpAfterRequest ev inMSHR st in
    do st <- (if update then updateCache P memLink entry st else Ret st);
    Ret (true, st).

Definition handleGetSResp ev (inMSHR : bool) st : result (bool * Dir T) :=
  let a := getBaseAddr ev in
  let '(entry, st) := getDirEntry a st in
  let state := getState entry in
  let reqEvp := getFrontEvent a (mshr st) in
  if negb (bool_decide (state = St.IS)) && negb (bool_decide (state = St.S_D)) then Fatal
  else
    do reqEv <- deref reqEvp;
    let entry :=
      if negb (isIncoherent P (getSrc reqEv))
      then addSharer (getSrc reqEv) (setState St.S entry)
      else if decide (state = St.IS) then setState St.I entry
      else setState St.S entry in
    let st := store a entry st in
    do st <- sendDataResponse P cpuLink memLink reqEv entry (getPayload ev) GetSResp 0 st;
    let st := set_mshr (setData a (getPayload ev) false (mshr st)) st in
    Ret (true, cleanUpAfterResponse ev inMSHR st).

Definition handleWriteResp ev (inMSHR : bool) st : result (bool * Dir T) :=
  let a := getBaseAddr ev in
  let '(entry, st) := getDirEntry a st in
  let state := getState entry in
  let reqEvp := getFrontEvent a (mshr st) in
  if negb (bool_decide (state = St.IM)) then Fatal
  else
    let st := store a (setState St.I entry) st in
    do reqEv <- deref reqEvp;
    let '(i, st) := freshID P st in
    do st <- forwardByDestination cpuLink memLink (makeResponse i reqEv)
               (u64 (timestamp st + mshrLatency P)) false st;
    Ret (true, cleanUpAfterResponse ev inMSHR st).

Definition handleFlushLineResp ev (inMSHR : bool) st : result (bool * Dir T) :=
  let a := getBaseAddr ev in
  let '(entry, st) := getDirEntry a st in
  let state := getState entry in
  let reqEvp := getFrontEvent a (mshr st) in
  let st := set_mshr (clearData a (mshr st)) st in
  do entry <-
    match state with
    | St.I => Ret entry
    | St.I_B => Ret (setState St.I entry)
    | St.S_B => Ret (setState St.S entry)
    | _ => Fatal
    end;
  let st := store a entry st in
  do reqEv <- deref reqEvp;
  do st <- sendResponse P cpuLink memLink reqEv (getFlags ev) (getMemFlags ev) st;
  Ret (true, cleanUpAfterResponse ev inMSHR st).

Definition handleFetchXResp ev (inMSHR : bool) st : result (bool * Dir T) :=
  let a := getBaseAddr ev in
  let '(entry, st) := getDirEntry a st in
  let state := getState entry in
  if negb (bool_decide (state = St.M_InvX)) then Fatal
  else
    do st <- take_fetched_data ev st;
    let entry := setState St.S (addSharer (getSrc ev) (removeOwner entry)) in
    let st := store a entry st in
    Ret (true, push_retry (getFrontEvent a (mshr st)) st).

Definition handleFetchResp ev (inMSHR : bool) st : result (bool * Dir T) :=
  let a := getBaseAddr ev in
  let '(entry, st) := getDirEntry a st in
  let state := getState entry in
  if negb (bool_decide (state = St.S_Inv)) && negb (bool_decide (state = St.M_Inv)) then Fatal
  else
    do st <- take_fetched_data ev st;
    let st := store a (setState St.I entry) st in
    let st := push_retry (getFrontEvent a (mshr st)) st in
    do st <- (if getDirty ev then writebackDataFromMSHR P cpuLink memLink a st else Ret st);
    Ret (true, st).

End Handlers.
End Handler.

(** The command switch with the handlers above in place; the two flush
    handlers are left to the caller. *)
Definition embedded_handlers {T : Type} `{MSHR T} (P : Params)
    (cpuLink memLink : MemLinkBase)
    (flushLineInv flushLine : MemEvent → bool → Dir T → result (bool * Dir T))
    : OtherHandlers T :=
  mkOtherHandlers T
    (Handler.handleGetSX P cpuLink memLink)
    (Handler.handleGetX P cpuLink memLink)
    (Handler.handleWrite P cpuLink memLink)
    (Handler.handlePutS P cpuLink memLink)
    (Handler.handlePutE P cpuLink memLink)
    (Handler.handlePutX P cpuLink memLink)
    (Handler.handlePutM P cpuLink memLink)
    flushLineInv
    flushLine
    (Handler.handleGetSResp P cpuLink memLink)
    (Handler.handleWriteResp P cpuLink memLink)
    (Handler.handleFlushLineResp P cpuLink memLink)
    (Handler.handleFetchResp P cpuLink memLink)
    Handler.handleFetchXResp.

(** * Arrival of an event

    [handlePacket] asks two tables of the simulator that are not part of
    the sources at hand: whether a command is of the cache type
    ([MemEventTypeArr]) and whether it is a request ([BasicCommandClassArr]).
    [turnClockOn] is told the cycle [reregisterClock] answers.  Delivery
    times and latency statistics are left out. *)

Section Arrival.
Context {T : Type} `{MSHR T}.
Variable P : Params.
Variables cpuLink memLink : MemLinkBase.
Variable isCacheType : Command → bool.
Variable isBasicRequest : Command → bool.

Definition turnClockOn (nextCycle : Z) (c : Component T) : Component T :=
  let st := set_timestamp (u64 (nextCycle - 1)) (dir c) in
  mkComponent st (addrsThisCycle c) (eventBuffer c) true (lastActiveClockCycle c).

Definition handlePacket (nextCycle : Z) (ev : MemEvent) (c : Component T)
    : result (Component T) :=
  let c := if negb (clockOn c) then turnClockOn nextCycle c else c in
  if negb (isCacheType (getCmd ev)) || queryFlag ev F_NONCACHEABLE then
    do d <- (if isBasicRequest (getCmd ev)
             then handleNoncacheableRequest P cpuLink memLink ev (dir c)
             else handleNoncacheableResponse P cpuLink memLink ev (dir c));
    Ret (set_dir d c)
  else Ret (set_eventBuffer (eventBuffer c ++ [ev]) c).

End Arrival.

(** * Observations on a state *)

(** Every message waiting in one of the two outgoing queues. *)
Definition outgoing {T} (st : Dir T) : list (Z * MemEvent) :=
  cpuMsgQueue st ++ (prod_map id event <$> memMsgQueue st).

(** The id [responses] holds for the pair (address, destination). *)
Definition expected {T} (a : Addr) (d : string) (st : Dir T) : option (Z * Z) :=
  responses st !! a ≫= (.!! d).

(** The entry [getDirEntry] hands out for an address: the one in the
    directory, or a new cached entry in state I. *)
Definition entry_view {T} (a : Addr) (st : Dir T) : DirEntry :=
  default (setCached true (setCacheIter false (newDirEntry a))) (directory st !! a).

(** Where [forwardByAddress] sends an address: the memory link is asked
    first, then the cpu link. *)
Definition route (cpuLink memLink : MemLinkBase) (a : Addr) : string :=
  if decide (findTargetDestination memLink a ≠ "") then findTargetDestination memLink a
  else findTargetDestination cpuLink a.

(** [st'] differs from [st] at most in the outgoing queues, the MSHR and
    the supply of event ids. *)
Definition only_sent {T} (st st' : Dir T) : Prop :=
  timestamp st' = timestamp st ∧ directory st' = directory st
  ∧ entryCache st' = entryCache st ∧ entryCacheSize st' = entryCacheSize st
  ∧ responses st' = responses st ∧ retryBuffer st' = retryBuffer st
  ∧ noncacheMemReqs st' = noncacheMemReqs st
  ∧ dirMemAccesses st' = dirMemAccesses st.

(** A queued directory-entry writeback: a PutE flagged F_NORESPONSE of the
    size of an entry, for the memory, due at time [t]. *)
Definition is_entry_writeback (P : Params) (memLink : MemLinkBase) (t : Z)
    (x : Z * MemMsg) : Prop :=
  x.1 = t ∧ dirAccess x.2 = true
  ∧ getCmd (event x.2) = PutE
  ∧ queryFlag (event x.2) F_NORESPONSE = true
  ∧ getSize (event x.2) = entrySize P
  ∧ getSrc (event x.2) = getName P
  ∧ getDst (event x.2) = getTargetDestination memLink 0.

(** The transitions on the last AckInv, as the spec lists them:
    M_Inv to I, S_Inv to S if sharers remain else I, SB_Inv to S_B if
    sharers remain else I, SD_Inv to S_D if sharers remain else IS, SM_Inv
    to IM. *)
Definition spec_AckInv_next (s : State) (sharersRemain : bool) : option State :=
  match s with
  | St.M_Inv => Some St.I
  | St.S_Inv => Some (if sharersRemain then St.S else St.I)
  | St.SB_Inv => Some (if sharersRemain then St.S_B else St.I)
  | St.SD_Inv => Some (if sharersRemain then St.S_D else St.IS)
  | St.SM_Inv => Some St.IM
  | _ => None
  end.

(** * The MSHR of the spec

    Modelled from the spec: the MSHR class (mshr.h, mshr.cc) is not part of
    the sources at hand.  The spec describes it as a map from address to an
    ordered list of entries, each an event or a writeback marker, with the
    per-line fields [acksNeeded], [inProgress] and [data]; [insertEvent]
    answers the insertion index or -1 when full, a forward request may go
    past the capacity, position 0 is the front, 1 is after the front and
    the default appends.  A size of -1 is unlimited.  A writeback marker
    is inserted in front of the request that caused it (which is what
    [cleanUpAfterRequest] skips), and [inProgress] is that of the front
    entry, so it is cleared when the front is removed. *)

Inductive MSHREntry : Type :=
  | EventEntry (ev : MemEvent)
  | WritebackEntry (flag : bool).

Record MSHRRegister : Type := mkMSHRRegister {
  entries : list MSHREntry;
  acksNeeded : Z;
  inProgress : bool;
  data : option (list Byte.byte * bool)
}.

Record SpecMSHR : Type := mkSpecMSHR {
  lines : gmap Z MSHRRegister;
  maxSize : Z;
  size_ : Z
}.

Module SpecMSHROps.

Definition emptyRegister : MSHRRegister := mkMSHRRegister [] 0 false None.

Definition line (a : Addr) (m : SpecMSHR) : MSHRRegister :=
  default emptyRegister (lines m !! a).

Definition set_line (a : Addr) (r : MSHRRegister) (m : SpecMSHR) : SpecMSHR :=
  mkSpecMSHR (<[a := r]> (lines m)) (maxSize m) (size_ m).

Definition set_entries (l : list MSHREntry) (r : MSHRRegister) : MSHRRegister :=
  mkMSHRRegister l (acksNeeded r) (inProgress r) (data r).

Definition set_acks (n : Z) (r : MSHRRegister) : MSHRRegister :=
  mkMSHRRegister (entries r) n (inProgress r) (data r).

Definition set_progress (b : bool) (r : MSHRRegister) : MSHRRegister :=
  mkMSHRRegister (entries r) (acksNeeded r) b (data r).

Definition set_data (d : option (list Byte.byte * bool)) (r : MSHRRegister) : MSHRRegister :=
  mkMSHRRegister (entries r) (acksNeeded r) (inProgress r) d.

Definition full (m : SpecMSHR) : bool :=
  bool_decide (0 ≤ maxSize m) && bool_decide (maxSize m ≤ size_ m).

Definition insertEvent (a : Addr) (ev : MemEvent) (pos : Z) (fwdRequest stallEvict : bool)
    (m : SpecMSHR) : Z * SpecMSHR :=
  if full m && negb fwdRequest then (-1, m)
  else
    let r := line a m in
    let n := Z.of_nat (length (entries r)) in
    let at_ := if decide (pos < 0 ∨ n < pos) then n else pos in
    let l := take (Z.to_nat at_) (entries r) ++ EventEntry ev :: drop (Z.to_nat at_) (entries r) in
    (at_, mkSpecMSHR (<[a := set_entries l r]> (lines m)) (maxSize m) (size_ m + 1)).

Definition getFrontEvent (a : Addr) (m : SpecMSHR) : option MemEvent :=
  match entries (line a m) with
  | EventEntry ev :: _ => Some ev
  | _ => None
  end.

Definition getFrontType (a : Addr) (m : SpecMSHR) : option MSHREntryType :=
  match entries (line a m) with
  | EventEntry _ :: _ => Some Event
  | WritebackEntry _ :: _ => Some Writeback
  | [] => None
  end.

Definition removeEntry (a : Addr) (i : Z) (m : SpecMSHR) : SpecMSHR :=
  let r := line a m in
  match entries r !! Z.to_nat i with
  | None => m
  | Some e =>
      let r := set_entries (delete (Z.to_nat i) (entries r)) r in
      let r := if decide (i = 0) then set_progress false r else r in
      mkSpecMSHR (<[a := r]> (lines m)) (maxSize m)
        (match e with EventEntry _ => size_ m - 1 | WritebackEntry _ => size_ m end)
  end.

Definition removeFront (a : Addr) (m : SpecMSHR) : SpecMSHR := removeEntry a 0 m.

Definition incrementAcksNeeded (a : Addr) (m : SpecMSHR) : SpecMSHR :=
  set_line a (set_acks (acksNeeded (line a m) + 1) (line a m)) m.

Definition decrementAcksNeeded (a : Addr) (m : SpecMSHR) : bool * SpecMSHR :=
  let n := acksNeeded (line a m) in
  let n' := if decide (n ≤ 0) then 0 else n - 1 in
  (bool_decide (n' = 0), set_line a (set_acks n' (line a m)) m).

Definition getAcksNeeded (a : Addr) (m : SpecMSHR) : Z := acksNeeded (line a m).

Definition setInProgress (a : Addr) (m : SpecMSHR) : SpecMSHR :=
  set_line a (set_progress true (line a m)) m.

Definition getInProgress (a : Addr) (m : SpecMSHR) : bool := inProgress (line a m).

Definition setData (a : Addr) (d : list Byte.byte) (dirty : bool) (m : SpecMSHR) : SpecMSHR :=
  set_line a (set_data (Some (d, dirty)) (line a m)) m.

Definition getData (a : Addr) (m : SpecMSHR) : list Byte.byte :=
  match data (line a m) with Some (d, _) => d | None => [] end.

Definition getDataDirty (a : Addr) (m : SpecMSHR) : bool :=
  match data (line a m) with Some (_, b) => b | None => false end.

Definition setDataDirty (a : Addr) (b : bool) (m : SpecMSHR) : SpecMSHR :=
  match data (line a m) with
  | Some (d, _) => set_line a (set_data (Some (d, b)) (line a m)) m
  | None => m
  end.

Definition clearData (a : Addr) (m : SpecMSHR) : SpecMSHR :=
  set_line a (set_data None (line a m)) m.

Definition hasData (a : Addr) (m : SpecMSHR) : bool :=
  bool_decide (is_Some (data (line a m))).

Definition insertWriteback (a : Addr) (flag : bool) (m : SpecMSHR) : SpecMSHR :=
  set_line a (set_entries (WritebackEntry flag :: entries (line a m)) (line a m)) m.

Definition pendingWriteback (a : Addr) (m : SpecMSHR) : bool :=
  match entries (line a m) with
  | WritebackEntry _ :: _ => true
  | _ => false
  end.

Definition exists_ (a : Addr) (m : SpecMSHR) : bool :=
  negb (bool_decide (entries (line a m) = [])).

End SpecMSHROps.

#[global] Instance SpecMSHR_MSHR : MSHR SpecMSHR := {|
  insertEvent := SpecMSHROps.insertEvent;
  getFrontEvent := SpecMSHROps.getFrontEvent;
  getFrontType := SpecMSHROps.getFrontType;
  removeFront := SpecMSHROps.removeFront;
  removeEntry := SpecMSHROps.removeEntry;
  incrementAcksNeeded := SpecMSHROps.incrementAcksNeeded;
  decrementAcksNeeded := SpecMSHROps.decrementAcksNeeded;
  getAcksNeeded := SpecMSHROps.getAcksNeeded;
  setInProgress := SpecMSHROps.setInProgress;
  getInProgress := SpecMSHROps.getInProgress;
  setData := SpecMSHROps.setData;
  getData := SpecMSHROps.getData;
  getDataDirty := SpecMSHROps.getDataDirty;
  setDataDirty := SpecMSHROps.setDataDirty;
  clearData := SpecMSHROps.clearData;
  hasData := SpecMSHROps.hasData;
  insertWriteback := SpecMSHROps.insertWriteback;
  pendingWriteback := SpecMSHROps.pendingWriteback;
  exists_ := SpecMSHROps.exists_
|}.

(** * A small system to run the controller on

    Two caches [A] and [B] on the cpu link, one memory [mem] on the memory
    link; every address is in the region and is served by [mem]. *)

Definition cpuLink0 : MemLinkBase :=
  mkMemLinkBase (λ d, bool_decide (d = "A" ∨ d = "B" ∨ d = "C")) (λ _, "") (λ _, "") (λ _, true).

Definition memLink0 : MemLinkBase :=
  mkMemLinkBase (λ d, bool_decide (d = "mem")) (λ _, "mem") (λ _, "mem") (λ _, true).

Definition params0 : Params :=
  mkParams "dir" 64 4 2 MESI 3 1 0 false ∅ 0.

Definition mshr0 : SpecMSHR := mkSpecMSHR ∅ (-1) 0.

Definition dir0 : Dir SpecMSHR :=
  mkDir 10 ∅ [] 0 mshr0 ∅ [] [] [] ∅ ∅ 100.

(** A request as a cache sends it to the directory. *)
Definition request (i : Z) (c : Command) (from : string) (a : Addr) : MemEvent :=
  setDst "dir" (newMemEvent (i, 1) from a a c 64).

(** An entry in state S shared by [A] and [B], alone in the directory. *)
Definition entryS : DirEntry := mkDirEntry 0 St.S None ["A"; "B"] true false.

Definition dirS : Dir SpecMSHR := set_directory {[ 0 := entryS ]} dir0.

(** Two requests for line 0 queued in the MSHR, the first one in progress. *)
Definition mshrQ : SpecMSHR :=
  SpecMSHROps.setInProgress 0
    (SpecMSHROps.insertEvent 0 (request 2 GetS "B" 0) (-1) false false
       (SpecMSHROps.insertEvent 0 (request 1 PutM "A" 0) (-1) false false mshr0).2).2.

Definition dirQ : Dir SpecMSHR := set_mshr mshrQ dir0.

(** The Inv the directory sends to [B] for line 0, and [B]'s NACK of it. *)
Definition invB : MemEvent := setDst "B" (newMemEvent (100, 0) "dir" 0 0 Inv 64).

Definition nackB : MemEvent := makeNACKResponse (7, 2) invB.

(** A non-cacheable write of [A] that wants no response, one that wants
    one, and the response to the latter as the directory receives it. *)
Definition writeNR : MemEvent :=
  setFlags [F_NORESPONSE; F_NONCACHEABLE] (request 5 Write "A" 0).

Definition writeNC : MemEvent := setFlags [F_NONCACHEABLE] (request 6 Write "A" 0).

Definition writeRespNC : MemEvent :=
  setDst "dir" (setSrc "mem" (setFlags [F_NONCACHEABLE] (newMemEvent (6, 1) "mem" 0 0 WriteResp 64))).

Definition dirNC : Dir SpecMSHR := set_noncacheMemReqs {[ (6, 1) := "A" ]} dir0.

(** Line 0 in SM_Inv: [A] asked for exclusive access, the memory read is
    under way, and the Inv to the one sharer [B] is the last ack awaited. *)
Definition mshrSM : SpecMSHR :=
  SpecMSHROps.incrementAcksNeeded 0
    (SpecMSHROps.setInProgress 0
       (SpecMSHROps.insertEvent 0 (request 1 GetX "A" 0) (-1) false false mshr0).2).

Definition dirSM : Dir SpecMSHR :=
  set_responses {[ 0 := {[ "B" := (100, 0) ]} ]}
    (set_mshr mshrSM
       (set_directory {[ 0 := mkDirEntry 0 St.SM_Inv None ["B"] true false ]} dir0)).

(** The same line in S_Inv (an upgrade of the sharer [A]). *)
Definition dirSInv : Dir SpecMSHR :=
  set_responses {[ 0 := {[ "B" := (100, 0) ]} ]}
    (set_mshr mshrSM
       (set_directory {[ 0 := mkDirEntry 0 St.S_Inv None ["A"; "B"] true false ]} dir0)).

Definition ackInvB : MemEvent := makeResponseCmd (8, 2) AckInv invB.

(** A GetXResp of the memory for line 0 with a two-byte payload. *)
Definition getXRespMem : MemEvent :=
  setPayload [Byte.x01; Byte.x02]
    (setDst "dir" (newMemEvent (9, 3) "mem" 0 0 GetXResp 64)).

(** Line 0 in IS: the GetS of [A] is at the MSHR front, in progress. *)
Definition dirIS : Dir SpecMSHR :=
  set_mshr
    (SpecMSHROps.setInProgress 0
       (SpecMSHROps.insertEvent 0 (request 1 GetS "A" 0) (-1) false false mshr0).2)
    (set_directory {[ 0 := mkDirEntry 0 St.IS None [] true false ]} dir0).

(** A FetchInv and a ForceInv of the memory for line 0. *)
Definition fetchInvMem : MemEvent := setDst "dir" (newMemEvent (20, 3) "mem" 0 0 FetchInv 64).

Definition forceInvMem : MemEvent := setDst "dir" (newMemEvent (21, 3) "mem" 0 0 ForceInv 64).

(** Line 0 in state I with dirty data left in the MSHR by a racing access. *)
Definition dirDirty : Dir SpecMSHR :=
  set_mshr (SpecMSHROps.setData 0 [Byte.x2a] true mshr0)
    (set_directory {[ 0 := mkDirEntry 0 St.I None [] true false ]} dir0).

(** Line 0 in state I, nothing buffered; and in state M, owned by [A]. *)
Definition dirI : Dir SpecMSHR :=
  set_directory {[ 0 := mkDirEntry 0 St.I None [] true false ]} dir0.

Definition dirM : Dir SpecMSHR :=
  set_directory {[ 0 := mkDirEntry 0 St.M (Some "A") [] true false ]} dir0.

(** An entry cache of capacity 2 holding lines 64 and 128 (the older),
    when line 0, in state S, is touched; a request for line 128 waits in
    the MSHR.  [dirCidle] is the same with an empty MSHR. *)
Definition entryC (a : Addr) (inCache : bool) : DirEntry :=
  mkDirEntry a St.S None ["A"] true inCache.

Definition dirCidle : Dir SpecMSHR :=
  set_entryCache [64; 128] 2
    (set_directory
       {[ 0 := entryC 0 false; 64 := entryC 64 true; 128 := entryC 128 true ]} dir0).

Definition dirC : Dir SpecMSHR :=
  set_mshr (SpecMSHROps.insertEvent 128 (request 4 GetX "B" 128) (-1) false false mshr0).2
    dirCidle.

(** The handlers that are not embedded; the scenarios below do not reach
    them. *)
Definition others0 : OtherHandlers SpecMSHR :=
  let h := λ (_ : MemEvent) (_ : bool) (_ : Dir SpecMSHR), @Fatal (bool * Dir SpecMSHR) in
  mkOtherHandlers SpecMSHR h h h h h h h h h h h h h h.

(** Line 64 while its directory entry is read back from memory: the entry
    is in I_d, the read has id (50, 0), and the GetS of [A] that caused it
    waits at the MSHR front.  [entryResp] is the memory's answer. *)
Definition dirD : Dir SpecMSHR :=
  set_dirMemAccesses {[ (50, 0) := 64 ]}
    (set_mshr (SpecMSHROps.insertEvent 64 (request 1 GetS "A" 64) (-1) false false mshr0).2
       (set_directory {[ 64 := mkDirEntry 64 St.I_d None [] false false ]} dir0)).

Definition entryResp : MemEvent :=
  setAddrGlobal false
    (makeResponseCmd (9, 3) GetSResp
       (setDst "mem" (setAddrGlobal false (newMemEvent (50, 0) "dir" 0 0 GetS 4)))).

Definition comp (d : Dir SpecMSHR) (events : list MemEvent) : Component SpecMSHR :=
  mkComponent d ∅ events true 0.

(** Three new requests: [A] and [B] read line 0, [B] reads line 64. *)
Definition comp3 : Component SpecMSHR :=
  comp dir0 [request 1 GetS "A" 0; request 2 GetS "B" 0; request 3 GetS "B" 64].

(** Clock cycles 11 and 12 of the small system, with idle links. *)
Definition cycle11 (c : Component SpecMSHR)
    : list MemEvent * result (bool * Component SpecMSHR) :=
  clock params0 cpuLink0 memLink0 others0 5 true 11 c.

Definition state_after {T} (r : list MemEvent * result (bool * Component T))
    : option (Component T) :=
  match r.2 with
  | Ret (_, c) => Some c
  | _ => None
  end.

Definition cycle12_after (r : list MemEvent * result (bool * Component SpecMSHR))
    : list MemEvent * result (bool * Component SpecMSHR) :=
  match state_after r with
  | Some c => clock params0 cpuLink0 memLink0 others0 5 true 12 c
  | None => ([], Fatal)
  end.

(** The events a clock cycle consumed that have a global address. *)
Definition global_lines (consumed : list MemEvent) : list Addr :=
  getBaseAddr <$> filter (λ ev, isAddrGlobal ev = true) consumed.

(** The invariant of the two loops of [clock]: the lines of the consumed
    events are pairwise different and all in [addrsThisCycle]. *)
Definition lines_recorded {T} (consumed : list MemEvent) (c : Component T) : Prop :=
  NoDup (global_lines consumed)
  ∧ ∀ a, a ∈ global_lines consumed → a ∈ addrsThisCycle c.

(** A queue in the order of a [std::multimap]: delivery times do not
    decrease. *)
Definition queue_sorted {A} (q : list (Z * A)) : Prop :=
  StronglySorted Z.le (q.*1).

(** The events [sendOutgoingEvents] hands to the two links when the clock
    shows [now]. *)
Definition sent_at {T} (now : Z) (st : Dir T) : list MemEvent :=
  let r := (sendOutgoingEvents (set_timestamp now st)).1 in r.1 ++ r.2.

(** Two messages wait for the caches, due at cycles 11 and 13; the clock
    shows 12. *)
Definition dirQueued : Dir SpecMSHR :=
  set_timestamp 12 (set_cpuMsgQueue [(11, invB); (13, ackInvB)] dir0).

(** The entry cache and the directory agree: [entryCache] lists each
    address once, [entryCacheSize] is its length, every address in it has
    an entry whose handle points into the list, and an entry sits under its
    own address, with a handle into the list only if its address is there
    and it is cached. *)
Definition cache_wf {T} (st : Dir T) : Prop :=
  NoDup (entryCache st)
  ∧ entryCacheSize st = Z.of_nat (length (entryCache st))
  ∧ (∀ x, x ∈ entryCache st → ∃ e, directory st !! x = Some e ∧ cacheIter e = true)
  ∧ (∀ x e, directory st !! x = Some e →
       getEntryBaseAddr e = x
       ∧ (cacheIter e = true → x ∈ entryCache st ∧ isCached e = true)).

(** [st'] differs from [st] at most in the directory, the entry cache, the
    memory queue and the supply of event ids. *)
Definition only_cache_changed {T} (st st' : Dir T) : Prop :=
  timestamp st' = timestamp st ∧ mshr st' = mshr st
  ∧ responses st' = responses st ∧ retryBuffer st' = retryBuffer st
  ∧ cpuMsgQueue st' = cpuMsgQueue st
  ∧ noncacheMemReqs st' = noncacheMemReqs st
  ∧ dirMemAccesses st' = dirMemAccesses st.

(** Line 64 with an entry in state I that is not cached (it was evicted to
    memory), nothing else going on. *)
Definition dirU : Dir SpecMSHR :=
  set_directory {[ 64 := mkDirEntry 64 St.I None [] false false ]} dir0.

(** What a clean-up pushes onto the retry buffer for an address: the front
    MSHR entry, when it is an event that is not in progress and waits for
    no ack. *)
Definition ready_front `{MSHR T} (a : Addr) (m : T) : list (option MemEvent) :=
  if exists_ a m && bool_decide (getFrontType a m = Some Event)
     && negb (getInProgress a m) && bool_decide (getAcksNeeded a m = 0)
  then [getFrontEvent a m] else [].

(** [responses] after the record for the pair (address, source) is erased. *)
Definition without_response (a : Addr) (s : string)
    (r : gmap Z (gmap string (Z * Z))) : gmap Z (gmap string (Z * Z)) :=
  match r !! a with
  | Some resp => if decide (delete s resp = ∅) then delete a r else <[a := delete s resp]> r
  | None => r
  end.

(** The MSHR after [cleanUpAfterRequest] has removed the request it was
    called for (when the request was replayed from the MSHR). *)
Definition after_request `{MSHR T} (a : Addr) (inMSHR : bool) (m : T) : T :=
  if inMSHR then
    if bool_decide (getFrontType a m = Some Event) then removeFront a m
    else removeEntry a 1 m
  else m.

(** A GetSResp of the memory for line 0 with a two-byte payload. *)
Definition getSRespMem : MemEvent :=
  setPayload [Byte.x01; Byte.x02]
    (setDst "dir" (newMemEvent (9, 3) "mem" 0 0 GetSResp 64)).

(** Line 0 with the request [req] at the MSHR front, in progress, and the
    entry [e] in the directory. *)
Definition dirWaiting (req : MemEvent) (e : DirEntry) : Dir SpecMSHR :=
  set_mshr
    (SpecMSHROps.setInProgress 0
       (SpecMSHROps.insertEvent 0 req (-1) false false mshr0).2)
    (set_directory {[ 0 := e ]} dir0).

(** Line 0 in IM for the GetX of [A], and for the Write of [C]. *)
Definition dirIM : Dir SpecMSHR :=
  dirWaiting (request 1 GetX "A" 0) (mkDirEntry 0 St.IM None [] true false).

Definition dirIMw : Dir SpecMSHR :=
  dirWaiting (request 1 Write "C" 0) (mkDirEntry 0 St.IM None [] true false).

Definition writeRespMem : MemEvent :=
  setDst "dir" (newMemEvent (9, 3) "mem" 0 0 WriteResp 64).

(** Line 0 in I_B: the FlushLine of [A] is under way. *)
Definition dirIB : Dir SpecMSHR :=
  dirWaiting (request 1 FlushLine "A" 0) (mkDirEntry 0 St.I_B None [] true false).

Definition flushRespMem : MemEvent :=
  setFlags [F_NORESPONSE] (setDst "dir" (newMemEvent (9, 3) "mem" 0 0 FlushLineResp 64)).

(** Line 0 owned by [A] while the directory fetches it for the request
    [req] of [B]: one ack is awaited, from [A]. *)
Definition dirFetching (s : State) (req : MemEvent) : Dir SpecMSHR :=
  set_responses {[ 0 := {[ "A" := (100, 0) ]} ]}
    (set_mshr
       (SpecMSHROps.incrementAcksNeeded 0
          (SpecMSHROps.insertEvent 0 req (-1) false false mshr0).2)
       (set_directory {[ 0 := mkDirEntry 0 s (Some "A") [] true false ]} dir0)).

Definition dirMInv : Dir SpecMSHR := dirFetching St.M_Inv (request 1 GetX "B" 0).

Definition dirMInvX : Dir SpecMSHR := dirFetching St.M_InvX (request 1 GetS "B" 0).

(** The answers of [A]: a FetchResp and a FetchXResp with dirty data, and a
    PutM, a PutE and a PutX of its own. *)
Definition fromA (i : Z) (c : Command) (dirty : bool) : MemEvent :=
  setDirty dirty (setPayload [Byte.x2a] (request i c "A" 0)).

(** Line 0 in state I with an MSHR that is full. *)
Definition dirFull : Dir SpecMSHR := set_mshr (mkSpecMSHR ∅ 0 0) dirI.

(** The small system with at most one request handled per cycle. *)
Definition params1 : Params :=
  mkParams "dir" 64 4 2 MESI 3 1 1 false ∅ 0.

(** The command tables of the simulator, as far as the small system needs
    them: every command but the custom ones is of the cache type, and the
    requests are the commands that ask for something. *)
Definition isCacheType0 (c : Command) : bool :=
  match c with
  | CustomReq | CustomResp | CustomAck => false
  | _ => true
  end.

Definition isBasicRequest0 (c : Command) : bool :=
  match c with
  | GetS | GetX | GetSX | Write | PutS | PutM | PutE | PutX
  | FlushLine | FlushLineInv | FetchInv | FetchInvX | ForceInv | Inv | CustomReq => true
  | _ => false
  end.

(** The small system asleep: the clock is off since cycle 10. *)
Definition asleep : Component SpecMSHR := mkComponent dir0 ∅ [] false 10.

(** [st'] has the directory entries of [st] for every line but [a], and the
    same entry cache, clock and non-cacheable requests. *)
Definition keeps {T} (a : Addr) (st st' : Dir T) : Prop :=
  (∀ x, x ≠ a → directory st' !! x = directory st !! x)
  ∧ entryCache st' = entryCache st ∧ entryCacheSize st' = entryCacheSize st
  ∧ timestamp st' = timestamp st
  ∧ noncacheMemReqs st' = noncacheMemReqs st.

(** A step that leaves the directory, the entry cache, the clock and the
    non-cacheable requests alone. *)
Definition quiet {T} (f : Dir T → Dir T) : Prop :=
  ∀ st : Dir T, directory (f st) = directory st ∧ entryCache (f st) = entryCache st
        ∧ entryCacheSize (f st) = entryCacheSize st ∧ timestamp (f st) = timestamp st
        ∧ noncacheMemReqs (f st) = noncacheMemReqs st.

(** A step that may fail, and is quiet when it does not. *)
Definition quiet_if_done {T} (f : Dir T → result (Dir T)) : Prop :=
  ∀ st st' : Dir T, f st = Ret st' →
    directory st' = directory st ∧ entryCache st' = entryCache st
    ∧ entryCacheSize st' = entryCacheSize st ∧ timestamp st' = timestamp st
    ∧ noncacheMemReqs st' = noncacheMemReqs st.

(** Line 0 in S_Inv for the GetX of [C]: both sharers [A] and [B] were sent
    an Inv, and [A]'s is answered; the one ack left is [B]'s. *)
Definition dirLastAck : Dir SpecMSHR :=
  set_responses {[ 0 := {[ "B" := (101, 0) ]} ]}
    (set_mshr
       (SpecMSHROps.incrementAcksNeeded 0
          (SpecMSHROps.insertEvent 0 (request 1 GetX "C" 0) (-1) false false mshr0).2)
       (set_directory {[ 0 := mkDirEntry 0 St.S_Inv None ["B"] true false ]} dir0)).

(** Line 0 shared by [A], with clean data left in the MSHR by an earlier
    read. *)
Definition dirSdata : Dir SpecMSHR :=
  set_mshr (SpecMSHROps.setData 0 [Byte.x2a] false mshr0)
    (set_directory {[ 0 := entryC 0 false ]} dir0).

(** * Properties *)

(** The helpers stay folded under [simpl]; each has a lemma that says what
    it does. *)
#[global] Arguments u64 : simpl never.
#[global] Arguments getDirEntry : simpl never.
#[global] Arguments allocateMSHR : simpl never.
#[global] Arguments alloc_unless_inMSHR : simpl never.
#[global] Arguments retry_front_if_ready : simpl never.
#[global] Arguments cleanUpAfterRequest : simpl never.
#[global] Arguments cleanUpAfterResponse : simpl never.
#[global] Arguments forwardByAddress : simpl never.
#[global] Arguments forwardByDestination : simpl never.
#[global] Arguments sendEntryToMemory : simpl never.
#[global] Arguments issueMemoryRequest : simpl never.
#[global] Arguments record_response : simpl never.
#[global] Arguments issueFetch : simpl never.
#[global] Arguments issueInvalidation : simpl never.
#[global] Arguments issueInvalidations : simpl never.
#[global] Arguments sendDataResponse : simpl never.
#[global] Arguments writebackDataFromMSHR : simpl never.
#[global] Arguments sendFetchResponse : simpl never.
#[global] Arguments sendAckInv : simpl never.
#[global] Arguments sendNACK : simpl never.
#[global] Arguments retrieveDirEntry : simpl never.
#[global] Arguments erase_response : simpl never.

Lemma mm_insert_perm {A} (t : Z) (x : A) (q : list (Z * A)) :
  mm_insert t x q ≡ₚ (t, x) :: q.
Proof.
  induction q as [|[t' y] q IH]; simpl; [done|].
  case_decide; [done|]. rewrite IH. apply Permutation_swap.
Qed.

Lemma lookup_map_insert_new `{Countable K} {V} (k k' : K) (v : V) (m : gmap K V) :
  map_insert_new k v m !! k' =
    if decide (k = k') then Some (default v (m !! k)) else m !! k'.
Proof.
  unfold map_insert_new. destruct (m !! k) eqn:E; case_decide; subst; simpl;
    rewrite ?lookup_insert_eq, ?lookup_insert_ne by done; done.
Qed.

Section Facts.
Context {T : Type} `{MSHR T}.
Variable P : Params.
Variables cpuLink memLink : MemLinkBase.

Implicit Type st : Dir T.
Implicit Type ev : MemEvent.
Implicit Type entry : DirEntry.

Local Abbreviation forwardByDestination := (forwardByDestination cpuLink memLink).
Local Abbreviation forwardByAddress := (forwardByAddress cpuLink memLink).
Local Abbreviation route := (route cpuLink memLink).

Lemma expected_record_response a key i st d :
  expected a d (record_response a key i st) =
    if decide (key = d) then Some (default i (expected a key st)) else expected a d st.
Proof.
  unfold expected, record_response.
  destruct (responses st !! a) as [resp|] eqn:E; simpl;
    rewrite lookup_insert_eq; simpl.
  - apply lookup_map_insert_new.
  - case_decide; subst; [by rewrite lookup_singleton_eq|by rewrite lookup_singleton_ne].
Qed.

Lemma record_response_frame a key i st :
  timestamp (record_response a key i st) = timestamp st
  ∧ directory (record_response a key i st) = directory st
  ∧ mshr (record_response a key i st) = mshr st
  ∧ retryBuffer (record_response a key i st) = retryBuffer st
  ∧ outgoing (record_response a key i st) = outgoing st
  ∧ nextEventID (record_response a key i st) = nextEventID st.
Proof. unfold record_response, outgoing. by destruct (responses st !! a). Qed.

(** What [forwardByDestination] does when the destination is known. *)
Lemma forwardByDestination_reachable ev ts da st :
  isReachable cpuLink (getDst ev) || isReachable memLink (getDst ev) = true →
  ∃ st', forwardByDestination ev ts da st = Ret st'
    ∧ outgoing st' ≡ₚ (ts, ev) :: outgoing st
    ∧ timestamp st' = timestamp st ∧ directory st' = directory st
    ∧ entryCache st' = entryCache st ∧ entryCacheSize st' = entryCacheSize st
    ∧ mshr st' = mshr st ∧ responses st' = responses st
    ∧ retryBuffer st' = retryBuffer st
    ∧ noncacheMemReqs st' = noncacheMemReqs st
    ∧ dirMemAccesses st' = dirMemAccesses st ∧ nextEventID st' = nextEventID st.
Proof.
  intros Hr. unfold forwardByDestination, outgoing.
  destruct (isReachable cpuLink (getDst ev)) eqn:Ec.
  - eexists; split; [done|]. simpl. split_and!; try done.
    by rewrite mm_insert_perm.
  - simpl in Hr. rewrite Hr. eexists; split; [done|]. simpl. split_and!; try done.
    rewrite mm_insert_perm. simpl. by rewrite Permutation_middle.
Qed.

(** [issueFetch] records the fetch under its destination. *)
Lemma issueFetch_records_destination ev entry c st :
  isReachable cpuLink (getOwner entry) || isReachable memLink (getOwner entry) = true →
  expected (getBaseAddr ev) (getOwner entry) st = None →
  ∃ st' fetch,
    issueFetch P cpuLink memLink ev entry c st = Ret st'
    ∧ outgoing st' ≡ₚ (u64 (timestamp st + accessLatency P), fetch) :: outgoing st
    ∧ getCmd fetch = c ∧ getDst fetch = getOwner entry
    ∧ expected (getBaseAddr ev) (getDst fetch) st' = Some (getID fetch).
Proof.
  intros Hr Hnone.
  set (a := getBaseAddr ev).
  set (fetch := setDst (getOwner entry)
                  (newMemEvent (nextEventID st, rank P) (getName P) (getAddr ev) a c (lineSize P))).
  set (st0 := record_response a (getOwner entry) (getID fetch)
                (set_nextEventID (nextEventID st + 1) st)).
  set (st1 := set_mshr (incrementAcksNeeded a (mshr st0)) st0).
  destruct (record_response_frame a (getOwner entry) (getID fetch)
              (set_nextEventID (nextEventID st + 1) st))
    as (Ets & _ & _ & _ & Eo & _).
  fold st0 in Ets, Eo. change (timestamp st0) with (timestamp st1) in Ets.
  change (timestamp (set_nextEventID (nextEventID st + 1) st)) with (timestamp st) in Ets.
  change (outgoing st0) with (outgoing st1) in Eo.
  change (outgoing (set_nextEventID (nextEventID st + 1) st)) with (outgoing st) in Eo.
  assert (issueFetch P cpuLink memLink ev entry c st
          = forwardByDestination fetch (u64 (timestamp st1 + accessLatency P)) false st1)
    as -> by reflexivity.
  rewrite Ets.
  destruct (forwardByDestination_reachable fetch
              (u64 (timestamp st + accessLatency P)) false st1)
    as (st' & -> & Hout & _ & _ & _ & _ & _ & Hresp & _); [done|].
  exists st', fetch. split_and!; try done.
  { by rewrite Hout, Eo. }
  unfold expected at 1. rewrite Hresp.
  change (responses st1) with (responses st0).
  pose proof (expected_record_response a (getOwner entry) (getID fetch)
                (set_nextEventID (nextEventID st + 1) st) (getOwner entry)) as E.
  unfold expected in E at 1. fold st0 in E. simpl getDst. rewrite E.
  rewrite decide_True by done.
  change (expected a (getOwner entry) (set_nextEventID (nextEventID st + 1) st))
    with (expected (getBaseAddr ev) (getOwner entry) st).
  by rewrite Hnone.
Qed.

(** [issueInvalidation] records the invalidation under the owner of the
    entry, whatever the destination is. *)
Lemma issueInvalidation_records_owner d evp entry c st :
  isReachable cpuLink d || isReachable memLink d = true →
  ∃ st' inv,
    issueInvalidation P cpuLink memLink d evp entry c st = Ret st'
    ∧ outgoing st' ≡ₚ (u64 (timestamp st + accessLatency P), inv) :: outgoing st
    ∧ getCmd inv = c ∧ getDst inv = d
    ∧ getSrc inv = getName P ∧ getBaseAddr inv = getEntryBaseAddr entry
    ∧ getID inv = (nextEventID st, rank P)
    ∧ nextEventID st' = nextEventID st + 1
    ∧ mshr st' = incrementAcksNeeded (getEntryBaseAddr entry) (mshr st)
    ∧ directory st' = directory st
    ∧ retryBuffer st' = retryBuffer st
    ∧ timestamp st' = timestamp st
    ∧ ∀ k, expected (getEntryBaseAddr entry) k st' =
        if decide (getOwner entry = k)
        then Some (default (getID inv) (expected (getEntryBaseAddr entry) (getOwner entry) st))
        else expected (getEntryBaseAddr entry) k st.
Proof.
  intros Hr.
  set (a := getEntryBaseAddr entry).
  set (inv0 := newMemEvent (nextEventID st, rank P) (getName P) a a c (lineSize P)).
  set (inv := setDst d (match evp with
                        | Some ev => copyMetadata ev inv0
                        | None => setRqstr (getName P) inv0
                        end)).
  set (st0 := set_mshr (incrementAcksNeeded a (mshr st))
                (set_nextEventID (nextEventID st + 1) st)).
  set (st1 := record_response a (getOwner entry) (getID inv) st0).
  destruct (record_response_frame a (getOwner entry) (getID inv) st0)
    as (Ets & Edir & Em & Erb & Eo & Eid).
  fold st1 in Ets, Edir, Em, Erb, Eo, Eid. simpl in Ets, Edir, Em, Erb, Eid.
  change (outgoing st0) with (outgoing st) in Eo.
  assert (issueInvalidation P cpuLink memLink d evp entry c st
          = forwardByDestination inv (u64 (timestamp st1 + accessLatency P)) false st1)
    as -> by reflexivity.
  rewrite Ets.
  assert (getDst inv = d) as Ed by (unfold inv; by destruct evp).
  destruct (forwardByDestination_reachable inv
              (u64 (timestamp st + accessLatency P)) false st1)
    as (st' & -> & Hout & Hts & Hd & _ & _ & Hm & Hresp & Hrb & _ & _ & Hid);
    [by rewrite Ed|].
  exists st', inv. split_and!; try congruence.
  - unfold inv; by destruct evp.
  - unfold inv; by destruct evp.
  - unfold inv; by destruct evp.
  - unfold inv; by destruct evp.
  - intros k. unfold expected at 1. rewrite Hresp.
    apply (expected_record_response a (getOwner entry) (getID inv) st0 k).
Qed.

(** ** The front of the MSHR after a clean-up *)

Lemma retry_front_if_ready_spec a st :
  timestamp (retry_front_if_ready a st) = timestamp st
  ∧ directory (retry_front_if_ready a st) = directory st
  ∧ entryCache (retry_front_if_ready a st) = entryCache st
  ∧ entryCacheSize (retry_front_if_ready a st) = entryCacheSize st
  ∧ mshr (retry_front_if_ready a st) = mshr st
  ∧ responses (retry_front_if_ready a st) = responses st
  ∧ cpuMsgQueue (retry_front_if_ready a st) = cpuMsgQueue st
  ∧ memMsgQueue (retry_front_if_ready a st) = memMsgQueue st
  ∧ noncacheMemReqs (retry_front_if_ready a st) = noncacheMemReqs st
  ∧ dirMemAccesses (retry_front_if_ready a st) = dirMemAccesses st
  ∧ nextEventID (retry_front_if_ready a st) = nextEventID st
  ∧ retryBuffer (retry_front_if_ready a st) =
      retryBuffer st ++
      (if exists_ a (mshr st) && bool_decide (getFrontType a (mshr st) = Some Event)
          && negb (getInProgress a (mshr st))
          && bool_decide (getAcksNeeded a (mshr st) = 0)
       then [getFrontEvent a (mshr st)] else []).
Proof.
  unfold retry_front_if_ready.
  destruct (exists_ a (mshr st)), (bool_decide (getFrontType a (mshr st) = Some Event)),
    (getInProgress a (mshr st)), (bool_decide (getAcksNeeded a (mshr st) = 0));
    simpl; rewrite ?app_nil_r; done.
Qed.

(** C10: after [cleanUpAfterRequest] or [cleanUpAfterResponse] has removed
    the front MSHR entry of an address, if the MSHR still has entries for
    the address and the new front is an event that is not in progress and
    needs no acks, that event is at the end of the retry buffer. *)
Theorem C10_ready_front_is_retried ev (inMSHR : bool) st st' :
  st' = cleanUpAfterRequest ev inMSHR st ∨ st' = cleanUpAfterResponse ev inMSHR st →
  exists_ (getBaseAddr ev) (mshr st') = true →
  getFrontType (getBaseAddr ev) (mshr st') = Some Event →
  getInProgress (getBaseAddr ev) (mshr st') = false →
  getAcksNeeded (getBaseAddr ev) (mshr st') = 0 →
  retryBuffer st' = retryBuffer st ++ [getFrontEvent (getBaseAddr ev) (mshr st')]
  ∧ (st' = cleanUpAfterResponse ev inMSHR st →
     mshr st' = removeFront (getBaseAddr ev) (mshr st))
  ∧ (st' = cleanUpAfterRequest ev inMSHR st → inMSHR = true →
     mshr st' = if bool_decide (getFrontType (getBaseAddr ev) (mshr st) = Some Event)
                then removeFront (getBaseAddr ev) (mshr st)
                else removeEntry (getBaseAddr ev) 1 (mshr st)).
Proof.
  intros Hst He Hty Hip Hacks.
  assert (∀ st1, st' = retry_front_if_ready (getBaseAddr ev) st1 →
                 retryBuffer st' = retryBuffer st1 ++ [getFrontEvent (getBaseAddr ev) (mshr st')]
                 ∧ mshr st' = mshr st1) as Hkey.
  { intros st1 ->.
    destruct (retry_front_if_ready_spec (getBaseAddr ev) st1)
      as (_ & _ & _ & _ & Hm & _ & _ & _ & _ & _ & _ & Hrb).
    rewrite Hm in *. rewrite Hrb, He, Hty, Hip, Hacks.
    rewrite !bool_decide_eq_true_2 by done. done. }
  split_and!.
  - destruct Hst as [E|E].
    + destruct (Hkey _ E) as [-> _]. f_equal.
      by destruct inMSHR, (bool_decide (getFrontType (getBaseAddr ev) (mshr st) = Some Event)).
    + by destruct (Hkey _ E) as [-> _].
  - intros E. by destruct (Hkey _ E) as [_ ->].
  - intros E ->. destruct (Hkey _ E) as [_ ->]. by case_bool_decide.
Qed.

Lemma getDirEntry_spec a st :
  (getDirEntry a st).1 = entry_view a st
  ∧ directory (getDirEntry a st).2 = <[a := entry_view a st]> (directory st)
  ∧ timestamp (getDirEntry a st).2 = timestamp st
  ∧ entryCache (getDirEntry a st).2 = entryCache st
  ∧ entryCacheSize (getDirEntry a st).2 = entryCacheSize st
  ∧ mshr (getDirEntry a st).2 = mshr st
  ∧ responses (getDirEntry a st).2 = responses st
  ∧ retryBuffer (getDirEntry a st).2 = retryBuffer st
  ∧ cpuMsgQueue (getDirEntry a st).2 = cpuMsgQueue st
  ∧ memMsgQueue (getDirEntry a st).2 = memMsgQueue st
  ∧ noncacheMemReqs (getDirEntry a st).2 = noncacheMemReqs st
  ∧ dirMemAccesses (getDirEntry a st).2 = dirMemAccesses st
  ∧ nextEventID (getDirEntry a st).2 = nextEventID st.
Proof.
  unfold getDirEntry, entry_view.
  destruct (directory st !! a) as [e|] eqn:E; simpl; split_and!; try done.
  by rewrite insert_id.
Qed.

Lemma getDirEntry_present a st e :
  directory st !! a = Some e → getDirEntry a st = (e, st).
Proof. unfold getDirEntry. by intros ->. Qed.


(** ** The non-cacheable pass-through *)

Lemma forwardByAddress_routed ev ts da st :
  route (getRoutingAddress ev) ≠ "" →
  ∃ st', forwardByAddress ev ts da st = Ret st'
    ∧ outgoing st' ≡ₚ (ts, setDst (route (getRoutingAddress ev)) ev) :: outgoing st
    ∧ timestamp st' = timestamp st ∧ directory st' = directory st
    ∧ entryCache st' = entryCache st ∧ entryCacheSize st' = entryCacheSize st
    ∧ mshr st' = mshr st ∧ responses st' = responses st
    ∧ retryBuffer st' = retryBuffer st
    ∧ noncacheMemReqs st' = noncacheMemReqs st
    ∧ dirMemAccesses st' = dirMemAccesses st ∧ nextEventID st' = nextEventID st.
Proof.
  unfold route, forwardByAddress, outgoing. intros Hr.
  destruct (decide (findTargetDestination memLink (getRoutingAddress ev) ≠ "")).
  - eexists; split; [done|]. simpl. split_and!; try done.
    rewrite mm_insert_perm. simpl. by rewrite Permutation_middle.
  - rewrite decide_True by done.
    eexists; split; [done|]. simpl. split_and!; try done.
    by rewrite mm_insert_perm.
Qed.

Lemma forwardByAddress_unrouted ev ts da st :
  route (getRoutingAddress ev) = "" → forwardByAddress ev ts da st = Fatal.
Proof.
  unfold route, forwardByAddress. intros Hr.
  destruct (decide (findTargetDestination memLink (getRoutingAddress ev) ≠ "")); [done|].
  by rewrite decide_False by (by intros ?).
Qed.

(** C7, as the code has it: a non-cacheable request is recorded under its
    id with its original source unless it carries F_NORESPONSE, gets the
    directory as source and is forwarded by address one cycle later; a
    non-cacheable response with a pending record gets the recorded source
    as destination, the directory as source, is forwarded by destination
    one cycle later and its record is erased; a response without a record
    is fatal. *)
Theorem C7_noncacheable_pass_through ev st :
  (route (getRoutingAddress ev) ≠ "" →
   ∃ st', handleNoncacheableRequest P cpuLink memLink ev st = Ret st'
     ∧ noncacheMemReqs st' =
         (if queryFlag ev F_NORESPONSE then noncacheMemReqs st
          else <[getID ev := getSrc ev]> (noncacheMemReqs st))
     ∧ outgoing st' ≡ₚ
         (u64 (timestamp st + 1),
          setDst (route (getRoutingAddress ev)) (setSrc (getName P) ev)) :: outgoing st
     ∧ directory st' = directory st ∧ mshr st' = mshr st
     ∧ responses st' = responses st ∧ retryBuffer st' = retryBuffer st)
  ∧ (∀ origSrc,
       noncacheMemReqs st !! getID ev = Some origSrc →
       isReachable cpuLink origSrc || isReachable memLink origSrc = true →
       ∃ st', handleNoncacheableResponse P cpuLink memLink ev st = Ret st'
         ∧ noncacheMemReqs st' = delete (getID ev) (noncacheMemReqs st)
         ∧ outgoing st' ≡ₚ
             (u64 (timestamp st + 1), setSrc (getName P) (setDst origSrc ev)) :: outgoing st
         ∧ directory st' = directory st ∧ mshr st' = mshr st
         ∧ responses st' = responses st ∧ retryBuffer st' = retryBuffer st)
  ∧ (noncacheMemReqs st !! getID ev = None →
     handleNoncacheableResponse P cpuLink memLink ev st = Fatal).
Proof.
  split_and!.
  - intros Hr. unfold handleNoncacheableRequest.
    set (st1 := if negb (queryFlag ev F_NORESPONSE) then _ else st).
    assert (timestamp st1 = timestamp st ∧ outgoing st1 = outgoing st
            ∧ directory st1 = directory st ∧ mshr st1 = mshr st
            ∧ responses st1 = responses st ∧ retryBuffer st1 = retryBuffer st
            ∧ noncacheMemReqs st1 =
                (if queryFlag ev F_NORESPONSE then noncacheMemReqs st
                 else <[getID ev := getSrc ev]> (noncacheMemReqs st)))
      as (Ets & Eo & Ed & Em & Er & Erb & Enc)
      by (unfold st1; by destruct (queryFlag ev F_NORESPONSE)).
    destruct (forwardByAddress_routed (setSrc (getName P) ev)
                (u64 (timestamp st1 + 1)) false st1)
      as (st' & -> & Hout & _ & Hd & _ & _ & Hm & Hresp & Hrb & Hnc & _); [done|].
    exists st'. split; [done|]. rewrite Hout, Ets, Eo.
    split_and!; first [done | congruence].
  - intros origSrc Hsome Hreach. unfold handleNoncacheableResponse. rewrite Hsome.
    set (ev' := setSrc (getName P) (setDst origSrc ev)).
    set (st1 := set_noncacheMemReqs _ st).
    destruct (forwardByDestination_reachable ev' (u64 (timestamp st1 + 1)) false st1)
      as (st' & -> & Hout & _ & Hd & _ & _ & Hm & Hresp & Hrb & Hnc & _); [done|].
    exists st'. split; [done|]. rewrite Hout, Hd, Hm, Hresp, Hrb, Hnc. done.
  - intros Hnone. unfold handleNoncacheableResponse. by rewrite Hnone.
Qed.

(** ** NACKs *)

(** C2, as the code has it: the NACK of a GetS, GetX, GetSX, PutM,
    FlushLine or FlushLineInv is always handed to [forwardByDestination]
    again; the NACK of a FetchInv, FetchInvX, Inv or ForceInv is handed to
    it again exactly when [responses] holds the id of the nacked event
    under its destination, and is dropped otherwise.  A drop enqueues
    nothing and changes no entry, MSHR line, response record or buffer;
    its one effect is that of the [getDirEntry] the handler starts with,
    which creates an entry in state I when the address has none. *)
Theorem C2_handleNACK_retry_or_drop ev (inMSHR : bool) st nacked :
  getNACKedEvent ev = Some nacked →
  let a := getBaseAddr ev in
  let st0 := (getDirEntry a st).2 in
  let resend :=
    do st' <- forwardByDestination nacked (u64 (timestamp st + mshrLatency P)) false st0;
    Ret (true, st') in
  (getCmd nacked ∈ [GetS; GetX; GetSX; PutM; FlushLine; FlushLineInv] →
   handleNACK P cpuLink memLink ev inMSHR st = resend)
  ∧ (getCmd nacked ∈ [FetchInv; FetchInvX; Inv; ForceInv] →
     (expected a (getDst nacked) st = Some (getID nacked) →
      handleNACK P cpuLink memLink ev inMSHR st = resend)
     ∧ (expected a (getDst nacked) st ≠ Some (getID nacked) →
        handleNACK P cpuLink memLink ev inMSHR st = Ret (true, st0)))
  ∧ (isReachable cpuLink (getDst nacked) || isReachable memLink (getDst nacked) = true →
     ∃ st', resend = Ret (true, st')
       ∧ outgoing st' ≡ₚ (u64 (timestamp st + mshrLatency P), nacked) :: outgoing st
       ∧ mshr st' = mshr st ∧ responses st' = responses st
       ∧ retryBuffer st' = retryBuffer st)
  ∧ (is_Some (directory st !! a) → st0 = st)
  ∧ (directory st0 = <[a := entry_view a st]> (directory st)
     ∧ outgoing st0 = outgoing st ∧ mshr st0 = mshr st
     ∧ responses st0 = responses st ∧ retryBuffer st0 = retryBuffer st
     ∧ entryCache st0 = entryCache st ∧ entryCacheSize st0 = entryCacheSize st).
Proof.
  intros Hn a st0 resend.
  destruct (getDirEntry_spec a st)
    as (He & Hd & Hts & Hec & Hecs & Hm & Hr & Hrb & Hcq & Hmq & Hnc & Hdm & Hid).
  fold st0 in Hd, Hts, Hec, Hecs, Hm, Hr, Hrb, Hcq, Hmq, Hnc, Hdm, Hid.
  assert (∀ b, handleNACK P cpuLink memLink ev b st =
            match getCmd nacked with
            | GetS | GetX | GetSX | PutM | FlushLine | FlushLineInv => resend
            | FetchInv | FetchInvX | Inv | ForceInv =>
                if response_expected a nacked st0 then resend else Ret (true, st0)
            | _ => Fatal
            end) as Heq.
  { intros b. unfold handleNACK. fold a. unfold resend. clear resend.
    revert Hts. unfold st0. clear -Hn.
    destruct (getDirEntry a st) as [entry st1]. intros Hts. rewrite Hn. simpl.
    simpl in Hts. rewrite Hts. by destruct (getCmd nacked). }
  assert (response_expected a nacked st0
          = bool_decide (expected a (getDst nacked) st = Some (getID nacked))) as Hexp.
  { unfold response_expected, expected. rewrite Hr.
    destruct (responses st !! a) as [resp|]; simpl; [|done].
    destruct (resp !! getDst nacked) as [i|]; simpl; [|done].
    apply bool_decide_ext. split; congruence. }
  split; [|split; [|split; [|split]]].
  - intros Hin. rewrite Heq.
    repeat (apply elem_of_cons in Hin as [->|Hin]; [done|]). by apply elem_of_nil in Hin.
  - intros Hin. rewrite Heq, Hexp. split; intros Hx.
    + rewrite bool_decide_eq_true_2 by done.
      repeat (apply elem_of_cons in Hin as [->|Hin]; [done|]). by apply elem_of_nil in Hin.
    + rewrite bool_decide_eq_false_2 by done.
      repeat (apply elem_of_cons in Hin as [->|Hin]; [done|]). by apply elem_of_nil in Hin.
  - intros Hreach. unfold resend.
    destruct (forwardByDestination_reachable nacked
                (u64 (timestamp st + mshrLatency P)) false st0)
      as (st' & -> & Hout & _ & _ & _ & _ & Hm' & Hr' & Hrb' & _); [done|].
    exists st'. split; [done|]. rewrite Hout. unfold outgoing. rewrite Hcq, Hmq.
    split_and!; first [done | congruence].
  - intros [e Hsome]. unfold st0. by rewrite (getDirEntry_present a st e).
  - unfold outgoing. rewrite Hcq, Hmq. split_and!; done.
Qed.

(** ** AckInv *)

Lemma erase_response_spec a s st resp :
  responses st !! a = Some resp →
  ∃ st', erase_response a s st = Ret st'
    ∧ responses st' =
        (if decide (delete s resp = ∅) then delete a (responses st)
         else <[a := delete s resp]> (responses st))
    ∧ timestamp st' = timestamp st ∧ directory st' = directory st
    ∧ entryCache st' = entryCache st ∧ entryCacheSize st' = entryCacheSize st
    ∧ mshr st' = mshr st ∧ retryBuffer st' = retryBuffer st
    ∧ cpuMsgQueue st' = cpuMsgQueue st ∧ memMsgQueue st' = memMsgQueue st
    ∧ noncacheMemReqs st' = noncacheMemReqs st
    ∧ dirMemAccesses st' = dirMemAccesses st ∧ nextEventID st' = nextEventID st.
Proof.
  intros E. unfold erase_response. rewrite E.
  destruct (decide (delete s resp = ∅)); eexists; split_and!; done.
Qed.

(** C5, as the code has it: on AckInv the acking source is removed from
    the sharers if it is one, else the owner is removed, and the ack count
    is decremented.  When the count is not yet zero nothing else happens.
    When it is, the entry moves as the spec lists (M_Inv to I, S_Inv to S
    or I, SB_Inv to S_B or I, SD_Inv to S_D or IS, SM_Inv to IM) and the
    front MSHR event is pushed onto the retry buffer, except from SM_Inv,
    where nothing is pushed; in any other state the AckInv is fatal. *)
Theorem C5_handleAckInv ev (inMSHR : bool) st resp :
  responses st !! getBaseAddr ev = Some resp →
  let a := getBaseAddr ev in
  let entry0 := entry_view a st in
  let entry1 := if isSharer (getSrc ev) entry0
                then removeSharer (getSrc ev) entry0 else removeOwner entry0 in
  let done := (decrementAcksNeeded a (mshr st)).1 in
  let m1 := (decrementAcksNeeded a (mshr st)).2 in
  match (if done then spec_AckInv_next (getState entry0) (hasSharers entry1)
         else Some (getState entry0)) with
  | Some next =>
      ∃ st', handleAckInv ev inMSHR st = Ret (true, st')
        ∧ directory st' = <[a := setState next entry1]> (directory st)
        ∧ mshr st' = m1
        ∧ retryBuffer st' =
            retryBuffer st ++
            (if done && negb (bool_decide (getState entry0 = St.SM_Inv))
             then [getFrontEvent a m1] else [])
        ∧ responses st' =
            (if decide (delete (getSrc ev) resp = ∅) then delete a (responses st)
             else <[a := delete (getSrc ev) resp]> (responses st))
        ∧ cpuMsgQueue st' = cpuMsgQueue st ∧ memMsgQueue st' = memMsgQueue st
  | None => handleAckInv ev inMSHR st = Fatal
  end.
Proof.
  intros Hresp a entry0 entry1 done m1.
  unfold handleAckInv. fold a.
  destruct (getDirEntry_spec a st)
    as (He & Hd & Hts & Hec & Hecs & Hm & Hr & Hrb & Hcq & Hmq & Hnc & Hdm & Hid).
  destruct (getDirEntry a st) as [entry st0]. simpl in *. subst entry.
  fold entry0. fold entry1.
  rewrite Hm.
  change (decrementAcksNeeded a (mshr st)) with
    ((decrementAcksNeeded a (mshr st)).1, (decrementAcksNeeded a (mshr st)).2)
    || rewrite (surjective_pairing (decrementAcksNeeded a (mshr st))).
  fold done. fold m1.
  destruct (erase_response_spec a (getSrc ev) (set_mshr m1 (store a entry1 st0)) resp)
    as (st1 & -> & Hr1 & Hts1 & Hd1 & Hec1 & Hecs1 & Hm1 & Hrb1 & Hcq1 & Hmq1 & _);
    [simpl; rewrite Hr; exact Hresp|].
  simpl in *.
  assert (∀ e, <[a := e]> (directory st1) = <[a := e]> (directory st)) as Hins.
  { intros e. rewrite Hd1, Hd. by rewrite !insert_insert_eq. }
  rewrite Hr in Hr1.
  destruct done; simpl.
  - destruct (getState entry0) eqn:Es; simpl; try done;
      eexists; (split; [reflexivity|]); simpl; rewrite ?Hins, ?Hm1, ?app_nil_r;
      destruct (hasSharers entry1); split_and!; congruence.
  - eexists; split; [reflexivity|]. rewrite app_nil_r.
    split_and!; try congruence.
    rewrite Hd1, Hd, insert_insert_eq. f_equal.
    unfold setState, entry1. by destruct (isSharer (getSrc ev) entry0), entry0.
Qed.

(** ** Read miss *)

Lemma only_sent_refl st : only_sent st st.
Proof. by unfold only_sent. Qed.

Lemma only_sent_trans st1 st2 st3 :
  only_sent st1 st2 → only_sent st2 st3 → only_sent st1 st3.
Proof.
  unfold only_sent.
  intros (?&?&?&?&?&?&?&?) (?&?&?&?&?&?&?&?). split_and!; congruence.
Qed.

Lemma forwardByDestination_sent ev ts da st :
  isReachable cpuLink (getDst ev) || isReachable memLink (getDst ev) = true →
  ∃ st', forwardByDestination ev ts da st = Ret st'
    ∧ outgoing st' ≡ₚ (ts, ev) :: outgoing st
    ∧ mshr st' = mshr st ∧ nextEventID st' = nextEventID st
    ∧ only_sent st st'.
Proof.
  intros Hr. destruct (forwardByDestination_reachable ev ts da st Hr)
    as (st' & E & Ho & ? & ? & ? & ? & ? & ? & ? & ? & ? & ?).
  exists st'. unfold only_sent. split_and!; done.
Qed.

Lemma forwardByAddress_sent ev ts da st :
  route (getRoutingAddress ev) ≠ "" →
  ∃ st', forwardByAddress ev ts da st = Ret st'
    ∧ outgoing st' ≡ₚ (ts, setDst (route (getRoutingAddress ev)) ev) :: outgoing st
    ∧ mshr st' = mshr st ∧ nextEventID st' = nextEventID st
    ∧ only_sent st st'.
Proof.
  intros Hr. destruct (forwardByAddress_routed ev ts da st Hr)
    as (st' & E & Ho & ? & ? & ? & ? & ? & ? & ? & ? & ? & ?).
  exists st'. unfold only_sent. split_and!; done.
Qed.

Lemma issueMemoryRequest_spec ev entry (lg : bool) st :
  route (getRoutingAddress ev) ≠ "" →
  ∃ st', issueMemoryRequest P cpuLink memLink ev entry lg st = Ret st'
    ∧ outgoing st' ≡ₚ
        (u64 (timestamp st + accessLatency P),
         setDst (route (getRoutingAddress ev))
           (if lg then setSize (lineSize P) (setSrc (getName P) ev)
            else setSrc (getName P) ev)) :: outgoing st
    ∧ mshr st' = setInProgress (getEntryBaseAddr entry) (mshr st)
    ∧ nextEventID st' = nextEventID st
    ∧ only_sent st st'.
Proof.
  intros Hr. unfold issueMemoryRequest, cloneMemEvent.
  set (req := if lg then _ else _).
  destruct (forwardByAddress_sent req (u64 (timestamp st + accessLatency P)) false st)
    as (st' & -> & Ho & Hm & Hid & Hs).
  { unfold req. by destruct lg. }
  eexists; split; [reflexivity|]. split_and!.
  - replace (getRoutingAddress req) with (getRoutingAddress ev) in Ho
      by (unfold req; by destruct lg).
    unfold outgoing in *. simpl. exact Ho.
  - simpl. by rewrite Hm.
  - done.
  - unfold only_sent in *. simpl. done.
Qed.

Lemma sendDataResponse_spec ev entry data c fl st :
  isReachable cpuLink (getSrc ev) || isReachable memLink (getSrc ev) = true →
  ∃ st', sendDataResponse P cpuLink memLink ev entry data c fl st = Ret st'
    ∧ outgoing st' ≡ₚ
        (u64 (timestamp st + mshrLatency P),
         setMemFlags fl (setPayload data (setSize (lineSize P)
           (makeResponseCmd (nextEventID st, rank P) c ev)))) :: outgoing st
    ∧ mshr st' = mshr st
    ∧ nextEventID st' = nextEventID st + 1
    ∧ only_sent st st'.
Proof.
  intros Hr. unfold sendDataResponse. simpl.
  set (resp := setMemFlags _ _).
  destruct (forwardByDestination_sent resp (u64 (timestamp st + mshrLatency P)) false
              (set_nextEventID (nextEventID st + 1) st))
    as (st' & -> & Ho & Hm & Hid & Hs); [done|].
  exists st'. split; [reflexivity|]. split_and!; done.
Qed.

(** C8, as the code has it, under MESI.  A GetS to a cached entry in
    state I with no data buffered in the MSHR, which is replayed from the
    MSHR or is given the MSHR front on arrival, moves the entry to IS and
    sends the request to memory with the directory as source and the size
    of a line, after the access latency.  A GetXResp in state IS whose
    requester (the front MSHR event's source) is coherent moves the entry
    to M with the requester as owner and sends the requester a GetXResp
    with the payload, after the MSHR latency. *)
Theorem C8_read_miss_MESI ev (inMSHR : bool) st :
  protocol P = MESI →
  let a := getBaseAddr ev in
  let entry := entry_view a st in
  (isCached entry = true → getState entry = St.I →
   hasData a (mshr st) = false →
   inMSHR = true ∨ (insertEvent a ev pos_default false false (mshr st)).1 = 0 →
   route (getRoutingAddress ev) ≠ "" →
   ∃ st', handleGetS P cpuLink memLink ev inMSHR st = Ret (true, st')
     ∧ directory st' = <[a := setState St.IS entry]> (directory st)
     ∧ outgoing st' ≡ₚ
         (u64 (timestamp st + accessLatency P),
          setDst (route (getRoutingAddress ev))
            (setSize (lineSize P) (setSrc (getName P) ev))) :: outgoing st
     ∧ mshr st' =
         setInProgress (getEntryBaseAddr entry)
           (if inMSHR then mshr st
            else (insertEvent a ev pos_default false false (mshr st)).2)
     ∧ retryBuffer st' = retryBuffer st ∧ responses st' = responses st)
  ∧ (∀ reqEv,
       getState entry = St.IS →
       getFrontEvent a (mshr st) = Some reqEv →
       isIncoherent P (getSrc reqEv) = false →
       isReachable cpuLink (getSrc reqEv) || isReachable memLink (getSrc reqEv) = true →
       ∃ st' resp, handleGetXResp P cpuLink memLink ev inMSHR st = Ret (true, st')
         ∧ directory st' = <[a := setOwner (getSrc reqEv) (setState St.M entry)]> (directory st)
         ∧ outgoing st' ≡ₚ (u64 (timestamp st + mshrLatency P), resp) :: outgoing st
         ∧ getCmd resp = GetXResp ∧ getDst resp = getSrc reqEv
         ∧ getPayload resp = getPayload ev ∧ getSize resp = lineSize P
         ∧ getResponseToID resp = getID reqEv
         ∧ mshr st' = removeFront a (mshr st)
         ∧ retryBuffer st' =
             retryBuffer st ++
             (if exists_ a (mshr st')
                 && bool_decide (getFrontType a (mshr st') = Some Event)
                 && negb (getInProgress a (mshr st'))
                 && bool_decide (getAcksNeeded a (mshr st') = 0)
              then [getFrontEvent a (mshr st')] else [])).
Proof.
  intros Hmesi a entry.
  destruct (getDirEntry_spec a st)
    as (He & Hd & Hts & Hec & Hecs & Hm & Hr & Hrb & Hcq & Hmq & Hnc & Hdm & Hid).
  assert (outgoing (getDirEntry a st).2 = outgoing st) as Hout
    by (unfold outgoing; by rewrite Hcq, Hmq).
  split.
  - intros Hcached Hstate Hdata Hfront Hroute.
    unfold handleGetS. fold a.
    destruct (getDirEntry a st) as [e st0]. simpl in *. subst e. fold entry.
    rewrite Hcached, Hstate. simpl. rewrite Hm, Hdata. simpl.
    rewrite Hm, Hdata. simpl.
    set (st1 := (alloc_unless_inMSHR ev inMSHR false pos_default st0).2).
    assert (alloc_unless_inMSHR ev inMSHR false pos_default st0 = (OK, st1)
            ∧ mshr st1 = (if inMSHR then mshr st
                          else (insertEvent a ev pos_default false false (mshr st)).2)
            ∧ outgoing st1 = outgoing st0 ∧ timestamp st1 = timestamp st0
            ∧ directory st1 = directory st0 ∧ retryBuffer st1 = retryBuffer st0
            ∧ responses st1 = responses st0) as (Ea & Hm1 & Ho1 & Hts1 & Hd1 & Hrb1 & Hr1).
    { unfold st1, alloc_unless_inMSHR, allocateMSHR. fold a. rewrite Hm.
      destruct inMSHR; [done|].
      destruct Hfront as [?|Hz]; [done|].
      destruct (insertEvent a ev pos_default false false (mshr st)) as [p m] eqn:Ei.
      simpl in Hz. subst p. simpl. done. }
    rewrite Ea. simpl.
    destruct (issueMemoryRequest_spec ev entry true st1 Hroute)
      as (st2 & -> & Ho2 & Hm2 & Hid2 & Hs2).
    simpl. eexists; split; [reflexivity|]. unfold only_sent in Hs2. simpl.
    split_and!.
    + destruct Hs2 as (_ & -> & _). by rewrite Hd1, Hd, insert_insert_eq.
    + unfold outgoing in *. simpl. rewrite Ho2, Hts1, Hts, Ho1, Hout. done.
    + by rewrite Hm2, Hm1.
    + destruct Hs2 as (_ & _ & _ & _ & _ & -> & _). congruence.
    + destruct Hs2 as (_ & _ & _ & _ & -> & _). congruence.
  - intros reqEv Hstate Hfr Hcoh Hreach.
    unfold handleGetXResp. fold a.
    destruct (getDirEntry a st) as [e st0]. simpl in *. subst e. fold entry.
    rewrite Hstate, Hm, Hfr. simpl. rewrite Hcoh. rewrite decide_True by done.
    set (entryM := setOwner (getSrc reqEv) (setState St.M entry)).
    destruct (sendDataResponse_spec reqEv entryM (getPayload ev) GetXResp 0
                (store a entryM st0) Hreach)
      as (st2 & -> & Ho2 & Hm2 & Hid2 & Hs2).
    simpl. eexists _, _; split; [reflexivity|].
    unfold cleanUpAfterResponse. fold a.
    destruct (retry_front_if_ready_spec a (set_mshr (removeFront a (mshr st2)) st2))
      as (Hts' & Hd' & Hec' & Hecs' & Hm' & Hr' & Hcq' & Hmq' & Hnc' & Hdm' & Hid' & Hrb').
    simpl in *. unfold only_sent in Hs2. simpl in Hs2.
    destruct Hs2 as (Hts2 & Hd2 & _ & _ & Hr2 & Hrb2 & _).
    split_and!.
    + by rewrite Hd', Hd2, Hd, insert_insert_eq.
    + unfold outgoing in *. rewrite Hcq', Hmq'. simpl in Ho2. rewrite Ho2, Hts, Hcq, Hmq. done.
    + done.
    + done.
    + done.
    + done.
    + done.
    + by rewrite Hm', Hm2, Hm.
    + rewrite Hrb', Hm', Hrb2, Hrb, Hm2, Hm. done.
Qed.

(** ** Invalidations and fetches from the memory side *)

Lemma set_mshr_same st : set_mshr (mshr st) st = st.
Proof. by destruct st. Qed.

Lemma alloc_unless_inMSHR_front ev (inMSHR fwd : bool) pos st :
  inMSHR = true ∨ (insertEvent (getBaseAddr ev) ev pos fwd false (mshr st)).1 = 0 →
  alloc_unless_inMSHR ev inMSHR fwd pos st =
    (OK, set_mshr (if inMSHR then mshr st
                   else (insertEvent (getBaseAddr ev) ev pos fwd false (mshr st)).2) st).
Proof.
  unfold alloc_unless_inMSHR, allocateMSHR. intros Hf.
  destruct inMSHR; [by rewrite set_mshr_same|].
  destruct Hf as [?|Hz]; [done|].
  destruct (insertEvent (getBaseAddr ev) ev pos fwd false (mshr st)) as [p m].
  simpl in *. by subst p.
Qed.

Lemma cleanUpAfterRequest_spec ev (inMSHR : bool) st :
  let a := getBaseAddr ev in
  let m1 := if inMSHR then
              if bool_decide (getFrontType a (mshr st) = Some Event)
              then removeFront a (mshr st) else removeEntry a 1 (mshr st)
            else mshr st in
  mshr (cleanUpAfterRequest ev inMSHR st) = m1
  ∧ retryBuffer (cleanUpAfterRequest ev inMSHR st) =
      retryBuffer st ++
      (if exists_ a m1 && bool_decide (getFrontType a m1 = Some Event)
          && negb (getInProgress a m1) && bool_decide (getAcksNeeded a m1 = 0)
       then [getFrontEvent a m1] else [])
  ∧ outgoing (cleanUpAfterRequest ev inMSHR st) = outgoing st
  ∧ nextEventID (cleanUpAfterRequest ev inMSHR st) = nextEventID st
  ∧ only_sent (set_retryBuffer (retryBuffer (cleanUpAfterRequest ev inMSHR st)) st)
      (cleanUpAfterRequest ev inMSHR st).
Proof.
  intros a m1. unfold cleanUpAfterRequest. fold a.
  set (st1 := if inMSHR then _ else st).
  assert (mshr st1 = m1 ∧ retryBuffer st1 = retryBuffer st ∧ outgoing st1 = outgoing st
          ∧ nextEventID st1 = nextEventID st ∧ only_sent st st1) as (E1 & E2 & E3 & E4 & E5).
  { unfold st1, m1, only_sent, outgoing.
    destruct inMSHR; [case_bool_decide|]; simpl; split_and!; done. }
  destruct (retry_front_if_ready_spec a st1)
    as (Hts' & Hd' & Hec' & Hecs' & Hm' & Hr' & Hcq' & Hmq' & Hnc' & Hdm' & Hid' & Hrb').
  unfold only_sent, outgoing in *. rewrite Hm', Hrb', E1, E2.
  destruct E5 as (?&?&?&?&?&?&?&?).
  split_and!; simpl; congruence.
Qed.

Lemma sendAckInv_spec ev st :
  isReachable cpuLink (getSrc ev) || isReachable memLink (getSrc ev) = true →
  ∃ st', sendAckInv P cpuLink memLink ev st = Ret st'
    ∧ outgoing st' ≡ₚ
        (u64 (timestamp st + accessLatency P),
         makeResponseCmd (nextEventID st, rank P) AckInv ev) :: outgoing st
    ∧ mshr st' = (if hasData (getBaseAddr ev) (mshr st)
                  then clearData (getBaseAddr ev) (mshr st) else mshr st)
    ∧ nextEventID st' = nextEventID st + 1
    ∧ only_sent st st'.
Proof.
  intros Hr. unfold sendAckInv. simpl.
  set (st1 := if hasData _ _ then _ else _).
  assert (timestamp st1 = timestamp st ∧ outgoing st1 = outgoing st
          ∧ nextEventID st1 = nextEventID st + 1
          ∧ mshr st1 = (if hasData (getBaseAddr ev) (mshr st)
                        then clearData (getBaseAddr ev) (mshr st) else mshr st)
          ∧ only_sent st st1) as (E1 & E2 & E3 & E4 & E5).
  { unfold st1, only_sent, outgoing.
    destruct (hasData (getBaseAddr ev) (mshr st)); simpl; split_and!; done. }
  destruct (forwardByDestination_sent
              (makeResponseCmd (nextEventID st, rank P) AckInv ev)
              (u64 (timestamp st1 + accessLatency P)) false st1)
    as (st' & -> & Ho & Hm & Hid & Hs); [done|].
  exists st'. split; [reflexivity|]. rewrite Ho, E1, E2.
  split_and!; [done|congruence..|by apply (only_sent_trans st st1 st')].
Qed.

Lemma sendFetchResponse_spec ev st :
  isReachable cpuLink (getSrc ev) || isReachable memLink (getSrc ev) = true →
  ∃ st', sendFetchResponse P cpuLink memLink ev st = Ret st'
    ∧ outgoing st' ≡ₚ
        (u64 (timestamp st + accessLatency P),
         setDirty (getDataDirty (getBaseAddr ev) (mshr st))
           (setPayload (getData (getBaseAddr ev) (mshr st))
              (makeResponse (nextEventID st, rank P) ev))) :: outgoing st
    ∧ mshr st' = clearData (getBaseAddr ev) (mshr st)
    ∧ nextEventID st' = nextEventID st + 1
    ∧ only_sent st st'.
Proof.
  intros Hr. unfold sendFetchResponse. simpl.
  set (ack := setDirty _ _).
  destruct (forwardByDestination_sent ack (u64 (timestamp st + accessLatency P)) false
              (set_mshr (clearData (getBaseAddr ev) (mshr st))
                 (set_nextEventID (nextEventID st + 1) st)))
    as (st' & -> & Ho & Hm & Hid & Hs); [done|].
  exists st'. split; [reflexivity|]. split_and!; done.
Qed.

Lemma issueFetch_spec ev entry c st :
  isReachable cpuLink (getOwner entry) || isReachable memLink (getOwner entry) = true →
  ∃ st' fetch, issueFetch P cpuLink memLink ev entry c st = Ret st'
    ∧ outgoing st' ≡ₚ (u64 (timestamp st + accessLatency P), fetch) :: outgoing st
    ∧ getCmd fetch = c ∧ getDst fetch = getOwner entry
    ∧ getSrc fetch = getName P ∧ getBaseAddr fetch = getBaseAddr ev
    ∧ mshr st' = incrementAcksNeeded (getBaseAddr ev) (mshr st)
    ∧ directory st' = directory st ∧ retryBuffer st' = retryBuffer st
    ∧ timestamp st' = timestamp st.
Proof.
  intros Hr.
  set (a := getBaseAddr ev).
  set (fetch := setDst (getOwner entry)
                  (newMemEvent (nextEventID st, rank P) (getName P) (getAddr ev) a c (lineSize P))).
  set (st0 := record_response a (getOwner entry) (getID fetch)
                (set_nextEventID (nextEventID st + 1) st)).
  set (st1 := set_mshr (incrementAcksNeeded a (mshr st0)) st0).
  destruct (record_response_frame a (getOwner entry) (getID fetch)
              (set_nextEventID (nextEventID st + 1) st))
    as (Ets & Ed & Em & Erb & Eo & _).
  fold st0 in Ets, Ed, Em, Erb, Eo. simpl in Ets, Ed, Em, Erb.
  change (outgoing (set_nextEventID (nextEventID st + 1) st)) with (outgoing st) in Eo.
  assert (issueFetch P cpuLink memLink ev entry c st
          = forwardByDestination fetch (u64 (timestamp st1 + accessLatency P)) false st1)
    as -> by reflexivity.
  destruct (forwardByDestination_reachable fetch
              (u64 (timestamp st1 + accessLatency P)) false st1)
    as (st' & -> & Hout & Hts & Hd & _ & _ & Hm & _ & Hrb & _); [done|].
  exists st', fetch. split; [done|].
  change (timestamp st1) with (timestamp st0) in *.
  change (outgoing st1) with (outgoing st0) in Hout.
  rewrite Hout, Ets, Eo, Hm, Hd, Hrb, Hts. simpl. rewrite Em, Ed, Erb, Ets.
  split_and!; done.
Qed.

Lemma issueInvalidations_from_spec l ev entry c st :
  (∀ s, s ∈ l → s ≠ getSrc ev →
        isReachable cpuLink s || isReachable memLink s = true) →
  ∃ st' invs, issueInvalidations_from P cpuLink memLink l ev entry c st = Ret st'
    ∧ outgoing st' ≡ₚ
        ((λ m, (u64 (timestamp st + accessLatency P), m)) <$> invs) ++ outgoing st
    ∧ getDst <$> invs = filter (λ s, s ≠ getSrc ev) l
    ∧ Forall (λ m, getCmd m = c ∧ getSrc m = getName P
                   ∧ getBaseAddr m = getEntryBaseAddr entry) invs
    ∧ mshr st' =
        Nat.iter (length invs) (incrementAcksNeeded (getEntryBaseAddr entry)) (mshr st)
    ∧ directory st' = directory st ∧ retryBuffer st' = retryBuffer st
    ∧ timestamp st' = timestamp st.
Proof.
  revert st. induction l as [|s l IH]; intros st Hreach; simpl.
  - exists st, []. split_and!; done.
  - case_decide as Hs.
    + destruct (IH st) as (st' & invs & E & ?); [intros; apply Hreach; set_solver|].
      exists st', invs. rewrite filter_cons_False by (by intros ?). done.
    + destruct (issueInvalidation_records_owner s (Some ev) entry c st)
        as (st1 & inv & -> & Ho1 & Hc & Hdst & Hsrc & Hba & _ & _ & Hm1 & Hd1 & Hrb1 & Hts1 & _);
        [apply Hreach; set_solver|].
      destruct (IH st1) as (st' & invs & E & Ho & Hds & Hall & Hm & Hd & Hrb & Hts);
        [intros; apply Hreach; set_solver|].
      simpl. exists st', (inv :: invs). split; [exact E|].
      rewrite filter_cons_True by done. split_and!.
      * rewrite Ho, Hts1, Ho1, fmap_cons. by rewrite <- Permutation_middle.
      * by rewrite fmap_cons, Hdst, Hds.
      * by constructor.
      * rewrite Hm, Hm1. change (length (inv :: invs)) with (Datatypes.S (length invs)).
        by rewrite Nat.iter_succ_r.
      * congruence.
      * congruence.
      * congruence.
Qed.

(** C6, as the code has it, for a FetchInv ([force = false]) or a ForceInv
    ([force = true]) that finds its entry cached.

    In state I the directory answers the sender and cleans up.  The answer
    is an AckInv, except that a FetchInv which finds dirty data buffered in
    the MSHR, no writeback pending and no FlushLineInv at the MSHR front,
    is answered with a FetchResp carrying that data.

    In state S, when the event is replayed from the MSHR or is given the
    MSHR front, the entry moves to S_Inv and every sharer but the
    requester is sent an invalidation: Inv for a FetchInv, ForceInv for a
    ForceInv.

    In state M, under the same condition, the entry moves to M_Inv and the
    owner is sent a FetchInv (for a FetchInv) or a ForceInv (for a
    ForceInv). *)
Theorem C6_invalidation_from_memory (force : bool) ev (inMSHR : bool) st :
  let handle := if force then handleForceInv P cpuLink memLink
                else handleFetchInv P cpuLink memLink in
  let a := getBaseAddr ev in
  let entry := entry_view a st in
  let m := mshr st in
  let front_ok :=
    inMSHR = true
    ∨ (insertEvent a ev (if force then 0 else pos_default) true false m).1 = 0 in
  let m_front :=
    if inMSHR then m
    else (insertEvent a ev (if force then 0 else pos_default) true false m).2 in
  let t := u64 (timestamp st + accessLatency P) in
  getCmd ev = (if force then ForceInv else FetchInv) →
  isCached entry = true →
  (getState entry = St.I →
   isReachable cpuLink (getSrc ev) || isReachable memLink (getSrc ev) = true →
   (force = false → pendingWriteback a m = false → exists_ a m = true →
    is_Some (getFrontEvent a m)) →
   let blocked :=
     pendingWriteback a m
     || (exists_ a m
         && match getFrontEvent a m with
            | Some f => bool_decide (getCmd f = FlushLineInv)
            | None => false
            end) in
   let with_data := negb force && negb blocked && hasData a m && getDataDirty a m in
   let m_sent := if hasData a m then clearData a m else m in
   ∃ st' resp, handle ev inMSHR st = Ret (true, st')
     ∧ outgoing st' ≡ₚ (t, resp) :: outgoing st
     ∧ getDst resp = getSrc ev ∧ getSrc resp = getDst ev
     ∧ getResponseToID resp = getID ev
     ∧ (if with_data
        then getCmd resp = FetchResp ∧ getPayload resp = getData a m
             ∧ getDirty resp = getDataDirty a m
        else getCmd resp = AckInv)
     ∧ directory st' = <[a := entry]> (directory st)
     ∧ mshr st' = mshr (cleanUpAfterRequest ev inMSHR (set_mshr m_sent st))
     ∧ retryBuffer st' = retryBuffer (cleanUpAfterRequest ev inMSHR (set_mshr m_sent st)))
  ∧ (getState entry = St.S → front_ok →
     (∀ s, s ∈ getSharers entry → s ≠ getSrc ev →
           isReachable cpuLink s || isReachable memLink s = true) →
     ∃ st' invs, handle ev inMSHR st = Ret (true, st')
       ∧ directory st' = <[a := setState St.S_Inv entry]> (directory st)
       ∧ outgoing st' ≡ₚ ((λ i, (t, i)) <$> invs) ++ outgoing st
       ∧ getDst <$> invs = filter (λ s, s ≠ getSrc ev) (getSharers entry)
       ∧ Forall (λ i, getCmd i = (if force then ForceInv else Inv)
                      ∧ getSrc i = getName P
                      ∧ getBaseAddr i = getEntryBaseAddr entry) invs
       ∧ mshr st' =
           Nat.iter (length invs) (incrementAcksNeeded (getEntryBaseAddr entry)) m_front
       ∧ retryBuffer st' = retryBuffer st)
  ∧ (getState entry = St.M → front_ok →
     isReachable cpuLink (getOwner entry) || isReachable memLink (getOwner entry) = true →
     ∃ st' fetch, handle ev inMSHR st = Ret (true, st')
       ∧ directory st' = <[a := setState St.M_Inv entry]> (directory st)
       ∧ outgoing st' ≡ₚ (t, fetch) :: outgoing st
       ∧ getCmd fetch = (if force then ForceInv else FetchInv)
       ∧ getDst fetch = getOwner entry ∧ getSrc fetch = getName P
       ∧ getBaseAddr fetch = (if force then getEntryBaseAddr entry else a)
       ∧ mshr st' =
           incrementAcksNeeded (if force then getEntryBaseAddr entry else a) m_front
       ∧ retryBuffer st' = retryBuffer st).
Proof.
  intros handle a entry m front_ok m_front t Hcmd Hcached.
  destruct (getDirEntry_spec a st)
    as (He & Hd & Hts & Hec & Hecs & Hm & Hr & Hrb & Hcq & Hmq & Hnc & Hdm & Hid).
  assert (outgoing (getDirEntry a st).2 = outgoing st) as Hout
    by (unfold outgoing; by rewrite Hcq, Hmq).
  assert (∀ e, <[a := e]> (directory (getDirEntry a st).2) = <[a := e]> (directory st))
    as Hins by (intros e; by rewrite Hd, insert_insert_eq).
  split; [|split].
  - (* state I *)
    intros Hstate Hreach Hfront blocked with_data m_sent.
    assert (∃ st1 resp,
              (if negb force && negb blocked && hasData a m && getDataDirty a m
               then sendFetchResponse P cpuLink memLink ev (getDirEntry a st).2
               else sendAckInv P cpuLink memLink ev (getDirEntry a st).2) = Ret st1
              ∧ outgoing st1 ≡ₚ (t, resp) :: outgoing st
              ∧ getDst resp = getSrc ev ∧ getSrc resp = getDst ev
              ∧ getResponseToID resp = getID ev
              ∧ (if with_data
                 then getCmd resp = FetchResp ∧ getPayload resp = getData a m
                      ∧ getDirty resp = getDataDirty a m
                 else getCmd resp = AckInv)
              ∧ mshr st1 = m_sent
              ∧ directory st1 = <[a := entry]> (directory st)
              ∧ retryBuffer st1 = retryBuffer st)
      as (st1 & resp & Esend & Ho1 & Hdst & Hsrc & Hrid & Hkind & Hm1 & Hd1 & Hrb1).
    { unfold with_data, m_sent.
      destruct (negb force && negb blocked && hasData a m && getDataDirty a m) eqn:Ewd.
      - destruct (sendFetchResponse_spec ev (getDirEntry a st).2 Hreach)
          as (st1 & E & Ho & Hm1 & _ & Hs).
        destruct Hs as (_ & Hd1 & _ & _ & _ & Hrb1 & _).
        eexists st1, _. split; [exact E|]. fold a in Ho, Hm1.
        rewrite Ho, Hts, Hout, Hm1, Hd1, Hrb1, Hm, Hd, Hrb.
        apply andb_prop in Ewd as [Ewd _]. apply andb_prop in Ewd as [Ewd ->].
        apply andb_prop in Ewd as [Ewd _]. apply negb_true_iff in Ewd. subst force.
        split_and!; try done. unfold makeResponse. by rewrite Hcmd.
      - destruct (sendAckInv_spec ev (getDirEntry a st).2 Hreach)
          as (st1 & E & Ho & Hm1 & _ & Hs).
        destruct Hs as (_ & Hd1 & _ & _ & _ & Hrb1 & _).
        eexists st1, _. split; [exact E|]. fold a in Ho, Hm1.
        rewrite Ho, Hts, Hout, Hm1, Hd1, Hrb1, Hm, Hd, Hrb.
        split_and!; done. }
    assert (handle ev inMSHR st = Ret (true, cleanUpAfterRequest ev inMSHR st1)) as ->.
    { unfold handle. destruct force.
      - unfold handleForceInv. fold a. revert Esend.
        destruct (getDirEntry a st) as [e st0]. simpl in *. subst e. fold entry.
        rewrite Hcached, Hstate. simpl. by intros ->.
      - unfold handleFetchInv. fold a. revert Esend.
        destruct (getDirEntry a st) as [e st0]. simpl in *. subst e. fold entry.
        rewrite Hcached, Hstate. simpl. rewrite Hm. fold m.
        assert ((if pendingWriteback a m then Ret true
                 else if exists_ a m
                      then do front <- deref (getFrontEvent a m);
                           Ret (bool_decide (getCmd front = FlushLineInv))
                      else Ret false) = Ret blocked) as ->.
        { unfold blocked. destruct (pendingWriteback a m) eqn:Epw; [done|].
          destruct (exists_ a m) eqn:Eex; [|done].
          destruct Hfront as [f ->]; done. }
        simpl. destruct blocked; simpl.
        + by intros ->.
        + destruct (hasData a m && getDataDirty a m) eqn:E; rewrite ?E;
            simpl; by intros ->. }
    destruct (cleanUpAfterRequest_spec ev inMSHR st1) as (Hcm & Hcrb & Hco & _ & Hcs).
    destruct (cleanUpAfterRequest_spec ev inMSHR (set_mshr m_sent st))
      as (Hcm' & Hcrb' & _).
    destruct Hcs as (_ & Hcd & _).
    exists (cleanUpAfterRequest ev inMSHR st1), resp. split; [done|].
    simpl in *. fold a in Hcm, Hcrb, Hcm', Hcrb'.
    rewrite Hco, Ho1, Hcd, Hd1, Hcm, Hcrb, Hcm', Hcrb', Hm1, Hrb1.
    split_and!; done.
  - (* state S *)
    intros Hstate Hfront Hreach.
    set (st1 := set_mshr m_front (getDirEntry a st).2).
    destruct (issueInvalidations_from_spec (getSharers entry) ev entry
                (if force then ForceInv else Inv) st1)
      as (st2 & invs & Einv & Ho2 & Hds & Hall & Hm2 & Hd2 & Hrb2 & Hts2); [done|].
    exists (store a (setState St.S_Inv entry) st2), invs.
    split.
    + unfold handle. destruct force.
      * unfold handleForceInv. fold a. revert Einv. unfold st1.
        destruct (getDirEntry a st) as [e st0]. simpl in *. subst e. fold entry.
        rewrite Hcached, Hstate. simpl. unfold with_front.
        rewrite (alloc_unless_inMSHR_front ev inMSHR true 0 st0)
          by (fold a; by rewrite Hm).
        fold a. rewrite Hm. fold m m_front. simpl.
        unfold issueInvalidations. by intros ->.
      * unfold handleFetchInv. fold a. revert Einv. unfold st1.
        destruct (getDirEntry a st) as [e st0]. simpl in *. subst e. fold entry.
        rewrite Hcached, Hstate. simpl. unfold with_front.
        rewrite (alloc_unless_inMSHR_front ev inMSHR true pos_default st0)
          by (fold a; by rewrite Hm).
        fold a. rewrite Hm. fold m m_front. simpl.
        unfold issueInvalidations. by intros ->.
    + unfold outgoing in *. simpl in *. rewrite Hd2, Hins, Ho2, Hts, Hcq, Hmq, Hm2, Hrb2, Hrb.
      split_and!; done.
  - (* state M *)
    intros Hstate Hfront Hreach.
    set (st1 := set_mshr m_front (getDirEntry a st).2).
    destruct force.
    + destruct (issueInvalidation_records_owner (getOwner entry) (Some ev) entry ForceInv st1)
        as (st2 & inv & Einv & Ho2 & Hc & Hdst & Hsrc & Hba & _ & _ & Hm2 & Hd2 & Hrb2 & Hts2 & _);
        [done|].
      exists (store a (setState St.M_Inv entry) st2), inv. split.
      * unfold handle, handleForceInv. fold a. revert Einv. unfold st1.
        destruct (getDirEntry a st) as [e st0]. simpl in *. subst e. fold entry.
        rewrite Hcached, Hstate. simpl. unfold with_front.
        rewrite (alloc_unless_inMSHR_front ev inMSHR true 0 st0)
          by (fold a; by rewrite Hm).
        fold a. rewrite Hm. fold m m_front. simpl. by intros ->.
      * unfold outgoing in *. simpl in *.
        rewrite Hd2, Hins, Ho2, Hts, Hcq, Hmq, Hm2, Hrb2, Hrb. split_and!; done.
    + destruct (issueFetch_spec ev entry FetchInv st1)
        as (st2 & fetch & Ef & Ho2 & Hc & Hdst & Hsrc & Hba & Hm2 & Hd2 & Hrb2 & Hts2);
        [done|].
      exists (store a (setState St.M_Inv entry) st2), fetch. split.
      * unfold handle, handleFetchInv. fold a. revert Ef. unfold st1.
        destruct (getDirEntry a st) as [e st0]. simpl in *. subst e. fold entry.
        rewrite Hcached, Hstate. simpl. unfold with_front.
        rewrite (alloc_unless_inMSHR_front ev inMSHR true pos_default st0)
          by (fold a; by rewrite Hm).
        fold a. rewrite Hm. fold m m_front. simpl. by intros ->.
      * unfold outgoing in *. simpl in *.
        rewrite Hd2, Hins, Ho2, Hts, Hcq, Hmq, Hm2, Hrb2, Hrb. split_and!; done.
Qed.

(** ** The entry cache *)

Lemma sendEntryToMemory_spec entry st :
  ∃ msg,
    memMsgQueue (sendEntryToMemory P memLink entry st) =
      mm_insert (u64 (timestamp st + accessLatency P)) msg (memMsgQueue st)
    ∧ is_entry_writeback P memLink (u64 (timestamp st + accessLatency P))
        (u64 (timestamp st + accessLatency P), msg)
    ∧ nextEventID (sendEntryToMemory P memLink entry st) = nextEventID st + 1
    ∧ timestamp (sendEntryToMemory P memLink entry st) = timestamp st
    ∧ directory (sendEntryToMemory P memLink entry st) = directory st
    ∧ entryCache (sendEntryToMemory P memLink entry st) = entryCache st
    ∧ entryCacheSize (sendEntryToMemory P memLink entry st) = entryCacheSize st
    ∧ mshr (sendEntryToMemory P memLink entry st) = mshr st
    ∧ cpuMsgQueue (sendEntryToMemory P memLink entry st) = cpuMsgQueue st
    ∧ retryBuffer (sendEntryToMemory P memLink entry st) = retryBuffer st
    ∧ responses (sendEntryToMemory P memLink entry st) = responses st.
Proof.
  unfold sendEntryToMemory. simpl. eexists. split; [reflexivity|].
  unfold is_entry_writeback, queryFlag. simpl.
  split_and!; done.
Qed.

Lemma elem_of_rev {A} (x : A) (l : list A) : x ∈ rev l ↔ x ∈ l.
Proof. rewrite !list_elem_of_In. symmetry. apply in_rev. Qed.

Lemma filter_ne_absent (a : Z) (l : list Z) :
  a ∉ l → filter (λ x, x ≠ a) l = l.
Proof.
  induction l as [|x l IH]; intros Hn; [done|].
  apply not_elem_of_cons in Hn as [Hne Hn].
  rewrite filter_cons_True by done. by rewrite IH.
Qed.

Lemma length_filter_ne (a : Z) (l : list Z) :
  NoDup l → a ∈ l → Datatypes.S (length (filter (λ x, x ≠ a) l)) = length l.
Proof.
  induction 1 as [|x l Hx Hnd IH]; intros Hin; [by apply elem_of_nil in Hin|].
  destruct (decide (x = a)) as [->|Hne].
  - rewrite filter_cons_False by (by intros ?). simpl. f_equal.
    by rewrite filter_ne_absent.
  - rewrite filter_cons_True by done. simpl. f_equal. apply IH.
    apply elem_of_cons in Hin as [->|?]; done.
Qed.

Lemma u64_small (x : Z) : 0 ≤ x < 2 ^ 64 → u64 x = x.
Proof. intros. unfold u64. by apply Z.mod_small. Qed.

(** The eviction loop, started on the reversed cache. *)
Lemma evict_loop_spec (back : list Addr) st :
  entryCache st = rev back →
  entryCacheSize st = Z.of_nat (length back) →
  entryCacheSize st < 2 ^ 64 →
  0 ≤ entryCacheMaxSize P →
  (∀ x, x ∈ back → ∃ e, directory st !! x = Some e ∧ getEntryBaseAddr e = x) →
  ∃ st' evicted kept,
    evict_loop P memLink back st = Ret st'
    ∧ back = evicted ++ kept
    ∧ entryCache st' = rev kept
    ∧ entryCacheSize st' = Z.of_nat (length kept)
    ∧ Forall (λ x, exists_ x (mshr st) = false) evicted
    ∧ (∀ x, x ∈ evicted →
         ∃ e, directory st' !! x = Some e ∧ isCached e = false ∧ cacheIter e = false)
    ∧ (∀ x, x ∉ evicted → directory st' !! x = directory st !! x)
    ∧ (∃ msgs, memMsgQueue st' ≡ₚ msgs ++ memMsgQueue st
         ∧ length msgs = length evicted
         ∧ Forall (is_entry_writeback P memLink (u64 (timestamp st + accessLatency P))) msgs)
    ∧ (entryCacheSize st' ≤ entryCacheMaxSize P
       ∨ ∃ b rest, kept = b :: rest ∧ exists_ b (mshr st) = true)
    ∧ mshr st' = mshr st ∧ cpuMsgQueue st' = cpuMsgQueue st
    ∧ retryBuffer st' = retryBuffer st ∧ responses st' = responses st
    ∧ timestamp st' = timestamp st
    ∧ (evicted = [] ∨ entryCacheMaxSize P ≤ entryCacheSize st').
Proof.
  revert st. induction back as [|old rest IH]; intros st Hcache Hsize Hbound Hmax Hkeys.
  - exists st, [], []. simpl in *.
    rewrite decide_False by lia.
    split_and!; try done.
    + intros x Hx. by apply elem_of_nil in Hx.
    + by exists [].
    + left. lia.
    + by left.
  - simpl. case_decide as Hgt.
    2:{ exists st, [], (old :: rest). split_and!; try done.
        - intros x Hx. by apply elem_of_nil in Hx.
        - by exists [].
        - left. lia.
        - by left. }
    destruct (Hkeys old) as (e & Hlook & Hbase); [by left|].
    rewrite Hlook. simpl. rewrite Hbase.
    destruct (exists_ old (mshr st)) eqn:Eex.
    { exists st, [], (old :: rest). split_and!; try done.
      - intros x Hx. by apply elem_of_nil in Hx.
      - by exists [].
      - right. by exists old, rest.
      - by left. }
    set (e' := setCached false (setCacheIter false e)).
    set (st0 := store old e' (set_entryCache (rev rest) (u64 (entryCacheSize st - 1)) st)).
    destruct (sendEntryToMemory_spec e' st0)
      as (msg & Hq & Hwb & Hid & Hts & Hd & Hec & Hecs & Hm & Hcq & Hrb & Hr).
    set (st1 := sendEntryToMemory P memLink e' st0) in *.
    change (entryCache st0) with (rev rest) in Hec.
    change (entryCacheSize st0) with (u64 (entryCacheSize st - 1)) in Hecs.
    change (directory st0) with (<[old := e']> (directory st)) in Hd.
    change (mshr st0) with (mshr st) in Hm.
    change (timestamp st0) with (timestamp st) in Hts, Hq, Hwb.
    change (memMsgQueue st0) with (memMsgQueue st) in Hq.
    change (cpuMsgQueue st0) with (cpuMsgQueue st) in Hcq.
    change (retryBuffer st0) with (retryBuffer st) in Hrb.
    change (responses st0) with (responses st) in Hr.
    assert (u64 (entryCacheSize st - 1) = Z.of_nat (length rest)) as Hu.
    { rewrite u64_small; simpl in Hsize; lia. }
    destruct (IH st1) as (st' & evicted & kept & E & Hsplit & Hc' & Hs' & Hidle & Hev
                          & Hframe & (msgs & Hperm & Hlen & Hall) & Hstop
                          & Hm' & Hcq' & Hrb' & Hr' & Hts' & Hmin).
    { by rewrite Hec. }
    { by rewrite Hecs. }
    { rewrite Hecs, Hu. simpl in Hsize. lia. }
    { done. }
    { intros x Hx. rewrite Hd. destruct (decide (x = old)) as [->|Hne].
      - exists e'. by rewrite lookup_insert_eq.
      - rewrite lookup_insert_ne by done. apply Hkeys. by right. }
    exists st', (old :: evicted), kept. split; [exact E|].
    rewrite Hm in Hidle, Hstop. rewrite Hts in Hall.
    split_and!; try congruence.
    + simpl. by rewrite Hsplit.
    + by constructor.
    + intros x Hx. destruct (decide (x ∈ evicted)) as [Hin|Hnin]; [by apply Hev|].
      apply elem_of_cons in Hx as [->|?]; [|done].
      rewrite (Hframe old Hnin), Hd, lookup_insert_eq. by exists e'.
    + intros x Hx. apply not_elem_of_cons in Hx as [Hne Hnin].
      rewrite (Hframe x Hnin), Hd. by rewrite lookup_insert_ne.
    + exists (msgs ++ [(u64 (timestamp st + accessLatency P), msg)]). split_and!.
      * rewrite Hperm, Hq, mm_insert_perm, <- app_assoc. done.
      * rewrite length_app. simpl. lia.
      * apply Forall_app. split; [done|]. by constructor.
    + right. destruct Hmin as [->|Hmin]; [|done].
      simpl in Hsplit. subst kept. rewrite Hs'. simpl in Hsize. lia.
Qed.

(** C4, as the code has it.  An entry that is not in state I is touched
    with a cache of capacity at least one: it moves to the front of the
    LRU list, and while [entryCacheSize] exceeds [entryCacheMaxSize] the
    entry at the back is evicted, unless it has MSHR activity, in which
    case the eviction stops there (nothing is skipped, and the size may
    stay above the bound).  The eviction also stops as soon as the bound
    holds: when an entry was evicted, the cache is left with at least
    [entryCacheMaxSize] entries.  Every evicted entry gets [cached = false] and
    a PutE with F_NORESPONSE is queued for the memory at
    [timestamp + accessLatency]; no entry with MSHR activity is evicted. *)
Theorem C4_updateCache_evicts_from_back entry st :
  let a := getEntryBaseAddr entry in
  let touched := a :: filter (λ x, x ≠ a) (entryCache st) in
  0 < entryCacheMaxSize P →
  directory st !! a = Some entry →
  getState entry ≠ St.I →
  NoDup (entryCache st) →
  (cacheIter entry = true ↔ a ∈ entryCache st) →
  entryCacheSize st = Z.of_nat (length (entryCache st)) →
  entryCacheSize st + 1 < 2 ^ 64 →
  (∀ x, x ∈ entryCache st → ∃ e, directory st !! x = Some e ∧ getEntryBaseAddr e = x) →
  ∃ st' evicted,
    updateCache P memLink entry st = Ret st'
    ∧ touched = entryCache st' ++ evicted
    ∧ entryCacheSize st' = Z.of_nat (length (entryCache st'))
    ∧ Forall (λ x, exists_ x (mshr st) = false) evicted
    ∧ (∀ x, x ∈ evicted →
         ∃ e, directory st' !! x = Some e ∧ isCached e = false ∧ cacheIter e = false)
    ∧ (∃ msgs, memMsgQueue st' ≡ₚ msgs ++ memMsgQueue st
         ∧ length msgs = length evicted
         ∧ Forall (is_entry_writeback P memLink (u64 (timestamp st + accessLatency P))) msgs)
    ∧ (entryCacheSize st' ≤ entryCacheMaxSize P
       ∨ ∃ b, last (entryCache st') = Some b ∧ exists_ b (mshr st) = true)
    ∧ (evicted = [] ∨ entryCacheMaxSize P ≤ entryCacheSize st')
    ∧ (∀ x, x ∈ touched → exists_ x (mshr st) = true → x ∈ entryCache st')
    ∧ mshr st' = mshr st ∧ cpuMsgQueue st' = cpuMsgQueue st.
Proof.
  intros a touched Hmax Hlook Hstate Hnd Hiter Hsize Hbound Hkeys.
  assert (∃ st_b,
            updateCache P memLink entry st = evict_loop P memLink (rev touched) st_b
            ∧ entryCache st_b = touched
            ∧ entryCacheSize st_b = Z.of_nat (length touched)
            ∧ directory st_b = <[a := setCacheIter true entry]> (directory st)
            ∧ mshr st_b = mshr st ∧ memMsgQueue st_b = memMsgQueue st
            ∧ cpuMsgQueue st_b = cpuMsgQueue st ∧ timestamp st_b = timestamp st)
    as (st_b & -> & Hc_b & Hs_b & Hd_b & Hm_b & Hq_b & Hcq_b & Hts_b).
  { unfold updateCache. fold a. rewrite decide_False by lia.
    destruct (cacheIter entry) eqn:Eit.
    - assert (a ∈ entryCache st) as Hin by (by apply Hiter).
      pose proof (length_filter_ne a (entryCache st) Hnd Hin) as Hlen.
      rewrite decide_False by done.
      eexists. split.
      { simpl. reflexivity. }
      simpl. split_and!; try done.
      + rewrite (u64_small (entryCacheSize st - 1)) by lia.
        rewrite u64_small by lia. lia.
      + rewrite insert_insert_eq. by destruct entry.
    - assert (a ∉ entryCache st) as Hnin.
      { intros Hin. apply Hiter in Hin. congruence. }
      rewrite decide_False by done.
      eexists. split.
      { simpl. unfold touched. rewrite (filter_ne_absent a _ Hnin). reflexivity. }
      simpl. unfold touched. rewrite (filter_ne_absent a _ Hnin).
      split_and!; try done.
      rewrite u64_small; simpl; lia. }
  assert (∀ x, x ∈ touched → ∃ e, directory st_b !! x = Some e ∧ getEntryBaseAddr e = x)
    as Hkeys_b.
  { intros x Hx. rewrite Hd_b. destruct (decide (x = a)) as [->|Hne].
    - rewrite lookup_insert_eq. by eexists.
    - rewrite lookup_insert_ne by done. apply Hkeys.
      apply elem_of_cons in Hx as [?|Hx]; [done|].
      by apply list_elem_of_filter in Hx as [_ ?]. }
  assert (length touched ≤ Datatypes.S (length (entryCache st)))%nat as Hlt.
  { unfold touched. simpl. apply le_n_S, length_filter. }
  destruct (evict_loop_spec (rev touched) st_b)
    as (st' & ev_b & kept & E & Hsplit & Hc' & Hs' & Hidle & Hev & _
        & (msgs & Hperm & Hlen & Hall) & Hstop & Hm' & Hcq' & _ & _ & _ & Hmin).
  { by rewrite rev_involutive. }
  { by rewrite length_rev. }
  { rewrite Hs_b. lia. }
  { lia. }
  { intros x Hx. apply Hkeys_b. exact (proj1 (elem_of_rev _ _) Hx). }
  assert (touched = rev kept ++ rev ev_b) as Htouched.
  { rewrite <- rev_app_distr, <- Hsplit. by rewrite rev_involutive. }
  exists st', (rev ev_b). split; [exact E|].
  rewrite Hm_b in Hidle, Hstop. rewrite Hts_b in Hall.
  split_and!.
  - by rewrite Hc'.
  - by rewrite Hs', Hc', length_rev.
  - apply Forall_forall. intros x Hx. apply (proj1 (elem_of_rev _ _)) in Hx.
    by eapply Forall_forall in Hidle.
  - intros x Hx. apply Hev. exact (proj1 (elem_of_rev _ _) Hx).
  - exists msgs. rewrite <- Hq_b, length_rev. done.
  - destruct Hstop as [?|(b & rest & -> & Hb)]; [by left|right].
    exists b. split; [|done]. rewrite Hc'. simpl. by rewrite last_snoc.
  - destruct Hmin as [->|?]; [by left|by right].
  - intros x Hx Hbusy. rewrite Hc'. rewrite Htouched in Hx.
    apply elem_of_app in Hx as [?|Hx]; [done|].
    apply (proj1 (elem_of_rev _ _)) in Hx.
    eapply Forall_forall in Hidle; [|done]. congruence.
  - congruence.
  - congruence.
Qed.

End Facts.

(** ** One access per line and cycle *)

Section ClockFacts.
Context {T : Type} `{MSHR T}.
Variable P : Params.
Variables cpuLink memLink : MemLinkBase.
Variable others : OtherHandlers T.

Implicit Type c : Component T.
Implicit Type ev : MemEvent.

Local Abbreviation process := (processPacket P cpuLink memLink others).
Local Abbreviation retries := (retry_loop P cpuLink memLink others).
Local Abbreviation events := (event_loop P cpuLink memLink others).
Local Abbreviation tick := (clock P cpuLink memLink others).

Lemma processPacket_stalls ev (replay : bool) c :
  isRequestAddressValid cpuLink (getAddr ev) = true →
  getBaseAddr ev ∈ addrsThisCycle c →
  process ev replay c = Ret (false, c).
Proof.
  intros Hv Hin. unfold processPacket, arbitrateAccess. rewrite Hv. simpl.
  rewrite bool_decide_eq_false_2; [done|]. by intros ?.
Qed.

(** What a call of [processPacket] does to the set of lines touched in
    this cycle: a consumed event with a global address was not in the set
    and is in it afterwards; nothing ever leaves the set. *)
Lemma processPacket_addrs ev (replay : bool) c (b : bool) c' :
  process ev replay c = Ret (b, c') →
  addrsThisCycle c ⊆ addrsThisCycle c'
  ∧ (b = true → isAddrGlobal ev = true →
     (getBaseAddr ev ∉ addrsThisCycle c) ∧ getBaseAddr ev ∈ addrsThisCycle c').
Proof.
  unfold processPacket, arbitrateAccess.
  destruct (isRequestAddressValid cpuLink (getAddr ev)); simpl; [|done].
  case_bool_decide as Hin; simpl.
  - destruct (isAddrGlobal ev) eqn:Eg; simpl.
    + destruct (dispatch P cpuLink memLink others ev replay (dir c)) as [[r d]| | |];
        simpl; try done.
      intros [= <- <-]. destruct r; simpl; split; try done; set_solver.
    + destruct (handleDirEntryResponse ev (dir c)) as [[r d]| | |]; simpl; try done.
      intros [= <- <-]. simpl. split; [done|]. by intros _ ?.
  - intros [= <- <-]. split; [done|]. by intros ?.
Qed.

Lemma lines_recorded_skip consumed c c' :
  addrsThisCycle c ⊆ addrsThisCycle c' →
  lines_recorded consumed c → lines_recorded consumed c'.
Proof. intros Hsub [Hnd Hin]. split; [done|]. intros a Ha. apply Hsub. by apply Hin. Qed.

Lemma lines_recorded_consume consumed ev (replay : bool) c c' :
  process ev replay c = Ret (true, c') →
  lines_recorded consumed c → lines_recorded (consumed ++ [ev]) c'.
Proof.
  intros Hp [Hnd Hin].
  destruct (processPacket_addrs ev replay c true c' Hp) as [Hsub Hnew].
  unfold lines_recorded, global_lines in *. rewrite filter_app, fmap_app.
  destruct (isAddrGlobal ev) eqn:Eg.
  - destruct (Hnew eq_refl eq_refl) as [Hnot Hnow].
    rewrite filter_cons_True by done. rewrite filter_nil. simpl. split.
    + apply NoDup_app. split_and!; [done| |apply NoDup_singleton].
      intros a Ha ->%list_elem_of_singleton. apply Hnot. by apply Hin.
    + intros a [Ha| ->%list_elem_of_singleton]%elem_of_app; [|done].
      apply Hsub. by apply Hin.
  - rewrite filter_cons_False by (by rewrite Eg). rewrite filter_nil, app_nil_r.
    split; [done|]. intros a Ha. apply Hsub. by apply Hin.
Qed.

Lemma retry_loop_lines fuel i n c consumed :
  lines_recorded consumed c →
  NoDup (global_lines (retries fuel i n c consumed).1)
  ∧ ∀ n' c', (retries fuel i n c consumed).2 = Ret (n', c') →
             lines_recorded (retries fuel i n c consumed).1 c'.
Proof.
  revert i n c consumed. induction fuel as [|fuel IH]; intros i n c consumed Hinv; simpl.
  { split; [apply Hinv|done]. }
  destruct (retryBuffer (dir c) !! i) as [p|]; simpl;
    [|split; [apply Hinv|by intros ? ? [= <- <-]]].
  destruct (limit_reached P n); simpl; [split; [apply Hinv|by intros ? ? [= <- <-]]|].
  destruct p as [ev|]; simpl; [|split; [apply Hinv|done]].
  destruct (process ev true c) as [[[] c1]| | |] eqn:Ep; simpl;
    try (split; [apply Hinv|done]).
  - apply IH. eapply (lines_recorded_skip _ c1); [done|].
    by eapply lines_recorded_consume.
  - apply IH. eapply lines_recorded_skip; [|done].
    by destruct (processPacket_addrs ev true c false c1 Ep).
Qed.

Lemma event_loop_lines todo kept n c consumed :
  lines_recorded consumed c →
  NoDup (global_lines (events todo kept n c consumed).1).
Proof.
  revert kept n c consumed. induction todo as [|ev todo IH]; intros kept n c consumed Hinv;
    simpl; [apply Hinv|].
  destruct (limit_reached P n); simpl; [apply Hinv|].
  destruct (process ev false c) as [[[] c1]| | |] eqn:Ep; simpl; try apply Hinv.
  - apply IH. eapply (lines_recorded_skip _ c1); [done|].
    by eapply lines_recorded_consume.
  - apply IH. eapply lines_recorded_skip; [|done].
    by destruct (processPacket_addrs ev false c false c1 Ep).
Qed.

Lemma processPacket_eventBuffer ev (replay : bool) c (b : bool) c' :
  process ev replay c = Ret (b, c') → eventBuffer c' = eventBuffer c.
Proof.
  unfold processPacket, arbitrateAccess.
  destruct (isRequestAddressValid cpuLink (getAddr ev)); simpl; [|done].
  case_bool_decide as Hin; simpl; [|by intros [= <- <-]].
  destruct (isAddrGlobal ev) eqn:Eg; simpl.
  - destruct (dispatch P cpuLink memLink others ev replay (dir c)) as [[r d]| | |];
      simpl; try done.
    intros [= <- <-]. by destruct r.
  - destruct (handleDirEntryResponse ev (dir c)) as [[r d]| | |]; simpl; try done.
    by intros [= <- <-].
Qed.

(** The second loop of [clock] loses no event: an event of the buffer is
    consumed or is still in the buffer, in its place. *)
Lemma event_loop_keeps todo kept n c consumed consumed' n' c' :
  eventBuffer c = kept ++ todo →
  events todo kept n c consumed = (consumed', Ret (n', c')) →
  ∃ now, consumed' = consumed ++ now
    ∧ kept ++ todo ≡ₚ eventBuffer c' ++ now
    ∧ eventBuffer c' `sublist_of` kept ++ todo.
Proof.
  revert kept n c consumed.
  induction todo as [|ev todo IH]; intros kept n c consumed Hbuf; simpl.
  { intros [= <- <- <-]. exists []. by rewrite !app_nil_r, Hbuf, app_nil_r. }
  destruct (limit_reached P n); simpl.
  { intros [= <- <- <-]. exists []. by rewrite !app_nil_r, Hbuf. }
  destruct (process ev false c) as [[[] c1]| | |] eqn:Ep; simpl; try done.
  - intros Hloop. apply IH in Hloop as (now & -> & Hperm & Hsub); [|done].
    exists (ev :: now). split_and!.
    + by rewrite <- app_assoc.
    + rewrite <- !Permutation_middle. by rewrite Hperm.
    + etrans; [exact Hsub|]. apply sublist_app; [done|]. by apply sublist_cons.
  - intros Hloop.
    apply IH in Hloop as (now & -> & Hperm & Hsub).
    + exists now. rewrite <- app_assoc in Hperm, Hsub. done.
    + rewrite (processPacket_eventBuffer _ _ _ _ _ Ep), Hbuf. by rewrite <- app_assoc.
Qed.

(** C3, as the code has it: [processPacket] returns false and leaves the
    state alone when the line of the event is already in [addrsThisCycle];
    a call that returns true for an event with a global address found the
    line outside the set and leaves it inside (a directory-entry response,
    whose address is not global, is consumed without an insertion); hence
    the events with a global address that one call of [clock] consumes are
    for pairwise different lines: of two events for one line in one cycle,
    the second waits for a later cycle.  The pass over the event buffer
    loses nothing: an event is consumed or is still in the buffer. *)
Theorem C3_one_access_per_line (fuel : nat) (linksIdle : bool) (cycle : Z) c :
  (∀ ev replay c0,
     isRequestAddressValid cpuLink (getAddr ev) = true →
     getBaseAddr ev ∈ addrsThisCycle c0 →
     process ev replay c0 = Ret (false, c0))
  ∧ (∀ ev replay c0 c1,
       process ev replay c0 = Ret (true, c1) →
       isAddrGlobal ev = true →
       (getBaseAddr ev ∉ addrsThisCycle c0) ∧ getBaseAddr ev ∈ addrsThisCycle c1)
  ∧ NoDup (global_lines (tick fuel linksIdle cycle c).1)
  ∧ (∀ n c0 consumed consumed' n' c1,
       events (eventBuffer c0) [] n c0 consumed = (consumed', Ret (n', c1)) →
       ∃ now, consumed' = consumed ++ now
         ∧ eventBuffer c0 ≡ₚ eventBuffer c1 ++ now
         ∧ eventBuffer c1 `sublist_of` eventBuffer c0).
Proof.
  split_and!.
  2: intros ev replay c0 c1 Hp Hg;
     by destruct (processPacket_addrs ev replay c0 true c1 Hp) as [_ Hx]; apply Hx.
  3: intros n c0 consumed consumed' n' c1 Hloop;
     by apply (event_loop_keeps (eventBuffer c0) [] n c0 consumed consumed' n' c1).
  - intros. by apply processPacket_stalls.
  - unfold clock.
    destruct (sendOutgoingEvents (set_timestamp cycle (dir c))) as [sent st].
    set (c0 := set_addrsThisCycle ∅ (set_dir st c)).
    assert (lines_recorded [] c0) as Hinv0.
    { split; [apply NoDup_nil_2|]. intros a Ha. by apply elem_of_nil in Ha. }
    destruct (retry_loop_lines fuel 0 0 c0 [] Hinv0) as [Hnd Hret].
    destruct (retries fuel 0 0 c0 []) as [tr [[n1 c1]| | |]]; simpl in *; try done.
    pose proof (event_loop_lines (eventBuffer c1) [] n1 c1 tr (Hret _ _ eq_refl)) as Hev.
    destruct (events (eventBuffer c1) [] n1 c1 tr) as [tr2 [[n2 c2]| | |]];
      simpl in *; try done.
    by destruct (_ && clockOn c2).
Qed.

End ClockFacts.

(** A run of C10: the writeback of [A] is acknowledged, its entry leaves
    the MSHR and the GetS of [B] behind it is retried. *)
Lemma C10_ready_front_is_retried_witness :
  retryBuffer (cleanUpAfterResponse (request 3 AckPut "mem" 0) true dirQ)
  = [Some (request 2 GetS "B" 0)].
Proof.
  destruct (C10_ready_front_is_retried (request 3 AckPut "mem" 0) true dirQ
              (cleanUpAfterResponse (request 3 AckPut "mem" 0) true dirQ))
    as (Hrb & _); [right; reflexivity|reflexivity..|].
  exact Hrb.
Defined.

(** C1 (defect of [issueInvalidation]): the directory sends an Inv for
    line 0 to the sharer [B]; the Inv is in the cpu queue and one more ack
    is needed, yet [responses[0]] has no record under [B]: the id went
    under the owner of the entry, which in state S is the empty string. *)
Theorem C1_invalidation_not_recorded_under_destination :
  ∃ st' inv,
    issueInvalidation params0 cpuLink0 memLink0 "B" (Some (request 1 GetX "A" 0))
      entryS Inv dirS = Ret st'
    ∧ cpuMsgQueue st' = [(13, inv)]
    ∧ getCmd inv = Inv ∧ getDst inv = "B" ∧ getID inv = (100, 0)
    ∧ getAcksNeeded 0 (mshr st') = 1
    ∧ expected 0 "B" st' = None
    ∧ expected 0 "" st' = Some (100, 0).
Proof. eexists _, _. split_and!; reflexivity. Qed.

(** What the defect costs: [B] nacks that Inv while it is still needed,
    and [handleNACK] drops the NACK instead of sending the Inv again. *)
Example live_invalidation_nack_is_dropped :
  ∃ st1 st2,
    issueInvalidation params0 cpuLink0 memLink0 "B" (Some (request 1 GetX "A" 0))
      entryS Inv dirS = Ret st1
    ∧ getAcksNeeded 0 (mshr st1) = 1
    ∧ handleNACK params0 cpuLink0 memLink0 nackB false st1 = Ret (true, st2)
    ∧ cpuMsgQueue st2 = cpuMsgQueue st1
    ∧ memMsgQueue st2 = memMsgQueue st1.
Proof. eexists _, _. split_and!; reflexivity. Qed.

(** C2 fails as stated: a NACK of an Inv nobody waits for, for a line the
    directory has no entry of, is dropped but leaves a new entry behind. *)
Lemma C2_drop_changes_directory :
  ∃ st',
    handleNACK params0 cpuLink0 memLink0 nackB false dir0 = Ret (true, st')
    ∧ expected 0 (getDst invB) dir0 = None
    ∧ cpuMsgQueue st' = [] ∧ memMsgQueue st' = []
    ∧ directory dir0 !! 0 = None
    ∧ directory st' !! 0 = Some (mkDirEntry 0 St.I None [] true false)
    ∧ st' ≠ dir0.
Proof.
  eexists. split_and!; try reflexivity.
  intros E. apply (f_equal (λ s, directory s !! 0)) in E. discriminate E.
Qed.

(** A run of C2: with an entry for the line in place, the same NACK is
    dropped and the state is what it was. *)
Lemma C2_handleNACK_retry_or_drop_witness :
  handleNACK params0 cpuLink0 memLink0 nackB false dirS = Ret (true, dirS).
Proof.
  destruct (C2_handleNACK_retry_or_drop params0 cpuLink0 memLink0 nackB false dirS invB eq_refl)
    as (_ & Hinv & _ & Hsame & _).
  destruct Hinv as [_ Hdrop]; [set_solver|].
  rewrite Hdrop by discriminate. rewrite Hsame; [reflexivity|by eexists].
Defined.

(** C7 fails as stated: a non-cacheable request flagged F_NORESPONSE is
    forwarded to memory without a record in [noncacheMemReqs]. *)
Lemma C7_no_record_for_noresponse :
  ∃ st' msg,
    handleNoncacheableRequest params0 cpuLink0 memLink0 writeNR dir0 = Ret st'
    ∧ memMsgQueue st' = [(11, msg)]
    ∧ getID (event msg) = getID writeNR ∧ getSrc (event msg) = "dir"
    ∧ getDst (event msg) = "mem"
    ∧ noncacheMemReqs st' !! getID writeNR = None.
Proof. eexists _, _. split_and!; reflexivity. Qed.

(** A run of C7: a request that wants a response is recorded, and the
    response finds the record, goes back to [A] and erases it. *)
Lemma C7_noncacheable_pass_through_witness :
  (∃ st', handleNoncacheableRequest params0 cpuLink0 memLink0 writeNC dir0 = Ret st'
     ∧ noncacheMemReqs st' = {[ (6, 1) := "A" ]})
  ∧ (∃ st', handleNoncacheableResponse params0 cpuLink0 memLink0 writeRespNC dirNC = Ret st'
       ∧ noncacheMemReqs st' = ∅)
  ∧ handleNoncacheableResponse params0 cpuLink0 memLink0 writeRespNC dir0 = Fatal.
Proof.
  split_and!.
  - destruct (C7_noncacheable_pass_through params0 cpuLink0 memLink0 writeNC dir0)
      as (Hreq & _ & _).
    destruct Hreq as (st' & E & Hnc & _); [discriminate|].
    exists st'. split; [exact E|]. rewrite Hnc. reflexivity.
  - destruct (C7_noncacheable_pass_through params0 cpuLink0 memLink0 writeRespNC dirNC)
      as (_ & Hresp & _).
    destruct (Hresp "A") as (st' & E & Hnc & _); [reflexivity..|].
    exists st'. split; [exact E|]. rewrite Hnc. reflexivity.
  - destruct (C7_noncacheable_pass_through params0 cpuLink0 memLink0 writeRespNC dir0)
      as (_ & _ & Hfatal).
    apply Hfatal. reflexivity.
Defined.

(** C5 fails as stated: from SM_Inv the last AckInv moves the entry to IM
    and leaves the retry buffer empty although the MSHR has a front event. *)
Lemma C5_SM_Inv_pushes_nothing :
  ∃ st',
    handleAckInv ackInvB true dirSM = Ret (true, st')
    ∧ getState (entry_view 0 dirSM) = St.SM_Inv
    ∧ getState (entry_view 0 st') = St.IM
    ∧ getAcksNeeded 0 (mshr st') = 0
    ∧ getFrontEvent 0 (mshr st') = Some (request 1 GetX "A" 0)
    ∧ retryBuffer st' = [].
Proof. eexists. split_and!; reflexivity. Qed.

(** A run of C5: the last AckInv in S_Inv, with the sharer [A] left, moves
    the entry to S and retries the front MSHR event. *)
Lemma C5_handleAckInv_witness :
  ∃ st',
    handleAckInv ackInvB true dirSInv = Ret (true, st')
    ∧ directory st' !! 0 = Some (mkDirEntry 0 St.S None ["A"] true false)
    ∧ retryBuffer st' = [Some (request 1 GetX "A" 0)].
Proof.
  destruct (C5_handleAckInv ackInvB true dirSInv {[ "B" := (100, 0) ]} eq_refl)
    as (st' & E & Hd & _ & Hrb & _).
  exists st'. split; [exact E|]. rewrite Hd, Hrb. split; reflexivity.
Defined.

(** C8 fails as stated: a GetS of [C] for a line in state I without
    buffered data arrives while two other requests for the line wait in the
    MSHR; it is queued behind them, the entry stays in I and nothing goes
    to memory. *)
Lemma C8_queued_GetS_stays_in_I :
  ∃ st',
    handleGetS params0 cpuLink0 memLink0 (request 9 GetS "C" 0) false dirQ = Ret (true, st')
    ∧ protocol params0 = MESI
    ∧ isCached (entry_view 0 dirQ) = true
    ∧ getState (entry_view 0 dirQ) = St.I
    ∧ hasData 0 (mshr dirQ) = false
    ∧ getState (entry_view 0 st') = St.I
    ∧ outgoing st' = outgoing dirQ.
Proof. eexists. split_and!; reflexivity. Qed.

(** A run of C8: the read miss of [A] on the empty directory, then the
    GetXResp of the memory. *)
Lemma C8_read_miss_MESI_witness :
  (∃ st', handleGetS params0 cpuLink0 memLink0 (request 1 GetS "A" 0) false dir0 = Ret (true, st')
     ∧ directory st' !! 0 = Some (mkDirEntry 0 St.IS None [] true false))
  ∧ (∃ st', handleGetXResp params0 cpuLink0 memLink0 getXRespMem false dirIS = Ret (true, st')
       ∧ directory st' !! 0 = Some (mkDirEntry 0 St.M (Some "A") [] true false)).
Proof.
  split.
  - destruct (C8_read_miss_MESI params0 cpuLink0 memLink0 (request 1 GetS "A" 0) false dir0
                eq_refl) as [Hmiss _].
    destruct Hmiss as (st' & E & Hd & _); [reflexivity..|right; reflexivity|discriminate|].
    exists st'. split; [exact E|]. rewrite Hd. reflexivity.
  - destruct (C8_read_miss_MESI params0 cpuLink0 memLink0 getXRespMem false dirIS
                eq_refl) as [_ Hresp].
    destruct (Hresp (request 1 GetS "A" 0)) as (st' & resp & E & Hd & _); [reflexivity..|].
    exists st'. split; [exact E|]. rewrite Hd. reflexivity.
Defined.

(** C6 fails as stated: a FetchInv finds line 0 in state I with dirty data
    buffered in the MSHR and is answered with a FetchResp that carries the
    data, not with an AckInv. *)
Lemma C6_FetchInv_in_I_answers_FetchResp :
  ∃ st' msg,
    handleFetchInv params0 cpuLink0 memLink0 fetchInvMem false dirDirty = Ret (true, st')
    ∧ isCached (entry_view 0 dirDirty) = true
    ∧ getState (entry_view 0 dirDirty) = St.I
    ∧ cpuMsgQueue st' = [] ∧ memMsgQueue st' = [(13, msg)]
    ∧ getCmd (event msg) = FetchResp
    ∧ getDst (event msg) = "mem"
    ∧ getPayload (event msg) = [Byte.x2a]
    ∧ getDirty (event msg) = true.
Proof. eexists _, _. split_and!; reflexivity. Qed.

(** Runs of C6: a FetchInv in state I, in state S shared by [A] and [B],
    and in state M owned by [A]; a ForceInv in state S. *)
Lemma C6_invalidation_from_memory_witness :
  (∃ st' resp, handleFetchInv params0 cpuLink0 memLink0 fetchInvMem false dirI = Ret (true, st')
     ∧ outgoing st' ≡ₚ [(13, resp)] ∧ getCmd resp = AckInv)
  ∧ (∃ st' invs, handleFetchInv params0 cpuLink0 memLink0 fetchInvMem false dirS = Ret (true, st')
       ∧ directory st' !! 0 = Some (setState St.S_Inv entryS)
       ∧ getDst <$> invs = ["A"; "B"]
       ∧ Forall (λ i, getCmd i = Inv) invs
       ∧ outgoing st' ≡ₚ (λ i, (13, i)) <$> invs)
  ∧ (∃ st' fetch, handleFetchInv params0 cpuLink0 memLink0 fetchInvMem false dirM = Ret (true, st')
       ∧ directory st' !! 0 = Some (mkDirEntry 0 St.M_Inv (Some "A") [] true false)
       ∧ outgoing st' ≡ₚ [(13, fetch)]
       ∧ getCmd fetch = FetchInv ∧ getDst fetch = "A")
  ∧ (∃ st' invs, handleForceInv params0 cpuLink0 memLink0 forceInvMem false dirS = Ret (true, st')
       ∧ getDst <$> invs = ["A"; "B"]
       ∧ Forall (λ i, getCmd i = ForceInv) invs
       ∧ outgoing st' ≡ₚ (λ i, (13, i)) <$> invs).
Proof.
  split_and!.
  - destruct (C6_invalidation_from_memory params0 cpuLink0 memLink0 false fetchInvMem false dirI
                eq_refl eq_refl) as (HI & _ & _).
    destruct HI as (st' & resp & E & Ho & _ & _ & _ & Hc & _);
      [reflexivity|reflexivity|discriminate|].
    exists st', resp. split; [exact E|]. split; [exact Ho|exact Hc].
  - destruct (C6_invalidation_from_memory params0 cpuLink0 memLink0 false fetchInvMem false dirS
                eq_refl eq_refl) as (_ & HS & _).
    destruct HS as (st' & invs & E & Hd & Ho & Hds & Hall & _);
      [reflexivity|right; reflexivity| |].
    { intros s Hs _.
      apply elem_of_cons in Hs as [->|Hs]; [reflexivity|].
      apply elem_of_cons in Hs as [->|Hs]; [reflexivity|]. by apply elem_of_nil in Hs. }
    exists st', invs. split; [exact E|]. rewrite Hd. split_and!.
    + apply lookup_insert_eq.
    + exact Hds.
    + eapply Forall_impl; [exact Hall|]. by intros i (? & _).
    + rewrite Ho. by rewrite app_nil_r.
  - destruct (C6_invalidation_from_memory params0 cpuLink0 memLink0 false fetchInvMem false dirM
                eq_refl eq_refl) as (_ & _ & HM).
    destruct HM as (st' & fetch & E & Hd & Ho & Hc & Hdst & _);
      [reflexivity|right; reflexivity|reflexivity|].
    exists st', fetch. split; [exact E|]. rewrite Hd. split_and!; try done.
  - destruct (C6_invalidation_from_memory params0 cpuLink0 memLink0 true forceInvMem false dirS
                eq_refl eq_refl) as (_ & HS & _).
    destruct HS as (st' & invs & E & Hd & Ho & Hds & Hall & _);
      [reflexivity|right; reflexivity| |].
    { intros s Hs _.
      apply elem_of_cons in Hs as [->|Hs]; [reflexivity|].
      apply elem_of_cons in Hs as [->|Hs]; [reflexivity|]. by apply elem_of_nil in Hs. }
    exists st', invs. split; [exact E|]. split_and!.
    + exact Hds.
    + eapply Forall_impl; [exact Hall|]. by intros i (? & _).
    + rewrite Ho. by rewrite app_nil_r.
Defined.

(** C3 fails as stated: the response to a directory-entry read (its
    address is not global) is consumed, the entry of line 64 goes from I_d
    to I and the waiting GetS is retried, but no address is inserted into
    [addrsThisCycle]. *)
Lemma C3_entry_response_inserts_nothing :
  ∃ c',
    processPacket params0 cpuLink0 memLink0 others0 entryResp false (comp dirD [])
      = Ret (true, c')
    ∧ getState (entry_view 64 dirD) = St.I_d
    ∧ getState (entry_view 64 (dir c')) = St.I
    ∧ retryBuffer (dir c') = [Some (request 1 GetS "A" 64)]
    ∧ addrsThisCycle c' = ∅
    ∧ getBaseAddr entryResp ∉ addrsThisCycle c'.
Proof.
  eexists. split_and!; try reflexivity.
  apply not_elem_of_empty.
Qed.

(** A run of C3: once line 0 is in the set, an event for line 0 is
    refused; the first read of line 0 is consumed and puts line 0 into the
    set; in one cycle the two reads of line 0 are not both consumed; and
    the pass over the event buffer keeps what it does not consume. *)
Lemma C3_one_access_per_line_witness :
  processPacket params0 cpuLink0 memLink0 others0 (request 2 GetS "B" 0) false
    (set_addrsThisCycle {[ 0 ]} comp3)
  = Ret (false, set_addrsThisCycle {[ 0 ]} comp3)
  ∧ (∃ c1, processPacket params0 cpuLink0 memLink0 others0 (request 1 GetS "A" 0) false comp3
           = Ret (true, c1)
           ∧ 0 ∈ addrsThisCycle c1)
  ∧ NoDup (global_lines (clock params0 cpuLink0 memLink0 others0 5 true 11 comp3).1)
  ∧ (∃ (c1 : Component SpecMSHR) now,
       eventBuffer comp3 ≡ₚ eventBuffer c1 ++ now
       ∧ eventBuffer c1 `sublist_of` eventBuffer comp3).
Proof.
  destruct (C3_one_access_per_line params0 cpuLink0 memLink0 others0 5 true 11 comp3)
    as (Hstall & Hrec & Hnd & Hkeep).
  split_and!.
  - apply Hstall; [reflexivity|]. apply elem_of_singleton. reflexivity.
  - eexists. split; [reflexivity|].
    eapply (Hrec (request 1 GetS "A" 0) false comp3); reflexivity.
  - exact Hnd.
  - assert (∃ tr n' c1,
              event_loop params0 cpuLink0 memLink0 others0 (eventBuffer comp3) [] 0 comp3 []
              = (tr, Ret (n', c1))) as (tr & n' & c1 & E).
    { let r := eval vm_compute in
             (event_loop params0 cpuLink0 memLink0 others0 (eventBuffer comp3) [] 0 comp3 [])
      in match r with
         | (?tr, Ret (?n', ?c1)) => exists tr, n', c1
         end.
      vm_compute. reflexivity. }
    destruct (Hkeep 0 comp3 [] tr n' c1 E) as (now & _ & Hperm & Hsub).
    exists c1, now. split; [exact Hperm|exact Hsub].
Defined.

(** Two reads of line 0 and one of line 64 arrive together: cycle 11
    consumes the first read of line 0 and the read of line 64 and leaves the
    second read of line 0 in the event buffer; cycle 12 consumes it. *)
Example same_line_takes_two_cycles :
  (cycle11 comp3).1 = [request 1 GetS "A" 0; request 3 GetS "B" 64]
  ∧ eventBuffer <$> state_after (cycle11 comp3) = Some [request 2 GetS "B" 0]
  ∧ (cycle12_after (cycle11 comp3)).1 = [request 2 GetS "B" 0]
  ∧ eventBuffer <$> state_after (cycle12_after (cycle11 comp3)) = Some [].
Proof. split_and!; vm_compute; reflexivity. Qed.

(** C4 fails as stated: the cache of capacity 2 holds three entries after
    line 0 is touched; line 128 at the back has MSHR activity, so the
    eviction stops: the idle line 64 before it is not evicted and the size
    stays at 3. *)
Lemma C4_eviction_stops_at_busy_back :
  ∃ st' e64,
    updateCache params0 memLink0 (entryC 0 false) dirC = Ret st'
    ∧ entryCacheMaxSize params0 = 2
    ∧ entryCache st' = [0; 64; 128]
    ∧ entryCacheSize st' = 3
    ∧ exists_ 128 (mshr dirC) = true
    ∧ exists_ 64 (mshr dirC) = false
    ∧ directory st' !! 64 = Some e64 ∧ isCached e64 = true
    ∧ memMsgQueue st' = [].
Proof. eexists _, _. split_and!; reflexivity. Qed.

(** A run of C4: with no MSHR activity the same touch evicts line 128. *)
Lemma C4_updateCache_evicts_from_back_witness :
  ∃ st' e128 msg,
    updateCache params0 memLink0 (entryC 0 false) dirCidle = Ret st'
    ∧ entryCache st' = [0; 64]
    ∧ directory st' !! 128 = Some e128 ∧ isCached e128 = false
    ∧ memMsgQueue st' = [(13, msg)]
    ∧ getCmd (event msg) = PutE ∧ getFlags (event msg) = [F_NORESPONSE].
Proof.
  destruct (C4_updateCache_evicts_from_back params0 memLink0 (entryC 0 false) dirCidle)
    as (st' & evicted & E & _).
  - reflexivity.
  - reflexivity.
  - discriminate.
  - apply (bool_decide_unpack _). vm_compute. exact I.
  - split; [discriminate|]. intros Hx. apply (bool_decide_pack _) in Hx.
    vm_compute in Hx. destruct Hx.
  - reflexivity.
  - reflexivity.
  - intros x Hx.
    apply elem_of_cons in Hx as [->|Hx]; [by eexists|].
    apply elem_of_cons in Hx as [->|Hx]; [by eexists|].
    by apply elem_of_nil in Hx.
  - eexists st', _, _. split; [exact E|].
    injection E as <-. split_and!; reflexivity.
Defined.

(** * Properties of the remaining code *)

(** ** Delivery times of the outgoing queues *)

Lemma queue_sorted_cons {A} (t : Z) (x : A) (q : list (Z * A)) :
  queue_sorted ((t, x) :: q) ↔ queue_sorted q ∧ Forall (λ p, t ≤ p.1) q.
Proof.
  unfold queue_sorted. rewrite fmap_cons. simpl. split.
  - intros Hs. inversion Hs as [|? ? Hs' Hall]; subst. split; [done|].
    rewrite Forall_fmap in Hall. exact Hall.
  - intros [Hs Hall]. constructor; [done|]. rewrite Forall_fmap. exact Hall.
Qed.

Lemma mm_insert_sorted {A} (t : Z) (x : A) (q : list (Z * A)) :
  queue_sorted q → queue_sorted (mm_insert t x q).
Proof.
  induction q as [|[t' y] q IH]; intros Hs; simpl.
  - apply queue_sorted_cons. split; [constructor|constructor].
  - apply queue_sorted_cons in Hs as [Hs Hall]. case_decide as Hlt.
    + apply queue_sorted_cons. split.
      * apply queue_sorted_cons. done.
      * constructor; [simpl; lia|]. eapply Forall_impl; [exact Hall|].
        simpl. intros; lia.
    + apply queue_sorted_cons. split; [by apply IH|].
      rewrite mm_insert_perm. constructor; [simpl; lia|done].
Qed.

Lemma due_sorted {A} (now : Z) (q : list (Z * A)) :
  queue_sorted q →
  due now q = ((filter (λ p, p.1 ≤ now) q).*2, filter (λ p, now < p.1) q).
Proof.
  induction q as [|[t x] q IH]; intros Hs; [done|].
  apply queue_sorted_cons in Hs as [Hs Hall]. simpl. case_decide as Hle.
  - rewrite (IH Hs). rewrite filter_cons_True by done.
    rewrite (filter_cons_False (λ p, now < p.1)) by (simpl; lia). done.
  - rewrite filter_cons_False by done.
    rewrite (filter_cons_True (λ p, now < p.1)) by (simpl; lia).
    assert (Forall (λ p : Z * A, now < p.1) q) as Hlate.
    { eapply Forall_impl; [exact Hall|]. simpl. intros; lia. }
    f_equal.
    + clear -Hlate. induction Hlate as [|p q Hp _ IH']; [done|].
      rewrite filter_cons_False by lia. done.
    + f_equal. clear -Hlate. induction Hlate as [|p q Hp _ IH']; [done|].
      rewrite filter_cons_True by done. by f_equal.
Qed.

Lemma filter_due_mm_insert {A} (now t : Z) (x : A) (q : list (Z * A)) :
  t ≤ now →
  filter (λ p, p.1 ≤ now) (mm_insert t x q) ≡ₚ (t, x) :: filter (λ p, p.1 ≤ now) q.
Proof. intros Ht. rewrite mm_insert_perm. by rewrite filter_cons_True. Qed.

Lemma filter_due_mm_insert_later {A} (now t : Z) (x : A) (q : list (Z * A)) :
  now < t →
  filter (λ p, p.1 ≤ now) (mm_insert t x q) = filter (λ p, p.1 ≤ now) q.
Proof.
  intros Hn. induction q as [|[t' y] q IH]; simpl.
  - rewrite filter_cons_False by (simpl; lia). done.
  - case_decide.
    + rewrite (filter_cons_False _ (t, x)) by (simpl; lia). done.
    + destruct (decide (t' ≤ now)).
      * rewrite !filter_cons_True by done. by rewrite IH.
      * rewrite !filter_cons_False by done. done.
Qed.

Section QueueFacts.
Context {T : Type} `{MSHR T}.
Variable P : Params.
Variables cpuLink memLink : MemLinkBase.
Implicit Type st : Dir T.
Implicit Type ev : MemEvent.

(** X1 (sendOutgoingEvents): when both outgoing queues are ordered by delivery
    time, one call hands out, on each side, exactly the messages whose delivery
    time is not later than the controller's clock, in queue order; the later
    messages stay queued in their order and nothing else of the state
    changes. *)
Theorem sendOutgoingEvents_sends_what_is_due st :
  queue_sorted (cpuMsgQueue st) → queue_sorted (memMsgQueue st) →
  sendOutgoingEvents st =
    (((filter (λ p, p.1 ≤ timestamp st) (cpuMsgQueue st)).*2,
      event <$> (filter (λ p, p.1 ≤ timestamp st) (memMsgQueue st)).*2),
     set_memMsgQueue (filter (λ p, timestamp st < p.1) (memMsgQueue st))
       (set_cpuMsgQueue (filter (λ p, timestamp st < p.1) (cpuMsgQueue st)) st)).
Proof.
  intros Hc Hm. unfold sendOutgoingEvents.
  rewrite (due_sorted _ _ Hc). simpl. rewrite (due_sorted _ _ Hm). done.
Qed.

Lemma sent_at_eq now st :
  queue_sorted (cpuMsgQueue st) → queue_sorted (memMsgQueue st) →
  sent_at now st =
    (filter (λ p, p.1 ≤ now) (cpuMsgQueue st)).*2
    ++ (event <$> (filter (λ p, p.1 ≤ now) (memMsgQueue st)).*2).
Proof.
  intros Hc Hm. unfold sent_at, sendOutgoingEvents. simpl.
  rewrite (due_sorted _ _ Hc). simpl. rewrite (due_sorted _ _ Hm). done.
Qed.

(** Queueing a message: both queues stay sorted, and the message is among
    those sent at [now] exactly when [ts ≤ now]. *)
Lemma queued_sent_at (ts : Z) (m : MemEvent) (da : bool) st st1 :
  queue_sorted (cpuMsgQueue st) → queue_sorted (memMsgQueue st) →
  st1 = set_cpuMsgQueue (mm_insert ts m (cpuMsgQueue st)) st
  ∨ st1 = set_memMsgQueue (mm_insert ts (mkMemMsg m da) (memMsgQueue st)) st →
  queue_sorted (cpuMsgQueue st1) ∧ queue_sorted (memMsgQueue st1)
  ∧ ∀ now,
      (now < ts → sent_at now st1 = sent_at now st)
      ∧ (ts ≤ now → sent_at now st1 ≡ₚ m :: sent_at now st).
Proof.
  intros Hc Hm Hst1.
  assert (queue_sorted (cpuMsgQueue st1) ∧ queue_sorted (memMsgQueue st1)) as [Hc1 Hm1].
  { destruct Hst1 as [->| ->]; simpl; split; try done; by apply mm_insert_sorted. }
  split; [done|]. split; [done|]. intros now.
  rewrite (sent_at_eq now st1), (sent_at_eq now st) by done.
  destruct Hst1 as [->| ->]; simpl; split; intros Ht.
  - by rewrite filter_due_mm_insert_later.
  - by rewrite filter_due_mm_insert.
  - by rewrite filter_due_mm_insert_later.
  - rewrite filter_due_mm_insert by done. simpl. by rewrite <- Permutation_middle.
Qed.

Lemma forwardByDestination_queued ev ts (da : bool) st st1 :
  forwardByDestination cpuLink memLink ev ts da st = Ret st1 →
  st1 = set_cpuMsgQueue (mm_insert ts ev (cpuMsgQueue st)) st
  ∨ st1 = set_memMsgQueue (mm_insert ts (mkMemMsg ev da) (memMsgQueue st)) st.
Proof.
  unfold forwardByDestination. intros E.
  destruct (isReachable cpuLink (getDst ev)); [left; congruence|].
  destruct (isReachable memLink (getDst ev)); [right; congruence|done].
Qed.

Lemma forwardByAddress_queued ev ts (da : bool) st st1 :
  let m := setDst (route cpuLink memLink (getRoutingAddress ev)) ev in
  forwardByAddress cpuLink memLink ev ts da st = Ret st1 →
  st1 = set_cpuMsgQueue (mm_insert ts m (cpuMsgQueue st)) st
  ∨ st1 = set_memMsgQueue (mm_insert ts (mkMemMsg m da) (memMsgQueue st)) st.
Proof.
  intros m. unfold m, forwardByAddress, route. clear m. intros E.
  destruct (decide (findTargetDestination memLink (getRoutingAddress ev) ≠ ""));
    [right; congruence|].
  destruct (decide (findTargetDestination cpuLink (getRoutingAddress ev) ≠ ""));
    [left; congruence|done].
Qed.

(** X2 (forwardByDestination, forwardByAddress, sendOutgoingEvents): a
    message forwarded with delivery time [ts] keeps both queues ordered, is
    not handed out by any send before [ts], and is handed out, next to what
    was already due, by a send at any clock from [ts] on.  By address, the
    message leaves with the routed destination. *)
Theorem forwarded_message_leaves_at_its_time ev ts (da : bool) st st1 m :
  queue_sorted (cpuMsgQueue st) → queue_sorted (memMsgQueue st) →
  (forwardByDestination cpuLink memLink ev ts da st = Ret st1 ∧ m = ev)
  ∨ (forwardByAddress cpuLink memLink ev ts da st = Ret st1
     ∧ m = setDst (route cpuLink memLink (getRoutingAddress ev)) ev) →
  queue_sorted (cpuMsgQueue st1) ∧ queue_sorted (memMsgQueue st1)
  ∧ ∀ now,
      (now < ts → sent_at now st1 = sent_at now st)
      ∧ (ts ≤ now → sent_at now st1 ≡ₚ m :: sent_at now st).
Proof.
  intros Hc Hm Hfwd. apply (queued_sent_at ts m da st st1 Hc Hm).
  destruct Hfwd as [[E ->]|[E ->]].
  - by apply forwardByDestination_queued.
  - by apply forwardByAddress_queued.
Qed.

End QueueFacts.

Lemma sendOutgoingEvents_sends_what_is_due_witness :
  sendOutgoingEvents dirQueued =
    (([invB], []), set_memMsgQueue [] (set_cpuMsgQueue [(13, ackInvB)] dirQueued)).
Proof.
  rewrite (sendOutgoingEvents_sends_what_is_due dirQueued).
  - reflexivity.
  - repeat constructor; simpl; lia.
  - constructor.
Defined.

Lemma forwarded_message_leaves_at_its_time_witness :
  sent_at 12 (set_cpuMsgQueue [(13, invB)] dir0) = sent_at 12 dir0
  ∧ sent_at 13 (set_cpuMsgQueue [(13, invB)] dir0) ≡ₚ invB :: sent_at 13 dir0.
Proof.
  destruct (forwarded_message_leaves_at_its_time cpuLink0 memLink0 invB 13 false dir0
              (set_cpuMsgQueue [(13, invB)] dir0) invB) as (_ & _ & Hsent).
  - constructor.
  - constructor.
  - left. split; reflexivity.
  - split.
    + apply (Hsent 12). lia.
    + apply (Hsent 13). lia.
Defined.

(** ** The entry cache stays well formed *)

#[global] Arguments updateCache : simpl never.

Section CacheFacts.
Context {T : Type} `{MSHR T}.
Variable P : Params.
Variable memLink : MemLinkBase.
Implicit Type st : Dir T.
Implicit Type entry : DirEntry.

Lemma only_cache_changed_refl st : only_cache_changed st st.
Proof. by unfold only_cache_changed. Qed.

Lemma only_cache_changed_trans st1 st2 st3 :
  only_cache_changed st1 st2 → only_cache_changed st2 st3 → only_cache_changed st1 st3.
Proof.
  unfold only_cache_changed.
  intros (?&?&?&?&?&?&?) (?&?&?&?&?&?&?). split_and!; congruence.
Qed.

Lemma cache_wf_sendEntryToMemory entry st :
  cache_wf st → cache_wf (sendEntryToMemory P memLink entry st).
Proof.
  destruct (sendEntryToMemory_spec P memLink entry st)
    as (_ & _ & _ & _ & _ & Hd & Hec & Hecs & _).
  unfold cache_wf. by rewrite Hd, Hec, Hecs.
Qed.

Lemma only_cache_changed_sendEntryToMemory entry st :
  only_cache_changed st (sendEntryToMemory P memLink entry st).
Proof. unfold sendEntryToMemory, only_cache_changed. simpl. done. Qed.

(** The eviction loop keeps the cache well formed, evicts a suffix of the
    list, and leaves at least [entryCacheMaxSize] entries when there were
    that many. *)
Lemma evict_loop_wf (back : list Addr) st :
  entryCache st = rev back →
  entryCacheSize st < 2 ^ 64 →
  0 ≤ entryCacheMaxSize P →
  cache_wf st →
  ∃ st' gone wbs,
    evict_loop P memLink back st = Ret st' ∧ cache_wf st'
    ∧ entryCache st = entryCache st' ++ gone
    ∧ (∀ x, x ∉ gone → directory st' !! x = directory st !! x)
    ∧ (∀ x, is_Some (directory st' !! x) ↔ is_Some (directory st !! x))
    ∧ Z.min (entryCacheSize st) (entryCacheMaxSize P) ≤ entryCacheSize st'
    ∧ memMsgQueue st' ≡ₚ wbs ++ memMsgQueue st
    ∧ length wbs = length gone
    ∧ Forall (is_entry_writeback P memLink (u64 (timestamp st + accessLatency P))) wbs
    ∧ only_cache_changed st st'.
Proof.
  revert st. induction back as [|old rest IH]; intros st Hcache Hbound Hmax Hwf.
  - pose proof Hwf as (Hnd & Hsize & Hin & Hall).
    exists st, [], []. simpl. rewrite Hcache in Hsize. simpl in Hsize.
    rewrite decide_False by lia. rewrite app_nil_r.
    split_and!; first [done | lia | apply only_cache_changed_refl].
  - simpl. case_decide as Hgt.
    2:{ exists st, [], []. rewrite app_nil_r.
        split_and!; first [done | lia | apply only_cache_changed_refl]. }
    pose proof Hwf as (Hnd & Hsize & Hin & Hall).
    rewrite Hcache in Hnd, Hsize, Hin. simpl in *.
    rewrite length_app, length_rev in Hsize. simpl in Hsize.
    apply NoDup_app in Hnd as (Hnd & Hnotin & _).
    destruct (Hin old) as (e & Hlook & Hiter).
    { apply elem_of_app. right. by apply list_elem_of_singleton. }
    destruct (Hall old e Hlook) as [Hbase _].
    rewrite Hlook. simpl. rewrite Hbase.
    destruct (exists_ old (mshr st)) eqn:Eex.
    { exists st, [], []. rewrite app_nil_r.
      split_and!; first [done | lia | apply only_cache_changed_refl]. }
    set (e' := setCached false (setCacheIter false e)).
    set (st0 := store old e' (set_entryCache (rev rest) (u64 (entryCacheSize st - 1)) st)).
    assert (u64 (entryCacheSize st - 1) = Z.of_nat (length rest)) as Hu.
    { rewrite u64_small; lia. }
    assert (cache_wf st0) as Hwf0.
    { unfold cache_wf, st0. simpl. split_and!.
      - done.
      - rewrite Hu, length_rev. done.
      - intros x Hx. assert (x ≠ old) as Hne.
        { intros ->. apply (Hnotin old); [done|by apply list_elem_of_singleton]. }
        rewrite lookup_insert_ne by done. apply Hin. apply elem_of_app. by left.
      - intros x ex. destruct (decide (x = old)) as [->|Hne].
        + rewrite lookup_insert_eq. intros [= <-]. simpl. done.
        + rewrite lookup_insert_ne by done. intros Hl.
          destruct (Hall x ex Hl) as [Hb Hit]. split; [done|].
          intros Hi. destruct (Hit Hi) as [Hx Hc]. split; [|done].
          rewrite Hcache in Hx. apply elem_of_app in Hx as [Hx|Hx]; [done|].
          by apply list_elem_of_singleton in Hx. }
    destruct (sendEntryToMemory_spec P memLink e' st0)
      as (msg & Hq & Hwb & _ & Hts & Hd & Hec & Hecs & _).
    pose proof (only_cache_changed_sendEntryToMemory e' st0) as Hocc.
    set (st1 := sendEntryToMemory P memLink e' st0) in *.
    destruct (IH st1)
      as (st' & gone & wbs & E & Hwf' & Hpre & Hframe & Hdom & Hmin & Hperm & Hlen & Hwbs & Hocc').
    { by rewrite Hec. }
    { rewrite Hecs. unfold st0. simpl. rewrite Hu. lia. }
    { done. }
    { by apply cache_wf_sendEntryToMemory. }
    rewrite Hec in Hpre. rewrite Hecs in Hmin. unfold st0 in Hpre, Hmin. simpl in Hpre, Hmin.
    exists st', (gone ++ [old]), (wbs ++ [(u64 (timestamp st + accessLatency P), msg)]).
    split; [exact E|]. split; [done|]. split_and!.
    + rewrite Hcache, Hpre. by rewrite <- app_assoc.
    + intros x Hx. apply not_elem_of_app in Hx as [Hx Hne].
      rewrite (Hframe x Hx), Hd. unfold st0. simpl.
      rewrite lookup_insert_ne; [done|]. intros ->. apply Hne.
      by apply list_elem_of_singleton.
    + intros x. rewrite Hdom, Hd. unfold st0. simpl.
      destruct (decide (x = old)) as [->|Hne].
      * rewrite lookup_insert_eq, Hlook. by split.
      * by rewrite lookup_insert_ne.
    + rewrite Hu in Hmin. lia.
    + rewrite Hperm, Hq. unfold st0. simpl. rewrite mm_insert_perm, <- app_assoc. done.
    + rewrite !length_app. simpl. lia.
    + apply Forall_app. split.
      * rewrite Hts in Hwbs. exact Hwbs.
      * constructor; [|done]. exact Hwb.
    + apply (only_cache_changed_trans st st1 st'); [|done].
      unfold only_cache_changed in *. unfold st0 in Hocc. simpl in Hocc. exact Hocc.
Qed.

(** [updateCache] on a cached entry of a well-formed cache. *)
Lemma updateCache_wf entry st :
  let a := getEntryBaseAddr entry in
  0 ≤ entryCacheMaxSize P →
  cache_wf st →
  directory st !! a = Some entry →
  isCached entry = true →
  entryCacheSize st + 1 < 2 ^ 64 →
  ∃ st', updateCache P memLink entry st = Ret st'
    ∧ cache_wf st'
    ∧ only_cache_changed st st'
    ∧ (0 < entryCacheMaxSize P → getState entry = St.I →
       directory st' = delete a (directory st)
       ∧ entryCache st' = filter (λ x, x ≠ a) (entryCache st)
       ∧ memMsgQueue st' = memMsgQueue st)
    ∧ (0 < entryCacheMaxSize P → getState entry ≠ St.I →
       directory st' !! a = Some (setCacheIter true entry)
       ∧ (∃ gone wbs,
            a :: filter (λ x, x ≠ a) (entryCache st) = entryCache st' ++ gone
            ∧ entryCache st' ≠ []
            ∧ (∀ x, x ≠ a → x ∉ gone → directory st' !! x = directory st !! x)
            ∧ memMsgQueue st' ≡ₚ wbs ++ memMsgQueue st
            ∧ length wbs = length gone
            ∧ Forall (is_entry_writeback P memLink (u64 (timestamp st + accessLatency P)))
                wbs)
       ∧ ∀ x, is_Some (directory st' !! x) ↔ is_Some (directory st !! x)).
Proof.
  intros a Hmax Hwf Hlook Hcached Hbound.
  unfold updateCache. fold a. case_decide as Hz.
  { eexists. split; [done|]. split; [by apply cache_wf_sendEntryToMemory|].
    split; [apply only_cache_changed_sendEntryToMemory|]. split; intros; lia. }
  pose proof Hwf as (Hnd & Hsize & Hin & Hall).
  set (r := (if cacheIter entry then _ else _)).
  assert (∃ entry0 st0, r = (entry0, st0) ∧ entry0 = setCacheIter false entry
            ∧ cache_wf st0 ∧ directory st0 = <[a := entry0]> (directory st)
            ∧ entryCache st0 = filter (λ x, x ≠ a) (entryCache st)
            ∧ (a ∉ entryCache st0)
            ∧ entryCacheSize st0 ≤ entryCacheSize st
            ∧ memMsgQueue st0 = memMsgQueue st
            ∧ timestamp st0 = timestamp st
            ∧ only_cache_changed st st0)
    as (entry0 & st0 & -> & He0 & Hwf0 & Hd0 & Hec0 & Hnin0 & Hle0 & Hq0 & Hts0 & Hocc0).
  { unfold r. destruct (cacheIter entry) eqn:Eit.
    - destruct (Hall a entry Hlook) as [_ Hit]. destruct (Hit Eit) as [Hina _].
      pose proof (length_filter_ne a (entryCache st) Hnd Hina) as Hlen.
      eexists _, _. split; [reflexivity|]. simpl. split; [done|].
      assert (a ∉ filter (λ x, x ≠ a) (entryCache st)) as Hnin.
      { intros Hx. apply list_elem_of_filter in Hx as [Hx _]. done. }
      split_and!; try done; try (by unfold only_cache_changed).
      + unfold cache_wf. simpl. split_and!.
        * by apply NoDup_filter.
        * rewrite u64_small by lia. lia.
        * intros x Hx. apply list_elem_of_filter in Hx as [Hne Hx].
          rewrite lookup_insert_ne by done. by apply Hin.
        * intros x ex. destruct (decide (x = a)) as [->|Hne].
          -- rewrite lookup_insert_eq. intros [= <-]. simpl. done.
          -- rewrite lookup_insert_ne by done. intros Hl.
             destruct (Hall x ex Hl) as [Hb Hit']. split; [done|].
             intros Hi. destruct (Hit' Hi) as [Hx Hc]. split; [|done].
             apply list_elem_of_filter. done.
      + rewrite u64_small by lia. lia.
    - assert (a ∉ entryCache st) as Hnin.
      { intros Hx. destruct (Hin a Hx) as (e & He & Hi). congruence. }
      exists entry, st. split; [done|]. split; [by destruct entry; simpl in *; subst|].
      split_and!;
        first [done | by rewrite insert_id | by rewrite filter_ne_absent
               | apply only_cache_changed_refl]. }
  pose proof Hwf0 as (Hnd0 & Hsize0 & Hin0 & Hall0).
  assert (getState entry0 = getState entry) as Hst0 by (by subst entry0).
  rewrite Hst0. case_decide as Hstate.
  - eexists. split; [done|]. split; [|split].
    + unfold cache_wf. simpl. split_and!; try done.
      * intros x Hx. rewrite lookup_delete_ne by (by intros ->). by apply Hin0.
      * intros x ex Hl. destruct (decide (x = a)) as [->|Hne].
        -- by rewrite lookup_delete_eq in Hl.
        -- rewrite lookup_delete_ne in Hl by done. by apply Hall0.
    + unfold only_cache_changed in *. simpl. exact Hocc0.
    + split; [|done]. intros _ _. simpl. rewrite Hd0.
      split_and!; try done. by rewrite delete_insert_eq.
  - set (e1 := setCacheIter true entry0).
    set (st1 := store a e1
                  (set_entryCache (a :: entryCache st0) (u64 (entryCacheSize st0 + 1)) st0)).
    assert (u64 (entryCacheSize st0 + 1) = entryCacheSize st0 + 1) as Hu
      by (rewrite u64_small; lia).
    assert (e1 = setCacheIter true entry) as He1 by (by subst e1 entry0).
    assert (cache_wf st1) as Hwf1.
    { unfold cache_wf, st1. simpl. split_and!.
      - by constructor.
      - rewrite Hu. lia.
      - intros x Hx. destruct (decide (x = a)) as [->|Hne].
        + rewrite lookup_insert_eq. by exists e1.
        + rewrite lookup_insert_ne by done. apply Hin0.
          apply elem_of_cons in Hx as [?|Hx]; done.
      - intros x ex. destruct (decide (x = a)) as [->|Hne].
        + rewrite lookup_insert_eq. intros [= <-]. subst e1 entry0. simpl.
          split; [done|]. intros _. split; [apply list_elem_of_here|done].
        + rewrite lookup_insert_ne by done. intros Hl.
          destruct (Hall0 x ex Hl) as [Hb Hit']. split; [done|].
          intros Hi. destruct (Hit' Hi). split; [by apply list_elem_of_further|done]. }
    destruct (evict_loop_wf (rev (entryCache st1)) st1)
      as (st' & gone & wbs & E & Hwf' & Hpre & Hframe & Hdom & Hmin & Hperm & Hlen & Hwbs & Hocc').
    { by rewrite rev_involutive. }
    { unfold st1. simpl. rewrite Hu. lia. }
    { done. }
    { done. }
    exists st'. split; [exact E|]. split; [done|].
    assert (∀ x, is_Some (directory st' !! x) ↔ is_Some (directory st !! x)) as Hdom'.
    { intros x. rewrite Hdom. unfold st1. simpl. rewrite Hd0.
      destruct (decide (x = a)) as [->|Hne].
      - rewrite lookup_insert_eq, Hlook. by split.
      - by rewrite !lookup_insert_ne. }
    split.
    { apply (only_cache_changed_trans st st0 st'); [done|].
      unfold only_cache_changed in *. unfold st1 in Hocc'. simpl in Hocc'. exact Hocc'. }
    split; [done|]. intros Hpos _.
    change (entryCache st1) with (a :: entryCache st0) in Hpre.
    change (entryCacheSize st1) with (u64 (entryCacheSize st0 + 1)) in Hmin.
    change (memMsgQueue st1) with (memMsgQueue st0) in Hperm.
    change (timestamp st1) with (timestamp st0) in Hwbs.
    assert (entryCache st' ≠ []) as Hne'.
    { destruct Hwf' as (_ & Hsize' & _). intros Hnil. rewrite Hnil in Hsize'.
      simpl in Hsize'. rewrite Hu in Hmin. lia. }
    assert (a ∉ gone) as Hag.
    { destruct (entryCache st') as [|b tl] eqn:Ec'; [done|].
      simpl in Hpre. injection Hpre as <- Htl.
      intros Hg. apply Hnin0. rewrite Htl. apply elem_of_app. by right. }
    split_and!.
    + rewrite (Hframe a Hag). unfold st1. simpl. by rewrite lookup_insert_eq, He1.
    + exists gone, wbs. rewrite <- Hec0, <- Hq0, <- Hts0. split_and!; try done.
      intros x Hne Hx. rewrite (Hframe x Hx). unfold st1. simpl.
      rewrite lookup_insert_ne by done. rewrite Hd0. by rewrite lookup_insert_ne.
    + done.
Qed.

(** X3 (updateCache, sendEntryToMemory): updating the entry cache for a
    cached entry of the directory keeps the cache well formed (no line twice,
    the size counter equal to the length, the lines of the cache being the
    directory entries marked as in the cache, each entry stored under its
    base address).  With a positive capacity, an entry in state I is removed from
    cache and directory without a message; any other entry is moved to the
    front, and the cache is then the old order with [a] in front, cut at the
    end. *)
Theorem updateCache_keeps_cache_wf entry st :
  let a := getEntryBaseAddr entry in
  0 ≤ entryCacheMaxSize P →
  cache_wf st →
  directory st !! a = Some entry →
  isCached entry = true →
  entryCacheSize st + 1 < 2 ^ 64 →
  ∃ st', updateCache P memLink entry st = Ret st'
    ∧ cache_wf st'
    ∧ (0 < entryCacheMaxSize P → getState entry = St.I →
       directory st' = delete a (directory st)
       ∧ entryCache st' = filter (λ x, x ≠ a) (entryCache st)
       ∧ memMsgQueue st' = memMsgQueue st)
    ∧ (0 < entryCacheMaxSize P → getState entry ≠ St.I →
       directory st' !! a = Some (setCacheIter true entry)
       ∧ ∃ gone, a :: filter (λ x, x ≠ a) (entryCache st) = entryCache st' ++ gone
                 ∧ entryCache st' ≠ []).
Proof.
  intros a Hmax Hwf Hlook Hcached Hbound.
  destruct (updateCache_wf entry st Hmax Hwf Hlook Hcached Hbound)
    as (st' & E & Hwf' & _ & HI & HnI).
  exists st'. split; [exact E|]. split; [exact Hwf'|]. split; [exact HI|].
  intros Hpos Hstate. destruct (HnI Hpos Hstate) as (Hl & (gone & wbs & Hpre & Hne & _) & _).
  split; [exact Hl|]. by exists gone.
Qed.

End CacheFacts.

Lemma updateCache_keeps_cache_wf_witness :
  cache_wf dirCidle
  ∧ ∃ st', updateCache params0 memLink0 (entryC 0 false) dirCidle = Ret st' ∧ cache_wf st'.
Proof.
  assert (cache_wf dirCidle) as Hwf.
  { unfold cache_wf. split_and!.
    - apply (bool_decide_unpack _). vm_compute. exact I.
    - reflexivity.
    - intros x Hx.
      apply elem_of_cons in Hx as [->|Hx]; [by eexists|].
      apply elem_of_cons in Hx as [->|Hx]; [by eexists|].
      by apply elem_of_nil in Hx.
    - apply map_Forall_lookup.
      apply (bool_decide_unpack _). vm_compute. exact I. }
  split; [exact Hwf|].
  destruct (updateCache_keeps_cache_wf params0 memLink0 (entryC 0 false) dirCidle)
    as (st' & E & Hwf' & _).
  - discriminate.
  - exact Hwf.
  - reflexivity.
  - reflexivity.
  - reflexivity.
  - by exists st'.
Defined.

(** ** Reading a directory entry, and invalidating sharers *)

Section EntryFacts.
Context {T : Type} `{MSHR T}.
Variable P : Params.
Variables cpuLink memLink : MemLinkBase.
Implicit Type st : Dir T.
Implicit Type ev : MemEvent.
Implicit Type entry : DirEntry.

(** X4 (retrieveDirEntry, handleDirEntryResponse): reading the entry for an
    event that is (or becomes) first in the buffer for its line moves it from
    I, S or M to I_d, S_d or M_d, queues one GetS of the entry size
    for the line, local address, under a fresh id, and records the id; the
    response to that id puts the entry back in its old state, now cached,
    forgets the id and retries the line's first waiting event. *)
Theorem dir_entry_read_round_trip ev (inMSHR : bool) entry st :
  let a := getBaseAddr ev in
  let i := (nextEventID st, rank P) in
  getState entry = St.I ∨ getState entry = St.S ∨ getState entry = St.M →
  inMSHR = true ∨ (insertEvent a ev pos_default false false (mshr st)).1 = 0 →
  dirMemAccesses st !! i = None →
  ∃ st1 req s_d,
    retrieveDirEntry P entry ev inMSHR st = Ret (true, st1)
    ∧ (getState entry, s_d) ∈ [(St.I, St.I_d); (St.S, St.S_d); (St.M, St.M_d)]
    ∧ directory st1 = <[a := setState s_d entry]> (directory st)
    ∧ memMsgQueue st1 =
        mm_insert (u64 (timestamp st + accessLatency P)) (mkMemMsg req true) (memMsgQueue st)
    ∧ cpuMsgQueue st1 = cpuMsgQueue st
    ∧ getCmd req = GetS ∧ getID req = i ∧ getSrc req = getName P
    ∧ getSize req = entrySize P ∧ isAddrGlobal req = false
    ∧ dirMemAccesses st1 !! i = Some a
    ∧ ∀ resp, getResponseToID resp = i →
        ∃ st2, handleDirEntryResponse resp st1 = Ret (true, st2)
          ∧ directory st2 = <[a := setCached true entry]> (directory st)
          ∧ dirMemAccesses st2 = dirMemAccesses st
          ∧ retryBuffer st2 = retryBuffer st ++ [getFrontEvent a (mshr st1)]
          ∧ mshr st2 = mshr st1
          ∧ memMsgQueue st2 = memMsgQueue st1 ∧ cpuMsgQueue st2 = cpuMsgQueue st1.
Proof.
  intros a i Hstate Hfront Hfresh.
  set (m1 := if inMSHR then mshr st
             else (insertEvent a ev pos_default false false (mshr st)).2).
  set (req := setSize (entrySize P)
                (setAddrGlobal false (newMemEvent i (getName P) 0 0 GetS (lineSize P)))).
  assert (∃ s_d, (getState entry, s_d) ∈ [(St.I, St.I_d); (St.S, St.S_d); (St.M, St.M_d)]
            ∧ retrieveDirEntry P entry ev inMSHR st =
                Ret (true,
                     set_memMsgQueue
                       (mm_insert (u64 (timestamp st + accessLatency P)) (mkMemMsg req true)
                          (memMsgQueue st))
                       (set_dirMemAccesses (<[i := a]> (dirMemAccesses st))
                          (set_nextEventID (nextEventID st + 1)
                             (store a (setState s_d entry) (set_mshr m1 st))))))
    as (s_d & Hpair & E).
  { unfold retrieveDirEntry.
    change (if inMSHR then (OK, st) else allocateMSHR ev false pos_default st)
      with (alloc_unless_inMSHR ev inMSHR false pos_default st).
    rewrite (alloc_unless_inMSHR_front ev inMSHR false pos_default st Hfront).
    fold a m1. simpl. unfold map_insert_new. simpl. fold i. rewrite Hfresh.
    destruct Hstate as [->|[->| ->]]; eexists; (split; [|reflexivity]).
    - apply list_elem_of_here.
    - apply list_elem_of_further, list_elem_of_here.
    - do 2 apply list_elem_of_further. apply list_elem_of_here. }
  eexists _, req, s_d. split; [exact E|]. simpl.
  split_and!; try done.
  { by rewrite lookup_insert_eq. }
  intros resp Hresp. unfold handleDirEntryResponse. rewrite Hresp. simpl.
  rewrite lookup_insert_eq. simpl.
  unfold getDirEntry. simpl. rewrite lookup_insert_eq. simpl.
  assert (∃ e, match s_d with
               | St.I_d => Ret (setState St.I (setState s_d entry))
               | St.S_d => Ret (setState St.S (setState s_d entry))
               | St.M_d => Ret (setState St.M (setState s_d entry))
               | _ => Fatal
               end = Ret e ∧ setCached true e = setCached true entry) as (e & -> & He).
  { apply elem_of_cons in Hpair as [[= Hs ->]|Hpair].
    { eexists; split; [done|]. destruct entry; simpl in *; by subst. }
    apply elem_of_cons in Hpair as [[= Hs ->]|Hpair].
    { eexists; split; [done|]. destruct entry; simpl in *; by subst. }
    apply list_elem_of_singleton in Hpair as [= Hs ->].
    eexists; split; [done|]. destruct entry; simpl in *; by subst. }
  simpl. eexists. split; [reflexivity|]. simpl. rewrite He.
  split_and!; try done.
  - by rewrite insert_insert_eq.
  - rewrite delete_insert_eq. by apply delete_id.
Qed.

(** X5 (issueInvalidations, issueInvalidation): every sharer but the
    requester gets one invalidation with the given command for the line, in
    sharer order, all due after the access latency, and the line expects one
    more acknowledgement for each; the directory and the retry buffer are
    unchanged. *)
Theorem issueInvalidations_reaches_other_sharers ev entry (c : Command) st :
  (∀ s, s ∈ getSharers entry → s ≠ getSrc ev →
        isReachable cpuLink s || isReachable memLink s = true) →
  ∃ st' invs,
    issueInvalidations P cpuLink memLink ev entry c st = Ret st'
    ∧ getDst <$> invs = filter (λ s, s ≠ getSrc ev) (getSharers entry)
    ∧ Forall (λ m, getCmd m = c ∧ getSrc m = getName P
                   ∧ getBaseAddr m = getEntryBaseAddr entry) invs
    ∧ outgoing st' ≡ₚ
        ((λ m, (u64 (timestamp st + accessLatency P), m)) <$> invs) ++ outgoing st
    ∧ mshr st' =
        Nat.iter (length invs) (incrementAcksNeeded (getEntryBaseAddr entry)) (mshr st)
    ∧ directory st' = directory st ∧ retryBuffer st' = retryBuffer st.
Proof.
  intros Hreach. unfold issueInvalidations.
  destruct (issueInvalidations_from_spec P cpuLink memLink (getSharers entry) ev entry c st Hreach)
    as (st' & invs & E & Ho & Hds & Hall & Hm & Hd & Hrb & _).
  exists st', invs. split_and!; done.
Qed.

End EntryFacts.

Lemma dir_entry_read_round_trip_witness :
  ∃ st1 st2,
    retrieveDirEntry params0 (mkDirEntry 64 St.I None [] false false)
      (request 1 GetS "A" 64) false dirU = Ret (true, st1)
    ∧ directory st1 !! 64 = Some (mkDirEntry 64 St.I_d None [] false false)
    ∧ handleDirEntryResponse
        (setAddrGlobal false
           (makeResponseCmd (9, 3) GetSResp
              (setDst "mem" (setAddrGlobal false (newMemEvent (100, 0) "dir" 0 0 GetS 4)))))
        st1 = Ret (true, st2)
    ∧ directory st2 !! 64 = Some (mkDirEntry 64 St.I None [] true false)
    ∧ retryBuffer st2 = [Some (request 1 GetS "A" 64)].
Proof.
  destruct (dir_entry_read_round_trip params0 (request 1 GetS "A" 64) false
              (mkDirEntry 64 St.I None [] false false) dirU)
    as (st1 & req & s_d & E1 & _ & _ & _ & _ & _ & _ & _ & _ & _ & _ & Hback).
  - by left.
  - right. reflexivity.
  - reflexivity.
  - destruct (Hback (setAddrGlobal false
                       (makeResponseCmd (9, 3) GetSResp
                          (setDst "mem"
                             (setAddrGlobal false (newMemEvent (100, 0) "dir" 0 0 GetS 4))))))
      as (st2 & E2 & _); [reflexivity|].
    exists st1, st2. split; [exact E1|].
    injection E1 as <-. split; [reflexivity|]. split; [exact E2|].
    injection E2 as <-. split; reflexivity.
Defined.

Lemma issueInvalidations_reaches_other_sharers_witness :
  ∃ st' invs,
    issueInvalidations params0 cpuLink0 memLink0 (request 1 GetX "A" 0) entryS Inv dirS = Ret st'
    ∧ getDst <$> invs = ["B"]
    ∧ outgoing st' ≡ₚ ((λ m, (13, m)) <$> invs) ++ outgoing dirS.
Proof.
  destruct (issueInvalidations_reaches_other_sharers params0 cpuLink0 memLink0
              (request 1 GetX "A" 0) entryS Inv dirS)
    as (st' & invs & E & Hds & _ & Ho & _).
  - intros s Hs Hne.
    apply elem_of_cons in Hs as [->|Hs]; [done|].
    apply elem_of_cons in Hs as [->|Hs]; [reflexivity|].
    by apply elem_of_nil in Hs.
  - exists st', invs. split; [exact E|]. split; [exact Hds|exact Ho].
Defined.

(** ** Responses, writebacks and exclusive requests *)

#[global] Arguments sendResponse : simpl never.
#[global] Arguments sendAckPut : simpl never.
#[global] Arguments writebackData : simpl never.
#[global] Arguments issueFlush : simpl never.

Section HandlerFacts.
Context {T : Type} `{MSHR T}.
Variable P : Params.
Variables cpuLink memLink : MemLinkBase.
Implicit Type st : Dir T.
Implicit Type ev : MemEvent.
Implicit Type entry : DirEntry.

Local Abbreviation reachable s :=
  (isReachable cpuLink s || isReachable memLink s = true).

Lemma outgoing_set_mshr (m : T) st : outgoing (set_mshr m st) = outgoing st.
Proof. done. Qed.

Lemma outgoing_store a entry st : outgoing (store a entry st) = outgoing st.
Proof. done. Qed.

Lemma outgoing_push_retry p st : outgoing (push_retry p st) = outgoing st.
Proof. done. Qed.

Lemma cleanUpAfterResponse_spec ev (inMSHR : bool) st :
  let a := getBaseAddr ev in
  let m1 := removeFront a (mshr st) in
  mshr (cleanUpAfterResponse ev inMSHR st) = m1
  ∧ retryBuffer (cleanUpAfterResponse ev inMSHR st) = retryBuffer st ++ ready_front a m1
  ∧ outgoing (cleanUpAfterResponse ev inMSHR st) = outgoing st
  ∧ directory (cleanUpAfterResponse ev inMSHR st) = directory st
  ∧ responses (cleanUpAfterResponse ev inMSHR st) = responses st
  ∧ entryCache (cleanUpAfterResponse ev inMSHR st) = entryCache st
  ∧ entryCacheSize (cleanUpAfterResponse ev inMSHR st) = entryCacheSize st
  ∧ timestamp (cleanUpAfterResponse ev inMSHR st) = timestamp st.
Proof.
  intros a m1. unfold cleanUpAfterResponse. fold a.
  destruct (retry_front_if_ready_spec a (set_mshr (removeFront a (mshr st)) st))
    as (Hts' & Hd' & Hec' & Hecs' & Hm' & Hr' & Hcq' & Hmq' & Hnc' & Hdm' & Hid' & Hrb').
  unfold outgoing, ready_front. rewrite Hm', Hrb', Hcq', Hmq', Hd', Hr', Hec', Hecs', Hts'.
  done.
Qed.

Lemma sendResponse_spec ev fl mf st :
  reachable (getSrc ev) →
  ∃ st', sendResponse P cpuLink memLink ev fl mf st = Ret st'
    ∧ outgoing st' ≡ₚ
        (u64 (timestamp st + mshrLatency P),
         setFlags fl (setMemFlags mf (setSize (lineSize P)
           (makeResponse (nextEventID st, rank P) ev)))) :: outgoing st
    ∧ mshr st' = mshr st
    ∧ nextEventID st' = nextEventID st + 1
    ∧ only_sent st st'.
Proof.
  intros Hr. unfold sendResponse. simpl.
  set (resp := setFlags _ _).
  destruct (forwardByDestination_sent cpuLink memLink resp
              (u64 (timestamp st + mshrLatency P)) false
              (set_nextEventID (nextEventID st + 1) st))
    as (st' & -> & Ho & Hm & Hid & Hs); [done|].
  exists st'. split; [reflexivity|]. split_and!; done.
Qed.

Lemma sendAckPut_spec ev st :
  reachable (getSrc ev) →
  ∃ st', sendAckPut P cpuLink memLink ev st = Ret st'
    ∧ outgoing st' ≡ₚ
        (u64 (timestamp st + accessLatency P),
         makeResponseCmd (nextEventID st, rank P) AckPut ev) :: outgoing st
    ∧ mshr st' = mshr st
    ∧ nextEventID st' = nextEventID st + 1
    ∧ only_sent st st'.
Proof.
  intros Hr. unfold sendAckPut. simpl.
  destruct (forwardByDestination_sent cpuLink memLink
              (makeResponseCmd (nextEventID st, rank P) AckPut ev)
              (u64 (timestamp st + accessLatency P)) false
              (set_nextEventID (nextEventID st + 1) st))
    as (st' & -> & Ho & Hm & Hid & Hs); [done|].
  exists st'. split; [reflexivity|]. split_and!; done.
Qed.

(** X6 (handleGetSResp, sendDataResponse, cleanUpAfterResponse): the data of
    a read arriving in IS or S_D goes to the requester of the line's first
    waiting event as a GetSResp carrying the response's payload; the requester
    becomes a sharer and the line is S (a requester outside the coherence
    domain is not recorded, and IS falls back to I), the data is kept clean in
    the buffer, the event leaves it and the next one, if any, is retried. *)
Theorem handleGetSResp_answers_the_read ev (inMSHR : bool) entry reqEv st :
  let a := getBaseAddr ev in
  let requester := getSrc reqEv in
  let entry' :=
    if isIncoherent P requester
    then setState (if decide (getState entry = St.IS) then St.I else St.S) entry
    else addSharer requester (setState St.S entry) in
  let m1 := removeFront a (setData a (getPayload ev) false (mshr st)) in
  directory st !! a = Some entry →
  getState entry = St.IS ∨ getState entry = St.S_D →
  getFrontEvent a (mshr st) = Some reqEv →
  reachable requester →
  ∃ st' resp,
    Handler.handleGetSResp P cpuLink memLink ev inMSHR st = Ret (true, st')
    ∧ directory st' = <[a := entry']> (directory st)
    ∧ outgoing st' ≡ₚ (u64 (timestamp st + mshrLatency P), resp) :: outgoing st
    ∧ getCmd resp = GetSResp ∧ getDst resp = requester
    ∧ getPayload resp = getPayload ev ∧ getSize resp = lineSize P
    ∧ getResponseToID resp = getID reqEv
    ∧ mshr st' = m1
    ∧ retryBuffer st' = retryBuffer st ++ ready_front a m1
    ∧ responses st' = responses st.
Proof.
  intros a requester entry' m1 Hlook Hstate Hfr Hreach.
  unfold Handler.handleGetSResp. fold a.
  rewrite (getDirEntry_present a st entry Hlook).
  assert (negb (bool_decide (getState entry = St.IS))
          && negb (bool_decide (getState entry = St.S_D)) = false) as ->.
  { destruct Hstate as [-> | ->]; done. }
  rewrite Hfr. simpl. fold requester.
  assert ((if negb (isIncoherent P requester)
           then addSharer requester (setState St.S entry)
           else if decide (getState entry = St.IS) then setState St.I entry
                else setState St.S entry) = entry') as ->.
  { unfold entry'. destruct (isIncoherent P requester); simpl; [|done].
    by case_decide. }
  destruct (sendDataResponse_spec P cpuLink memLink reqEv entry' (getPayload ev) GetSResp 0
              (store a entry' st) Hreach)
    as (st2 & -> & Ho2 & Hm2 & Hid2 & Hs2).
  simpl. eexists _, _. split; [reflexivity|].
  destruct (cleanUpAfterResponse_spec ev inMSHR
              (set_mshr (setData a (getPayload ev) false (mshr st2)) st2))
    as (Hcm & Hcrb & Hco & Hcd & Hcr & _).
  fold a in Hcm, Hcrb. simpl in Hcm, Hcrb, Hcd, Hcr.
  rewrite outgoing_set_mshr in Hco. rewrite outgoing_store in Ho2.
  destruct Hs2 as (_ & Hd2 & _ & _ & Hr2 & Hrb2 & _). simpl in *.
  rewrite Hcd, Hd2, Hcm, Hcrb, Hcr, Hco, Ho2, Hm2, Hrb2, Hr2.
  split_and!; done.
Qed.


(** X7 (handleGetXResp): in IM the exclusive data goes to the requester of
    the first waiting event as a GetXResp, the requester becomes owner in M
    (or the line returns to I for a requester outside the coherence domain),
    the event is removed and the next retried; in SM_Inv the data is only
    buffered and the line moves to S_Inv, waiting for acknowledgements. *)
Theorem handleGetXResp_exclusive_data ev (inMSHR : bool) entry st :
  let a := getBaseAddr ev in
  directory st !! a = Some entry →
  (∀ reqEv,
     getState entry = St.IM →
     getFrontEvent a (mshr st) = Some reqEv →
     reachable (getSrc reqEv) →
     let entry' := if isIncoherent P (getSrc reqEv) then setState St.I entry
                   else setOwner (getSrc reqEv) (setState St.M entry) in
     ∃ st' resp,
       handleGetXResp P cpuLink memLink ev inMSHR st = Ret (true, st')
       ∧ directory st' = <[a := entry']> (directory st)
       ∧ outgoing st' ≡ₚ (u64 (timestamp st + mshrLatency P), resp) :: outgoing st
       ∧ getCmd resp = GetXResp ∧ getDst resp = getSrc reqEv
       ∧ getPayload resp = getPayload ev ∧ getSize resp = lineSize P
       ∧ getResponseToID resp = getID reqEv
       ∧ mshr st' = removeFront a (mshr st)
       ∧ retryBuffer st' = retryBuffer st ++ ready_front a (removeFront a (mshr st)))
  ∧ (getState entry = St.SM_Inv →
     handleGetXResp P cpuLink memLink ev inMSHR st =
       Ret (true, set_mshr (setData a (getPayload ev) false (mshr st))
                    (store a (setState St.S_Inv entry) st))).
Proof.
  intros a Hlook. split.
  - intros reqEv Hstate Hfr Hreach entry'.
    unfold handleGetXResp. fold a.
    rewrite (getDirEntry_present a st entry Hlook), Hstate, Hfr. simpl.
    assert ((if negb (isIncoherent P (getSrc reqEv))
             then setOwner (getSrc reqEv) (setState St.M entry)
             else setState St.I entry) = entry') as ->.
    { unfold entry'. by destruct (isIncoherent P (getSrc reqEv)). }
    destruct (sendDataResponse_spec P cpuLink memLink reqEv entry' (getPayload ev) GetXResp 0
                (store a entry' st) Hreach)
      as (st2 & -> & Ho2 & Hm2 & Hid2 & Hs2).
    simpl. eexists _, _. split; [reflexivity|].
    destruct (cleanUpAfterResponse_spec ev inMSHR st2)
      as (Hcm & Hcrb & Hco & Hcd & Hcr & _).
    fold a in Hcm, Hcrb. rewrite outgoing_store in Ho2.
    destruct Hs2 as (_ & Hd2 & _ & _ & Hr2 & Hrb2 & _). simpl in *.
    rewrite Hcd, Hd2, Hcm, Hcrb, Hco, Ho2, Hm2, Hrb2.
    split_and!; done.
  - intros Hstate. unfold handleGetXResp. fold a.
    by rewrite (getDirEntry_present a st entry Hlook), Hstate.
Qed.

(** X8 (handleWriteResp): in IM, with a write waiting in front of the buffer
    for the line whose sender is on a link, the write response completes that
    write: its sender gets the response to its command, answering the
    write's id, the line returns to I, the event is removed and the next one
    retried. *)
Theorem handleWriteResp_completes_the_write ev (inMSHR : bool) entry reqEv st :
  let a := getBaseAddr ev in
  directory st !! a = Some entry →
  getState entry = St.IM →
  getFrontEvent a (mshr st) = Some reqEv →
  reachable (getSrc reqEv) →
  ∃ st' resp,
    Handler.handleWriteResp P cpuLink memLink ev inMSHR st = Ret (true, st')
    ∧ directory st' = <[a := setState St.I entry]> (directory st)
    ∧ outgoing st' ≡ₚ (u64 (timestamp st + mshrLatency P), resp) :: outgoing st
    ∧ getCmd resp = CommandResponse (getCmd reqEv) ∧ getDst resp = getSrc reqEv
    ∧ getResponseToID resp = getID reqEv
    ∧ mshr st' = removeFront a (mshr st)
    ∧ retryBuffer st' = retryBuffer st ++ ready_front a (removeFront a (mshr st)).
Proof.
  intros a Hlook Hstate Hfr Hreach.
  unfold Handler.handleWriteResp. fold a.
  rewrite (getDirEntry_present a st entry Hlook), Hstate, Hfr. simpl.
  set (resp := makeResponse (nextEventID st, rank P) reqEv).
  destruct (forwardByDestination_sent cpuLink memLink resp
              (u64 (timestamp st + mshrLatency P)) false
              (set_nextEventID (nextEventID st + 1) (store a (setState St.I entry) st)))
    as (st2 & -> & Ho2 & Hm2 & Hid2 & Hs2); [done|].
  simpl. exists (cleanUpAfterResponse ev inMSHR st2), resp. split; [reflexivity|].
  destruct (cleanUpAfterResponse_spec ev inMSHR st2)
    as (Hcm & Hcrb & Hco & Hcd & Hcr & _).
  fold a in Hcm, Hcrb.
  change (outgoing (set_nextEventID _ _)) with (outgoing st) in Ho2.
  destruct Hs2 as (_ & Hd2 & _ & _ & Hr2 & Hrb2 & _). simpl in *.
  rewrite Hcd, Hd2, Hcm, Hcrb, Hco, Ho2, Hm2, Hrb2.
  split_and!; done.
Qed.

(** X9 (handleFlushLineResp, sendResponse): a flush response in I, I_B or
    S_B is passed on to the flush's requester with the response's flags, the
    buffered data are dropped, the line ends in I (from I, I_B) or S (from
    S_B), the event is removed and the next retried; in any other state the
    handler is fatal. *)
Theorem handleFlushLineResp_completes_the_flush ev (inMSHR : bool) entry reqEv st :
  let a := getBaseAddr ev in
  let m1 := removeFront a (clearData a (mshr st)) in
  directory st !! a = Some entry →
  getFrontEvent a (mshr st) = Some reqEv →
  reachable (getSrc reqEv) →
  match (match getState entry with
         | St.I | St.I_B => Some St.I
         | St.S_B => Some St.S
         | _ => None
         end) with
  | Some next =>
      ∃ st' resp,
        Handler.handleFlushLineResp P cpuLink memLink ev inMSHR st = Ret (true, st')
        ∧ directory st' = <[a := setState next entry]> (directory st)
        ∧ outgoing st' ≡ₚ (u64 (timestamp st + mshrLatency P), resp) :: outgoing st
        ∧ getCmd resp = CommandResponse (getCmd reqEv) ∧ getDst resp = getSrc reqEv
        ∧ getFlags resp = getFlags ev ∧ getMemFlags resp = getMemFlags ev
        ∧ getSize resp = lineSize P ∧ getResponseToID resp = getID reqEv
        ∧ mshr st' = m1
        ∧ retryBuffer st' = retryBuffer st ++ ready_front a m1
  | None => Handler.handleFlushLineResp P cpuLink memLink ev inMSHR st = Fatal
  end.
Proof.
  intros a m1 Hlook Hfr Hreach.
  unfold Handler.handleFlushLineResp. fold a.
  rewrite (getDirEntry_present a st entry Hlook), Hfr.
  assert (∀ next e1,
            e1 = setState next entry →
            ∃ st' resp,
              (do reqEv0 <- deref (Some reqEv);
               do st0 <- sendResponse P cpuLink memLink reqEv0 (getFlags ev) (getMemFlags ev)
                           (store a e1 (set_mshr (clearData a (mshr st)) st));
               Ret (true, cleanUpAfterResponse ev inMSHR st0)) = Ret (true, st')
              ∧ directory st' = <[a := setState next entry]> (directory st)
              ∧ outgoing st' ≡ₚ (u64 (timestamp st + mshrLatency P), resp) :: outgoing st
              ∧ getCmd resp = CommandResponse (getCmd reqEv) ∧ getDst resp = getSrc reqEv
              ∧ getFlags resp = getFlags ev ∧ getMemFlags resp = getMemFlags ev
              ∧ getSize resp = lineSize P ∧ getResponseToID resp = getID reqEv
              ∧ mshr st' = m1
              ∧ retryBuffer st' = retryBuffer st ++ ready_front a m1) as Hgo.
  { intros next e1 ->. simpl.
    destruct (sendResponse_spec reqEv (getFlags ev) (getMemFlags ev)
                (store a (setState next entry) (set_mshr (clearData a (mshr st)) st)) Hreach)
      as (st2 & -> & Ho2 & Hm2 & Hid2 & Hs2).
    simpl. eexists _, _. split; [reflexivity|].
    destruct (cleanUpAfterResponse_spec ev inMSHR st2)
      as (Hcm & Hcrb & Hco & Hcd & Hcr & _).
    fold a in Hcm, Hcrb. rewrite outgoing_store, outgoing_set_mshr in Ho2.
    destruct Hs2 as (_ & Hd2 & _ & _ & Hr2 & Hrb2 & _). simpl in *.
    rewrite Hcd, Hd2, Hcm, Hcrb, Hco, Ho2, Hm2, Hrb2.
    split_and!; done. }
  destruct (getState entry) eqn:Hstate; simpl; try done.
  - apply (Hgo St.I). destruct entry; simpl in *; by subst.
  - by apply (Hgo St.S).
  - by apply (Hgo St.I).
Qed.


Lemma writebackDataFromMSHR_spec (a : Addr) st :
  route cpuLink memLink a ≠ "" →
  ∃ st', writebackDataFromMSHR P cpuLink memLink a st = Ret st'
    ∧ outgoing st' ≡ₚ
        (u64 (timestamp st + mshrLatency P),
         setDst (route cpuLink memLink a)
           (setDirty (getDataDirty a (mshr st))
              (setPayload (getData a (mshr st))
                 (newMemEvent (nextEventID st, rank P) (getName P) a a PutM (lineSize P)))))
        :: outgoing st
    ∧ mshr st' = (if waitWBAck P
                  then insertWriteback a false (setDataDirty a false (mshr st))
                  else setDataDirty a false (mshr st))
    ∧ nextEventID st' = nextEventID st + 1
    ∧ only_sent st st'.
Proof.
  intros Hr. unfold writebackDataFromMSHR. simpl.
  set (wb := setDirty _ _).
  set (st1 := if waitWBAck P then _ else _).
  assert (timestamp st1 = timestamp st ∧ outgoing st1 = outgoing st
          ∧ nextEventID st1 = nextEventID st + 1
          ∧ mshr st1 = (if waitWBAck P
                        then insertWriteback a false (setDataDirty a false (mshr st))
                        else setDataDirty a false (mshr st))
          ∧ only_sent st st1) as (E1 & E2 & E3 & E4 & E5).
  { unfold st1, only_sent, outgoing. destruct (waitWBAck P); simpl; split_and!; done. }
  destruct (forwardByAddress_sent cpuLink memLink wb
              (u64 (timestamp st1 + mshrLatency P)) false st1)
    as (st' & -> & Ho & Hm & Hid & Hs); [done|].
  exists st'. split; [reflexivity|]. rewrite Ho, E1, E2.
  split_and!; [done|congruence..|by apply (only_sent_trans st st1 st')].
Qed.

Lemma take_fetched_data_spec ev st resp :
  let a := getBaseAddr ev in
  responses st !! a = Some resp →
  ∃ st', Handler.take_fetched_data ev st = Ret st'
    ∧ responses st' = without_response a (getSrc ev) (responses st)
    ∧ mshr st' = setData a (getPayload ev) (getDirty ev) (decrementAcksNeeded a (mshr st)).2
    ∧ outgoing st' = outgoing st
    ∧ directory st' = directory st ∧ retryBuffer st' = retryBuffer st
    ∧ timestamp st' = timestamp st ∧ nextEventID st' = nextEventID st
    ∧ entryCache st' = entryCache st ∧ entryCacheSize st' = entryCacheSize st.
Proof.
  intros a Hresp. unfold Handler.take_fetched_data. fold a.
  destruct (decrementAcksNeeded a (mshr st)) as [b m] eqn:Ed. simpl.
  destruct (erase_response_spec a (getSrc ev) (set_mshr m st) resp Hresp)
    as (st1 & -> & Hr1 & Hts1 & Hd1 & Hec1 & Hecs1 & Hm1 & Hrb1 & Hcq1 & Hmq1 & _ & _ & Hid1).
  simpl. eexists. split; [reflexivity|]. simpl in *.
  unfold without_response, outgoing. simpl. rewrite Hresp, Hr1, Hm1, Hcq1, Hmq1.
  split_and!; done.
Qed.

(** X10 (handleFetchResp, writebackDataFromMSHR): a fetch response in S_Inv
    or M_Inv is counted, its data buffered, the line set to I, the sender's
    expected response erased and the first waiting event retried; dirty data
    are also written back to memory at once as a PutM (and recorded as a
    pending writeback when acknowledgements are awaited), clean data send
    nothing. *)
Theorem handleFetchResp_takes_the_data ev (inMSHR : bool) entry resp st :
  let a := getBaseAddr ev in
  let m1 := setData a (getPayload ev) (getDirty ev) (decrementAcksNeeded a (mshr st)).2 in
  directory st !! a = Some entry →
  getState entry = St.S_Inv ∨ getState entry = St.M_Inv →
  responses st !! a = Some resp →
  (getDirty ev = true → route cpuLink memLink a ≠ "") →
  ∃ st',
    Handler.handleFetchResp P cpuLink memLink ev inMSHR st = Ret (true, st')
    ∧ directory st' = <[a := setState St.I entry]> (directory st)
    ∧ responses st' = without_response a (getSrc ev) (responses st)
    ∧ retryBuffer st' = retryBuffer st ++ [getFrontEvent a m1]
    ∧ (if getDirty ev then
         ∃ wb, outgoing st' ≡ₚ (u64 (timestamp st + mshrLatency P), wb) :: outgoing st
           ∧ getCmd wb = PutM ∧ getBaseAddr wb = a ∧ getSrc wb = getName P
           ∧ getDst wb = route cpuLink memLink a
           ∧ getPayload wb = getData a m1 ∧ getDirty wb = getDataDirty a m1
           ∧ mshr st' = (if waitWBAck P then insertWriteback a false (setDataDirty a false m1)
                         else setDataDirty a false m1)
       else outgoing st' = outgoing st ∧ mshr st' = m1).
Proof.
  intros a m1 Hlook Hstate Hresp Hroute.
  unfold Handler.handleFetchResp. fold a.
  rewrite (getDirEntry_present a st entry Hlook).
  assert (negb (bool_decide (getState entry = St.S_Inv))
          && negb (bool_decide (getState entry = St.M_Inv)) = false) as ->.
  { destruct Hstate as [-> | ->]; done. }
  destruct (take_fetched_data_spec ev st resp Hresp)
    as (st1 & -> & Hr1 & Hm1 & Ho1 & Hd1 & Hrb1 & Hts1 & Hid1 & _).
  fold a in Hr1, Hm1. fold m1 in Hm1. simpl.
  set (st2 := push_retry _ _).
  destruct (getDirty ev) eqn:Edirty.
  - destruct (writebackDataFromMSHR_spec a st2 (Hroute eq_refl))
      as (st3 & -> & Ho3 & Hm3 & Hid3 & Hs3).
    simpl. eexists. split; [reflexivity|].
    destruct Hs3 as (_ & Hd3 & _ & _ & Hr3 & Hrb3 & _).
    unfold st2 in *. rewrite outgoing_push_retry, outgoing_store in Ho3. simpl in *.
    rewrite Hd3, Hr3, Hrb3, Hd1, Hrb1, Hm1.
    split_and!; try done.
    eexists. rewrite Ho3, Ho1, Hts1, Hm3, Hm1. split_and!; done.
  - simpl. eexists. split; [reflexivity|]. unfold st2.
    rewrite outgoing_push_retry, outgoing_store. simpl.
    rewrite Hd1, Hrb1, Hm1. split_and!; done.
Qed.

(** X11 (handleFetchXResp): in M_InvX the response turns the owner into a
    sharer and the line into S, buffers the data, erases the expected response
    and retries the first waiting event, without sending anything; in any
    other state the handler is fatal. *)
Theorem handleFetchXResp_downgrades_the_owner ev (inMSHR : bool) entry resp st :
  let a := getBaseAddr ev in
  let m1 := setData a (getPayload ev) (getDirty ev) (decrementAcksNeeded a (mshr st)).2 in
  directory st !! a = Some entry →
  responses st !! a = Some resp →
  if decide (getState entry = St.M_InvX) then
    ∃ st',
      Handler.handleFetchXResp ev inMSHR st = Ret (true, st')
      ∧ directory st' =
          <[a := setState St.S (addSharer (getSrc ev) (removeOwner entry))]> (directory st)
      ∧ responses st' = without_response a (getSrc ev) (responses st)
      ∧ mshr st' = m1
      ∧ retryBuffer st' = retryBuffer st ++ [getFrontEvent a m1]
      ∧ outgoing st' = outgoing st
  else Handler.handleFetchXResp ev inMSHR st = Fatal.
Proof.
  intros a m1 Hlook Hresp.
  unfold Handler.handleFetchXResp. fold a.
  rewrite (getDirEntry_present a st entry Hlook).
  case_decide as Hstate; [|by rewrite bool_decide_eq_false_2].
  rewrite bool_decide_eq_true_2 by done. simpl.
  destruct (take_fetched_data_spec ev st resp Hresp)
    as (st1 & -> & Hr1 & Hm1 & Ho1 & Hd1 & Hrb1 & Hts1 & Hid1 & _).
  fold a in Hr1, Hm1. fold m1 in Hm1. simpl.
  eexists. split; [reflexivity|].
  rewrite outgoing_push_retry, outgoing_store. simpl.
  rewrite Hd1, Hr1, Hm1, Hrb1, Ho1. split_and!; done.
Qed.


Lemma cleanUpAfterRequest_spec' ev (inMSHR : bool) st :
  let a := getBaseAddr ev in
  let m1 := after_request a inMSHR (mshr st) in
  mshr (cleanUpAfterRequest ev inMSHR st) = m1
  ∧ retryBuffer (cleanUpAfterRequest ev inMSHR st) = retryBuffer st ++ ready_front a m1
  ∧ outgoing (cleanUpAfterRequest ev inMSHR st) = outgoing st
  ∧ directory (cleanUpAfterRequest ev inMSHR st) = directory st
  ∧ responses (cleanUpAfterRequest ev inMSHR st) = responses st
  ∧ entryCache (cleanUpAfterRequest ev inMSHR st) = entryCache st
  ∧ entryCacheSize (cleanUpAfterRequest ev inMSHR st) = entryCacheSize st
  ∧ timestamp (cleanUpAfterRequest ev inMSHR st) = timestamp st.
Proof.
  intros a m1.
  destruct (cleanUpAfterRequest_spec ev inMSHR st) as (Hm & Hrb & Ho & _ & Hs).
  fold a in Hm, Hrb. destruct Hs as (Hts & Hd & Hec & Hecs & Hr & _).
  simpl in *. unfold ready_front, m1, after_request. rewrite Hm, Hrb.
  split_and!; done.
Qed.

Lemma writebackData_spec ev st :
  let a := getBaseAddr ev in
  route cpuLink memLink a ≠ "" →
  ∃ st', writebackData P cpuLink memLink ev st = Ret st'
    ∧ outgoing st' ≡ₚ
        (u64 (timestamp st + accessLatency P),
         setDst (route cpuLink memLink a)
           (setDirty (getDirty ev)
              (setPayload (getPayload ev)
                 (copyMetadata ev
                    (newMemEvent (nextEventID st, rank P) (getName P) a a PutM (lineSize P))))))
        :: outgoing st
    ∧ mshr st' = (if waitWBAck P then insertWriteback a false (mshr st) else mshr st)
    ∧ nextEventID st' = nextEventID st + 1
    ∧ only_sent st st'.
Proof.
  intros a Hr. unfold writebackData. fold a. simpl.
  set (wb := setDirty _ _).
  set (st1 := if waitWBAck P then _ else _).
  assert (timestamp st1 = timestamp st ∧ outgoing st1 = outgoing st
          ∧ nextEventID st1 = nextEventID st + 1
          ∧ mshr st1 = (if waitWBAck P then insertWriteback a false (mshr st) else mshr st)
          ∧ only_sent st st1) as (E1 & E2 & E3 & E4 & E5).
  { unfold st1, only_sent, outgoing. destruct (waitWBAck P); simpl; split_and!; done. }
  destruct (forwardByAddress_sent cpuLink memLink wb
              (u64 (timestamp st1 + accessLatency P)) false st1)
    as (st' & -> & Ho & Hm & Hid & Hs); [done|].
  exists st'. split; [reflexivity|]. rewrite Ho, E1, E2.
  split_and!; [done|congruence..|by apply (only_sent_trans st st1 st')].
Qed.

Lemma cache_wf_ext st st' :
  directory st' = directory st → entryCache st' = entryCache st →
  entryCacheSize st' = entryCacheSize st → cache_wf st → cache_wf st'.
Proof. unfold cache_wf. by intros -> -> ->. Qed.

(** Writing an entry back under its address keeps the cache well formed
    when it keeps the base address and the handle into the cache list. *)
Lemma cache_wf_store a e e' st :
  cache_wf st → directory st !! a = Some e →
  getEntryBaseAddr e' = a → cacheIter e' = cacheIter e → isCached e' = isCached e →
  cache_wf (store a e' st).
Proof.
  intros (Hnd & Hsize & Hin & Hall) Hl Hb Hi Hc.
  unfold cache_wf. simpl. split_and!; try done.
  - intros x Hx. destruct (decide (x = a)) as [->|Hne].
    + rewrite lookup_insert_eq. exists e'. split; [done|].
      destruct (Hin a Hx) as (e0 & He0 & Hit). congruence.
    + rewrite lookup_insert_ne by done. by apply Hin.
  - intros x ex. destruct (decide (x = a)) as [->|Hne].
    + rewrite lookup_insert_eq. intros [= <-]. split; [done|].
      rewrite Hi, Hc. by apply (Hall a e).
    + rewrite lookup_insert_ne by done. by apply Hall.
Qed.

(** X12 (handlePutM, handlePutE, sendAckPut, writebackData, updateCache):
    under a positive entry-cache capacity and a well-formed entry cache (its
    size counter below the wrap-around), a PutM or PutE from a sender on a
    link, for a line whose directory entry is cached and in M, clears the
    line: the entry leaves the directory and the entry cache, the sender gets
    an AckPut, and PutM (not PutE), with memory routable for the line, also
    forwards the event's data to memory as a PutM, pending if
    acknowledgements are awaited. *)
Theorem owner_put_returns_the_line (withData : bool) ev (inMSHR : bool) entry st :
  let handle := if withData then Handler.handlePutM P cpuLink memLink
                else Handler.handlePutE P cpuLink memLink in
  let a := getBaseAddr ev in
  let t := u64 (timestamp st + accessLatency P) in
  let m1 := after_request a inMSHR
              (if withData && waitWBAck P then insertWriteback a false (mshr st)
               else mshr st) in
  directory st !! a = Some entry → getEntryBaseAddr entry = a →
  isCached entry = true → getState entry = St.M →
  reachable (getSrc ev) →
  (withData = true → route cpuLink memLink a ≠ "") →
  0 < entryCacheMaxSize P → cache_wf st → entryCacheSize st + 1 < 2 ^ 64 →
  ∃ st' ack,
    handle ev inMSHR st = Ret (true, st')
    ∧ directory st' = delete a (directory st)
    ∧ entryCache st' = filter (λ x, x ≠ a) (entryCache st)
    ∧ cache_wf st'
    ∧ getCmd ack = AckPut ∧ getDst ack = getSrc ev ∧ getResponseToID ack = getID ev
    ∧ (if withData then
         ∃ wb, outgoing st' ≡ₚ (t, ack) :: (t, wb) :: outgoing st
           ∧ getCmd wb = PutM ∧ getBaseAddr wb = a ∧ getSrc wb = getName P
           ∧ getDst wb = route cpuLink memLink a
           ∧ getPayload wb = getPayload ev ∧ getDirty wb = getDirty ev
       else outgoing st' ≡ₚ (t, ack) :: outgoing st)
    ∧ mshr st' = m1
    ∧ retryBuffer st' = retryBuffer st ++ ready_front a m1
    ∧ responses st' = responses st.
Proof.
  intros handle a t m1 Hlook Hbase Hcached Hstate Hreach Hroute Hmax Hwf Hbound.
  set (e0 := removeOwner entry).
  set (e1 := setState St.I e0).
  destruct (sendAckPut_spec ev (store a e0 st) Hreach)
    as (st1 & Eack & Ho1 & Hm1 & Hid1 & Hs1).
  rewrite outgoing_store in Ho1. simpl in Ho1, Hm1.
  destruct Hs1 as (Hts1 & Hd1 & Hec1 & Hecs1 & Hr1 & Hrb1 & _). simpl in *.
  assert (∃ st2,
            (if withData then writebackData P cpuLink memLink ev st1 else Ret st1) = Ret st2
            ∧ (if withData then
                 ∃ wb, outgoing st2 ≡ₚ (t, wb) :: outgoing st1
                   ∧ getCmd wb = PutM ∧ getBaseAddr wb = a ∧ getSrc wb = getName P
                   ∧ getDst wb = route cpuLink memLink a
                   ∧ getPayload wb = getPayload ev ∧ getDirty wb = getDirty ev
               else outgoing st2 = outgoing st1)
            ∧ mshr st2 = (if withData && waitWBAck P then insertWriteback a false (mshr st)
                          else mshr st)
            ∧ only_sent st1 st2)
    as (st2 & Ewb & Ho2 & Hm2 & Hs2).
  { destruct withData.
    - destruct (writebackData_spec ev st1 (Hroute eq_refl))
        as (st2 & E & Ho & Hm & _ & Hs).
      exists st2. split; [exact E|]. fold a in Ho, Hm. rewrite Hts1 in Ho.
      split_and!; [|by rewrite Hm, Hm1|done].
      eexists. split; [exact Ho|]. split_and!; done.
    - exists st1. split_and!; first [done | apply only_sent_refl]. }
  destruct Hs2 as (Hts2 & Hd2 & Hec2 & Hecs2 & Hr2 & Hrb2 & _).
  set (st3 := cleanUpAfterRequest ev inMSHR (store a e1 st2)).
  destruct (cleanUpAfterRequest_spec' ev inMSHR (store a e1 st2))
    as (Hm3 & Hrb3 & Ho3 & Hd3 & Hr3 & Hec3 & Hecs3 & Hts3).
  fold a st3 in Hm3, Hrb3, Ho3, Hd3, Hr3, Hec3, Hecs3, Hts3.
  rewrite outgoing_store in Ho3. simpl in Hm3, Hrb3, Hd3, Hr3, Hec3, Hecs3, Hts3.
  assert (directory st3 = <[a := e1]> (directory st)) as Hd3'.
  { rewrite Hd3, Hd2, Hd1. by rewrite insert_insert_eq. }
  assert (cache_wf st3) as Hwf3.
  { apply (cache_wf_ext (store a e1 st) st3); simpl; [done|congruence..|].
    by apply (cache_wf_store a entry e1 st). }
  destruct (updateCache_wf P memLink e1 st3)
    as (st4 & Eup & Hwf4 & Hocc & HI & _).
  { lia. }
  { done. }
  { change (getEntryBaseAddr e1) with (getEntryBaseAddr entry).
    by rewrite Hbase, Hd3', lookup_insert_eq. }
  { done. }
  { rewrite Hecs3, Hecs2, Hecs1. done. }
  destruct (HI Hmax eq_refl) as (Hd4 & Hec4 & Hq4).
  change (getEntryBaseAddr e1) with (getEntryBaseAddr entry) in Hd4, Hec4.
  rewrite Hbase in Hd4, Hec4.
  destruct Hocc as (Hts4 & Hm4 & Hr4 & Hrb4 & Hcq4 & _).
  assert (outgoing st4 = outgoing st2) as Ho4.
  { unfold outgoing in *. rewrite Hcq4, Hq4. exact Ho3. }
  assert (handle ev inMSHR st = Ret (true, st4)) as Ehandle.
  { unfold handle. destruct withData.
    - unfold Handler.handlePutM. fold a.
      rewrite (getDirEntry_present a st entry Hlook), Hcached, Hstate. simpl.
      fold e0. rewrite Eack. simpl. rewrite Ewb. simpl. fold e1 st3.
      by rewrite Eup.
    - unfold Handler.handlePutE. fold a.
      rewrite (getDirEntry_present a st entry Hlook), Hcached, Hstate. simpl.
      fold e0. rewrite Eack. simpl. injection Ewb as <-. fold e1 st3.
      by rewrite Eup. }
  exists st4, (makeResponseCmd (nextEventID st, rank P) AckPut ev).
  split; [exact Ehandle|].
  rewrite Hd4, Hd3', delete_insert_eq, Hec4, Hec3, Hec2, Hec1.
  rewrite Hm4, Hm3, Hrb4, Hrb3, Hr4, Hr3, Hm2, Hrb2, Hrb1, Hr2, Hr1.
  split_and!; try done.
  destruct withData.
  - destruct Ho2 as (wb & Ho2 & Hwb). exists wb. split; [|done].
    rewrite Ho4, Ho2, Ho1. apply Permutation_swap.
  - rewrite Ho4, Ho2, Ho1. done.
Qed.


Lemma erase_response_if_any_spec (a : Addr) (s : string) st :
  Handler.erase_response_if_any a s st =
    Ret (set_responses
           (if bool_decide (is_Some (expected a s st))
            then without_response a s (responses st) else responses st) st).
Proof.
  unfold Handler.erase_response_if_any, expected, erase_response, without_response.
  case_bool_decide as Hsome.
  - destruct (responses st !! a) as [resp|] eqn:E; simpl in *.
    + by case_decide.
    + by destruct Hsome.
  - by destruct st.
Qed.

Lemma outgoing_mem_perm st st' (wbs : list (Z * MemMsg)) :
  cpuMsgQueue st' = cpuMsgQueue st →
  memMsgQueue st' ≡ₚ wbs ++ memMsgQueue st →
  outgoing st' ≡ₚ (prod_map id event <$> wbs) ++ outgoing st.
Proof.
  intros Hc Hm. unfold outgoing. rewrite Hc, Hm, fmap_app.
  rewrite !app_assoc. f_equiv. apply Permutation_app_comm.
Qed.

(** X13 (handlePutS, sendAckPut, updateCache): under a positive entry-cache
    capacity and a well-formed entry cache (its size counter below the
    wrap-around), for a PutS from a sender on a link and a line whose
    directory entry is cached and in S: the sender stops being a sharer and
    gets an AckPut; with no sharer left the entry leaves the directory,
    otherwise it is the most recent entry of the cache, and the only other
    messages are writebacks of entries evicted from the cache.  An expected
    response of the sender is erased, and the entry cache stays well
    formed. *)
Theorem handlePutS_drops_the_sharer ev (inMSHR : bool) entry st :
  let a := getBaseAddr ev in
  let t := u64 (timestamp st + accessLatency P) in
  let rest := set_erase (getSrc ev) (getSharers entry) in
  let m1 := after_request a inMSHR (mshr st) in
  directory st !! a = Some entry → getEntryBaseAddr entry = a →
  isCached entry = true → getState entry = St.S →
  reachable (getSrc ev) →
  0 < entryCacheMaxSize P → cache_wf st → entryCacheSize st + 1 < 2 ^ 64 →
  ∃ st' ack wbs,
    Handler.handlePutS P cpuLink memLink ev inMSHR st = Ret (true, st')
    ∧ cache_wf st'
    ∧ getCmd ack = AckPut ∧ getDst ack = getSrc ev ∧ getResponseToID ack = getID ev
    ∧ outgoing st' ≡ₚ (t, ack) :: (prod_map id event <$> wbs) ++ outgoing st
    ∧ Forall (is_entry_writeback P memLink t) wbs
    ∧ (if decide (rest = []) then
         directory st' = delete a (directory st) ∧ wbs = []
       else
         directory st' !! a = Some (setCacheIter true (removeSharer (getSrc ev) entry))
         ∧ hd_error (entryCache st') = Some a)
    ∧ responses st' =
        (if bool_decide (is_Some (expected a (getSrc ev) st))
         then without_response a (getSrc ev) (responses st) else responses st)
    ∧ mshr st' = m1
    ∧ retryBuffer st' = retryBuffer st ++ ready_front a m1.
Proof.
  intros a t rest m1 Hlook Hbase Hcached Hstate Hreach Hmax Hwf Hbound.
  set (e0 := removeSharer (getSrc ev) entry).
  set (e1 := if negb (hasSharers e0) then setState St.I e0 else e0).
  destruct (sendAckPut_spec ev (store a e0 st) Hreach)
    as (st1 & Eack & Ho1 & Hm1 & Hid1 & Hs1).
  rewrite outgoing_store in Ho1. simpl in Ho1, Hm1.
  destruct Hs1 as (Hts1 & Hd1 & Hec1 & Hecs1 & Hr1 & Hrb1 & _). simpl in *.
  set (R := if bool_decide (is_Some (expected a (getSrc ev) st))
            then without_response a (getSrc ev) (responses st) else responses st).
  assert (Handler.erase_response_if_any a (getSrc ev) st1 = Ret (set_responses R st1)) as Eer.
  { rewrite erase_response_if_any_spec. unfold R, expected. by rewrite Hr1. }
  set (st3 := cleanUpAfterRequest ev inMSHR (store a e1 (set_responses R st1))).
  destruct (cleanUpAfterRequest_spec' ev inMSHR (store a e1 (set_responses R st1)))
    as (Hm3 & Hrb3 & Ho3 & Hd3 & Hr3 & Hec3 & Hecs3 & Hts3).
  fold a st3 in Hm3, Hrb3, Ho3, Hd3, Hr3, Hec3, Hecs3, Hts3.
  simpl in Hm3, Hrb3, Hd3, Hr3, Hec3, Hecs3, Hts3.
  change (outgoing (store a e1 (set_responses R st1))) with (outgoing st1) in Ho3.
  assert (directory st3 = <[a := e1]> (directory st)) as Hd3'.
  { rewrite Hd3, Hd1. by rewrite insert_insert_eq. }
  assert (getEntryBaseAddr e1 = a ∧ cacheIter e1 = cacheIter entry
          ∧ isCached e1 = isCached entry) as (Hb1 & Hi1 & Hc1).
  { unfold e1. by destruct (negb (hasSharers e0)). }
  assert (cache_wf st3) as Hwf3.
  { apply (cache_wf_ext (store a e1 st) st3); simpl; [done|congruence..|].
    by apply (cache_wf_store a entry e1 st). }
  destruct (updateCache_wf P memLink e1 st3)
    as (st4 & Eup & Hwf4 & Hocc & HI & HnI).
  { lia. }
  { done. }
  { by rewrite Hb1, Hd3', lookup_insert_eq. }
  { congruence. }
  { rewrite Hecs3, Hecs1. done. }
  rewrite Hb1 in HI, HnI.
  destruct Hocc as (Hts4 & Hm4 & Hr4 & Hrb4 & Hcq4 & _).
  assert (Handler.handlePutS P cpuLink memLink ev inMSHR st = Ret (true, st4)) as Ehandle.
  { unfold Handler.handlePutS. fold a.
    rewrite (getDirEntry_present a st entry Hlook), Hcached, Hstate. simpl.
    fold e0. rewrite Eack. simpl. rewrite Eer. simpl. fold e1 st3.
    by rewrite Eup. }
  assert (hasSharers e0 = negb (bool_decide (rest = []))) as Hhs by done.
  exists st4, (makeResponseCmd (nextEventID st, rank P) AckPut ev).
  destruct (decide (rest = [])) as [Hrest|Hrest].
  - assert (getState e1 = St.I) as Hst1.
    { unfold e1. rewrite Hhs, bool_decide_eq_true_2 by done. done. }
    destruct (HI Hmax Hst1) as (Hd4 & Hec4 & Hq4).
    exists []. split; [exact Ehandle|].
    rewrite Hd4, Hd3', delete_insert_eq, Hm4, Hm3, Hrb4, Hrb3, Hr4, Hr3, Hm1, Hrb1.
    split_and!; try done.
    unfold outgoing in *. rewrite Hcq4, Hq4. simpl. rewrite Ho3. exact Ho1.
  - assert (e1 = e0) as He1.
    { unfold e1. rewrite Hhs, bool_decide_eq_false_2 by done. done. }
    assert (getState e1 ≠ St.I) as Hst1.
    { rewrite He1. unfold e0. simpl. by rewrite Hstate. }
    destruct (HnI Hmax Hst1)
      as (Hl4 & (gone & wbs & Hpre & Hne & _ & Hperm & _ & Hwbs) & _).
    exists wbs. split; [exact Ehandle|].
    rewrite Hl4, He1, Hm4, Hm3, Hrb4, Hrb3, Hr4, Hr3, Hm1, Hrb1.
    rewrite Hts3, Hts1 in Hwbs.
    split_and!; try done.
    + rewrite (outgoing_mem_perm st3 st4 wbs Hcq4 Hperm), Ho3, Ho1.
      by rewrite Permutation_middle.
    + destruct (entryCache st4) as [|b tl]; [done|].
      simpl in Hpre. by injection Hpre as <- _.
Qed.

(** X14 (handlePutX, sendAckPut, writebackData, updateCache): under a
    positive entry-cache capacity and a well-formed entry cache (its size
    counter below the wrap-around), for a PutX from a sender on a link and a
    line whose directory entry is cached and in M: the owner is removed and
    the sender becomes a sharer of the line in S, the most recent entry of
    the cache; the sender gets an AckPut, dirty data (memory being routable
    for the line) go to memory as a dirty PutM, and the only other messages
    are writebacks of evicted entries. *)
Theorem handlePutX_downgrades_the_owner ev (inMSHR : bool) entry st :
  let a := getBaseAddr ev in
  let t := u64 (timestamp st + accessLatency P) in
  let e' := setCacheIter true
              (setState St.S (addSharer (getSrc ev) (removeOwner entry))) in
  let m1 := after_request a inMSHR
              (if getDirty ev && waitWBAck P then insertWriteback a false (mshr st)
               else mshr st) in
  directory st !! a = Some entry → getEntryBaseAddr entry = a →
  isCached entry = true → getState entry = St.M →
  reachable (getSrc ev) →
  (getDirty ev = true → route cpuLink memLink a ≠ "") →
  0 < entryCacheMaxSize P → cache_wf st → entryCacheSize st + 1 < 2 ^ 64 →
  ∃ st' ack wbs,
    Handler.handlePutX P cpuLink memLink ev inMSHR st = Ret (true, st')
    ∧ cache_wf st'
    ∧ directory st' !! a = Some e'
    ∧ hd_error (entryCache st') = Some a
    ∧ getCmd ack = AckPut ∧ getDst ack = getSrc ev ∧ getResponseToID ack = getID ev
    ∧ Forall (is_entry_writeback P memLink t) wbs
    ∧ (if getDirty ev then
         ∃ wb, outgoing st' ≡ₚ
                 (t, ack) :: (t, wb) :: (prod_map id event <$> wbs) ++ outgoing st
           ∧ getCmd wb = PutM ∧ getBaseAddr wb = a ∧ getSrc wb = getName P
           ∧ getDst wb = route cpuLink memLink a
           ∧ getPayload wb = getPayload ev ∧ getDirty wb = true
       else outgoing st' ≡ₚ (t, ack) :: (prod_map id event <$> wbs) ++ outgoing st)
    ∧ mshr st' = m1
    ∧ retryBuffer st' = retryBuffer st ++ ready_front a m1
    ∧ responses st' = responses st.
Proof.
  intros a t e' m1 Hlook Hbase Hcached Hstate Hreach Hroute Hmax Hwf Hbound.
  set (e0 := addSharer (getSrc ev) (removeOwner entry)).
  set (e1 := setState St.S e0).
  destruct (sendAckPut_spec ev (store a e0 st) Hreach)
    as (st1 & Eack & Ho1 & Hm1 & Hid1 & Hs1).
  rewrite outgoing_store in Ho1. simpl in Ho1, Hm1.
  destruct Hs1 as (Hts1 & Hd1 & Hec1 & Hecs1 & Hr1 & Hrb1 & _). simpl in *.
  assert (∃ st2,
            (if getDirty ev then writebackData P cpuLink memLink ev st1 else Ret st1) = Ret st2
            ∧ (if getDirty ev then
                 ∃ wb, outgoing st2 ≡ₚ (t, wb) :: outgoing st1
                   ∧ getCmd wb = PutM ∧ getBaseAddr wb = a ∧ getSrc wb = getName P
                   ∧ getDst wb = route cpuLink memLink a
                   ∧ getPayload wb = getPayload ev ∧ getDirty wb = true
               else outgoing st2 = outgoing st1)
            ∧ mshr st2 = (if getDirty ev && waitWBAck P
                          then insertWriteback a false (mshr st) else mshr st)
            ∧ only_sent st1 st2)
    as (st2 & Ewb & Ho2 & Hm2 & Hs2).
  { destruct (getDirty ev) eqn:Edirty.
    - destruct (writebackData_spec ev st1 (Hroute eq_refl))
        as (st2 & E & Ho & Hm & _ & Hs).
      exists st2. split; [exact E|]. fold a in Ho, Hm. rewrite Hts1 in Ho.
      split_and!; [|by rewrite Hm, Hm1|done].
      eexists. split; [exact Ho|]. rewrite Edirty. split_and!; done.
    - exists st1. split_and!; first [done | apply only_sent_refl]. }
  destruct Hs2 as (Hts2 & Hd2 & Hec2 & Hecs2 & Hr2 & Hrb2 & _).
  set (st3 := cleanUpAfterRequest ev inMSHR (store a e1 st2)).
  destruct (cleanUpAfterRequest_spec' ev inMSHR (store a e1 st2))
    as (Hm3 & Hrb3 & Ho3 & Hd3 & Hr3 & Hec3 & Hecs3 & Hts3).
  fold a st3 in Hm3, Hrb3, Ho3, Hd3, Hr3, Hec3, Hecs3, Hts3.
  rewrite outgoing_store in Ho3. simpl in Hm3, Hrb3, Hd3, Hr3, Hec3, Hecs3, Hts3.
  assert (directory st3 = <[a := e1]> (directory st)) as Hd3'.
  { rewrite Hd3, Hd2, Hd1. by rewrite insert_insert_eq. }
  assert (cache_wf st3) as Hwf3.
  { apply (cache_wf_ext (store a e1 st) st3); simpl; [done|congruence..|].
    by apply (cache_wf_store a entry e1 st). }
  destruct (updateCache_wf P memLink e1 st3)
    as (st4 & Eup & Hwf4 & Hocc & _ & HnI).
  { lia. }
  { done. }
  { change (getEntryBaseAddr e1) with (getEntryBaseAddr entry).
    by rewrite Hbase, Hd3', lookup_insert_eq. }
  { done. }
  { rewrite Hecs3, Hecs2, Hecs1. done. }
  change (getEntryBaseAddr e1) with (getEntryBaseAddr entry) in HnI. rewrite Hbase in HnI.
  destruct (HnI Hmax) as (Hl4 & (gone & wbs & Hpre & Hne & _ & Hperm & _ & Hwbs) & _); [done|].
  destruct Hocc as (Hts4 & Hm4 & Hr4 & Hrb4 & Hcq4 & _).
  assert (Handler.handlePutX P cpuLink memLink ev inMSHR st = Ret (true, st4)) as Ehandle.
  { unfold Handler.handlePutX. fold a.
    rewrite (getDirEntry_present a st entry Hlook), Hcached, Hstate. simpl.
    fold e0. rewrite Eack. simpl. rewrite Ewb. simpl. fold e1 st3.
    by rewrite Eup. }
  exists st4, (makeResponseCmd (nextEventID st, rank P) AckPut ev), wbs.
  split; [exact Ehandle|].
  rewrite Hl4, Hm4, Hm3, Hrb4, Hrb3, Hr4, Hr3, Hm2, Hrb2, Hrb1, Hr2, Hr1.
  rewrite Hts3, Hts2, Hts1 in Hwbs.
  split_and!; try done.
  - destruct (entryCache st4) as [|b tl]; [done|].
    simpl in Hpre. by injection Hpre as <- _.
  - pose proof (outgoing_mem_perm st3 st4 wbs Hcq4 Hperm) as Ho4.
    destruct (getDirty ev).
    + destruct Ho2 as (wb & Ho2 & Hwb). exists wb. split; [|done].
      rewrite Ho4, Ho3, Ho2, Ho1. rewrite <- !Permutation_middle. apply Permutation_swap.
    + rewrite Ho4, Ho3, Ho2, Ho1. by rewrite Permutation_middle.
Qed.


(** X15 (handlePutM, handlePutE): an owner's writeback that meets a pending
    fetch (M_Inv, M_InvX) stands for the fetch response: the owner is
    removed, the data buffered, the line set to I, the expected response
    erased and the acknowledgement counted; the sender gets an AckPut, nothing
    goes to memory and the entry cache is left alone. *)
Theorem owner_put_during_fetch (withData : bool) ev (inMSHR : bool) entry resp st :
  let handle := if withData then Handler.handlePutM P cpuLink memLink
                else Handler.handlePutE P cpuLink memLink in
  let a := getBaseAddr ev in
  let t := u64 (timestamp st + accessLatency P) in
  let m1 := after_request a inMSHR
              (setData a (getPayload ev) (getDirty ev)
                 (decrementAcksNeeded a (mshr st)).2) in
  directory st !! a = Some entry → isCached entry = true →
  getState entry = St.M_Inv ∨ getState entry = St.M_InvX →
  reachable (getSrc ev) →
  responses st !! a = Some resp →
  ∃ st' ack,
    handle ev inMSHR st = Ret (true, st')
    ∧ directory st' = <[a := setState St.I (removeOwner entry)]> (directory st)
    ∧ outgoing st' ≡ₚ (t, ack) :: outgoing st
    ∧ getCmd ack = AckPut ∧ getDst ack = getSrc ev ∧ getResponseToID ack = getID ev
    ∧ responses st' = without_response a (getSrc ev) (responses st)
    ∧ mshr st' = m1
    ∧ retryBuffer st' = retryBuffer st ++ ready_front a m1
    ∧ entryCache st' = entryCache st ∧ entryCacheSize st' = entryCacheSize st.
Proof.
  intros handle a t m1 Hlook Hcached Hstate Hreach Hresp.
  set (e0 := removeOwner entry).
  set (e1 := setState St.I e0).
  destruct (sendAckPut_spec ev (store a e0 st) Hreach)
    as (st1 & Eack & Ho1 & Hm1 & Hid1 & Hs1).
  rewrite outgoing_store in Ho1. simpl in Ho1, Hm1.
  destruct Hs1 as (Hts1 & Hd1 & Hec1 & Hecs1 & Hr1 & Hrb1 & _). simpl in *.
  destruct (take_fetched_data_spec ev st1 resp)
    as (st2 & Etake & Hr2 & Hm2 & Ho2 & Hd2 & Hrb2 & Hts2 & Hid2 & Hec2 & Hecs2).
  { by rewrite Hr1. }
  fold a in Hr2, Hm2.
  destruct (cleanUpAfterRequest_spec' ev inMSHR (store a e1 st2))
    as (Hm3 & Hrb3 & Ho3 & Hd3 & Hr3 & Hec3 & Hecs3 & Hts3).
  fold a in Hm3, Hrb3.
  rewrite outgoing_store in Ho3. simpl in Hm3, Hrb3, Hd3, Hr3, Hec3, Hecs3, Hts3.
  assert (handle ev inMSHR st =
            Ret (true, cleanUpAfterRequest ev inMSHR (store a e1 st2))) as Ehandle.
  { unfold handle. destruct withData.
    - unfold Handler.handlePutM. fold a.
      rewrite (getDirEntry_present a st entry Hlook), Hcached. simpl.
      fold e0. rewrite Eack. simpl.
      destruct Hstate as [-> | ->]; rewrite Etake; done.
    - unfold Handler.handlePutE. fold a.
      rewrite (getDirEntry_present a st entry Hlook), Hcached. simpl.
      fold e0. rewrite Eack. simpl.
      destruct Hstate as [-> | ->]; rewrite Etake; done. }
  eexists _, (makeResponseCmd (nextEventID st, rank P) AckPut ev).
  split; [exact Ehandle|].
  rewrite Hd3, Hd2, Hd1, insert_insert_eq, Ho3, Ho2, Ho1, Hr3, Hr2, Hr1.
  rewrite Hm3, Hrb3, Hm2, Hm1, Hrb2, Hrb1, Hec3, Hecs3, Hec2, Hecs2.
  split_and!; done.
Qed.


Lemma alloc_unless_inMSHR_behind ev (fwd : bool) pos st :
  let r := insertEvent (getBaseAddr ev) ev pos fwd false (mshr st) in
  r.1 ≠ 0 →
  alloc_unless_inMSHR ev false fwd pos st =
    (if decide (r.1 = -1) then Reject else Stall, set_mshr r.2 st).
Proof.
  intros r Hne. unfold alloc_unless_inMSHR, allocateMSHR. fold r.
  destruct r as [p m]. simpl in *.
  destruct (decide (p = -1)); [done|]. by rewrite decide_True.
Qed.

Lemma sendNACK_spec ev st :
  reachable (getSrc ev) →
  ∃ st', sendNACK P cpuLink memLink ev st = Ret st'
    ∧ outgoing st' ≡ₚ
        (u64 (timestamp st + accessLatency P),
         makeNACKResponse (nextEventID st, rank P) ev) :: outgoing st
    ∧ mshr st' = mshr st
    ∧ nextEventID st' = nextEventID st + 1
    ∧ only_sent st st'.
Proof.
  intros Hr. unfold sendNACK. simpl.
  destruct (forwardByDestination_sent cpuLink memLink
              (makeNACKResponse (nextEventID st, rank P) ev)
              (u64 (timestamp st + accessLatency P)) false
              (set_nextEventID (nextEventID st + 1) st))
    as (st' & -> & Ho & Hm & Hid & Hs); [done|].
  exists st'. split; [reflexivity|]. split_and!; done.
Qed.

Lemma sole_sharer (s : string) entry :
  getSharers entry = [s] ↔ isSharer s entry = true ∧ getSharerCount entry = 1.
Proof.
  unfold isSharer, getSharerCount. split.
  - intros ->. split; [|done]. apply bool_decide_eq_true_2, list_elem_of_here.
  - intros [Hin Hlen]. apply bool_decide_eq_true_1 in Hin.
    destruct (getSharers entry) as [|x [|y l]]; simpl in Hlen; try lia.
    by apply list_elem_of_singleton in Hin as ->.
Qed.

(** X16 (handleGetX, sendResponse, issueInvalidations, issueMemoryRequest):
    a GetX for a cached line in S with no dirty data buffered.  From the only
    sharer it is an upgrade: it is answered at once with a response of line
    size to its command, the requester becomes owner in M, and buffered data
    are dropped.  From anyone else, when the request is replayed or becomes
    first in the buffer for its line, every other sharer is invalidated and
    the line waits in S_Inv, or, when the requester has no copy and no data
    are buffered, in SM_Inv with the request for the data forwarded to
    memory. *)
Theorem handleGetX_in_S ev (inMSHR : bool) entry st :
  let a := getBaseAddr ev in
  let src := getSrc ev in
  let t := u64 (timestamp st + accessLatency P) in
  directory st !! a = Some entry → getEntryBaseAddr entry = a →
  isCached entry = true → getState entry = St.S →
  hasData a (mshr st) && getDataDirty a (mshr st) = false →
  (getSharers entry = [src] → reachable src →
   let m1 := after_request a inMSHR
               (if hasData a (mshr st) then clearData a (mshr st) else mshr st) in
   ∃ st' resp,
     Handler.handleGetX P cpuLink memLink ev inMSHR st = Ret (true, st')
     ∧ directory st' =
         <[a := setOwner src (setSharers [] (setState St.M entry))]> (directory st)
     ∧ outgoing st' ≡ₚ (u64 (timestamp st + mshrLatency P), resp) :: outgoing st
     ∧ getCmd resp = CommandResponse (getCmd ev) ∧ getDst resp = src
     ∧ getSize resp = lineSize P
     ∧ getResponseToID resp = getID ev
     ∧ mshr st' = m1
     ∧ retryBuffer st' = retryBuffer st ++ ready_front a m1
     ∧ responses st' = responses st)
  ∧ (getSharers entry ≠ [src] →
     inMSHR = true ∨ (insertEvent a ev pos_default false false (mshr st)).1 = 0 →
     (∀ s, s ∈ getSharers entry → s ≠ src → reachable s) →
     let m_front := if inMSHR then mshr st
                    else (insertEvent a ev pos_default false false (mshr st)).2 in
     let need_data := negb (isSharer src entry) && negb (hasData a m_front) in
     (need_data = true → route cpuLink memLink (getRoutingAddress ev) ≠ "") →
     ∃ st' invs,
       Handler.handleGetX P cpuLink memLink ev inMSHR st = Ret (true, st')
       ∧ directory st' =
           <[a := setState (if need_data then St.SM_Inv else St.S_Inv) entry]> (directory st)
       ∧ getDst <$> invs = filter (λ s, s ≠ src) (getSharers entry)
       ∧ Forall (λ m, getCmd m = Inv ∧ getSrc m = getName P ∧ getBaseAddr m = a) invs
       ∧ outgoing st' ≡ₚ
           ((λ m, (t, m)) <$> invs)
           ++ (if need_data
               then [(t, setDst (route cpuLink memLink (getRoutingAddress ev))
                           (setSize (lineSize P) (setSrc (getName P) ev)))]
               else [])
           ++ outgoing st
       ∧ mshr st' =
           Nat.iter (length invs) (incrementAcksNeeded a)
             (if need_data then setInProgress a m_front
              else if isSharer src entry && hasData a m_front then clearData a m_front
                   else m_front)
       ∧ retryBuffer st' = retryBuffer st).
Proof.
  intros a src t Hlook Hbase Hcached Hstate Hclean. split.
  - intros Hsole Hreach m1.
    pose proof (proj1 (sole_sharer src entry) Hsole) as [Hin Hcount].
    set (e1 := setOwner src (removeSharer src (setState St.M entry))).
    assert (e1 = setOwner src (setSharers [] (setState St.M entry))) as He1.
    { unfold e1, removeSharer, set_erase. simpl. rewrite Hsole.
      rewrite filter_cons_False by (by intros ?). done. }
    set (st0 := if hasData a (mshr st) then set_mshr (clearData a (mshr st)) st else st).
    assert (mshr st0 = (if hasData a (mshr st) then clearData a (mshr st) else mshr st)
            ∧ outgoing st0 = outgoing st ∧ directory st0 = directory st
            ∧ retryBuffer st0 = retryBuffer st ∧ responses st0 = responses st
            ∧ timestamp st0 = timestamp st ∧ nextEventID st0 = nextEventID st)
      as (Hm0 & Ho0 & Hd0 & Hrb0 & Hr0 & Hts0 & Hid0).
    { unfold st0. by destruct (hasData a (mshr st)). }
    destruct (sendResponse_spec ev [] 0 (store a e1 st0) Hreach)
      as (st1 & Esend & Ho1 & Hm1 & Hid1 & Hs1).
    rewrite outgoing_store in Ho1. simpl in Ho1, Hm1.
    destruct Hs1 as (Hts1 & Hd1 & _ & _ & Hr1 & Hrb1 & _). simpl in *.
    destruct (cleanUpAfterRequest_spec' ev inMSHR st1)
      as (Hm3 & Hrb3 & Ho3 & Hd3 & Hr3 & _).
    fold a in Hm3, Hrb3.
    eexists _, _. split.
    { unfold Handler.handleGetX. fold a src.
      rewrite (getDirEntry_present a st entry Hlook), Hcached, Hstate. simpl.
      rewrite Hclean. simpl. rewrite Hin. rewrite decide_True by done.
      fold st0 e1. rewrite Esend. simpl. reflexivity. }
    rewrite Hd3, Hd1, Hd0, Ho3, Ho1, Ho0, Hts0, Hid0, Hm3, Hrb3, Hm1, Hm0, Hrb1, Hrb0.
    rewrite Hr3, Hr1, Hr0, He1.
    split_and!; done.
  - intros Hnsole Hfront Hreach m_front need_data Hroute.
    set (st0 := set_mshr m_front st).
    assert (alloc_unless_inMSHR ev inMSHR false pos_default st = (OK, st0)) as Ealloc.
    { by rewrite (alloc_unless_inMSHR_front ev inMSHR false pos_default st Hfront). }
    set (next := if need_data then St.SM_Inv else St.S_Inv).
    set (e1 := setState next entry).
    (* the state before the invalidations go out *)
    assert (∃ st1,
              outgoing st1 ≡ₚ
                (if need_data
                 then [(t, setDst (route cpuLink memLink (getRoutingAddress ev))
                             (setSize (lineSize P) (setSrc (getName P) ev)))]
                 else []) ++ outgoing st
              ∧ mshr st1 =
                  (if need_data then setInProgress a m_front
                   else if isSharer src entry && hasData a m_front then clearData a m_front
                        else m_front)
              ∧ directory st1 = <[a := e1]> (directory st)
              ∧ retryBuffer st1 = retryBuffer st ∧ timestamp st1 = timestamp st
              ∧ ∀ st2,
                  issueInvalidations P cpuLink memLink ev e1 Inv st1 = Ret st2 →
                  Handler.handleGetX P cpuLink memLink ev inMSHR st = Ret (true, st2))
      as (st1 & Ho1 & Hm1 & Hd1 & Hrb1 & Hts1 & Hgo).
    { unfold Handler.handleGetX. fold a src.
      rewrite (getDirEntry_present a st entry Hlook), Hcached, Hstate. simpl.
      rewrite Hclean. simpl.
      destruct (isSharer src entry) eqn:Esh.
      - assert (getSharerCount entry ≠ 1) as Hc.
        { intros Hc. apply Hnsole. by apply sole_sharer. }
        rewrite decide_False by done. rewrite Ealloc. simpl.
        change (mshr st0) with m_front.
        assert (need_data = false) as Hnd by (unfold need_data; by rewrite ?Esh).
        unfold e1, next. rewrite Hnd. simpl.
        destruct (hasData a m_front) eqn:Ehd.
        + eexists. split_and!; [| | | | |intros st2 ->; reflexivity]; done.
        + eexists. split_and!; [| | | | |intros st2 ->; reflexivity]; done.
      - rewrite Ealloc. simpl. change (mshr st0) with m_front.
        unfold e1, next, need_data. rewrite ?Esh. simpl.
        destruct (hasData a m_front) eqn:Ehd; simpl.
        + eexists. split_and!; [| | | | |intros st2 ->; reflexivity]; done.
        + destruct (issueMemoryRequest_spec P cpuLink memLink ev (setState St.SM_Inv entry)
                      true (store a (setState St.SM_Inv entry) st0))
            as (st1 & -> & Ho & Hm & _ & Hs).
          { apply Hroute. unfold need_data. by rewrite ?Esh, ?Ehd. }
          simpl. rewrite outgoing_store in Ho. simpl in Ho, Hm.
          destruct Hs as (Hts & Hd & _ & _ & _ & Hrb & _). simpl in *.
          exists st1. rewrite Hbase in Hm.
          split_and!; [done..|]. intros st2 ->. reflexivity. }
    destruct (issueInvalidations_from_spec P cpuLink memLink (getSharers e1) ev e1 Inv st1)
      as (st2 & invs & Einv & Ho2 & Hds & Hall & Hm2 & Hd2 & Hrb2 & Hts2); [done|].
    exists st2, invs. split; [by apply Hgo|].
    change (getEntryBaseAddr e1) with (getEntryBaseAddr entry) in *.
    change (getSharers e1) with (getSharers entry) in *.
    rewrite Hbase in Hall, Hm2.
    rewrite Hd2, Hd1, Ho2, Ho1, Hts1, Hm2, Hm1, Hrb2, Hrb1.
    split_and!; done.
Qed.


(** X17 (handleGetX, handleWrite, issueMemoryRequest, issueFetch): an
    exclusive request or write, first in the buffer for its line, for a cached
    line with no buffered data.  In I
    it is forwarded to memory under the directory's name (a GetX with the line
    size, a write with its own) and the line waits in IM; in M a FetchInv
    goes to the owner and the line waits in M_Inv for one acknowledgement. *)
Theorem exclusive_request_in_I_or_M (isWrite : bool) ev (inMSHR : bool) entry st :
  let handle := if isWrite then Handler.handleWrite P cpuLink memLink
                else Handler.handleGetX P cpuLink memLink in
  let a := getBaseAddr ev in
  let t := u64 (timestamp st + accessLatency P) in
  let m_front := if inMSHR then mshr st
                 else (insertEvent a ev pos_default false false (mshr st)).2 in
  directory st !! a = Some entry → getEntryBaseAddr entry = a →
  isCached entry = true →
  hasData a (mshr st) = false →
  inMSHR = true ∨ (insertEvent a ev pos_default false false (mshr st)).1 = 0 →
  (getState entry = St.I →
   route cpuLink memLink (getRoutingAddress ev) ≠ "" →
   ∃ st',
     handle ev inMSHR st = Ret (true, st')
     ∧ directory st' = <[a := setState St.IM entry]> (directory st)
     ∧ outgoing st' ≡ₚ
         (t, setDst (route cpuLink memLink (getRoutingAddress ev))
               (if isWrite then setSrc (getName P) ev
                else setSize (lineSize P) (setSrc (getName P) ev))) :: outgoing st
     ∧ mshr st' = setInProgress a m_front
     ∧ retryBuffer st' = retryBuffer st ∧ responses st' = responses st)
  ∧ (getState entry = St.M →
     reachable (getOwner entry) →
     ∃ st' fetch,
       handle ev inMSHR st = Ret (true, st')
       ∧ directory st' = <[a := setState St.M_Inv entry]> (directory st)
       ∧ outgoing st' ≡ₚ (t, fetch) :: outgoing st
       ∧ getCmd fetch = FetchInv ∧ getDst fetch = getOwner entry
       ∧ getSrc fetch = getName P ∧ getBaseAddr fetch = a
       ∧ mshr st' = incrementAcksNeeded a m_front
       ∧ retryBuffer st' = retryBuffer st).
Proof.
  intros handle a t m_front Hlook Hbase Hcached Hnodata Hfront.
  set (st0 := set_mshr m_front st).
  assert (alloc_unless_inMSHR ev inMSHR false pos_default st = (OK, st0)) as Ealloc.
  { by rewrite (alloc_unless_inMSHR_front ev inMSHR false pos_default st Hfront). }
  split.
  - intros Hstate Hroute.
    destruct (issueMemoryRequest_spec P cpuLink memLink ev (setState St.IM entry)
                (negb isWrite) (store a (setState St.IM entry) st0) Hroute)
      as (st1 & Ereq & Ho & Hm & _ & Hs).
    rewrite outgoing_store in Ho. simpl in Ho, Hm. rewrite Hbase in Hm.
    destruct Hs as (Hts & Hd & _ & _ & Hr & Hrb & _). simpl in *.
    exists st1. split.
    { unfold handle. destruct isWrite; simpl in Ereq.
      - unfold Handler.handleWrite. fold a.
        rewrite (getDirEntry_present a st entry Hlook), Hcached, Hstate. simpl.
        unfold Handler.drop_buffered_data. rewrite Hnodata. simpl.
        rewrite Ealloc. simpl. by rewrite Ereq.
      - unfold Handler.handleGetX. fold a.
        rewrite (getDirEntry_present a st entry Hlook), Hcached, Hstate. simpl.
        rewrite Hnodata. simpl. rewrite Hnodata. simpl.
        rewrite Ealloc. simpl. by rewrite Ereq. }
    rewrite Hd, Ho, Hm, Hrb, Hr. split_and!; try done.
    by destruct isWrite.
  - intros Hstate Hreach.
    destruct (issueFetch_spec P cpuLink memLink ev (setState St.M_Inv entry) FetchInv
                (store a (setState St.M_Inv entry) st0) Hreach)
      as (st1 & fetch & Ef & Ho & Hc & Hdst & Hsrc & Hba & Hm & Hd & Hrb & Hts).
    rewrite outgoing_store in Ho. simpl in Ho, Hm, Hd, Hrb.
    exists st1, fetch. split.
    { unfold handle. destruct isWrite.
      - unfold Handler.handleWrite. fold a.
        rewrite (getDirEntry_present a st entry Hlook), Hcached, Hstate. simpl.
        unfold Handler.drop_buffered_data. rewrite Hnodata. simpl.
        rewrite Ealloc. simpl. by rewrite Ef.
      - unfold Handler.handleGetX. fold a.
        rewrite (getDirEntry_present a st entry Hlook), Hcached, Hstate. simpl.
        rewrite Hnodata. simpl.
        rewrite Ealloc. simpl. by rewrite Ef. }
    rewrite Hd, Ho, Hm, Hrb. split_and!; done.
Qed.

(** X18 (handleGetS, handleGetX, handleWrite, allocateMSHR, sendNACK): for
    a line whose directory entry exists and is cached, with no data buffered
    for it, a new GetS, GetX or Write from a sender on a link that cannot be
    first in the buffer for its line does nothing to the directory: it waits
    in the buffer, or, when the buffer rejects it, is returned to its sender
    in a NACK.  (A request from the only sharer of a line in S is excluded:
    as a GetX it is an upgrade, answered at once.) *)
Theorem request_behind_others_waits_or_is_nacked
    (handle : MemEvent → bool → Dir T → result (bool * Dir T)) ev entry st :
  let a := getBaseAddr ev in
  let r := insertEvent a ev pos_default false false (mshr st) in
  handle ∈ [handleGetS P cpuLink memLink; Handler.handleGetX P cpuLink memLink;
            Handler.handleWrite P cpuLink memLink] →
  directory st !! a = Some entry → isCached entry = true →
  hasData a (mshr st) = false →
  (getState entry = St.S → getSharers entry ≠ [getSrc ev]) →
  r.1 ≠ 0 →
  reachable (getSrc ev) →
  ∃ st',
    handle ev false st = Ret (true, st')
    ∧ directory st' = directory st
    ∧ mshr st' = r.2
    ∧ retryBuffer st' = retryBuffer st ∧ responses st' = responses st
    ∧ if decide (r.1 = -1) then
        ∃ nack, outgoing st' ≡ₚ (u64 (timestamp st + accessLatency P), nack) :: outgoing st
          ∧ getCmd nack = NACK ∧ getDst nack = getSrc ev
          ∧ getNACKedEvent nack = Some ev
      else outgoing st' = outgoing st.
Proof.
  intros a r Hin Hlook Hcached Hnodata Hnsole Hbehind Hreach.
  pose proof (alloc_unless_inMSHR_behind ev false pos_default st Hbehind) as Ealloc.
  fold a r in Ealloc.
  set (status := if decide (r.1 = -1) then Reject else Stall) in *.
  assert (∃ st',
            (do st1 <- (if decide (status = Reject)
                        then sendNACK P cpuLink memLink ev (set_mshr r.2 st)
                        else Ret (set_mshr r.2 st));
             Ret (true, st1)) = Ret (true, st')
            ∧ directory st' = directory st
            ∧ mshr st' = r.2
            ∧ retryBuffer st' = retryBuffer st ∧ responses st' = responses st
            ∧ if decide (r.1 = -1) then
                ∃ nack,
                  outgoing st' ≡ₚ (u64 (timestamp st + accessLatency P), nack) :: outgoing st
                  ∧ getCmd nack = NACK ∧ getDst nack = getSrc ev
                  ∧ getNACKedEvent nack = Some ev
              else outgoing st' = outgoing st) as (st' & Etail & Hres).
  { unfold status. destruct (decide (r.1 = -1)) as [Hrej|Hstall].
    - rewrite decide_True by done.
      destruct (sendNACK_spec ev (set_mshr r.2 st) Hreach)
        as (st' & -> & Ho & Hm & _ & Hs).
      destruct Hs as (_ & Hd & _ & _ & Hr & Hrb & _). simpl in *.
      exists st'. split; [done|]. split_and!; try done.
      eexists. split; [exact Ho|]. done.
    - rewrite decide_False by done. simpl. eexists. split; [done|]. done. }
  exists st'. split; [|exact Hres].
  assert (getState entry = St.S →
          isSharer (getSrc ev) entry = true → getSharerCount entry ≠ 1) as Hns.
  { intros Hst Hs Hc. apply (Hnsole Hst). by apply sole_sharer. }
  apply elem_of_cons in Hin as [->|Hin]; [|apply elem_of_cons in Hin as [->|Hin]].
  - unfold handleGetS. fold a.
    rewrite (getDirEntry_present a st entry Hlook), Hcached. simpl.
    rewrite Hnodata. simpl.
    destruct (getState entry); simpl; rewrite ?Hnodata; simpl;
      rewrite Ealloc; simpl; try exact Etail;
      unfold status; destruct (decide (r.1 = -1)); simpl; exact Etail.
  - unfold Handler.handleGetX. fold a.
    rewrite (getDirEntry_present a st entry Hlook), Hcached. simpl.
    rewrite Hnodata. simpl.
    destruct (getState entry); simpl; rewrite ?Hnodata; simpl;
      try (destruct (isSharer (getSrc ev) entry) eqn:Esh;
           [rewrite (decide_False (P := getSharerCount entry = 1)) by (by apply Hns)|]);
      rewrite Ealloc; simpl; try exact Etail;
      unfold status; destruct (decide (r.1 = -1)); simpl; exact Etail.
  - apply list_elem_of_singleton in Hin as ->.
    unfold Handler.handleWrite. fold a.
    rewrite (getDirEntry_present a st entry Hlook), Hcached. simpl.
    unfold Handler.drop_buffered_data. rewrite Hnodata.
    destruct (getState entry); simpl;
      rewrite Ealloc; simpl; try exact Etail;
      unfold status; destruct (decide (r.1 = -1)); simpl; exact Etail.
Qed.

End HandlerFacts.

Lemma handleGetSResp_answers_the_read_witness :
  ∃ st' resp,
    Handler.handleGetSResp params0 cpuLink0 memLink0 getSRespMem false dirIS = Ret (true, st')
    ∧ directory st' !! 0 = Some (mkDirEntry 0 St.S None ["A"] true false)
    ∧ outgoing st' ≡ₚ [(11, resp)] ∧ getCmd resp = GetSResp ∧ getDst resp = "A".
Proof.
  destruct (handleGetSResp_answers_the_read params0 cpuLink0 memLink0 getSRespMem false
              (mkDirEntry 0 St.IS None [] true false) (request 1 GetS "A" 0) dirIS)
    as (st' & resp & E & Hd & Ho & Hc & Hdst & _).
  - reflexivity.
  - by left.
  - reflexivity.
  - reflexivity.
  - exists st', resp. split; [exact E|]. rewrite Hd. split_and!; done.
Defined.

Lemma handleGetXResp_exclusive_data_witness :
  (∃ st', handleGetXResp params0 cpuLink0 memLink0 getXRespMem false dirIM = Ret (true, st')
     ∧ directory st' !! 0 = Some (mkDirEntry 0 St.M (Some "A") [] true false))
  ∧ ∃ st', handleGetXResp params0 cpuLink0 memLink0 getXRespMem false dirSM = Ret (true, st')
      ∧ directory st' !! 0 = Some (mkDirEntry 0 St.S_Inv None ["B"] true false)
      ∧ outgoing st' = [].
Proof.
  split.
  - destruct (handleGetXResp_exclusive_data params0 cpuLink0 memLink0 getXRespMem false
                (mkDirEntry 0 St.IM None [] true false) dirIM eq_refl) as [HIM _].
    destruct (HIM (request 1 GetX "A" 0)) as (st' & resp & E & Hd & _); [reflexivity..|].
    exists st'. split; [exact E|]. rewrite Hd. reflexivity.
  - destruct (handleGetXResp_exclusive_data params0 cpuLink0 memLink0 getXRespMem false
                (mkDirEntry 0 St.SM_Inv None ["B"] true false) dirSM eq_refl) as [_ HSM].
    eexists. split; [exact (HSM eq_refl)|]. split; reflexivity.
Defined.

Lemma handleWriteResp_completes_the_write_witness :
  ∃ st' resp,
    Handler.handleWriteResp params0 cpuLink0 memLink0 writeRespMem false dirIMw = Ret (true, st')
    ∧ directory st' !! 0 = Some (mkDirEntry 0 St.I None [] true false)
    ∧ outgoing st' ≡ₚ [(11, resp)] ∧ getCmd resp = WriteResp ∧ getDst resp = "C".
Proof.
  destruct (handleWriteResp_completes_the_write params0 cpuLink0 memLink0 writeRespMem false
              (mkDirEntry 0 St.IM None [] true false) (request 1 Write "C" 0) dirIMw)
    as (st' & resp & E & Hd & Ho & Hc & Hdst & _); [reflexivity..|].
  exists st', resp. split; [exact E|]. rewrite Hd. split_and!; done.
Defined.

Lemma handleFlushLineResp_completes_the_flush_witness :
  ∃ st' resp,
    Handler.handleFlushLineResp params0 cpuLink0 memLink0 flushRespMem false dirIB
      = Ret (true, st')
    ∧ directory st' !! 0 = Some (mkDirEntry 0 St.I None [] true false)
    ∧ outgoing st' ≡ₚ [(11, resp)]
    ∧ getCmd resp = FlushLineResp ∧ getDst resp = "A" ∧ getFlags resp = [F_NORESPONSE].
Proof.
  pose proof (handleFlushLineResp_completes_the_flush params0 cpuLink0 memLink0 flushRespMem
                false (mkDirEntry 0 St.I_B None [] true false) (request 1 FlushLine "A" 0)
                dirIB eq_refl eq_refl eq_refl) as Hflush.
  destruct Hflush as (st' & resp & E & Hd & Ho & Hc & Hdst & Hfl & _).
  exists st', resp. split; [exact E|]. rewrite Hd. split_and!; done.
Defined.

Lemma handleFetchResp_takes_the_data_witness :
  ∃ st' wb,
    Handler.handleFetchResp params0 cpuLink0 memLink0 (fromA 7 FetchResp true) false dirMInv
      = Ret (true, st')
    ∧ directory st' !! 0 = Some (mkDirEntry 0 St.I (Some "A") [] true false)
    ∧ responses st' = ∅
    ∧ retryBuffer st' = [Some (request 1 GetX "B" 0)]
    ∧ outgoing st' ≡ₚ [(11, wb)] ∧ getCmd wb = PutM ∧ getDst wb = "mem"
    ∧ getPayload wb = [Byte.x2a].
Proof.
  destruct (handleFetchResp_takes_the_data params0 cpuLink0 memLink0 (fromA 7 FetchResp true)
              false (mkDirEntry 0 St.M_Inv (Some "A") [] true false) {[ "A" := (100, 0) ]}
              dirMInv)
    as (st' & E & Hd & Hr & Hrb & wb & Ho & Hc & _ & _ & Hdst & Hp & _).
  - reflexivity.
  - by right.
  - reflexivity.
  - discriminate.
  - exists st', wb. split; [exact E|]. rewrite Hd, Hr, Hrb, Hp.
    split_and!; done.
Defined.

Lemma handleFetchXResp_downgrades_the_owner_witness :
  ∃ st',
    Handler.handleFetchXResp (fromA 7 FetchXResp true) false dirMInvX = Ret (true, st')
    ∧ directory st' !! 0 = Some (mkDirEntry 0 St.S None ["A"] true false)
    ∧ retryBuffer st' = [Some (request 1 GetS "B" 0)]
    ∧ outgoing st' = [].
Proof.
  pose proof (handleFetchXResp_downgrades_the_owner (fromA 7 FetchXResp true) false
                (mkDirEntry 0 St.M_InvX (Some "A") [] true false) {[ "A" := (100, 0) ]}
                dirMInvX eq_refl eq_refl) as Hx.
  destruct Hx as (st' & E & Hd & _ & _ & Hrb & Hout).
  exists st'. split; [exact E|]. rewrite Hd, Hrb, Hout.
  split_and!; done.
Defined.

Lemma cache_wf_no_handles (d : Dir SpecMSHR) :
  entryCache d = [] → entryCacheSize d = 0 →
  map_Forall (λ x e, getEntryBaseAddr e = x ∧ cacheIter e = false) (directory d) →
  cache_wf d.
Proof.
  intros Hc Hs Hall. unfold cache_wf. rewrite Hc, Hs. split_and!.
  - constructor.
  - reflexivity.
  - intros x Hx. by apply elem_of_nil in Hx.
  - intros x e Hl. destruct (Hall x e Hl) as [Hb Hi]. split; [done|].
    intros Ht. congruence.
Qed.

Lemma owner_put_returns_the_line_witness :
  ∃ st' ack wb,
    Handler.handlePutM params0 cpuLink0 memLink0 (fromA 5 PutM true) false dirM = Ret (true, st')
    ∧ directory st' = ∅
    ∧ outgoing st' ≡ₚ [(13, ack); (13, wb)]
    ∧ getCmd ack = AckPut ∧ getDst ack = "A"
    ∧ getCmd wb = PutM ∧ getDst wb = "mem" ∧ getPayload wb = [Byte.x2a].
Proof.
  destruct (owner_put_returns_the_line params0 cpuLink0 memLink0 true (fromA 5 PutM true)
              false (mkDirEntry 0 St.M (Some "A") [] true false) dirM)
    as (st' & ack & E & Hd & _ & _ & Hc & Hdst & _ & (wb & Ho & Hwc & _ & _ & Hwd & Hwp & _) & _).
  - reflexivity.
  - reflexivity.
  - reflexivity.
  - reflexivity.
  - reflexivity.
  - discriminate.
  - reflexivity.
  - apply cache_wf_no_handles; [reflexivity..|].
    apply (bool_decide_unpack _). vm_compute. exact I.
  - reflexivity.
  - exists st', ack, wb. split; [exact E|]. rewrite Hd.
    split_and!; done.
Defined.

Lemma handlePutS_drops_the_sharer_witness :
  ∃ st',
    Handler.handlePutS params0 cpuLink0 memLink0 (request 5 PutS "A" 0) false dirS
      = Ret (true, st')
    ∧ directory st' !! 0 = Some (mkDirEntry 0 St.S None ["B"] true true)
    ∧ hd_error (entryCache st') = Some 0.
Proof.
  destruct (handlePutS_drops_the_sharer params0 cpuLink0 memLink0 (request 5 PutS "A" 0)
              false entryS dirS)
    as (st' & ack & wbs & E & _ & _ & _ & _ & _ & _ & Hkept & _).
  - reflexivity.
  - reflexivity.
  - reflexivity.
  - reflexivity.
  - reflexivity.
  - reflexivity.
  - apply cache_wf_no_handles; [reflexivity..|].
    apply (bool_decide_unpack _). vm_compute. exact I.
  - reflexivity.
  - exists st'. split; [exact E|].
    rewrite decide_False in Hkept by discriminate.
    destruct Hkept as [Hl Hhd]. split; [exact Hl|exact Hhd].
Defined.

Lemma handlePutX_downgrades_the_owner_witness :
  ∃ st' ack,
    Handler.handlePutX params0 cpuLink0 memLink0 (fromA 5 PutX false) false dirM
      = Ret (true, st')
    ∧ directory st' !! 0 = Some (mkDirEntry 0 St.S None ["A"] true true)
    ∧ getCmd ack = AckPut ∧ getDst ack = "A".
Proof.
  destruct (handlePutX_downgrades_the_owner params0 cpuLink0 memLink0 (fromA 5 PutX false)
              false (mkDirEntry 0 St.M (Some "A") [] true false) dirM)
    as (st' & ack & wbs & E & _ & Hl & _ & Hc & Hdst & _).
  - reflexivity.
  - reflexivity.
  - reflexivity.
  - reflexivity.
  - reflexivity.
  - discriminate.
  - reflexivity.
  - apply cache_wf_no_handles; [reflexivity..|].
    apply (bool_decide_unpack _). vm_compute. exact I.
  - reflexivity.
  - exists st', ack. split; [exact E|]. split; [exact Hl|]. split; [exact Hc|exact Hdst].
Defined.

Lemma owner_put_during_fetch_witness :
  ∃ st' ack,
    Handler.handlePutM params0 cpuLink0 memLink0 (fromA 5 PutM true) false dirMInv
      = Ret (true, st')
    ∧ directory st' !! 0 = Some (mkDirEntry 0 St.I None [] true false)
    ∧ responses st' = ∅
    ∧ outgoing st' ≡ₚ [(13, ack)] ∧ getCmd ack = AckPut.
Proof.
  destruct (owner_put_during_fetch params0 cpuLink0 memLink0 true (fromA 5 PutM true) false
              (mkDirEntry 0 St.M_Inv (Some "A") [] true false) {[ "A" := (100, 0) ]} dirMInv)
    as (st' & ack & E & Hd & Ho & Hc & _ & _ & Hr & _).
  - reflexivity.
  - reflexivity.
  - by left.
  - reflexivity.
  - reflexivity.
  - exists st', ack. split; [exact E|]. rewrite Hd, Hr.
    split_and!; done.
Defined.

Lemma handleGetX_in_S_witness :
  (∃ st', Handler.handleGetX params0 cpuLink0 memLink0 (request 1 GetX "A" 0) false dirCidle
            = Ret (true, st')
     ∧ directory st' !! 0 = Some (mkDirEntry 0 St.M (Some "A") [] true false))
  ∧ ∃ st' invs,
      Handler.handleGetX params0 cpuLink0 memLink0 (request 1 GetX "A" 0) false dirS
        = Ret (true, st')
      ∧ directory st' !! 0 = Some (setState St.S_Inv entryS)
      ∧ getDst <$> invs = ["B"]
      ∧ outgoing st' ≡ₚ (λ m, (13, m)) <$> invs.
Proof.
  split.
  - destruct (handleGetX_in_S params0 cpuLink0 memLink0 (request 1 GetX "A" 0) false
                (entryC 0 false) dirCidle)
      as [Hup _]; [reflexivity..|].
    destruct Hup as (st' & resp & E & Hd & _); [reflexivity..|].
    exists st'. split; [exact E|]. rewrite Hd. reflexivity.
  - destruct (handleGetX_in_S params0 cpuLink0 memLink0 (request 1 GetX "A" 0) false
                entryS dirS)
      as [_ Hinv]; [reflexivity..|].
    destruct Hinv as (st' & invs & E & Hd & Hds & _ & Ho & _).
    + discriminate.
    + right. reflexivity.
    + intros s Hs Hne.
      apply elem_of_cons in Hs as [->|Hs]; [done|].
      apply elem_of_cons in Hs as [->|Hs]; [reflexivity|].
      by apply elem_of_nil in Hs.
    + discriminate.
    + exists st', invs. split; [exact E|]. rewrite Hd. split_and!.
      * reflexivity.
      * exact Hds.
      * rewrite Ho. simpl. by rewrite app_nil_r.
Defined.

Lemma exclusive_request_in_I_or_M_witness :
  (∃ st', Handler.handleWrite params0 cpuLink0 memLink0 (request 1 Write "C" 0) false dirI
            = Ret (true, st')
     ∧ directory st' !! 0 = Some (mkDirEntry 0 St.IM None [] true false)
     ∧ outgoing st' ≡ₚ [(13, setDst "mem" (setSrc "dir" (request 1 Write "C" 0)))])
  ∧ ∃ st' fetch,
      Handler.handleGetX params0 cpuLink0 memLink0 (request 1 GetX "B" 0) false dirM
        = Ret (true, st')
      ∧ directory st' !! 0 = Some (mkDirEntry 0 St.M_Inv (Some "A") [] true false)
      ∧ outgoing st' ≡ₚ [(13, fetch)] ∧ getCmd fetch = FetchInv ∧ getDst fetch = "A".
Proof.
  split.
  - destruct (exclusive_request_in_I_or_M params0 cpuLink0 memLink0 true
                (request 1 Write "C" 0) false (mkDirEntry 0 St.I None [] true false) dirI)
      as [HI _]; [reflexivity..|right; reflexivity|].
    destruct HI as (st' & E & Hd & Ho & _); [reflexivity|discriminate|].
    exists st'. split; [exact E|]. rewrite Hd. split; [reflexivity|exact Ho].
  - destruct (exclusive_request_in_I_or_M params0 cpuLink0 memLink0 false
                (request 1 GetX "B" 0) false (mkDirEntry 0 St.M (Some "A") [] true false) dirM)
      as [_ HM]; [reflexivity..|right; reflexivity|].
    destruct HM as (st' & fetch & E & Hd & Ho & Hc & Hdst & _); [reflexivity..|].
    exists st', fetch. split; [exact E|]. rewrite Hd. split_and!; done.
Defined.

Lemma request_behind_others_waits_or_is_nacked_witness :
  ∃ st' nack,
    Handler.handleGetX params0 cpuLink0 memLink0 (request 1 GetX "A" 0) false dirFull
      = Ret (true, st')
    ∧ directory st' = directory dirFull
    ∧ outgoing st' ≡ₚ [(13, nack)]
    ∧ getCmd nack = NACK ∧ getDst nack = "A"
    ∧ getNACKedEvent nack = Some (request 1 GetX "A" 0).
Proof.
  destruct (request_behind_others_waits_or_is_nacked params0 cpuLink0 memLink0
              (Handler.handleGetX params0 cpuLink0 memLink0) (request 1 GetX "A" 0)
              (mkDirEntry 0 St.I None [] true false) dirFull)
    as (st' & E & Hd & _ & _ & _ & Hn).
  - apply list_elem_of_further, list_elem_of_here.
  - reflexivity.
  - reflexivity.
  - reflexivity.
  - discriminate.
  - discriminate.
  - reflexivity.
  - rewrite decide_True in Hn by reflexivity.
    destruct Hn as (nack & Ho & Hc & Hdst & Hev).
    exists st', nack. split; [exact E|]. split_and!; done.
Defined.

(** ** Unexpected states, arrival and the request limit *)

Section EdgeFacts.
Context {T : Type} `{MSHR T}.
Variable P : Params.
Variables cpuLink memLink : MemLinkBase.
Implicit Type st : Dir T.
Implicit Type ev : MemEvent.
Implicit Type entry : DirEntry.

Local Abbreviation reachable s :=
  (isReachable cpuLink s || isReachable memLink s = true).

(** X19 (handleGetSResp, handleGetXResp, handleWriteResp,
    handleFlushLineResp, handleFetchResp, handleFetchXResp): each response
    handler is fatal when the line is in a state in which it expects no such
    response. *)
Theorem response_in_unexpected_state_is_fatal ev (inMSHR : bool) st :
  let s := getState (entry_view (getBaseAddr ev) st) in
  (s ∉ [St.IS; St.S_D] →
   Handler.handleGetSResp P cpuLink memLink ev inMSHR st = Fatal)
  ∧ (s ∉ [St.IS; St.S_D; St.IM; St.SM_Inv] →
     handleGetXResp P cpuLink memLink ev inMSHR st = Fatal)
  ∧ (s ≠ St.IM → Handler.handleWriteResp P cpuLink memLink ev inMSHR st = Fatal)
  ∧ (s ∉ [St.I; St.I_B; St.S_B] →
     Handler.handleFlushLineResp P cpuLink memLink ev inMSHR st = Fatal)
  ∧ (s ∉ [St.S_Inv; St.M_Inv] →
     Handler.handleFetchResp P cpuLink memLink ev inMSHR st = Fatal)
  ∧ (s ≠ St.M_InvX → Handler.handleFetchXResp ev inMSHR st = Fatal).
Proof.
  intros s.
  destruct (getDirEntry_spec (getBaseAddr ev) st) as (He & _).
  assert (∀ l : list State, s ∉ l → Forall (λ x, s ≠ x) l) as Hout.
  { intros l Hl. apply Forall_forall. intros x Hx ->. done. }
  split_and!.
  - intros Hs. apply Hout in Hs. unfold Handler.handleGetSResp.
    destruct (getDirEntry (getBaseAddr ev) st) as [e st0]. simpl in He. subst e. fold s.
    inversion Hs as [|? ? H1 Hs1]; subst. inversion Hs1 as [|? ? H2 _]; subst.
    by rewrite !bool_decide_eq_false_2.
  - intros Hs. apply Hout in Hs. unfold handleGetXResp.
    destruct (getDirEntry (getBaseAddr ev) st) as [e st0]. simpl in He. subst e. fold s.
    inversion Hs as [|? ? H1 Hs1]; subst. inversion Hs1 as [|? ? H2 Hs2]; subst.
    inversion Hs2 as [|? ? H3 Hs3]; subst. inversion Hs3 as [|? ? H4 _]; subst.
    by destruct s.
  - intros Hs. unfold Handler.handleWriteResp.
    destruct (getDirEntry (getBaseAddr ev) st) as [e st0]. simpl in He. subst e. fold s.
    by rewrite bool_decide_eq_false_2.
  - intros Hs. apply Hout in Hs. unfold Handler.handleFlushLineResp.
    destruct (getDirEntry (getBaseAddr ev) st) as [e st0]. simpl in He. subst e. fold s.
    inversion Hs as [|? ? H1 Hs1]; subst. inversion Hs1 as [|? ? H2 Hs2]; subst.
    inversion Hs2 as [|? ? H3 _]; subst.
    by destruct s.
  - intros Hs. apply Hout in Hs. unfold Handler.handleFetchResp.
    destruct (getDirEntry (getBaseAddr ev) st) as [e st0]. simpl in He. subst e. fold s.
    inversion Hs as [|? ? H1 Hs1]; subst. inversion Hs1 as [|? ? H2 _]; subst.
    by rewrite !bool_decide_eq_false_2.
  - intros Hs. unfold Handler.handleFetchXResp.
    destruct (getDirEntry (getBaseAddr ev) st) as [e st0]. simpl in He. subst e. fold s.
    by rewrite bool_decide_eq_false_2.
Qed.

(** X20 (handleFetchInv, handleForceInv): an invalidation from memory that
    meets a line with invalidations in flight (S_Inv, M_Inv, M_InvX, SM_Inv)
    changes nothing but the buffer: a new event is stored (first for SM_Inv,
    second otherwise) or, when rejected, returned in a NACK, and a replayed
    one is left where it is.  In IS or IM with a pending writeback the
    invalidation is dropped. *)
Theorem invalidation_during_transition_waits (force : bool) ev (inMSHR : bool) entry st :
  let handle := if force then handleForceInv P cpuLink memLink
                else handleFetchInv P cpuLink memLink in
  let a := getBaseAddr ev in
  let pos := if decide (getState entry = St.SM_Inv) then 0 else 1 in
  let r := insertEvent a ev pos true false (mshr st) in
  directory st !! a = Some entry → isCached entry = true →
  (getState entry ∈ [St.S_Inv; St.M_Inv; St.M_InvX; St.SM_Inv] →
   (inMSHR = true → handle ev inMSHR st = Ret (true, st))
   ∧ (inMSHR = false → r.1 ≠ -1 → handle ev inMSHR st = Ret (true, set_mshr r.2 st))
   ∧ (inMSHR = false → r.1 = -1 → reachable (getSrc ev) →
      ∃ st' nack,
        handle ev inMSHR st = Ret (true, st')
        ∧ outgoing st' ≡ₚ (u64 (timestamp st + accessLatency P), nack) :: outgoing st
        ∧ getCmd nack = NACK ∧ getDst nack = getSrc ev ∧ getNACKedEvent nack = Some ev
        ∧ directory st' = directory st ∧ retryBuffer st' = retryBuffer st))
  ∧ (getState entry ∈ [St.IS; St.IM] → pendingWriteback a (mshr st) = true →
     handle ev inMSHR st = Ret (true, cleanUpAfterRequest ev inMSHR st)).
Proof.
  intros handle a pos r Hlook Hcached.
  assert (∀ res,
            (do '(status, st1) <- Ret (alloc_unless_inMSHR ev inMSHR true pos st);
             do st2 <- (if decide (status = Reject)
                        then sendNACK P cpuLink memLink ev st1 else Ret st1);
             Ret (true, st2)) = res →
            getState entry ∈ [St.S_Inv; St.M_Inv; St.M_InvX; St.SM_Inv] →
            handle ev inMSHR st = res) as Hshape.
  { intros res <- Hs. unfold handle, pos.
    destruct force; [unfold handleForceInv|unfold handleFetchInv]; fold a;
      rewrite (getDirEntry_present a st entry Hlook), Hcached; simpl;
      repeat (apply elem_of_cons in Hs as [->|Hs]; [done|]);
      by apply elem_of_nil in Hs. }
  split.
  - intros Hs. split_and!.
    + intros ->. apply Hshape; [|done]. simpl. reflexivity.
    + intros -> Hok. apply Hshape; [|done]. simpl.
      unfold alloc_unless_inMSHR, allocateMSHR. fold a r.
      destruct r as [p m]. simpl in *. rewrite decide_False by done.
      case_decide; simpl; done.
    + intros -> Hrej Hreach.
      destruct (forwardByDestination_sent cpuLink memLink
                  (makeNACKResponse (nextEventID st, rank P) ev)
                  (u64 (timestamp st + accessLatency P)) false
                  (set_nextEventID (nextEventID st + 1) (set_mshr r.2 st)))
        as (st' & Efwd & Ho & _ & _ & Hs'); [done|].
      destruct Hs' as (_ & Hd & _ & _ & _ & Hrb & _). simpl in *.
      exists st', (makeNACKResponse (nextEventID st, rank P) ev).
      split; [|split_and!; done].
      apply Hshape; [|done]. simpl.
      unfold alloc_unless_inMSHR, allocateMSHR. fold a r.
      destruct r as [p m]. simpl in *. rewrite decide_True by done. simpl.
      unfold sendNACK. simpl. by rewrite Efwd.
  - intros Hs Hpw. unfold handle.
    destruct force; [unfold handleForceInv|unfold handleFetchInv]; fold a;
      rewrite (getDirEntry_present a st entry Hlook), Hcached; simpl;
      repeat (apply elem_of_cons in Hs as [->|Hs]; [by rewrite Hpw|]);
      by apply elem_of_nil in Hs.
Qed.

End EdgeFacts.

Section ArrivalFacts.
Context {T : Type} `{MSHR T}.
Variable P : Params.
Variables cpuLink memLink : MemLinkBase.
Variable isCacheType : Command → bool.
Variable isBasicRequest : Command → bool.
Variable others : OtherHandlers T.
Implicit Type st : Dir T.
Implicit Type ev : MemEvent.
Implicit Type c : Component T.

(** X21 (handlePacket, turnClockOn, handleNoncacheableRequest): an arriving
    coherence event is appended to the event buffer and wakes the clock; an
    arriving non-cacheable request is not buffered but forwarded by address
    under the directory's name, and leaves at the first cycle after the
    arrival.  Waking sets the clock to the cycle before the next one, so that
    this first cycle is the next cycle. *)
Theorem handlePacket_arrival (nextCycle : Z) ev c :
  let arrive := handlePacket P cpuLink memLink isCacheType isBasicRequest nextCycle ev c in
  let woken := if clockOn c then timestamp (dir c) else u64 (nextCycle - 1) in
  let due_at := u64 (woken + 1) in
  (isCacheType (getCmd ev) = true → queryFlag ev F_NONCACHEABLE = false →
   ∃ c', arrive = Ret c'
     ∧ eventBuffer c' = eventBuffer c ++ [ev]
     ∧ clockOn c' = true
     ∧ dir c' = set_timestamp woken (dir c)
     ∧ addrsThisCycle c' = addrsThisCycle c)
  ∧ (negb (isCacheType (getCmd ev)) || queryFlag ev F_NONCACHEABLE = true →
     isBasicRequest (getCmd ev) = true →
     route cpuLink memLink (getRoutingAddress ev) ≠ "" →
     queue_sorted (cpuMsgQueue (dir c)) → queue_sorted (memMsgQueue (dir c)) →
     ∃ c', arrive = Ret c'
       ∧ eventBuffer c' = eventBuffer c
       ∧ clockOn c' = true
       ∧ timestamp (dir c') = woken
       ∧ directory (dir c') = directory (dir c)
       ∧ (∀ now,
            (now < due_at → sent_at now (dir c') = sent_at now (dir c))
            ∧ (due_at ≤ now →
               sent_at now (dir c') ≡ₚ
                 setDst (route cpuLink memLink (getRoutingAddress ev))
                   (setSrc (getName P) ev) :: sent_at now (dir c))))
  ∧ (clockOn c = false → 0 < nextCycle < 2 ^ 64 → due_at = nextCycle).
Proof.
  intros arrive woken due_at.
  set (c0 := if negb (clockOn c) then turnClockOn nextCycle c else c).
  assert (dir c0 = set_timestamp woken (dir c) ∧ eventBuffer c0 = eventBuffer c
          ∧ clockOn c0 = true ∧ addrsThisCycle c0 = addrsThisCycle c)
    as (Hd0 & Heb0 & Hon0 & Ha0).
  { unfold c0, woken. destruct (clockOn c) eqn:Eon; simpl; [|done].
    split_and!; try done. by destruct (dir c). }
  split; [|split].
  - intros Hcache Hflag. unfold arrive, handlePacket. fold c0.
    rewrite Hcache, Hflag. simpl. eexists. split; [reflexivity|]. simpl.
    rewrite Heb0, Hon0, Hd0, Ha0. done.
  - intros Hnc Hreq Hroute Hcs Hms. unfold arrive, handlePacket. fold c0.
    rewrite Hnc, Hreq.
    unfold handleNoncacheableRequest.
    set (st1 := if negb (queryFlag ev F_NORESPONSE) then _ else dir c0).
    assert (timestamp st1 = woken ∧ cpuMsgQueue st1 = cpuMsgQueue (dir c)
            ∧ memMsgQueue st1 = memMsgQueue (dir c) ∧ directory st1 = directory (dir c))
      as (Hts1 & Hcq1 & Hmq1 & Hdir1).
    { unfold st1. rewrite Hd0. by destruct (negb (queryFlag ev F_NORESPONSE)). }
    rewrite Hts1. fold due_at.
    destruct (forwardByAddress_sent cpuLink memLink (setSrc (getName P) ev) due_at false st1)
      as (st2 & Efwd & _ & _ & _ & Hs2); [done|].
    rewrite Efwd. simpl. eexists. split; [reflexivity|]. simpl.
    destruct Hs2 as (Hts2 & Hd2 & _).
    rewrite Heb0, Hon0, Hts2, Hts1, Hd2, Hdir1. split_and!; try done.
    destruct (queued_sent_at due_at
                (setDst (route cpuLink memLink (getRoutingAddress ev)) (setSrc (getName P) ev))
                false st1 st2) as (_ & _ & Hsent).
    { by rewrite Hcq1. }
    { by rewrite Hmq1. }
    { change (getRoutingAddress ev) with (getRoutingAddress (setSrc (getName P) ev)).
      by apply (forwardByAddress_queued cpuLink memLink). }
    assert (∀ now, sent_at now st1 = sent_at now (dir c)) as Hsame.
    { intros now. unfold sent_at, sendOutgoingEvents. simpl. rewrite Hcq1.
      destruct (due now (cpuMsgQueue (dir c))) as [toCpu cq]. simpl. rewrite Hmq1.
      by destruct (due now (memMsgQueue (dir c))). }
    intros now. rewrite <- Hsame. apply Hsent.
  - intros Hoff Hrange. unfold due_at, woken. rewrite Hoff.
    rewrite (u64_small (nextCycle - 1)) by lia. rewrite u64_small by lia. lia.
Qed.

Lemma limit_not_reached (n : Z) :
  0 < maxRequestsPerCycle P → n ≤ maxRequestsPerCycle P →
  limit_reached P n = false → n < maxRequestsPerCycle P.
Proof.
  unfold limit_reached. intros Hpos Hle Hlim.
  rewrite bool_decide_eq_false_2 in Hlim by lia. simpl in Hlim.
  apply bool_decide_eq_false_1 in Hlim. lia.
Qed.

Lemma retry_loop_limit fuel i n c consumed :
  0 < maxRequestsPerCycle P →
  Z.of_nat (length consumed) = n → n ≤ maxRequestsPerCycle P →
  Z.of_nat (length (retry_loop P cpuLink memLink others fuel i n c consumed).1)
    ≤ maxRequestsPerCycle P
  ∧ ∀ n' c', (retry_loop P cpuLink memLink others fuel i n c consumed).2 = Ret (n', c') →
             Z.of_nat (length (retry_loop P cpuLink memLink others fuel i n c consumed).1) = n'.
Proof.
  intros Hpos. revert i n c consumed.
  induction fuel as [|fuel IH]; intros i n c consumed Hlen Hle; simpl.
  { split; [lia|done]. }
  destruct (retryBuffer (dir c) !! i) as [p|];
    [|split; [simpl; lia|simpl; intros ? ? E; by injection E as <- _]].
  destruct (limit_reached P n) eqn:Hlim;
    [split; [simpl; lia|simpl; intros ? ? E; by injection E as <- _]|].
  pose proof (limit_not_reached n Hpos Hle Hlim) as Hlt.
  destruct p as [ev|]; [|split; [simpl; lia|done]].
  destruct (processPacket P cpuLink memLink others ev true c) as [[[] c2]| | |];
    try (split; [simpl; lia|done]).
  - apply IH; [|lia]. rewrite length_app. simpl. lia.
  - by apply IH.
Qed.

Lemma event_loop_limit todo kept n c consumed :
  0 < maxRequestsPerCycle P →
  Z.of_nat (length consumed) = n → n ≤ maxRequestsPerCycle P →
  Z.of_nat (length (event_loop P cpuLink memLink others todo kept n c consumed).1)
    ≤ maxRequestsPerCycle P.
Proof.
  intros Hpos. revert kept n c consumed.
  induction todo as [|ev rest IH]; intros kept n c consumed Hlen Hle; simpl; [lia|].
  destruct (limit_reached P n) eqn:Hlim; [simpl; lia|].
  pose proof (limit_not_reached n Hpos Hle Hlim) as Hlt.
  destruct (processPacket P cpuLink memLink others ev false c) as [[[] c2]| | |];
    try (simpl; lia).
  - apply IH; [|lia]. rewrite length_app. simpl. lia.
  - by apply IH.
Qed.

(** X22 (clock): with a positive limit, the events consumed in one clock
    cycle, retried and new ones together, are at most maxRequestsPerCycle. *)
Theorem clock_respects_request_limit (fuel : nat) (linksIdle : bool) (cycle : Z) c :
  0 < maxRequestsPerCycle P →
  Z.of_nat (length (clock P cpuLink memLink others fuel linksIdle cycle c).1)
    ≤ maxRequestsPerCycle P.
Proof.
  intros Hpos. unfold clock.
  destruct (sendOutgoingEvents (set_timestamp cycle (dir c))) as [sent st1].
  set (c1 := set_addrsThisCycle ∅ (set_dir st1 c)).
  destruct (retry_loop_limit fuel 0%nat 0 c1 [] Hpos eq_refl ltac:(lia)) as [Hle Hret].
  destruct (retry_loop P cpuLink memLink others fuel 0 0 c1 []) as [consumed r] eqn:Er.
  simpl in Hle, Hret.
  destruct r as [[n c2]| | |]; try done.
  specialize (Hret n c2 eq_refl).
  pose proof (event_loop_limit (eventBuffer c2) [] n c2 consumed Hpos Hret ltac:(lia)) as Hev.
  destruct (event_loop P cpuLink memLink others (eventBuffer c2) [] n c2 consumed)
    as [consumed' r'] eqn:Ee.
  simpl in Hev.
  destruct r' as [[n' c3]| | |]; try done.
  by destruct (_ && clockOn c3).
Qed.

End ArrivalFacts.

Lemma handlePacket_arrival_witness :
  ∃ c',
    handlePacket params0 cpuLink0 memLink0 isCacheType0 isBasicRequest0 12 writeNC asleep
      = Ret c'
    ∧ eventBuffer c' = [] ∧ clockOn c' = true
    ∧ sent_at 11 (dir c') = []
    ∧ sent_at 12 (dir c') ≡ₚ [setDst "mem" (setSrc "dir" writeNC)].
Proof.
  destruct (handlePacket_arrival params0 cpuLink0 memLink0 isCacheType0 isBasicRequest0
              12 writeNC asleep) as (_ & Hnc & _).
  destruct Hnc as (c' & E & Heb & Hon & _ & _ & Hsent).
  - reflexivity.
  - reflexivity.
  - discriminate.
  - constructor.
  - constructor.
  - exists c'. split; [exact E|]. split; [exact Heb|]. split; [exact Hon|]. split.
    + apply (Hsent 11). reflexivity.
    + apply (Hsent 12). discriminate.
Defined.

Lemma clock_respects_request_limit_witness :
  Z.of_nat (length (clock params1 cpuLink0 memLink0 others0 5 true 11 comp3).1) ≤ 1.
Proof.
  apply (clock_respects_request_limit params1 cpuLink0 memLink0 others0 5 true 11 comp3).
  reflexivity.
Defined.

Lemma invalidation_during_transition_waits_witness :
  ∃ st',
    handleFetchInv params0 cpuLink0 memLink0 fetchInvMem false dirSInv = Ret (true, st')
    ∧ directory st' = directory dirSInv ∧ outgoing st' = []
    ∧ entries (SpecMSHROps.line 0 (mshr st'))
      = [EventEntry (request 1 GetX "A" 0); EventEntry fetchInvMem].
Proof.
  destruct (invalidation_during_transition_waits params0 cpuLink0 memLink0 false fetchInvMem
              false (mkDirEntry 0 St.S_Inv None ["A"; "B"] true false) dirSInv)
    as [Hq _]; [reflexivity..|].
  destruct Hq as (_ & Hstall & _); [apply list_elem_of_here|].
  eexists. split; [apply Hstall; [reflexivity|discriminate]|].
  split_and!; reflexivity.
Defined.

(** ** Handlers leave other lines alone *)

#[global] Arguments Handler.drop_buffered_data : simpl never.
#[global] Arguments Handler.take_fetched_data : simpl never.
#[global] Arguments Handler.erase_response_if_any : simpl never.
#[global] Arguments issueInvalidations_from : simpl never.

Section FrameFacts.
Context {T : Type} `{MSHR T}.
Variable P : Params.
Variables cpuLink memLink : MemLinkBase.
Implicit Type st : Dir T.
Implicit Type ev : MemEvent.
Implicit Type entry : DirEntry.

Lemma keeps_refl a st : keeps a st st.
Proof. by unfold keeps. Qed.

Lemma keeps_trans a st1 st2 st3 : keeps a st1 st2 → keeps a st2 st3 → keeps a st1 st3.
Proof.
  unfold keeps. intros (Hd1 & ? & ? & ? & ?) (Hd2 & ? & ? & ? & ?).
  split_and!; try congruence. intros x Hx. by rewrite Hd2, Hd1.
Qed.

Lemma only_sent_keeps a st st' : only_sent st st' → keeps a st st'.
Proof.
  unfold only_sent, keeps. intros (? & Hd & ? & ? & _ & _ & ? & _).
  split_and!; try done. intros x _. by rewrite Hd.
Qed.

Lemma keeps_store a entry st : keeps a st (store a entry st).
Proof.
  unfold keeps. simpl. split_and!; try done. intros x Hx. by rewrite lookup_insert_ne.
Qed.

Lemma quiet_keeps f a st : quiet f → keeps a st (f st).
Proof.
  intros Hq. destruct (Hq st) as (Hd & ? & ? & ? & ?). unfold keeps.
  split_and!; try done. intros x _. by rewrite Hd.
Qed.

Lemma quiet_set_mshr (m : T) : quiet (T:=T) (set_mshr m).
Proof. by intros st. Qed.

Lemma quiet_push_retry p : quiet (T:=T) (push_retry (T := T) p).
Proof. by intros st. Qed.

Lemma quiet_set_responses r : quiet (T:=T) (set_responses (T := T) r).
Proof. by intros st. Qed.

Lemma quiet_set_nextEventID n : quiet (T:=T) (set_nextEventID (T := T) n).
Proof. by intros st. Qed.

Lemma quiet_record_response a key i : quiet (T:=T) (record_response (T := T) a key i).
Proof. intros st. unfold record_response. by destruct (responses st !! a). Qed.

Lemma quiet_retry_front_if_ready a : quiet (T:=T) (retry_front_if_ready a).
Proof.
  intros st. destruct (retry_front_if_ready_spec a st)
    as (? & ? & ? & ? & _ & _ & _ & _ & ? & _). done.
Qed.

Lemma quiet_cleanUpAfterRequest ev (inMSHR : bool) : quiet (T:=T) (cleanUpAfterRequest ev inMSHR).
Proof.
  intros st. unfold cleanUpAfterRequest.
  destruct (quiet_retry_front_if_ready (getBaseAddr ev)
              (if inMSHR
               then if bool_decide (getFrontType (getBaseAddr ev) (mshr st) = Some Event)
                    then set_mshr (removeFront (getBaseAddr ev) (mshr st)) st
                    else set_mshr (removeEntry (getBaseAddr ev) 1 (mshr st)) st
               else st)) as (-> & -> & -> & -> & ->).
  destruct inMSHR; [case_bool_decide|]; done.
Qed.

Lemma quiet_cleanUpAfterResponse ev (inMSHR : bool) : quiet (T:=T) (cleanUpAfterResponse ev inMSHR).
Proof.
  intros st. unfold cleanUpAfterResponse.
  destruct (quiet_retry_front_if_ready (getBaseAddr ev)
              (set_mshr (removeFront (getBaseAddr ev) (mshr st)) st))
    as (-> & -> & -> & -> & ->).
  done.
Qed.

Lemma quiet_if_done_keeps f a st st' : quiet_if_done f → f st = Ret st' → keeps a st st'.
Proof.
  intros Hq E. destruct (Hq st st' E) as (Hd & ? & ? & ? & ?). unfold keeps.
  split_and!; try done. intros x _. by rewrite Hd.
Qed.

Lemma quiet_bind (f : Dir T → Dir T) (g : Dir T → result (Dir T)) :
  quiet f → quiet_if_done g → quiet_if_done (T:=T) (λ st, g (f st)).
Proof.
  intros Hf Hg st st' E. destruct (Hg _ _ E) as (-> & -> & -> & -> & ->). apply Hf.
Qed.

Lemma quiet_forwardByDestination ev ts (da : bool) :
  quiet_if_done (T:=T) (forwardByDestination cpuLink memLink ev ts da).
Proof.
  intros st st'. unfold forwardByDestination.
  destruct (isReachable cpuLink (getDst ev)); [by intros [= <-]|].
  destruct (isReachable memLink (getDst ev)); [by intros [= <-]|done].
Qed.

Lemma quiet_forwardByAddress ev ts (da : bool) :
  quiet_if_done (T:=T) (forwardByAddress cpuLink memLink ev ts da).
Proof.
  intros st st'. unfold forwardByAddress.
  case_decide; [by intros [= <-]|]. case_decide; [by intros [= <-]|done].
Qed.

Lemma quiet_sendDataResponse ev entry data c fl :
  quiet_if_done (T:=T) (sendDataResponse P cpuLink memLink ev entry data c fl).
Proof.
  intros st st' E. unfold sendDataResponse in E. simpl in E.
  by destruct (quiet_forwardByDestination _ _ _ _ _ E) as (-> & -> & -> & -> & ->).
Qed.

Lemma quiet_sendResponse ev fl mf : quiet_if_done (T:=T) (sendResponse P cpuLink memLink ev fl mf).
Proof.
  intros st st' E. unfold sendResponse in E. simpl in E.
  by destruct (quiet_forwardByDestination _ _ _ _ _ E) as (-> & -> & -> & -> & ->).
Qed.

Lemma quiet_sendNACK ev : quiet_if_done (T:=T) (sendNACK P cpuLink memLink ev).
Proof.
  intros st st' E. unfold sendNACK in E. simpl in E.
  by destruct (quiet_forwardByDestination _ _ _ _ _ E) as (-> & -> & -> & -> & ->).
Qed.

Lemma quiet_sendAckInv ev : quiet_if_done (T:=T) (sendAckInv P cpuLink memLink ev).
Proof.
  intros st st' E. unfold sendAckInv in E. simpl in E.
  destruct (quiet_forwardByDestination _ _ _ _ _ E) as (-> & -> & -> & -> & ->).
  by destruct (hasData (getBaseAddr ev) (mshr st)).
Qed.

Lemma quiet_sendFetchResponse ev : quiet_if_done (T:=T) (sendFetchResponse P cpuLink memLink ev).
Proof.
  intros st st' E. unfold sendFetchResponse in E. simpl in E.
  by destruct (quiet_forwardByDestination _ _ _ _ _ E) as (-> & -> & -> & -> & ->).
Qed.

Lemma quiet_issueMemoryRequest ev entry (lg : bool) :
  quiet_if_done (T:=T) (issueMemoryRequest P cpuLink memLink ev entry lg).
Proof.
  intros st st'. unfold issueMemoryRequest.
  destruct (forwardByAddress _ _ _ _ _ st) as [st1| | |] eqn:E; simpl; try done.
  intros [= <-]. simpl.
  by destruct (quiet_forwardByAddress _ _ _ _ _ E) as (-> & -> & -> & -> & ->).
Qed.

Lemma quiet_issueFetch ev entry c : quiet_if_done (T:=T) (issueFetch P cpuLink memLink ev entry c).
Proof.
  intros st st' E. unfold issueFetch in E. simpl in E.
  destruct (quiet_forwardByDestination _ _ _ _ _ E) as (-> & -> & -> & -> & ->). simpl.
  apply (quiet_record_response _ _ _ (set_nextEventID (nextEventID st + 1) st)).
Qed.

Lemma quiet_issueInvalidation d evp entry c :
  quiet_if_done (T:=T) (issueInvalidation P cpuLink memLink d evp entry c).
Proof.
  intros st st' E. unfold issueInvalidation in E. simpl in E.
  destruct (quiet_forwardByDestination _ _ _ _ _ E) as (-> & -> & -> & -> & ->).
  apply (quiet_record_response _ _ _
           (set_mshr (incrementAcksNeeded (getEntryBaseAddr entry) (mshr st))
              (set_nextEventID (nextEventID st + 1) st))).
Qed.

Lemma quiet_issueInvalidations_from l ev entry c :
  quiet_if_done (T:=T) (issueInvalidations_from P cpuLink memLink l ev entry c).
Proof.
  induction l as [|s l IH]; intros st st'; simpl.
  - by intros [= <-].
  - unfold issueInvalidations_from; fold (issueInvalidations_from P cpuLink memLink l ev entry c).
    case_decide; [apply IH|].
    destruct (issueInvalidation P cpuLink memLink s (Some ev) entry c st) as [st1| | |] eqn:E;
      simpl; try done.
    intros E'. destruct (IH _ _ E') as (-> & -> & -> & -> & ->).
    by apply (quiet_issueInvalidation _ _ _ _ _ _ E).
Qed.

Lemma quiet_issueInvalidations ev entry c :
  quiet_if_done (T:=T) (issueInvalidations P cpuLink memLink ev entry c).
Proof. apply quiet_issueInvalidations_from. Qed.

Lemma quiet_writebackDataFromMSHR a :
  quiet_if_done (T:=T) (writebackDataFromMSHR P cpuLink memLink a).
Proof.
  intros st st' E. unfold writebackDataFromMSHR in E. simpl in E.
  destruct (quiet_forwardByAddress _ _ _ _ _ E) as (-> & -> & -> & -> & ->).
  by destruct (waitWBAck P).
Qed.

Lemma quiet_erase_response a s : quiet_if_done (T:=T) (erase_response (T := T) a s).
Proof.
  intros st st'. unfold erase_response.
  destruct (responses st !! a); [|done]. case_decide; by intros [= <-].
Qed.

Lemma quiet_take_fetched_data ev : quiet_if_done (T:=T) (Handler.take_fetched_data ev).
Proof.
  intros st st'. unfold Handler.take_fetched_data.
  destruct (decrementAcksNeeded (getBaseAddr ev) (mshr st)) as [b m].
  destruct (erase_response _ _ _) as [st1| | |] eqn:E; simpl; try done.
  intros [= <-]. simpl.
  by destruct (quiet_erase_response _ _ _ _ E) as (-> & -> & -> & -> & ->).
Qed.

Lemma quiet_drop_buffered_data a :
  quiet_if_done (T:=T) (Handler.drop_buffered_data P cpuLink memLink a).
Proof.
  intros st st'. unfold Handler.drop_buffered_data.
  destruct (hasData a (mshr st)); [|by intros [= <-]].
  destruct (getDataDirty a (mshr st)); simpl.
  - destruct (writebackDataFromMSHR _ _ _ _ st) as [st1| | |] eqn:E; simpl; try done.
    intros [= <-]. simpl.
    by destruct (quiet_writebackDataFromMSHR _ _ _ E) as (-> & -> & -> & -> & ->).
  - by intros [= <-].
Qed.

Lemma keeps_getDirEntry a st : keeps a st (getDirEntry a st).2.
Proof.
  destruct (getDirEntry_spec a st) as (_ & Hd & Hts & Hec & Hecs & _ & _ & _ & _ & _ & Hnc & _).
  unfold keeps. rewrite Hd, Hts, Hec, Hecs, Hnc. split_and!; try done.
  intros x Hx. by rewrite lookup_insert_ne.
Qed.

Lemma quiet_alloc ev (inMSHR fwd : bool) pos st :
  keeps (getBaseAddr ev) st (alloc_unless_inMSHR ev inMSHR fwd pos st).2.
Proof.
  unfold alloc_unless_inMSHR, allocateMSHR. destruct inMSHR; [apply keeps_refl|].
  destruct (insertEvent _ _ _ _ _ _) as [p m]. simpl.
  repeat case_decide; simpl; by apply quiet_keeps.
Qed.

Lemma keeps_retrieveDirEntry entry ev (inMSHR : bool) st b st' :
  retrieveDirEntry P entry ev inMSHR st = Ret (b, st') → keeps (getBaseAddr ev) st st'.
Proof.
  unfold retrieveDirEntry.
  change (if inMSHR then (OK, st) else allocateMSHR ev false pos_default st)
    with (alloc_unless_inMSHR ev inMSHR false pos_default st).
  pose proof (quiet_alloc ev inMSHR false pos_default st) as Ha.
  destruct (alloc_unless_inMSHR ev inMSHR false pos_default st) as [status st1].
  simpl in Ha.
  destruct status; [|by intros [= _ <-]|by intros [= _ <-]].
  destruct (getState entry); simpl; try done; intros [= _ <-]; try done;
    (eapply keeps_trans; [exact Ha|]);
    unfold keeps; simpl; (split_and!; try done);
    intros x Hx; by rewrite lookup_insert_ne.
Qed.


Lemma keeps_store_r a entry st s : keeps a st s → keeps a st (store a entry s).
Proof. intros K. eapply keeps_trans; [exact K|apply keeps_store]. Qed.

Lemma keeps_quiet_r f a st s : quiet f → keeps a st s → keeps a st (f s).
Proof. intros Hq K. eapply keeps_trans; [exact K|by apply quiet_keeps]. Qed.

Lemma keeps_step f a st s s' :
  quiet_if_done f → f s = Ret s' → keeps a st s → keeps a st s'.
Proof. intros Hq E K. eapply keeps_trans; [exact K|by eapply quiet_if_done_keeps]. Qed.

Lemma keeps_getDirEntry_r a st s e s' :
  getDirEntry a s = (e, s') → keeps a st s → keeps a st s'.
Proof.
  intros E K. eapply keeps_trans; [exact K|].
  pose proof (keeps_getDirEntry a s) as K'. by rewrite E in K'.
Qed.

Lemma keeps_alloc_r ev (inMSHR fwd : bool) pos st s status s' :
  alloc_unless_inMSHR ev inMSHR fwd pos s = (status, s') →
  keeps (getBaseAddr ev) st s → keeps (getBaseAddr ev) st s'.
Proof.
  intros E K. eapply keeps_trans; [exact K|].
  pose proof (quiet_alloc ev inMSHR fwd pos s) as K'. by rewrite E in K'.
Qed.

Lemma keeps_retrieveDirEntry_r entry ev (inMSHR : bool) st s b s' :
  retrieveDirEntry P entry ev inMSHR s = Ret (b, s') →
  keeps (getBaseAddr ev) st s → keeps (getBaseAddr ev) st s'.
Proof.
  intros E K. eapply keeps_trans; [exact K|]. by eapply keeps_retrieveDirEntry.
Qed.

Create HintDb quiet.

#[local] Hint Resolve quiet_set_mshr quiet_push_retry quiet_set_responses
  quiet_set_nextEventID quiet_record_response quiet_retry_front_if_ready
  quiet_cleanUpAfterRequest quiet_cleanUpAfterResponse : quiet.
#[local] Hint Resolve quiet_forwardByDestination quiet_forwardByAddress
  quiet_sendDataResponse quiet_sendResponse quiet_sendNACK quiet_sendAckInv
  quiet_sendFetchResponse quiet_issueMemoryRequest quiet_issueFetch
  quiet_issueInvalidation quiet_issueInvalidations quiet_writebackDataFromMSHR
  quiet_erase_response quiet_take_fetched_data quiet_drop_buffered_data : quiet.

(** Case analysis of a run [... = Ret _] down to the calls it is made of. *)
Ltac chew :=
  repeat match goal with
  | H : Fatal = Ret _ |- _ => discriminate H
  | H : Undefined = Ret _ |- _ => discriminate H
  | H : OutOfFuel = Ret _ |- _ => discriminate H
  | H : Ret _ = Ret _ |- _ => injection H as ?; subst
  | H : bind ?m _ = Ret _ |- _ =>
      let E := fresh "E" in destruct m eqn:E; simpl in H; try discriminate H
  | H : deref ?p = Ret _ |- _ => destruct p; simpl in H; try discriminate H
  | H : (let '(_, _) := ?e in _) = Ret _ |- _ =>
      let E := fresh "E" in destruct e eqn:E; simpl in H
  | H : (if ?c then _ else _) = Ret _ |- _ =>
      let E := fresh "E" in destruct c eqn:E; simpl in H
  | H : match ?s with _ => _ end = Ret _ |- _ =>
      let E := fresh "E" in destruct s eqn:E; simpl in H; try discriminate H
  end.

(** The frame of a run, from the frames of its calls. *)
Ltac frame :=
  repeat match goal with
  | |- keeps _ ?st ?st => apply keeps_refl
  | |- keeps _ _ (if ?c then _ else _) => destruct c
  | |- keeps _ _ (store _ _ _) => apply keeps_store_r
  | E : getDirEntry _ ?s = (_, ?s') |- keeps _ _ ?s' => apply (keeps_getDirEntry_r _ _ _ _ _ E)
  | E : alloc_unless_inMSHR _ _ _ _ ?s = (_, ?s') |- keeps _ _ ?s' =>
      apply (keeps_alloc_r _ _ _ _ _ _ _ _ E)
  | E : retrieveDirEntry _ _ _ _ ?s = Ret (_, ?s') |- keeps _ _ ?s' =>
      apply (keeps_retrieveDirEntry_r _ _ _ _ _ _ _ E)
  | E : ?f ?s = Ret ?s' |- keeps _ _ ?s' =>
      apply (keeps_step f _ _ s s'); [solve [auto with quiet]|exact E|]
  | |- keeps _ _ (?f ?s) => apply (keeps_quiet_r f); [solve [auto with quiet]|]
  end.

(** X23 (request, invalidation and response handlers): a handler that
    returns leaves the directory entry of every line but the event's own as
    it was, and does not touch the entry cache, the clock or the records of
    non-cacheable requests. *)
Theorem handlers_keep_other_lines
    (handle : MemEvent → bool → Dir T → result (bool * Dir T)) ev (inMSHR : bool) st b st' :
  handle ∈ [handleGetS P cpuLink memLink; Handler.handleGetX P cpuLink memLink;
            Handler.handleGetSX P cpuLink memLink; Handler.handleWrite P cpuLink memLink;
            handleFetchInv P cpuLink memLink; handleForceInv P cpuLink memLink;
            Handler.handleGetSResp P cpuLink memLink; handleGetXResp P cpuLink memLink;
            Handler.handleWriteResp P cpuLink memLink;
            Handler.handleFlushLineResp P cpuLink memLink;
            Handler.handleFetchResp P cpuLink memLink; Handler.handleFetchXResp;
            handleAckInv; handleAckPut; handleNACK P cpuLink memLink] →
  handle ev inMSHR st = Ret (b, st') →
  (∀ x, x ≠ getBaseAddr ev → directory st' !! x = directory st !! x)
  ∧ entryCache st' = entryCache st ∧ entryCacheSize st' = entryCacheSize st
  ∧ timestamp st' = timestamp st
  ∧ noncacheMemReqs st' = noncacheMemReqs st.
Proof.
  intros Hin Hrun. change (keeps (getBaseAddr ev) st st').
  repeat (apply elem_of_cons in Hin as [->|Hin]; [|]);
    [..|by apply elem_of_nil in Hin].
  - unfold handleGetS in Hrun. chew; frame.
  - unfold Handler.handleGetX in Hrun. chew; frame.
  - unfold Handler.handleGetSX, Handler.handleGetX in Hrun. chew; frame.
  - unfold Handler.handleWrite in Hrun. chew; frame.
  - unfold handleFetchInv, with_front in Hrun. chew; frame.
  - unfold handleForceInv, with_front in Hrun. chew; frame.
  - unfold Handler.handleGetSResp in Hrun. chew; frame.
  - unfold handleGetXResp in Hrun. chew; frame.
  - unfold Handler.handleWriteResp in Hrun. chew; frame.
  - unfold Handler.handleFlushLineResp in Hrun. chew; frame.
  - unfold Handler.handleFetchResp in Hrun. chew; frame.
  - unfold Handler.handleFetchXResp in Hrun. chew; frame.
  - unfold handleAckInv in Hrun. chew; frame.
  - unfold handleAckPut in Hrun. chew; frame.
  - unfold handleNACK in Hrun. chew; frame.
Qed.

End FrameFacts.

Lemma handlers_keep_other_lines_witness :
  ∃ st',
    handleFetchInv params0 cpuLink0 memLink0 fetchInvMem false dirCidle = Ret (true, st')
    ∧ directory st' !! 64 = directory dirCidle !! 64
    ∧ entryCache st' = [64; 128].
Proof.
  assert (∃ st', handleFetchInv params0 cpuLink0 memLink0 fetchInvMem false dirCidle
                 = Ret (true, st')) as [st' E].
  { let r := eval vm_compute in
           (handleFetchInv params0 cpuLink0 memLink0 fetchInvMem false dirCidle)
    in match r with
       | Ret (_, ?s) => exists s
       end.
    vm_compute. reflexivity. }
  destruct (handlers_keep_other_lines params0 cpuLink0 memLink0
              (handleFetchInv params0 cpuLink0 memLink0) fetchInvMem false dirCidle true st')
    as (Hd & Hec & _).
  - do 4 apply list_elem_of_further. apply list_elem_of_here.
  - exact E.
  - exists st'. split; [exact E|]. split; [apply Hd; discriminate|exact Hec].
Defined.

(** ** Buffered data and crossing messages *)

Section RaceFacts.
Context {T : Type} `{MSHR T}.
Variable P : Params.
Variables cpuLink memLink : MemLinkBase.
Implicit Type st : Dir T.
Implicit Type ev : MemEvent.
Implicit Type entry : DirEntry.

Local Abbreviation reachable s :=
  (isReachable cpuLink s || isReachable memLink s = true).

(** X24 (issueFlush): the flush forwarded to memory is the request under the
    directory's name; when dirty data are buffered for the line it carries
    them, marked dirty and as an eviction, and the buffer gives them up,
    otherwise it carries no payload and keeps the request's marks.  The line's
    first event is marked in progress. *)
Theorem issueFlush_carries_buffered_dirty_data ev st :
  let a := getBaseAddr ev in
  let dirty := hasData a (mshr st) && getDataDirty a (mshr st) in
  route cpuLink memLink (getRoutingAddress ev) ≠ "" →
  ∃ st' flush,
    issueFlush P cpuLink memLink ev st = Ret st'
    ∧ outgoing st' ≡ₚ (u64 (timestamp st + accessLatency P), flush) :: outgoing st
    ∧ getCmd flush = getCmd ev ∧ getBaseAddr flush = a
    ∧ getSrc flush = getName P
    ∧ getDst flush = route cpuLink memLink (getRoutingAddress ev)
    ∧ (if dirty
       then getPayload flush = getData a (mshr st)
            ∧ getDirty flush = true ∧ getEvict flush = true
       else getPayload flush = []
            ∧ getDirty flush = getDirty ev ∧ getEvict flush = getEvict ev)
    ∧ mshr st' = setInProgress a (if dirty then clearData a (mshr st) else mshr st)
    ∧ only_sent st st'.
Proof.
  intros a dirty Hroute. unfold issueFlush, cloneMemEvent. fold a dirty.
  set (r := (if dirty then _ else _)).
  assert (∃ flush st1, r = (flush, st1)
            ∧ getRoutingAddress flush = getRoutingAddress ev
            ∧ getCmd flush = getCmd ev ∧ getBaseAddr flush = a ∧ getSrc flush = getName P
            ∧ (if dirty
               then getPayload flush = getData a (mshr st)
                    ∧ getDirty flush = true ∧ getEvict flush = true
               else getPayload flush = []
                    ∧ getDirty flush = getDirty ev ∧ getEvict flush = getEvict ev)
            ∧ mshr st1 = (if dirty then clearData a (mshr st) else mshr st)
            ∧ outgoing st1 = outgoing st ∧ timestamp st1 = timestamp st
            ∧ only_sent st st1)
    as (flush & st1 & -> & Hra & Hc & Hba & Hsrc & Hp & Hm1 & Ho1 & Hts1 & Hs1).
  { unfold r. destruct dirty; eexists _, _; (split; [reflexivity|]);
      unfold only_sent; simpl; split_and!; done. }
  destruct (forwardByAddress_sent cpuLink memLink flush
              (u64 (timestamp st1 + accessLatency P)) false
              (set_mshr (setInProgress a (mshr st1)) st1))
    as (st' & Efwd & Ho & Hm & _ & Hs); [by rewrite Hra|].
  simpl in Efwd. simpl. rewrite Efwd.
  exists st', (setDst (route cpuLink memLink (getRoutingAddress ev)) flush).
  split; [reflexivity|]. rewrite Hra in Ho.
  change (outgoing (set_mshr _ st1)) with (outgoing st1) in Ho.
  rewrite Ho, Ho1, Hts1, Hm. simpl. rewrite Hm1.
  split_and!; try done.
  apply (only_sent_trans st st1 st'); [done|].
  unfold only_sent in *. simpl in Hs. exact Hs.
Qed.

Lemma store_same a entry st : directory st !! a = Some entry → store a entry st = st.
Proof. intros Hl. unfold store. rewrite insert_id by done. by destruct st. Qed.

Lemma setState_same entry : setState (getState entry) entry = entry.
Proof. by destruct entry. Qed.

(** X25 (handlePutS): a PutS that meets invalidations in flight (S_Inv,
    SD_Inv, SM_Inv) stands for the sender's acknowledgement: the sharer is
    removed, its expected response erased, and with the last acknowledgement
    the line moves on as for an AckInv (S_Inv to S or I, with the first event
    retried; SD_Inv to S_D or IS; SM_Inv to IM).  The sender gets an AckPut
    and the entry cache is left alone. *)
Theorem handlePutS_counts_as_ack ev (inMSHR : bool) entry st :
  let a := getBaseAddr ev in
  let src := getSrc ev in
  let t := u64 (timestamp st + accessLatency P) in
  let e0 := removeSharer src entry in
  let done := (decrementAcksNeeded a (mshr st)).1 in
  let m0 := (decrementAcksNeeded a (mshr st)).2 in
  let next :=
    if done then default (getState entry) (spec_AckInv_next (getState entry) (hasSharers e0))
    else getState entry in
  let retried := done && bool_decide (getState entry = St.S_Inv) in
  let m1 := after_request a inMSHR (if retried then setInProgress a m0 else m0) in
  directory st !! a = Some entry → isCached entry = true →
  getState entry ∈ [St.S_Inv; St.SD_Inv; St.SM_Inv] →
  reachable src →
  ∃ st' ack,
    Handler.handlePutS P cpuLink memLink ev inMSHR st = Ret (true, st')
    ∧ directory st' = <[a := setState next e0]> (directory st)
    ∧ outgoing st' ≡ₚ (t, ack) :: outgoing st
    ∧ getCmd ack = AckPut ∧ getDst ack = src ∧ getResponseToID ack = getID ev
    ∧ responses st' =
        (if bool_decide (is_Some (expected a src st))
         then without_response a src (responses st) else responses st)
    ∧ mshr st' = m1
    ∧ retryBuffer st' =
        retryBuffer st ++ (if retried then [getFrontEvent a m0] else []) ++ ready_front a m1
    ∧ entryCache st' = entryCache st ∧ entryCacheSize st' = entryCacheSize st.
Proof.
  intros a src t e0 done m0 next retried m1 Hlook Hcached Hstate Hreach.
  destruct (sendAckPut_spec P cpuLink memLink ev (store a e0 st) Hreach)
    as (st1 & Eack & Ho1 & Hm1 & Hid1 & Hs1).
  change (outgoing (store a e0 st)) with (outgoing st) in Ho1. simpl in Ho1, Hm1.
  destruct Hs1 as (Hts1 & Hd1 & Hec1 & Hecs1 & Hr1 & Hrb1 & _). simpl in *.
  set (R := if bool_decide (is_Some (expected a src st))
            then without_response a src (responses st) else responses st).
  assert (Handler.erase_response_if_any a src st1 = Ret (set_responses R st1)) as Eer.
  { rewrite erase_response_if_any_spec. unfold R, expected. by rewrite Hr1. }
  set (st2 := set_responses R st1).
  (* the switch *)
  set (st3 := if retried
              then set_mshr (setInProgress a m0) (push_retry (getFrontEvent a m0)
                                                    (set_mshr m0 st2))
              else set_mshr m0 st2).
  assert (Handler.handlePutS P cpuLink memLink ev inMSHR st =
            Ret (true, cleanUpAfterRequest ev inMSHR (store a (setState next e0) st3))) as Erun.
  { unfold Handler.handlePutS. fold a src.
    rewrite (getDirEntry_present a st entry Hlook), Hcached. simpl.
    fold e0. rewrite Eack. simpl. rewrite Eer. simpl. fold st2.
    change (mshr st2) with (mshr st1). rewrite Hm1.
    unfold st3, retried, next, done, m0.
    destruct (decrementAcksNeeded a (mshr st)) as [dn m]. simpl.
    repeat (apply elem_of_cons in Hstate as [Hs|Hstate];
            [rewrite Hs; destruct dn; simpl; rewrite <- ?Hs, ?setState_same; done|]).
    by apply elem_of_nil in Hstate. }
  destruct (cleanUpAfterRequest_spec' ev inMSHR (store a (setState next e0) st3))
    as (Hm4 & Hrb4 & Ho4 & Hd4 & Hr4 & Hec4 & Hecs4 & _).
  fold a in Hm4, Hrb4. simpl in Hm4, Hrb4, Hd4, Hr4, Hec4, Hecs4.
  change (outgoing (store a (setState next e0) st3)) with (outgoing st3) in Ho4.
  assert (mshr st3 = (if retried then setInProgress a m0 else m0)
          ∧ retryBuffer st3 = retryBuffer st ++ (if retried then [getFrontEvent a m0] else [])
          ∧ outgoing st3 = outgoing st1 ∧ directory st3 = directory st1
          ∧ responses st3 = R ∧ entryCache st3 = entryCache st1
          ∧ entryCacheSize st3 = entryCacheSize st1)
    as (Hm3 & Hrb3 & Ho3 & Hd3 & Hr3 & Hec3 & Hecs3).
  { unfold st3. destruct retried; simpl; rewrite Hrb1, ?app_nil_r; done. }
  exists (cleanUpAfterRequest ev inMSHR (store a (setState next e0) st3)),
         (makeResponseCmd (nextEventID st, rank P) AckPut ev).
  split; [exact Erun|].
  rewrite Hd4, Hd3, Hd1, insert_insert_eq, Ho4, Ho3, Ho1, Hr4, Hr3.
  rewrite Hm4, Hrb4, Hm3, Hrb3, Hec4, Hecs4, Hec3, Hecs3, <- app_assoc.
  split_and!; done.
Qed.

(** X26 (handleGetS): a read that finds clean data buffered for a cached line
    is answered from the buffer without asking memory.  In S the requester
    becomes one more sharer; a replayed read in I gets the line exclusively
    under MESI (GetXResp, owner, data dropped from the buffer) and shared
    otherwise.  A requester outside the coherence domain is not recorded. *)
Theorem handleGetS_hits_buffered_data ev (inMSHR : bool) entry st :
  let a := getBaseAddr ev in
  let src := getSrc ev in
  let m := mshr st in
  let t := u64 (timestamp st + mshrLatency P) in
  directory st !! a = Some entry → isCached entry = true →
  hasData a m = true → getDataDirty a m = false →
  reachable src →
  (getState entry = St.S →
   let e' := if isIncoherent P src then entry else addSharer src entry in
   let m1 := after_request a inMSHR m in
   ∃ st' resp,
     handleGetS P cpuLink memLink ev inMSHR st = Ret (true, st')
     ∧ directory st' = <[a := e']> (directory st)
     ∧ outgoing st' ≡ₚ (t, resp) :: outgoing st
     ∧ getCmd resp = GetSResp ∧ getDst resp = src
     ∧ getPayload resp = getData a m ∧ getResponseToID resp = getID ev
     ∧ mshr st' = m1
     ∧ retryBuffer st' = retryBuffer st ++ ready_front a m1)
  ∧ (getState entry = St.I → inMSHR = true →
     let exclusive := negb (isIncoherent P src) && bool_decide (protocol P = MESI) in
     let e' := if isIncoherent P src then entry
               else if decide (protocol P = MESI) then setOwner src (setState St.M entry)
                    else addSharer src (setState St.S entry) in
     let m1 := after_request a true (if exclusive then clearData a m else m) in
     ∃ st' resp,
       handleGetS P cpuLink memLink ev inMSHR st = Ret (true, st')
       ∧ directory st' = <[a := e']> (directory st)
       ∧ outgoing st' ≡ₚ (t, resp) :: outgoing st
       ∧ getCmd resp = (if exclusive then GetXResp else GetSResp) ∧ getDst resp = src
       ∧ getPayload resp = getData a m ∧ getResponseToID resp = getID ev
       ∧ mshr st' = m1
       ∧ retryBuffer st' = retryBuffer st ++ ready_front a m1).
Proof.
  intros a src m t Hlook Hcached Hdata Hclean Hreach. split.
  - intros Hstate e' m1.
    destruct (sendDataResponse_spec P cpuLink memLink ev e' (getData a m) GetSResp 0
                (store a e' st) Hreach)
      as (st1 & Esend & Ho1 & Hm1 & _ & Hs1).
    change (outgoing (store a e' st)) with (outgoing st) in Ho1. simpl in Ho1, Hm1.
    destruct Hs1 as (_ & Hd1 & _ & _ & _ & Hrb1 & _). simpl in *.
    destruct (cleanUpAfterRequest_spec' ev inMSHR st1)
      as (Hm2 & Hrb2 & Ho2 & Hd2 & _).
    fold a in Hm2, Hrb2.
    eexists (cleanUpAfterRequest ev inMSHR st1), _. split.
    { unfold handleGetS. fold a src.
      rewrite (getDirEntry_present a st entry Hlook), Hcached, Hstate. simpl.
      fold m. rewrite Hdata, Hclean. simpl. fold m. rewrite Hdata.
      assert ((if negb (isIncoherent P src) then addSharer src entry else entry) = e') as ->.
      { unfold e'. by destruct (isIncoherent P src). }
      rewrite Esend. simpl. reflexivity. }
    rewrite Hd2, Hd1, Ho2, Ho1, Hm2, Hrb2, Hm1, Hrb1. split_and!; done.
  - intros Hstate -> exclusive e' m1.
    set (c := if exclusive then GetXResp else GetSResp).
    destruct (sendDataResponse_spec P cpuLink memLink ev e' (getData a m) c 0
                (store a e' st) Hreach)
      as (st1 & Esend & Ho1 & Hm1 & _ & Hs1).
    change (outgoing (store a e' st)) with (outgoing st) in Ho1. simpl in Ho1, Hm1.
    destruct Hs1 as (_ & Hd1 & _ & _ & _ & Hrb1 & _). simpl in *.
    set (st2 := if exclusive then set_mshr (clearData a (mshr st1)) st1 else st1).
    assert (mshr st2 = (if exclusive then clearData a m else m)
            ∧ outgoing st2 = outgoing st1 ∧ directory st2 = directory st1
            ∧ retryBuffer st2 = retryBuffer st1) as (Hm2 & Ho2 & Hd2 & Hrb2).
    { unfold st2. destruct exclusive; simpl; rewrite ?Hm1; done. }
    destruct (cleanUpAfterRequest_spec' ev true st2)
      as (Hm3 & Hrb3 & Ho3 & Hd3 & _).
    fold a in Hm3, Hrb3.
    eexists (cleanUpAfterRequest ev true st2), _. split.
    { unfold handleGetS. fold a src.
      rewrite (getDirEntry_present a st entry Hlook), Hcached, Hstate. simpl.
      fold m. rewrite Hdata, Hclean. simpl. fold m. rewrite Hdata. simpl.
      unfold st2, c, exclusive, e' in *.
      destruct (isIncoherent P src); simpl in *.
      - rewrite (store_same a entry st Hlook) in Esend.
        rewrite Esend. simpl. reflexivity.
      - destruct (decide (protocol P = MESI)) as [Hp|Hp].
        + rewrite bool_decide_eq_true_2 in * by done.
          rewrite Esend. simpl. reflexivity.
        + rewrite bool_decide_eq_false_2 in * by done.
          rewrite Esend. simpl. reflexivity. }
    rewrite Hd3, Hd2, Hd1, Ho3, Ho2, Ho1, Hm3, Hrb3, Hm2, Hrb2, Hrb1.
    unfold c. split_and!; done.
Qed.

End RaceFacts.

Lemma issueFlush_carries_buffered_dirty_data_witness :
  ∃ st' flush,
    issueFlush params0 cpuLink0 memLink0 (request 1 FlushLine "A" 0) dirDirty = Ret st'
    ∧ outgoing st' ≡ₚ [(13, flush)]
    ∧ getCmd flush = FlushLine ∧ getDst flush = "mem"
    ∧ getPayload flush = [Byte.x2a] ∧ getDirty flush = true ∧ getEvict flush = true.
Proof.
  destruct (issueFlush_carries_buffered_dirty_data params0 cpuLink0 memLink0
              (request 1 FlushLine "A" 0) dirDirty)
    as (st' & flush & E & Ho & Hc & _ & _ & Hdst & (Hp & Hd & He) & _).
  - discriminate.
  - exists st', flush. split; [exact E|]. split_and!; done.
Defined.

Lemma handlePutS_counts_as_ack_witness :
  ∃ st',
    Handler.handlePutS params0 cpuLink0 memLink0 (request 5 PutS "B" 0) false dirLastAck
      = Ret (true, st')
    ∧ directory st' !! 0 = Some (mkDirEntry 0 St.I None [] true false)
    ∧ responses st' = ∅
    ∧ retryBuffer st' = [Some (request 1 GetX "C" 0)].
Proof.
  destruct (handlePutS_counts_as_ack params0 cpuLink0 memLink0 (request 5 PutS "B" 0) false
              (mkDirEntry 0 St.S_Inv None ["B"] true false) dirLastAck)
    as (st' & ack & E & Hd & _ & _ & _ & _ & Hr & _ & Hrb & _).
  - reflexivity.
  - reflexivity.
  - apply list_elem_of_here.
  - reflexivity.
  - exists st'. split; [exact E|]. rewrite Hd, Hr, Hrb. split_and!; reflexivity.
Defined.

Lemma handleGetS_hits_buffered_data_witness :
  ∃ st' resp,
    handleGetS params0 cpuLink0 memLink0 (request 2 GetS "B" 0) false dirSdata = Ret (true, st')
    ∧ directory st' !! 0 = Some (mkDirEntry 0 St.S None ["A"; "B"] true false)
    ∧ outgoing st' ≡ₚ [(11, resp)]
    ∧ getCmd resp = GetSResp ∧ getDst resp = "B" ∧ getPayload resp = [Byte.x2a].
Proof.
  destruct (handleGetS_hits_buffered_data params0 cpuLink0 memLink0 (request 2 GetS "B" 0)
              false (entryC 0 false) dirSdata) as [HS _]; [reflexivity..|].
  destruct (HS eq_refl) as (st' & resp & E & Hd & Ho & Hc & Hdst & Hp & _).
  exists st', resp. split; [exact E|]. rewrite Hd. split_and!; done.
Defined.
